(* ===== verification/_CoqProject ===== *)
-Q . S2P
Prelude.v
ErrorModel.v
Effects.v
MemoryModel.v
AllocatorModel.v
SystemAllocatorModel.v
SlabAllocatorModel.v
SlabAllocatorFacts.v
ValueAllocatorModel.v
TimingWheelModel.v
TimingWheelFacts.v
CacheEntryModel.v
CacheModel.v
LruSpec.v
CacheEntryFacts.v
CacheRep.v
CacheSteps.v
CacheSetFacts.v
CacheFacts.v
CacheTickFacts.v
ProgressFacts.v
CacheShardModel.v
CacheEngineModel.v
CacheEngineFacts.v
ConcurrentModel.v
ConcurrentFacts.v
ConcurrentRunFacts.v
BufferModel.v
ProtocolModel.v
ProtocolFacts.v
ResponseFacts.v
ConnectionModel.v
ConnectionFacts.v
ConnectionIOFacts.v
TextModel.v
NumberModel.v
FloatFacts.v
LoggerModel.v
ConfigModel.v
ConfigFacts.v
WorkerModel.v
WorkerFacts.v
WorkerInstallFacts.v
WorkerRunFacts.v
HandoffModel.v
ServerModel.v
ClientModel.v
ClientFacts.v
ServerFacts.v
SampleStates.v
EngineTheorems.v
ServerRunFacts.v
ServerStartFacts.v
ServerAcceptFacts.v
AllocatorTheorems.v
TimerTheorems.v
CacheTheorems.v
CacheTypeTheorems.v
ConcurrentTheorems.v
WorkerTheorems.v
HandoffTheorems.v
HandoffCallTheorems.v
ServerSystemFacts.v
ServerMainModel.v
ServerSupplyFacts.v
ServerMainFacts.v
ServerTheorems.v
LoopModel.v
LoopTheorems.v
ServerMainTheorems.v
BenchmarkModel.v
BenchmarkMainModel.v
BenchmarkFacts.v
BenchmarkBuildFacts.v
BenchmarkMainFacts.v
BenchmarkTheorems.v
BarrierTheorems.v
NetTheorems.v
ClientTheorems.v
ConfigTheorems.v
