(* ===== verification/Prelude.v ===== *)
(** * HighCache: a verification of the cache server

    HighCache is an in-memory cache server in C++20. A request travels through its
    parts from the outside in:

    - [server/main.cpp] reads the configuration, builds the engine and the server,
      waits for a signal and shuts down; [client/main.cpp] sends one request;
    - [net/cache_server.cpp] has an acceptor thread, which takes connections, deals
      them to worker threads in turn and ticks the engine once a second, and workers,
      each with a queue of sockets handed over, an epoll instance and a table of
      connections; [net/unique_fd.h] owns descriptors;

    - [net/connection.cpp] reads bytes from a non-blocking socket into a
      [net/buffer.cpp] buffer, cuts them into requests with
      [protocol/protocol_codec.cpp], runs each on the engine and queues the
      responses in an output buffer that it writes when the socket allows;
    - [cache/cache_engine.cpp] divides the capacity among shards and routes each key
      to one of them by hash; [cache/cache_shard.cpp] is a cache behind a mutex;
    - [cache/cache.cpp] is one LRU cache: an index from keys to entries, a recency
      list, a timing wheel ([timer/timing_wheel.cpp]) for the lifetimes, and counters;
    - [memory/slab_allocator.cpp] and [memory/value_allocator.cpp] give the entries
      the memory of their values, from slabs or from [operator new];
    - [config/config.cpp] and [logging/logger.cpp] set the server up;
    - [benchmark/benchmark.cpp], beside the server, loads it with a plan of requests
      over many connections and counts what comes back.

    ** How the code is modelled

    Every operation is an executable function [S -> outcome A * S] ([Effects]): it
    returns, throws, or reaches undefined behaviour. Failed assertions, dangling list
    iterators, accesses outside live memory, frees of what is not allocated and
    relocking a held mutex are undefined, so a specification in terms of [wp] and
    [post] excludes them all. Stack unwinding is explicit ([on_throw]): the
    destructors that run on the way out are part of the model.

    Integers are in [Z] at their C++ width, with [u64] and the like around every
    operation that can wrap. Memory ([MemoryModel]) is a set of blocks of bytes; the
    slab allocator's free list is threaded through the free blocks, as in the code,
    so writing a value over a free block would be seen to destroy it. Every point of
    the cache, the engine, the buffers, the codec and the connection that may
    allocate consumes an element of a schedule of faults and throws [std::bad_alloc]
    when that says so; theorems quantify over all schedules, and those of
    [ProgressFacts] say that without faults nothing is thrown. Each shard has a memory
    of its own, which is sound because no pointer is shared between shards.

    [std::hash<std::string_view>] is a parameter of the engine, about which nothing
    is assumed; neither about [inet_pton], of which the code uses whether it returns 1.
    A socket is a schedule of what the kernel will do: pieces of the stream, its end,
    errors, interruptions, and how much each [send] takes. So is the rest of the
    operating system ([Kernel] for a worker, [Os] for the server and the executables):
    which calls fail, which descriptors it gives, what the timer and [accept4] report.
    Closing a descriptor that is not open, or using one, is undefined. The descriptors
    the kernel gives are assumed not to be in use.

    Threads appear in four places. For the engine, [ConcurrentModel] lets any number
    of threads call it at once: a call locks the mutex of a shard, works on the shard in
    pieces cut at arbitrary accesses, unlocks it and goes on to the next; everywhere else
    a call on the engine is one step, which its linearizability justifies. The threads of
    the server run in rounds: a round goes from the return of [epoll_wait], with a batch
    of events, with [EINTR] or with another error (which ends the loop), to the next check
    of the stop flag ([CacheServer.worker_round], [CacheServer.acceptor_round]); the system
    is any order of rounds and calls, with the workers' [epoll_ctl] failing as a schedule
    says. [LoopModel] has the same loops over lists of what happens while they wait.
    Beside that,
    [HandoffModel] has a step for every access of [enqueue], [request_stop] and [run]
    to the state they share (the mutex, the flag, the queue and the wake-up counter),
    in all interleavings, with the flag read and written in one order; the executable
    calls are shown to be runs of it. Joining a thread that is in its loop lets it return from
    [epoll_wait] only if its wake-up event (for the acceptor, the stop event) is set, in a
    way that is a parameter; it then makes its last round. If the event is not set, or the
    thread is not to stop, [join] is modelled as never returning, which the theorems
    exclude. The threads of the load
    generator share only two barriers, on which [ExecutePlan] interleaves them; what each
    does between them is its own, so [Benchmark.run_threads] takes them one after the other.

    ** The files

    - [Prelude]: machine integers, bytes, sums over lists and maps, lists with unique
      keys, the [zsimp] tactic and the hint databases. [ErrorModel]: error codes and
      exceptions. [Effects]: outcomes, the monad, [wp]. [MemoryModel]: the heap.
    - [AllocatorModel]: the interface [ValueAllocator] as a class of operations, and
      its contract as the class [ValueAllocatorLaws], which the cache is verified
      against. [SystemAllocatorModel], [SlabAllocatorModel] with [SlabAllocatorFacts],
      and [ValueAllocatorModel] (virtual dispatch) implement both.
    - [TimingWheelModel], [TimingWheelFacts]: the wheel, and its abstraction to a list
      of countdowns.
    - [CacheEntryModel], [CacheModel]: the cache as written. [LruSpec]: what a cache
      should do, on a list of items in order of recency with the seconds each has left.
      [CacheEntryFacts], [CacheRep] (the representation invariant [cache_holds]),
      [CacheSteps], [CacheSetFacts], [CacheFacts], [CacheTickFacts]: the refinement.
      [ProgressFacts]: when operations return.
    - [CacheShardModel], [CacheEngineModel], [CacheEngineFacts]: shards and the engine.
      [ConcurrentModel], [ConcurrentFacts], [ConcurrentRunFacts]: threads that share it.
    - [BufferModel], [ProtocolModel], [ProtocolFacts], [ResponseFacts],
      [ConnectionModel], [ConnectionFacts], [ConnectionIOFacts]: the network side.
    - [WorkerModel] (modules [Kernel], [UniqueFd], [Worker]): the worker as written.
      [WorkerFacts] (the invariants [worker_sound] and [worker_ok]), [WorkerInstallFacts],
      [WorkerRunFacts]: what its operations keep. [HandoffModel]: the interleaving
      steps.
    - [ServerModel] (modules [Os], [CacheServer]): construction, acceptor, the rounds of
      the threads, start and stop. [ServerFacts] (the constructor), [ServerRunFacts] (the
      invariant [server_ok], a round of a worker, joining), [ServerStartFacts], [ServerAcceptFacts],
      [ServerSystemFacts] (the steps of the whole system, and destruction).
      [LoopModel]: [Worker::run] and [Impl::run_acceptor] as loops.
    - [ServerMainModel], [ServerSupplyFacts] (when nothing fails, the server comes
      up), [ServerMainFacts]: the server executable. [ClientModel], [ClientFacts]: the
      client.
    - [BenchmarkModel] (modules [Statistics], [RequestTracker], [ClientWorker],
      [Benchmark]): the threads of the load generator. [BenchmarkMainModel] (modules
      [CommandLine], [Workload], [Latency], [Run], [BenchmarkMain]): options, the workload,
      the phases of a run, the latency summary, the report and [main]; modules [Barrier],
      [ExecutePlan]: how its threads meet, as interleaving steps. [BenchmarkFacts] (the invariant that every
      operation is answered, pending or unsent), [BenchmarkBuildFacts] (construction,
      destruction, the division of the plan), [BenchmarkMainFacts].
    - [NumberModel] (module [Double], on the Standard Library's [SpecFloat]; module
      [Mt19937], [std::mt19937_64] as the standard defines it; the class [Random] with its
      [RandomLaws]), [FloatFacts] (when a rounded product gives the exact rank or count).
    - [TextModel] (string searches, [from_chars], decimal printing), [LoggerModel],
      [ConfigModel], [ConfigFacts]: start-up.
    - [SampleStates]: concrete states for the examples. [AllocatorTheorems],
      [TimerTheorems], [CacheTheorems], [CacheTypeTheorems], [EngineTheorems],
      [ConcurrentTheorems], [WorkerTheorems], [HandoffTheorems], [HandoffCallTheorems],
      [ServerTheorems], [LoopTheorems], [ServerMainTheorems], [NetTheorems],
      [ClientTheorems], [ConfigTheorems], [BenchmarkTheorems], [BarrierTheorems]: the results, each with an example that applies it.

    ** What is shown

    - Allocators: blocks are fresh, disjoint and inside live storage; live values keep
      their contents; releases cannot fail; the metrics balance at all times; the size
      class is the smallest that fits; destruction leaves nothing on the heap.
    - Timers fire on the tick that is the TTL in seconds rounded up, and no other.
    - The cache refines the abstract LRU cache: for SET, GET, DELETE and tick on every
      branch, for sequences of them under any faults, with exact lifetimes, minimal
      evictions, exact counters, and nothing left allocated when it is destroyed; its
      fields stay within their types and its list, map and wheel linked; and without
      faults every command is answered.
    - The engine does the same per shard, loses no capacity in the split, and its totals
      are exact. Shared by threads it is linearizable: the critical sections of any
      interleaving, in the order they end, are a sequential run with the same answers,
      hence a run of the abstract cache; the calls that visit all shards compute their
      answer from one visit to each in turn; and no call waits for ever. Destroying the
      engine frees every value and every slab.
    - The codec is canonical and round-trips; a prefix is incomplete, never wrong; a
      malformed header is found at once. Buffers are queues of bytes. A connection
      answers exactly the requests in its stream, in order, however the stream is cut,
      in bounded memory, and writes its output in order.
    - A worker loses no socket and closes none twice, keeps every connection registered
      for what it waits for (unless an allocation and [epoll_ctl] both fail in one batch,
      as an example shows), serves the requests of its peers, and closes all at its
      end. No wake-up is lost, and a stop request ends it within 15 steps, under every
      interleaving.
    - The server is constructed and started entirely or not at all; accepted sockets
      are dealt in turn, fairly; the timer ages every item by the seconds that passed;
      in every state a thread that is to stop has been woken, so [join] after
      [request_stop] returns, with every connection closed; sockets dealt to a worker after
      its [epoll_wait] failed stay queued (an example shows it), and there are none if it
      never fails; destruction closes exactly what was opened.
    - The server executable returns in every case with no descriptor open and nothing of
      the engine left on the heap, reports its configuration and, at the end, exactly what
      the engine that served holds; with a valid
      configuration and nothing failing it comes up. The client returns the response
      the engine gave, or an error, and leaks nothing.
    - A run of the load generator ends whatever the server and the network do, and
      unless an allocation fails it accounts for every operation exactly once and leaves
      no descriptor open; with an allocation failure an operation can vanish, which an
      example shows. Its threads meet at the barriers in every interleaving. The workload
      has the operations asked for, the percentiles computed in floating point are the
      exact ones, the CSV report reads back, and [main] returns in every case.
    - The configuration reader computes the meaning of its text, reports the first bad
      line, and accepts only numbers that the engine can be built with.

    ** Fuel

    Loops whose recursion is not structural take a number of rounds that is
    computed from the state and proved enough: [Cache.evict_rounds] one more than the
    recency list has nodes; [Connection.process_rounds] one more than there are readable
    bytes (a request has at least 32); [Connection.read_rounds] one more than the bytes
    and events still to arrive; [Connection.write_rounds] one more than the scheduled
    [send] calls, [Client.send_rounds] likewise; [Client.receive_rounds] one more than
    the calls of [recv] that can return something; [Config.read_lines] two more than the
    bytes of the text; [ClientWorker.fill_rounds] the operations still unsent, and its
    other loops as those of a connection. Running out would be undefined behaviour, which the theorems
    exclude.

    ** What is not modelled

    Of [benchmark/]: failures of the allocations of its main thread and of the creation
    of its threads; what [std::shuffle] and [std::uniform_int_distribution] do beyond what
    the standard promises is a parameter, with [RandomLaws] as hypothesis. Its theorems
    bound the options: at most 2^16 threads and 2^36 keys and requests of each kind, so that
    the products of the division and the queues fit 64 bits, and latencies whose sum does;
    percentiles are exact up to 2^40 latencies, and shares of GETs up to 2^53.

    Memory shared by threads is sequentially consistent, also where the code asks for
    less of an atomic flag. Alignment of blocks, the iteration
    order of [std::unordered_map] (seen only by destructors), failures of the standard
    streams and the locale are left out. *)
From Stdlib Require Import Strings.Byte.
From stdpp Require Export base numbers option list list_numbers gmap strings.

Open Scope Z_scope.

(** ** Machine integers

    [std::size_t] and [std::uint64_t] are both 64-bit on the Linux targets the
    project builds for; values are integers of [Z] and every operation that can
    wrap is written with its wrap-around. *)
Definition u8 (x : Z) : Z := x mod 2 ^ 8.
Definition u16 (x : Z) : Z := x mod 2 ^ 16.
Definition u32 (x : Z) : Z := x mod 2 ^ 32.
Definition u64 (x : Z) : Z := x mod 2 ^ 64.

Definition u64_max : Z := 2 ^ 64 - 1.
Definition i64_max : Z := 2 ^ 63 - 1.

(** ** Bytes: [std::string], [std::string_view] and [char] arrays *)

Abbreviation byte := Byte.byte.
Abbreviation bytes := (list byte).
Abbreviation zlen l := (Z.of_nat (length l)).

#[export] Instance byte_eq_decision : EqDecision byte := Byte.byte_eq_dec.

#[export] Program Instance byte_countable : Countable byte :=
  inj_countable Byte.to_N Byte.of_N _.
Next Obligation. intros x. apply Byte.of_to_N. Qed.

(** A string literal of the source as the bytes it denotes. *)
Definition lit (s : string) : bytes := String.list_byte_of_string s.
Arguments lit _%_string_scope.

(** ** Arithmetic facts on the fixed widths *)

Create HintDb hc discriminated.
Create Rewrite HintDb hcrw.

Lemma u64_range x : 0 <= u64 x < 2 ^ 64.
Proof. unfold u64. apply Z.mod_pos_bound. lia. Qed.

Lemma u64_small x : 0 <= x < 2 ^ 64 -> u64 x = x.
Proof. unfold u64. apply Z.mod_small. Qed.

Lemma u64_idemp x : u64 (u64 x) = u64 x.
Proof. unfold u64. apply Z.mod_mod. lia. Qed.

Lemma u64_add_l x y : u64 (u64 x + y) = u64 (x + y).
Proof. unfold u64. apply Zplus_mod_idemp_l. Qed.

Lemma u64_sub_l x y : u64 (u64 x - y) = u64 (x - y).
Proof. unfold u64. apply Zminus_mod_idemp_l. Qed.

Lemma u64_sub_r x y : u64 (x - u64 y) = u64 (x - y).
Proof. unfold u64. apply Zminus_mod_idemp_r. Qed.

Lemma zlen_nonneg {A} (l : list A) : 0 <= zlen l.
Proof. lia. Qed.

#[export] Hint Resolve u64_range zlen_nonneg : hc.
#[export] Hint Rewrite u64_idemp u64_add_l u64_sub_l u64_sub_r : hcrw.

(** [zsimp] turns the boolean comparisons of the code into propositions. *)
Ltac zsimp :=
  repeat match goal with
  | H : (_ && _)%bool = true |- _ => apply andb_true_iff in H; destruct H
  | H : (_ && _)%bool = false |- _ => apply andb_false_iff in H
  | H : (_ || _)%bool = true |- _ => apply orb_true_iff in H
  | H : (_ || _)%bool = false |- _ => apply orb_false_iff in H; destruct H
  | H : negb _ = true |- _ => apply negb_true_iff in H
  | H : negb _ = false |- _ => apply negb_false_iff in H
  | H : (_ <=? _) = true |- _ => apply Z.leb_le in H
  | H : (_ <=? _) = false |- _ => apply Z.leb_gt in H
  | H : (_ <? _) = true |- _ => apply Z.ltb_lt in H
  | H : (_ <? _) = false |- _ => apply Z.ltb_ge in H
  | H : (_ >? _) = true |- _ => rewrite Z.gtb_ltb in H; apply Z.ltb_lt in H
  | H : (_ >? _) = false |- _ => rewrite Z.gtb_ltb in H; apply Z.ltb_ge in H
  | H : (_ =? _) = true |- _ => apply Z.eqb_eq in H
  | H : (_ =? _) = false |- _ => apply Z.eqb_neq in H
  | H : bool_decide _ = true |- _ => apply bool_decide_eq_true in H
  | H : bool_decide _ = false |- _ => apply bool_decide_eq_false in H
  end.

(** ** Sums over lists *)

Definition zsum {A} (f : A -> Z) (l : list A) : Z :=
  foldr (fun x acc => f x + acc) 0 l.

Lemma zsum_app {A} (f : A -> Z) (l k : list A) :
  zsum f (l ++ k) = zsum f l + zsum f k.
Proof. induction l as [|x l IH]; simpl; [done|]. rewrite IH. lia. Qed.

Lemma zsum_nonneg {A} (f : A -> Z) (l : list A) :
  (forall x, x ∈ l -> 0 <= f x) -> 0 <= zsum f l.
Proof.
  induction l as [|x l IH]; intros Hf; simpl; [lia|].
  pose proof (Hf x ltac:(left)) as Hx.
  assert (0 <= zsum f l) by (apply IH; intros y Hy; apply Hf; by right).
  lia.
Qed.

Lemma zsum_ext {A} (f g : A -> Z) (l : list A) :
  (forall x, x ∈ l -> f x = g x) -> zsum f l = zsum g l.
Proof.
  induction l as [|x l IH]; intros Hf; simpl; [done|].
  rewrite (Hf x) by left. rewrite IH; [done|]. intros y Hy. apply Hf. by right.
Qed.

Lemma zsum_insert {A} (f : A -> Z) (l : list A) i x y :
  l !! i = Some x -> zsum f (<[i := y]> l) = zsum f l - f x + f y.
Proof.
  revert i. induction l as [|z l IH]; intros [|i] Hi; simpl in *; try done.
  - injection Hi as ->. lia.
  - rewrite (IH i Hi). lia.
Qed.

#[export] Instance zsum_perm {A} (f : A -> Z) : Proper ((≡ₚ) ==> (=)) (zsum f).
Proof. intros l k Hlk. induction Hlk; simpl; lia. Qed.

(** ** Sums over finite maps *)

Section map_sum.
Context {K V : Type} `{Countable K}.
Implicit Types (m : gmap K V) (f : K * V -> Z).

Definition msum f m : Z := zsum f (map_to_list m).

Lemma msum_empty f : msum f ∅ = 0.
Proof. unfold msum. by rewrite map_to_list_empty. Qed.

Lemma msum_insert f m k v : m !! k = None -> msum f (<[k:=v]> m) = f (k, v) + msum f m.
Proof. intros Hk. unfold msum. by rewrite map_to_list_insert. Qed.

Lemma msum_delete f m k v : m !! k = Some v -> msum f m = f (k, v) + msum f (delete k m).
Proof. intros Hk. unfold msum. by rewrite <- (map_to_list_delete m k v). Qed.

Lemma msum_nonneg f m : (forall k v, m !! k = Some v -> 0 <= f (k, v)) -> 0 <= msum f m.
Proof.
  intros Hf. apply zsum_nonneg. intros [k v] Hkv. apply Hf. by apply elem_of_map_to_list.
Qed.

Lemma msum_lookup_le f m k v :
  (forall k v, m !! k = Some v -> 0 <= f (k, v)) -> m !! k = Some v -> f (k, v) <= msum f m.
Proof.
  intros Hf Hk. rewrite (msum_delete f m k v Hk).
  assert (0 <= msum f (delete k m)); [|lia].
  apply msum_nonneg. intros k' v' Hk'. apply Hf.
  apply lookup_delete_Some in Hk' as [_ ?]. done.
Qed.

Lemma msum_ext f g m : (forall k v, m !! k = Some v -> f (k, v) = g (k, v)) -> msum f m = msum g m.
Proof.
  intros Hfg. apply zsum_ext. intros [k v] Hkv. apply Hfg. by apply elem_of_map_to_list.
Qed.
End map_sum.

(** ** Counting operations modulo 2^64 *)

Lemma count_step a d n : u64 (a - d) = u64 n -> u64 (u64 (a + 1) - d) = u64 (n + 1).
Proof.
  intros H. rewrite u64_sub_l. replace (a + 1 - d) with (a - d + 1) by lia.
  by rewrite <- u64_add_l, H, u64_add_l.
Qed.

Lemma uncount_step a d n : u64 (a - d) = u64 n -> u64 (a - u64 (d + 1)) = u64 (n - 1).
Proof.
  intros H. rewrite u64_sub_r. replace (a - (d + 1)) with (a - d - 1) by lia.
  by rewrite <- u64_sub_l, H, u64_sub_l.
Qed.

Lemma size_delete_pos {K V} `{Countable K} (L : gmap K V) p n :
  L !! p = Some n -> Z.of_nat (size (delete p L)) = Z.of_nat (size L) - 1.
Proof.
  intros Hp. rewrite map_size_delete_Some by done.
  assert (size L <> 0%nat) by (intros H0%map_size_empty_inv; by rewrite H0, lookup_empty in Hp).
  lia.
Qed.

(** ** Lists keyed by a projection without duplicates *)

Section keyed.
Context {A B : Type} `{EqDecision B} (f : A -> B).
Implicit Types (l : list A).

Lemma filter_ne_notin l b :
  b ∉ f <$> l -> filter (fun y => f y <> b) l = l.
Proof.
  induction l as [|y l IH]; csimpl; [done|]. rewrite not_elem_of_cons. intros [Hne Hl].
  rewrite filter_cons_True by done. by rewrite IH.
Qed.

Lemma keyed_filter l1 x l2 :
  NoDup (f <$> (l1 ++ x :: l2)) -> filter (fun y => f y <> f x) (l1 ++ x :: l2) = l1 ++ l2.
Proof.
  rewrite fmap_app. csimpl. intros Hnd. apply NoDup_app in Hnd as (_ & H1 & H2).
  apply NoDup_cons in H2 as [H2 _].
  rewrite filter_app, filter_cons_False by naive_solver.
  rewrite (filter_ne_notin l2) by done. rewrite filter_ne_notin; [done|].
  intros Hin. apply (H1 _ Hin). by left.
Qed.

Lemma keyed_find l1 x l2 :
  NoDup (f <$> (l1 ++ x :: l2)) ->
  snd <$> list_find (fun y => f y = f x) (l1 ++ x :: l2) = Some x.
Proof.
  rewrite fmap_app. csimpl. intros Hnd. apply NoDup_app in Hnd as (_ & H1 & _).
  rewrite list_find_app_r; csimpl; [by rewrite decide_True|].
  apply list_find_None, Forall_forall. intros y Hy Heq. apply (H1 (f x)); [|by left].
  rewrite <- Heq. by apply list_elem_of_fmap_2.
Qed.

Lemma keyed_find_none l b : b ∉ f <$> l -> snd <$> list_find (fun y => f y = b) l = None.
Proof.
  intros Hb. rewrite (proj2 (list_find_None _ _)); [done|].
  apply Forall_forall. intros y Hy <-. apply Hb. by apply list_elem_of_fmap_2.
Qed.
End keyed.
