(* ===== verification/ErrorModel.v ===== *)
(** * Error codes and exceptions ([common/error.h], [common/error.cpp])

    The typed error of the project and the exceptions of the C++ library that
    its code throws or lets through. *)
From S2P Require Import Prelude.

Inductive ErrorCode := invalid_argument | config_io | config_parse | network.

#[export] Instance ErrorCode_eq_dec : EqDecision ErrorCode.
Proof. solve_decision. Defined.

(** [std::string_view to_string(ErrorCode)]. *)
Definition error_code_to_string (code : ErrorCode) : bytes :=
  match code with
  | invalid_argument => lit "invalid_argument"
  | config_io => lit "config_io"
  | config_parse => lit "config_parse"
  | network => lit "network"
  end.

(** [class HighCacheError]: the code and the message ([what()]). *)
Record HighCacheError := MkHighCacheError { code_ : ErrorCode; what_ : bytes }.

(** [HighCacheError::code]. *)
Definition code (e : HighCacheError) : ErrorCode := code_ e.

(** What a [throw] or a failing allocation can raise; every one derives from
    [std::exception]. *)
Inductive exn :=
| highcache_error (e : HighCacheError)
| bad_alloc
| std_invalid_argument (what : bytes)
| std_length_error (what : bytes)
| std_overflow_error (what : bytes)
| std_runtime_error (what : bytes).

(** [what()]. *)
Definition what (x : exn) : bytes :=
  match x with
  | highcache_error e => what_ e
  | bad_alloc => lit "std::bad_alloc"
  | std_invalid_argument w | std_length_error w | std_overflow_error w | std_runtime_error w => w
  end.
