(* ===== verification/Effects.v ===== *)
(** * Effects: exceptions, undefined behaviour and state

    A C++ operation over an object state [S] is a function
    [S -> outcome A * S]: it returns, throws (the state it leaves behind is the
    one the handler sees), or reaches undefined behaviour - a failed [assert], a
    dereference of a dangling iterator or pointer, an out-of-bounds access. *)
From S2P Require Import Prelude ErrorModel.

Inductive outcome (A : Type) :=
| Ret (a : A)
| Throw (e : exn)
| Undefined.
Arguments Ret {A} a.
Arguments Throw {A} e.
Arguments Undefined {A}.

Definition M (S A : Type) : Type := S -> outcome A * S.

Definition ret {S A} (a : A) : M S A := fun s => (Ret a, s).

Definition throw {S A} (e : exn) : M S A := fun s => (Throw e, s).

Definition undefined {S A} : M S A := fun s => (Undefined, s).

Definition bind {S A B} (m : M S A) (k : A -> M S B) : M S B := fun s =>
  match m s with
  | (Ret a, s') => k a s'
  | (Throw e, s') => (Throw e, s')
  | (Undefined, s') => (Undefined, s')
  end.

Declare Scope eff_scope.
Delimit Scope eff_scope with eff.
Notation "x <- m ;; k" := (bind m (fun x => k))
  (at level 100, m at next level, right associativity) : eff_scope.
Notation "m ;; k" := (bind m (fun _ => k))
  (at level 100, right associativity) : eff_scope.
Open Scope eff_scope.

(** Reading and writing the whole state. *)
Definition read {S} : M S S := fun s => (Ret s, s).

Definition modify {S} (f : S -> S) : M S unit := fun s => (Ret tt, f s).

(** A pure step that may be undefined. *)
Definition modify_opt {S} (f : S -> option S) : M S unit := fun s =>
  match f s with Some s' => (Ret tt, s') | None => (Undefined, s) end.

(** [assert(b)]. *)
Definition assert_ {S} (b : bool) : M S unit := if b then ret tt else undefined.

(** Running an operation of a member object. *)
Definition on_fst {S T A} (m : M S A) : M (S * T) A := fun st =>
  let '(o, s') := m st.1 in (o, (s', st.2)).

Definition on_snd {S T A} (m : M T A) : M (S * T) A := fun st =>
  let '(o, t') := m st.2 in (o, (st.1, t')).

(** Stack unwinding: when [m] throws, the destructors [cleanup] run and the
    exception goes on; a destructor that throws terminates the program. *)
Definition on_throw {S A} (m : M S A) (cleanup : M S unit) : M S A := fun s =>
  match m s with
  | (Throw e, s') =>
      match cleanup s' with
      | (Ret _, s'') => (Throw e, s'')
      | (_, s'') => (Undefined, s'')
      end
  | r => r
  end.

(** [try { m } catch (const std::exception &) { handler }]. *)
Definition try_catch {S A} (m : M S A) (handler : exn -> M S A) : M S A := fun s =>
  match m s with
  | (Throw e, s') => handler e s'
  | r => r
  end.

(** Weakest precondition of an operation: what holds of its outcome and of the
    state it leaves behind. *)
Definition wp {S A} (m : M S A) (s : S) (Q : outcome A -> S -> Prop) : Prop :=
  Q (m s).1 (m s).2.

(** A postcondition for the three outcomes. *)
Definition post {S A} (R : A -> S -> Prop) (E : exn -> S -> Prop)
    (o : outcome A) (s : S) : Prop :=
  match o with
  | Ret a => R a s
  | Throw e => E e s
  | Undefined => False
  end.

Lemma wp_mono {S A} (m : M S A) s (Q Q' : outcome A -> S -> Prop) :
  wp m s Q -> (forall o s', Q o s' -> Q' o s') -> wp m s Q'.
Proof. unfold wp. auto. Qed.

Lemma wp_ret {S A} (a : A) (s : S) Q : Q (Ret a) s -> wp (ret a) s Q.
Proof. done. Qed.

Lemma wp_bind {S A B} (m : M S A) (k : A -> M S B) s Q :
  wp m s (fun o s' =>
    match o with
    | Ret a => wp (k a) s' Q
    | Throw e => Q (Throw e) s'
    | Undefined => Q Undefined s'
    end) -> wp (bind m k) s Q.
Proof. unfold wp, bind. destruct (m s) as [[a|e|] s']; done. Qed.

(** The usual form: [m] never reaches undefined behaviour and the continuation
    is verified from every state it can return in. *)
Lemma wp_bind_post {S A B} (m : M S A) (k : A -> M S B) s R E Q :
  wp m s (post R E) ->
  (forall a s', R a s' -> wp (k a) s' Q) ->
  (forall e s', E e s' -> Q (Throw e) s') ->
  wp (bind m k) s Q.
Proof.
  intros Hm HR HE. apply wp_bind. eapply wp_mono; [exact Hm|].
  intros [a|e|] s'; simpl; [auto|auto|done].
Qed.

Lemma wp_post_mono {S A} (m : M S A) s (R R' : A -> S -> Prop) (E E' : exn -> S -> Prop) :
  wp m s (post R E) ->
  (forall a s', R a s' -> R' a s') -> (forall e s', E e s' -> E' e s') ->
  wp m s (post R' E').
Proof.
  intros Hm HR HE. eapply wp_mono; [exact Hm|].
  intros [a|e|] s'; simpl; [auto|auto|done].
Qed.

Lemma wp_on_fst {S T A} (m : M S A) (s : S) (t : T) Q :
  wp m s (fun o s' => Q o (s', t)) -> wp (on_fst m) (s, t) Q.
Proof. unfold wp, on_fst. simpl. by destruct (m s). Qed.

Lemma wp_on_snd {S T A} (m : M T A) (s : S) (t : T) Q :
  wp m t (fun o t' => Q o (s, t')) -> wp (on_snd m) (s, t) Q.
Proof. unfold wp, on_snd. simpl. by destruct (m t). Qed.

Lemma wp_on_throw {S A} (m : M S A) cleanup s R E E' :
  wp m s (post R E) ->
  (forall e s', E e s' -> wp cleanup s' (post (fun _ s'' => E' e s'') (fun _ _ => False))) ->
  wp (on_throw m cleanup) s (post R E').
Proof.
  unfold wp, on_throw. destruct (m s) as [[a|e|] s']; simpl; [done| |done].
  intros HE Hc. specialize (Hc e s' HE).
  destruct (cleanup s') as [[[]|e'|] s'']; simpl in *; done.
Qed.

Lemma wp_try_catch {S A} (m : M S A) handler s R E Q :
  wp m s (post R E) ->
  (forall a s', R a s' -> Q (Ret a) s') ->
  (forall e s', E e s' -> wp (handler e) s' Q) ->
  wp (try_catch m handler) s Q.
Proof.
  unfold wp, try_catch. destruct (m s) as [[a|e|] s']; simpl; [auto|auto|done].
Qed.

Lemma wp_read {S} (s : S) Q : Q (Ret s) s -> wp read s Q.
Proof. done. Qed.

Lemma wp_modify {S} (f : S -> S) s Q : Q (Ret tt) (f s) -> wp (modify f) s Q.
Proof. done. Qed.

Lemma wp_modify_opt {S} (f : S -> option S) s s' Q :
  f s = Some s' -> Q (Ret tt) s' -> wp (modify_opt f) s Q.
Proof. unfold wp, modify_opt. by intros ->. Qed.

Lemma wp_assert {S} (b : bool) (s : S) Q : b = true -> Q (Ret tt) s -> wp (assert_ b) s Q.
Proof. by intros ->. Qed.

(** An operation verified by [wp] indeed does not reach undefined behaviour. *)
Lemma wp_run {S A} (m : M S A) s R E :
  wp m s (post R E) ->
  (exists a s', m s = (Ret a, s') /\ R a s') \/ (exists e s', m s = (Throw e, s') /\ E e s').
Proof. unfold wp. destruct (m s) as [[a|e|] s']; simpl; naive_solver. Qed.

Create HintDb wp discriminated.
#[export] Hint Resolve wp_ret wp_read wp_modify : wp.

(** [wp_pure] steps through the constructs that cannot fail. *)
Ltac wp_pure :=
  repeat first
    [ apply wp_ret
    | apply wp_read
    | apply wp_modify
    | (apply wp_bind; first [apply wp_ret | apply wp_read | apply wp_modify])
    | progress cbn beta iota ].
