(* ===== verification/MemoryModel.v ===== *)
(** * Memory: [operator new], [operator delete], [memcpy] and object storage

    A byte-addressed memory in blocks, one per [operator new]. A byte holds a
    [char] or a fragment of a stored pointer (the [FreeNode::next] of the slab
    free list), so an overlapping write destroys what it overlaps. Allocation
    failures are scheduled by a list of faults, which every theorem quantifies
    over. *)
From S2P Require Import Prelude ErrorModel Effects.

Module Memory.

Definition ptr : Type := (N * Z)%type.

Inductive memval :=
| MByte (b : byte)
| MFrag (next : option ptr) (i : nat).

#[export] Instance memval_eq_dec : EqDecision memval.
Proof. solve_decision. Defined.

Record memory := MkMemory {
  blocks : gmap N Z;          (** live blocks and their sizes *)
  cells : gmap ptr memval;    (** contents *)
  next_block : N;             (** every block allocated so far is below *)
  heap_bytes : Z              (** bytes in live blocks *)
}.

(** The memory of one shard and the schedule of allocation failures: each
    allocation consumes one element, [true] makes it throw [std::bad_alloc]. *)
Record env := MkEnv { mem : memory; faults : list bool }.

Definition empty_memory : memory := MkMemory ∅ ∅ 0%N 0.

(** [PTRDIFF_MAX]: no set of live blocks exceeds the address space. *)
Definition address_space : Z := 2 ^ 63 - 1.

(** A point of the code that may allocate (a [std::string] copy, a node of a
    container): it throws [std::bad_alloc] when the schedule says so. *)
Definition may_alloc : M env unit := fun e =>
  match faults e with
  | [] => (Ret tt, e)
  | f :: fs => (if f then Throw bad_alloc else Ret tt, MkEnv (mem e) fs)
  end.

Definition new_block (n : Z) (m : memory) : memory :=
  MkMemory (<[next_block m := n]> (blocks m)) (cells m) (N.succ (next_block m))
    (heap_bytes m + n).

(** [::operator new(n)]. *)
Definition operator_new (n : Z) : M env ptr :=
  may_alloc ;;
  e <- read ;;
  if heap_bytes (mem e) + n >? address_space then throw bad_alloc
  else
    modify (fun e => MkEnv (new_block n (mem e)) (faults e)) ;;
    ret (next_block (mem e), 0).

(** [::operator delete(p)]: undefined unless [p] is what [operator new] gave. *)
Definition operator_delete (p : ptr) : M env unit :=
  modify_opt (fun e =>
    let m := mem e in
    n ← blocks m !! p.1;
    guard (p.2 = 0);;
    Some (MkEnv (MkMemory (delete p.1 (blocks m)) (cells m) (next_block m)
                   (heap_bytes m - n)) (faults e)))%stdpp.

(** [n] bytes from [p] lie in a live block. *)
Definition in_bounds (m : memory) (p : ptr) (n : Z) : bool :=
  match blocks m !! p.1 with
  | Some sz => (0 <=? p.2) && (p.2 + n <=? sz)
  | None => false
  end.

Definition shift (p : ptr) (d : Z) : ptr := (p.1, p.2 + d).

Fixpoint write_cells (p : ptr) (vs : list memval) (c : gmap ptr memval) : gmap ptr memval :=
  match vs with
  | [] => c
  | v :: vs => <[p := v]> (write_cells (shift p 1) vs c)
  end.

Fixpoint read_cells (p : ptr) (n : nat) (c : gmap ptr memval) : option (list memval) :=
  match n with
  | O => Some []
  | S n =>
      match c !! p, read_cells (shift p 1) n c with
      | Some v, Some vs => Some (v :: vs)
      | _, _ => None
      end
  end.

Definition write (p : ptr) (vs : list memval) (m : memory) : memory :=
  MkMemory (blocks m) (write_cells p vs (cells m)) (next_block m) (heap_bytes m).

(** A store through [p]; undefined outside a live block. *)
Definition store (p : ptr) (vs : list memval) : M env unit :=
  modify_opt (fun e =>
    if in_bounds (mem e) p (zlen vs)
    then Some (MkEnv (write p vs (mem e)) (faults e)) else None).

(** The object representation of a [char] sequence and of a pointer. *)
Definition char_cells (bs : bytes) : list memval := MByte <$> bs.

Definition pointer_size : nat := 8.

Definition pointer_cells (q : option ptr) : list memval := MFrag q <$> seq 0 pointer_size.

(** Reading [n] chars, and reading a stored pointer: undefined when the bytes
    there are not of that kind. *)
Fixpoint as_chars (vs : list memval) : option bytes :=
  match vs with
  | [] => Some []
  | MByte b :: vs => (b ::.) <$> as_chars vs
  | MFrag _ _ :: _ => None
  end.

Definition load_chars (p : ptr) (n : Z) (m : memory) : option bytes :=
  if in_bounds m p n
  then match read_cells p (Z.to_nat n) (cells m) with
       | Some vs => as_chars vs
       | None => None
       end
  else None.

Definition load_pointer (p : ptr) (m : memory) : option (option ptr) :=
  if in_bounds m p (Z.of_nat pointer_size)
  then match read_cells p pointer_size (cells m) with
       | Some (MFrag q i :: vs) =>
           if decide (MFrag q i :: vs = pointer_cells q) then Some q else None
       | _ => None
       end
  else None.

(** Two address ranges that share no byte. *)
Definition disjoint_ranges (p : ptr) (n : Z) (q : ptr) (k : Z) : Prop :=
  p.1 <> q.1 \/ p.2 + n <= q.2 \/ q.2 + k <= p.2.

(** ** Reading back what was written *)

Lemma write_cells_out p vs c q :
  (q.1 <> p.1 \/ q.2 < p.2 \/ p.2 + zlen vs <= q.2) ->
  write_cells p vs c !! q = c !! q.
Proof.
  revert p. induction vs as [|v vs IH]; intros p Hq; simpl; [done|].
  rewrite lookup_insert_ne; [|intros ->; simpl in Hq; lia].
  apply IH. simpl in *. lia.
Qed.

Lemma read_write_same p vs c : read_cells p (length vs) (write_cells p vs c) = Some vs.
Proof.
  revert p. induction vs as [|v vs IH]; intros p; simpl; [done|].
  rewrite lookup_insert_eq.
  assert (forall n (q : ptr) d, q.1 = p.1 -> p.2 < q.2 ->
    read_cells q n (<[p:=v]> d) = read_cells q n d) as Hframe.
  { induction n as [|n IHn]; intros q d Hb Hlt; simpl; [done|].
    rewrite lookup_insert_ne by (intros ->; lia).
    rewrite IHn; [done|done|simpl; lia]. }
  rewrite Hframe by (simpl; lia). by rewrite IH.
Qed.

Lemma read_cells_ext p n c d :
  (forall i, 0 <= i < Z.of_nat n -> c !! shift p i = d !! shift p i) ->
  read_cells p n c = read_cells p n d.
Proof.
  revert p. induction n as [|n IH]; intros p Hcd; simpl; [done|].
  pose proof (Hcd 0 ltac:(lia)) as H0. unfold shift in H0. rewrite Z.add_0_r in H0.
  destruct p as [b o]. simpl in *. rewrite H0, (IH (shift (b, o) 1)); [done|].
  intros i Hi. specialize (Hcd (i + 1) ltac:(lia)). unfold shift in *. simpl in *.
  by replace (o + 1 + i) with (o + (i + 1)) by lia.
Qed.

Lemma read_write_disjoint p vs q k c :
  disjoint_ranges p (zlen vs) q (Z.of_nat k) ->
  read_cells q k (write_cells p vs c) = read_cells q k c.
Proof.
  intros Hd. apply read_cells_ext. intros i Hi. apply write_cells_out.
  unfold disjoint_ranges, shift in *. simpl. lia.
Qed.

Lemma as_chars_char_cells bs : as_chars (char_cells bs) = Some bs.
Proof. unfold char_cells. induction bs as [|b bs IH]; csimpl; [done|]. by rewrite IH. Qed.

Lemma length_char_cells bs : length (char_cells bs) = length bs.
Proof. apply length_fmap. Qed.

Lemma length_pointer_cells q : length (pointer_cells q) = pointer_size.
Proof. done. Qed.

Lemma in_bounds_write m p vs q n : in_bounds (write p vs m) q n = in_bounds m q n.
Proof. done. Qed.

Lemma in_bounds_le m p n k : 0 <= k <= n -> in_bounds m p n = true -> in_bounds m p k = true.
Proof.
  unfold in_bounds. destruct (blocks m !! p.1); [|done].
  intros Hk Hn. zsimp. apply andb_true_iff. split; apply Z.leb_le; lia.
Qed.

Lemma load_chars_write p bs m :
  in_bounds m p (zlen bs) = true -> load_chars p (zlen bs) (write p (char_cells bs) m) = Some bs.
Proof.
  intros Hb. unfold load_chars. rewrite in_bounds_write, Hb, Nat2Z.id. simpl.
  rewrite <- (length_char_cells bs), read_write_same. apply as_chars_char_cells.
Qed.

Lemma load_pointer_write p q m :
  in_bounds m p (Z.of_nat pointer_size) = true ->
  load_pointer p (write p (pointer_cells q) m) = Some q.
Proof.
  intros Hb. unfold load_pointer. rewrite in_bounds_write, Hb.
  pose proof (read_write_same p (pointer_cells q) (cells m)) as Hrw.
  rewrite length_pointer_cells in Hrw. unfold write. cbn [cells]. rewrite Hrw.
  unfold pointer_cells at 1. simpl. by rewrite decide_True.
Qed.

Lemma load_chars_frame p vs q n m :
  0 <= n -> disjoint_ranges p (zlen vs) q n ->
  load_chars q n (write p vs m) = load_chars q n m.
Proof.
  intros Hn Hd. unfold load_chars. rewrite in_bounds_write. simpl.
  rewrite read_write_disjoint; [done|]. by rewrite Z2Nat.id.
Qed.

Lemma load_pointer_frame p vs q m :
  disjoint_ranges p (zlen vs) q (Z.of_nat pointer_size) ->
  load_pointer q (write p vs m) = load_pointer q m.
Proof.
  intros Hd. unfold load_pointer. rewrite in_bounds_write. unfold write. cbn [cells].
  by rewrite read_write_disjoint.
Qed.

(** A block only has to stay live for its contents to be readable. *)
Lemma load_chars_blocks q n m m' :
  cells m' = cells m -> blocks m' !! q.1 = blocks m !! q.1 ->
  load_chars q n m' = load_chars q n m.
Proof. intros Hc Hb. unfold load_chars, in_bounds. by rewrite Hc, Hb. Qed.

Lemma load_pointer_blocks q m m' :
  cells m' = cells m -> blocks m' !! q.1 = blocks m !! q.1 ->
  load_pointer q m' = load_pointer q m.
Proof. intros Hc Hb. unfold load_pointer, in_bounds. by rewrite Hc, Hb. Qed.

(** Only the accessed block matters. *)
Lemma load_chars_off (b : N) q n m m' :
  (forall q, q.1 <> b -> cells m' !! q = cells m !! q) ->
  q.1 <> b -> blocks m' !! q.1 = blocks m !! q.1 -> load_chars q n m' = load_chars q n m.
Proof.
  intros Hc Hq Hb. unfold load_chars, in_bounds. rewrite Hb.
  rewrite (read_cells_ext q (Z.to_nat n) (cells m') (cells m)); [done|].
  intros i _. by apply Hc.
Qed.

Lemma load_pointer_off (b : N) q m m' :
  (forall q, q.1 <> b -> cells m' !! q = cells m !! q) ->
  q.1 <> b -> blocks m' !! q.1 = blocks m !! q.1 -> load_pointer q m' = load_pointer q m.
Proof.
  intros Hc Hq Hb. unfold load_pointer, in_bounds. rewrite Hb.
  rewrite (read_cells_ext q pointer_size (cells m') (cells m)); [done|].
  intros i _. by apply Hc.
Qed.

(** The memory after a release: the same blocks and contents, but the released
    block number is not given out again. *)
Definition same_heap (m m' : memory) : Prop :=
  blocks m' = blocks m /\ cells m' = cells m /\ heap_bytes m' = heap_bytes m /\
  (next_block m <= next_block m')%N.

Lemma same_heap_refl m : same_heap m m.
Proof. by unfold same_heap. Qed.

Lemma read_cells_length p n c vs : read_cells p n c = Some vs -> length vs = n.
Proof.
  revert p vs. induction n as [|n IH]; intros p vs; simpl; [by intros [= <-]|].
  destruct (c !! p); [|done]. destruct (read_cells _ n c) eqn:E; [|done].
  intros [= <-]. simpl. f_equal. by eapply IH.
Qed.

Lemma as_chars_length vs bs : as_chars vs = Some bs -> length bs = length vs.
Proof.
  revert bs. induction vs as [|[b|q i] vs IH]; intros bs; simpl; [by intros [= <-]| |done].
  intros Hb. apply fmap_Some in Hb as (bs' & Hb & ->). simpl. f_equal. by apply IH.
Qed.

(** ** Specifications *)

Lemma wp_may_alloc e Q :
  (forall fs, Q (Ret tt) (MkEnv (mem e) fs)) ->
  (forall fs, Q (Throw bad_alloc) (MkEnv (mem e) fs)) ->
  wp may_alloc e Q.
Proof.
  intros HR HT. unfold wp, may_alloc. destruct e as [m [|[] fs]]; simpl; auto.
Qed.

Lemma wp_operator_new n e Q :
  (forall fs, heap_bytes (mem e) + n <= address_space ->
    Q (Ret (next_block (mem e), 0)) (MkEnv (new_block n (mem e)) fs)) ->
  (forall fs, Q (Throw bad_alloc) (MkEnv (mem e) fs)) ->
  wp (operator_new n) e Q.
Proof.
  intros HR HT. unfold operator_new. apply wp_bind, wp_may_alloc; intros fs; [|apply HT].
  apply wp_bind, wp_read. simpl. destruct (_ >? _) eqn:Hgt; [apply HT|].
  apply wp_bind, wp_modify, wp_ret. zsimp. by apply HR.
Qed.

Lemma wp_operator_delete p n e Q :
  blocks (mem e) !! p.1 = Some n -> p.2 = 0 ->
  Q (Ret tt) (MkEnv (MkMemory (delete p.1 (blocks (mem e))) (cells (mem e))
    (next_block (mem e)) (heap_bytes (mem e) - n)) (faults e)) ->
  wp (operator_delete p) e Q.
Proof.
  intros Hn Hp HQ. unfold operator_delete. eapply wp_modify_opt; [|exact HQ].
  rewrite Hn. simpl. by rewrite option_guard_True.
Qed.

Lemma wp_store p vs e Q :
  in_bounds (mem e) p (zlen vs) = true ->
  Q (Ret tt) (MkEnv (write p vs (mem e)) (faults e)) -> wp (store p vs) e Q.
Proof. intros Hb HQ. unfold store. eapply wp_modify_opt; [|exact HQ]. by rewrite Hb. Qed.

#[global] Arguments write_cells : simpl never.
#[global] Arguments read_cells : simpl never.
#[global] Arguments pointer_cells : simpl never.
#[global] Arguments char_cells : simpl never.

End Memory.
