(* ===== verification/AllocatorModel.v ===== *)
(** * The value allocator interface ([memory/value_allocator.h])

    The abstract class [ValueAllocator] as a type class of operations, the
    metrics record, and the contract the cache relies on as a class of laws:
    live allocations never overlap, are never handed out twice, keep their
    contents, and are all accounted for. *)
From S2P Require Import Prelude ErrorModel Effects MemoryModel.
Import Memory.

Record ValueAllocatorMetrics := MkMetrics {
  allocated_bytes : Z;
  used_bytes : Z;
  free_bytes : Z;
  allocation_count : Z;
  deallocation_count : Z;
  internal_fragmentation : Z;
  slab_count : Z
}.

Definition zero_metrics : ValueAllocatorMetrics := MkMetrics 0 0 0 0 0 0 0.

Inductive AllocatorBackend := system | slab.

#[export] Instance AllocatorBackend_eq_dec : EqDecision AllocatorBackend.
Proof. solve_decision. Defined.

(** The virtual methods, over the allocator's state and the memory. *)
Class ValueAllocator (A : Type) := {
  allocate : Z -> M (A * env) (option ptr);
  deallocate : option ptr -> Z -> M (A * env) unit;
  metrics : A -> ValueAllocatorMetrics;
  destroy : M (A * env) unit      (** [virtual ~ValueAllocator()] *)
}.

(** The contents of the live allocations are the same in both memories. *)
Definition same_contents (L : gmap ptr Z) (m m' : memory) : Prop :=
  forall q k, L !! q = Some k -> load_chars q k m' = load_chars q k m.

(** The live allocations after [allocate n] returned [r]. *)
Definition with_allocation (r : option ptr) (n : Z) (L : gmap ptr Z) : gmap ptr Z :=
  match r with Some p => <[p := n]> L | None => L end.

Definition without_allocation (r : option ptr) (L : gmap ptr Z) : gmap ptr Z :=
  match r with Some p => delete p L | None => L end.

(** [r] is a pointer [allocate n] gave that is still live. *)
Definition holds_allocation (L : gmap ptr Z) (r : option ptr) (n : Z) : Prop :=
  match r with Some p => L !! p = Some n | None => n = 0 end.

(** What the metrics must say of the live allocations [L]. *)
Definition metrics_match (x : ValueAllocatorMetrics) (L : gmap ptr Z) : Prop :=
  used_bytes x = msum snd L /\
  allocated_bytes x = used_bytes x + free_bytes x + internal_fragmentation x /\
  u64 (allocation_count x - deallocation_count x) = u64 (Z.of_nat (size L)) /\
  0 <= free_bytes x /\ 0 <= internal_fragmentation x /\
  allocated_bytes x <= address_space.

Class ValueAllocatorLaws (A : Type) `{ValueAllocator A} := {
  (** [owns a m L]: the live allocations of [a] in memory [m] are [L]. *)
  owns : A -> memory -> gmap ptr Z -> Prop;
  owns_live : forall a m L p n,
    owns a m L -> L !! p = Some n -> 0 < n /\ in_bounds m p n = true;
  owns_disjoint : forall a m L p n q k,
    owns a m L -> L !! p = Some n -> L !! q = Some k -> p <> q -> disjoint_ranges p n q k;
  owns_write : forall a m L p n vs,
    owns a m L -> L !! p = Some n -> zlen vs <= n -> owns a (write p vs m) L;
  owns_metrics : forall a m L, owns a m L -> metrics_match (metrics a) L;
  allocate_spec : forall a m L fs n,
    owns a m L -> 0 <= n ->
    wp (allocate n) (a, MkEnv m fs) (post
      (fun r s => (r = None <-> n = 0) /\
        (forall p, r = Some p -> L !! p = None) /\
        owns s.1 (mem s.2) (with_allocation r n L) /\ same_contents L m (mem s.2))
      (fun x s => x = bad_alloc /\ owns s.1 (mem s.2) L /\ same_contents L m (mem s.2)));
  deallocate_spec : forall a m L fs r n,
    owns a m L -> holds_allocation L r n ->
    wp (deallocate r n) (a, MkEnv m fs) (post
      (fun _ s => owns s.1 (mem s.2) (without_allocation r L) /\
        same_contents (without_allocation r L) m (mem s.2))
      (fun _ _ => False));
  (** Once nothing is live, destruction returns all memory. *)
  destroy_spec : forall a m fs,
    owns a m ∅ ->
    wp destroy (a, MkEnv m fs) (post (fun _ s => heap_bytes (mem s.2) = 0) (fun _ _ => False))
}.

Lemma same_contents_refl L m : same_contents L m m.
Proof. by intros q k Hq. Qed.

Lemma same_contents_trans L m1 m2 m3 :
  same_contents L m1 m2 -> same_contents L m2 m3 -> same_contents L m1 m3.
Proof. intros H1 H2 q k Hq. by rewrite (H2 q k Hq), (H1 q k Hq). Qed.

Lemma same_contents_sub L L' m m' :
  (forall q k, L' !! q = Some k -> L !! q = Some k) ->
  same_contents L m m' -> same_contents L' m m'.
Proof. intros Hs Hc q k Hq. apply Hc. by apply Hs. Qed.

#[export] Hint Resolve same_contents_refl : hc.
