(* ===== verification/SystemAllocatorModel.v ===== *)
(** * The system allocator ([memory/value_allocator.cpp], [SystemAllocator])

    Every value has a block of its own from [operator new]. *)
From S2P Require Import Prelude ErrorModel Effects MemoryModel AllocatorModel.
Import Memory.

Module SystemAllocator.

Record t := MkSystemAllocator { metrics_ : ValueAllocatorMetrics }.

Definition init : t := MkSystemAllocator zero_metrics.

Definition count_allocation (size : Z) (x : ValueAllocatorMetrics) : ValueAllocatorMetrics :=
  MkMetrics (u64 (allocated_bytes x + size)) (u64 (used_bytes x + size)) (free_bytes x)
    (u64 (allocation_count x + 1)) (deallocation_count x) (internal_fragmentation x)
    (slab_count x).

Definition count_deallocation (size : Z) (x : ValueAllocatorMetrics) : ValueAllocatorMetrics :=
  MkMetrics (u64 (allocated_bytes x - size)) (u64 (used_bytes x - size)) (free_bytes x)
    (allocation_count x) (u64 (deallocation_count x + 1)) (internal_fragmentation x)
    (slab_count x).

Definition allocate (size : Z) : M (t * env) (option ptr) :=
  if size =? 0 then ret None
  else
    pointer <- on_snd (operator_new size) ;;
    on_fst (modify (fun a => MkSystemAllocator (count_allocation size (metrics_ a)))) ;;
    ret (Some pointer).

Definition deallocate (pointer : option ptr) (size : Z) : M (t * env) unit :=
  match pointer with
  | None => assert_ (size =? 0)
  | Some p =>
      assert_ (negb (size =? 0)) ;;
      a <- on_fst read ;;
      assert_ (size <=? allocated_bytes (metrics_ a)) ;;
      assert_ (size <=? used_bytes (metrics_ a)) ;;
      on_snd (operator_delete p) ;;
      on_fst (modify (fun a => MkSystemAllocator (count_deallocation size (metrics_ a))))
  end.

Definition metrics (a : t) : ValueAllocatorMetrics := metrics_ a.

(** The implicit destructor: the values belong to their owners. *)
Definition destroy : M (t * env) unit := ret tt.

#[global] Instance system_value_allocator : ValueAllocator t := {|
  AllocatorModel.allocate := allocate;
  AllocatorModel.deallocate := deallocate;
  AllocatorModel.metrics := metrics;
  AllocatorModel.destroy := destroy
|}.

(** ** The contract *)

(** Each live value is a whole block; nothing else is on the heap. *)
Record owns (a : t) (m : memory) (L : gmap ptr Z) : Prop := {
  owns_block : forall p n, L !! p = Some n ->
    0 < n /\ p.2 = 0 /\ blocks m !! p.1 = Some n /\ (p.1 < next_block m)%N;
  owns_used : used_bytes (metrics_ a) = msum snd L;
  owns_allocated : allocated_bytes (metrics_ a) = msum snd L;
  owns_heap : heap_bytes m = msum snd L;
  owns_space : msum snd L <= address_space;
  owns_zero : free_bytes (metrics_ a) = 0 /\ internal_fragmentation (metrics_ a) = 0;
  owns_count : u64 (allocation_count (metrics_ a) - deallocation_count (metrics_ a))
    = u64 (Z.of_nat (size L))
}.

Lemma system_same_block a m L p q n k :
  owns a m L -> L !! p = Some n -> L !! q = Some k -> p.1 = q.1 -> p = q.
Proof.
  intros Ho Hp Hq Hb. apply (owns_block _ _ _ Ho) in Hp as (_ & Hp & _).
  apply (owns_block _ _ _ Ho) in Hq as (_ & Hq & _). destruct p, q; simpl in *; congruence.
Qed.

Lemma owns_pos a m L p n : owns a m L -> L !! p = Some n -> 0 < n <= msum snd L.
Proof.
  intros Ho Hp. split; [by apply (owns_block _ _ _ Ho) in Hp as (? & _)|].
  apply (msum_lookup_le snd L p n); [|done].
  intros k v Hk. simpl. apply (owns_block _ _ _ Ho) in Hk. lia.
Qed.

Lemma msum_pos a m L : owns a m L -> 0 <= msum snd L.
Proof.
  intros Ho. apply msum_nonneg. intros k v Hk. simpl. apply (owns_pos _ _ _ _ _ Ho) in Hk. lia.
Qed.

Lemma system_allocate_spec a m L fs n :
  owns a m L -> 0 <= n ->
  wp (allocate n) (a, MkEnv m fs) (post
    (fun r s => (r = None <-> n = 0) /\ (forall p, r = Some p -> L !! p = None) /\
      owns s.1 (mem s.2) (with_allocation r n L) /\ same_contents L m (mem s.2))
    (fun x s => x = bad_alloc /\ owns s.1 (mem s.2) L /\ same_contents L m (mem s.2))).
Proof.
  intros Ho Hn. unfold allocate. destruct (n =? 0) eqn:H0; zsimp.
  { apply wp_ret. simpl. split_and!; [naive_solver|done|done|auto with hc]. }
  apply wp_bind, wp_on_snd, wp_operator_new; simpl; [|by auto with hc].
  intros fs' Hsp. apply wp_bind, wp_on_fst, wp_modify, wp_ret.
  assert (L !! (next_block m, 0) = None) as Hfresh.
  { apply eq_None_not_Some. intros [k Hk].
    apply (owns_block _ _ _ Ho) in Hk as (_ & _ & _ & Hlt). simpl in Hlt. lia. }
  simpl. split_and!; [done|by intros p [= <-]| |].
  - pose proof (msum_pos _ _ _ Ho). pose proof (owns_heap _ _ _ Ho) as Hheap.
    unfold address_space in *.
    constructor; simpl; rewrite ?msum_insert by done; simpl.
    + intros p k Hp. destruct (decide (p = (next_block m, 0))) as [->|Hne].
      * rewrite lookup_insert_eq in Hp. injection Hp as <-. simpl.
        rewrite lookup_insert_eq. split_and!; try done; lia.
      * rewrite lookup_insert_ne in Hp by done.
        destruct (owns_block _ _ _ Ho _ _ Hp) as (? & ? & ? & ?).
        rewrite lookup_insert_ne by lia. split_and!; try done; lia.
    + rewrite (owns_used _ _ _ Ho), u64_small; lia.
    + rewrite (owns_allocated _ _ _ Ho), u64_small; lia.
    + lia.
    + unfold address_space. lia.
    + apply (owns_zero _ _ _ Ho).
    + rewrite map_size_insert_None, Nat2Z.inj_succ by done.
      apply count_step, (owns_count _ _ _ Ho).
  - intros q k Hq. apply load_chars_blocks; [done|].
    apply (owns_block _ _ _ Ho) in Hq as (_ & _ & _ & Hlt). simpl.
    rewrite lookup_insert_ne; [done|lia].
Qed.

Lemma system_deallocate_spec a m L fs r n :
  owns a m L -> holds_allocation L r n ->
  wp (deallocate r n) (a, MkEnv m fs) (post
    (fun _ s => owns s.1 (mem s.2) (without_allocation r L) /\
      same_contents (without_allocation r L) m (mem s.2))
    (fun _ _ => False)).
Proof.
  intros Ho Hr. destruct r as [p|]; simpl in Hr.
  2: { subst n. apply wp_ret. simpl. auto with hc. }
  pose proof (owns_pos _ _ _ _ _ Ho Hr) as Hn. unfold deallocate.
  pose proof (owns_space _ _ _ Ho) as Hsp. unfold address_space in Hsp.
  pose proof (msum_delete snd L p n Hr) as Hsum. simpl in Hsum.
  destruct (owns_block _ _ _ Ho _ _ Hr) as (_ & Hoff & Hblk & Hlt).
  apply wp_bind, wp_assert; [apply negb_true_iff, Z.eqb_neq; lia|].
  apply wp_bind, wp_on_fst, wp_read.
  apply wp_bind, wp_assert; [rewrite (owns_allocated _ _ _ Ho); apply Z.leb_le; lia|].
  apply wp_bind, wp_assert; [rewrite (owns_used _ _ _ Ho); apply Z.leb_le; lia|].
  eapply wp_bind, wp_on_snd, wp_operator_delete; [exact Hblk|done|].
  apply wp_on_fst, wp_modify. simpl. split.
  - constructor; simpl.
    + intros q k Hq. apply lookup_delete_Some in Hq as [Hne Hq].
      destruct (owns_block _ _ _ Ho _ _ Hq) as (? & ? & ? & ?).
      split_and!; try done. rewrite lookup_delete_ne; [done|].
      intros Heq. by apply Hne, (system_same_block a m L p q n k).
    + rewrite (owns_used _ _ _ Ho), u64_small; lia.
    + rewrite (owns_allocated _ _ _ Ho), u64_small; lia.
    + rewrite (owns_heap _ _ _ Ho). lia.
    + unfold address_space. lia.
    + apply (owns_zero _ _ _ Ho).
    + rewrite (size_delete_pos L p n) by done. apply uncount_step, (owns_count _ _ _ Ho).
  - intros q k Hq. apply lookup_delete_Some in Hq as [Hne Hq].
    apply load_chars_blocks; [done|]. simpl. rewrite lookup_delete_ne; [done|].
    intros Heq. by apply Hne, (system_same_block a m L p q n k).
Qed.

#[global] Instance system_allocator_laws : ValueAllocatorLaws t.
Proof.
  refine {| AllocatorModel.owns := owns;
            allocate_spec := system_allocate_spec;
            deallocate_spec := system_deallocate_spec |}.
  - intros a m L p n Ho Hp. destruct (owns_block _ _ _ Ho _ _ Hp) as (? & Hoff & Hb & _).
    split; [done|]. unfold in_bounds. rewrite Hb, Hoff. simpl. by apply Z.leb_le.
  - intros a m L p n q k Ho Hp Hq Hne. left. intros Hb.
    by apply Hne, (system_same_block a m L p q n k).
  - intros a m L p n vs Ho Hp Hl. destruct Ho. by constructor.
  - intros a m L Ho. destruct (owns_zero _ _ _ Ho) as [Hf Hi].
    pose proof (owns_space _ _ _ Ho). unfold metrics_match. simpl. unfold metrics.
    rewrite Hf, Hi, (owns_used _ _ _ Ho), (owns_allocated _ _ _ Ho).
    split_and!; try done; try lia. apply (owns_count _ _ _ Ho).
  - intros a m fs Ho. apply wp_ret. simpl. rewrite (owns_heap _ _ _ Ho). apply msum_empty.
Defined.

Lemma system_init_owns : owns init empty_memory ∅.
Proof.
  constructor; simpl; rewrite ?msum_empty; try done.
Qed.

End SystemAllocator.
