(* ===== verification/SlabAllocatorModel.v ===== *)
(** * The slab allocator ([memory/slab_allocator.h], [memory/slab_allocator.cpp])

    Eight size classes, each with an intrusive free list threaded through the
    free blocks of its 1 MiB slabs; larger values go to [operator new]. *)
From S2P Require Import Prelude ErrorModel Effects MemoryModel AllocatorModel.
Import Memory.

(** [SlabAllocator::slab_size] and [SlabAllocator::size_classes]. *)
Definition slab_size : Z := 1024 * 1024.

Definition size_classes : list Z := [64; 128; 256; 512; 1024; 2048; 4096; 8192].

(** [size_classes.back()]. *)
Definition largest_class : Z := default 0 (last size_classes).

(** ** [SlabAllocator::SlabClass::Slab]: the owner of the storage of a slab *)
Module Slab.

Record t := MkSlab { data_ : ptr }.

Definition create : M env t :=
  data <- operator_new slab_size ;;
  ret (MkSlab data).

Definition data (s : t) : ptr := data_ s.

Definition destroy (s : t) : M env unit := operator_delete (data_ s).

End Slab.

(** ** [SlabAllocator::SlabClass] *)
Module SlabClass.

Record t := MkSlabClass {
  object_size_ : Z;
  free_head_ : option ptr;
  slabs_ : list Slab.t
}.

Definition init (object_size : Z) : t := MkSlabClass object_size None [].

Definition set_free_head (head : option ptr) (c : t) : t :=
  MkSlabClass (object_size_ c) head (slabs_ c).

Definition push_slab (slab : Slab.t) (c : t) : t :=
  MkSlabClass (object_size_ c) (free_head_ c) (slabs_ c ++ [slab]).

(** [::new (pointer) FreeNode{free_head_}; free_head_ = block]. *)
Definition deallocate (pointer : ptr) : M (t * env) unit :=
  c <- on_fst read ;;
  on_snd (store pointer (pointer_cells (free_head_ c))) ;;
  on_fst (modify (set_free_head (Some pointer))).

(** The loop of [add_slab] from [index] on, [n] iterations. *)
Fixpoint carve (data : ptr) (index : Z) (n : nat) : M (t * env) unit :=
  match n with
  | O => ret tt
  | S n =>
      c <- on_fst read ;;
      deallocate (shift data (index * object_size_ c)) ;;
      carve data (index + 1) n
  end.

(** [add_slab]: the [Slab] object, its storage and the slot in [slabs_] are
    three allocations; a failure of the last one releases the storage. *)
Definition add_slab : M (t * env) unit :=
  on_snd may_alloc ;;
  slab <- on_snd Slab.create ;;
  let data := Slab.data slab in
  on_throw (on_snd may_alloc) (on_snd (Slab.destroy slab)) ;;
  on_fst (modify (push_slab slab)) ;;
  c <- on_fst read ;;
  carve data 0 (Z.to_nat (slab_size / object_size_ c)).

Definition allocate : M (t * env) ptr :=
  c <- on_fst read ;;
  (if decide (free_head_ c = None) then add_slab else ret tt) ;;
  c <- on_fst read ;;
  e <- on_snd read ;;
  match free_head_ c with
  | None => undefined
  | Some block =>
      match load_pointer block (mem e) with
      | Some next => on_fst (modify (set_free_head next)) ;; ret block
      | None => undefined
      end
  end.

Definition slab_count (c : t) : Z := zlen (slabs_ c).

(** The destructor: [slabs_] deletes every slab. *)
Fixpoint destroy_slabs (slabs : list Slab.t) : M env unit :=
  match slabs with
  | [] => ret tt
  | s :: slabs => Slab.destroy s ;; destroy_slabs slabs
  end.

Definition destroy (c : t) : M env unit := destroy_slabs (slabs_ c).

End SlabClass.

(** ** [SlabAllocator] *)
Module SlabAllocator.

Record t := MkSlabAllocator {
  classes_ : list SlabClass.t;
  metrics_ : ValueAllocatorMetrics
}.

Definition init : t := MkSlabAllocator (SlabClass.init <$> size_classes) zero_metrics.

(** The loop of [class_index]. *)
Fixpoint find_class (requested_size : Z) (sizes : list Z) (index : nat) : option nat :=
  match sizes with
  | [] => None
  | s :: sizes =>
      if requested_size <=? s then Some index else find_class requested_size sizes (S index)
  end.

(** [class_index]; [None] is a failed assertion. *)
Definition class_index (requested_size : Z) : option nat :=
  if (0 <? requested_size) && (requested_size <=? largest_class)
  then find_class requested_size size_classes 0 else None.

Definition class_size (requested_size : Z) : option Z :=
  match class_index requested_size with Some i => size_classes !! i | None => None end.

(** [allocation_size]. *)
Definition allocation_size (requested_size : Z) : option Z :=
  if (requested_size =? 0) || (requested_size >? largest_class)
  then Some requested_size else class_size requested_size.

(** An operation of [classes_[index]]. *)
Definition on_class {A} (index : nat) (f : M (SlabClass.t * env) A) : M (t * env) A := fun s =>
  match classes_ s.1 !! index with
  | Some c =>
      let '(o, (c', e')) := f (c, s.2) in
      (o, (MkSlabAllocator (<[index := c']> (classes_ s.1)) (metrics_ s.1), e'))
  | None => (Undefined, s)
  end.

Definition with_metrics (f : ValueAllocatorMetrics -> ValueAllocatorMetrics) :
    M (t * env) unit :=
  on_fst (modify (fun a => MkSlabAllocator (classes_ a) (f (metrics_ a)))).

Definition count_large (size : Z) (x : ValueAllocatorMetrics) : ValueAllocatorMetrics :=
  MkMetrics (u64 (allocated_bytes x + size)) (u64 (used_bytes x + size)) (free_bytes x)
    (u64 (allocation_count x + 1)) (deallocation_count x) (internal_fragmentation x)
    (slab_count x).

Definition uncount_large (size : Z) (x : ValueAllocatorMetrics) : ValueAllocatorMetrics :=
  MkMetrics (u64 (allocated_bytes x - size)) (u64 (used_bytes x - size)) (free_bytes x)
    (allocation_count x) (u64 (deallocation_count x + 1)) (internal_fragmentation x)
    (slab_count x).

Definition count_slab (x : ValueAllocatorMetrics) : ValueAllocatorMetrics :=
  MkMetrics (u64 (allocated_bytes x + slab_size)) (used_bytes x)
    (u64 (free_bytes x + slab_size)) (allocation_count x) (deallocation_count x)
    (internal_fragmentation x) (u64 (slab_count x + 1)).

Definition count_block (size class_size : Z) (x : ValueAllocatorMetrics) :
    ValueAllocatorMetrics :=
  MkMetrics (allocated_bytes x) (u64 (used_bytes x + size))
    (u64 (free_bytes x - class_size)) (u64 (allocation_count x + 1)) (deallocation_count x)
    (u64 (internal_fragmentation x + u64 (class_size - size))) (slab_count x).

Definition uncount_block (size class_size : Z) (x : ValueAllocatorMetrics) :
    ValueAllocatorMetrics :=
  MkMetrics (allocated_bytes x) (u64 (used_bytes x - size))
    (u64 (free_bytes x + class_size)) (allocation_count x) (u64 (deallocation_count x + 1))
    (u64 (internal_fragmentation x - u64 (class_size - size))) (slab_count x).

Definition allocate (size : Z) : M (t * env) (option ptr) :=
  if size =? 0 then ret None
  else if size >? largest_class then
    pointer <- on_snd (operator_new size) ;;
    with_metrics (count_large size) ;;
    ret (Some pointer)
  else
    match class_index size, class_size size with
    | Some index, Some class_size =>
        slabs_before <- on_class index (c <- on_fst read ;; ret (SlabClass.slab_count c)) ;;
        pointer <- on_class index SlabClass.allocate ;;
        slabs_after <- on_class index (c <- on_fst read ;; ret (SlabClass.slab_count c)) ;;
        (if slabs_after =? slabs_before then ret tt else with_metrics count_slab) ;;
        with_metrics (count_block size class_size) ;;
        ret (Some pointer)
    | _, _ => undefined
    end.

Definition deallocate (pointer : option ptr) (size : Z) : M (t * env) unit :=
  match pointer with
  | None => assert_ (size =? 0)
  | Some p =>
      assert_ (negb (size =? 0)) ;;
      a <- on_fst read ;;
      assert_ (size <=? used_bytes (metrics_ a)) ;;
      if size >? largest_class then
        assert_ (size <=? allocated_bytes (metrics_ a)) ;;
        on_snd (operator_delete p) ;;
        with_metrics (uncount_large size)
      else
        match class_index size, class_size size with
        | Some index, Some class_size =>
            assert_ (u64 (class_size - size) <=? internal_fragmentation (metrics_ a)) ;;
            on_class index (SlabClass.deallocate p) ;;
            with_metrics (uncount_block size class_size)
        | _, _ => undefined
        end
  end.

Definition metrics (a : t) : ValueAllocatorMetrics := metrics_ a.

(** [~SlabAllocator()]: the elements of [classes_], the last one first. *)
Fixpoint destroy_classes (classes : list SlabClass.t) : M env unit :=
  match classes with
  | [] => ret tt
  | c :: classes => SlabClass.destroy c ;; destroy_classes classes
  end.

Definition destroy : M (t * env) unit :=
  a <- on_fst read ;;
  on_snd (destroy_classes (rev (classes_ a))).

#[global] Instance slab_value_allocator : ValueAllocator t := {|
  AllocatorModel.allocate := allocate;
  AllocatorModel.deallocate := deallocate;
  AllocatorModel.metrics := metrics;
  AllocatorModel.destroy := destroy
|}.

End SlabAllocator.
