(* ===== verification/SlabAllocatorFacts.v ===== *)
(** * The slab allocator keeps its contract

    The invariant of the slab allocator - intrusive free lists, ownership of
    slabs by class, accounting - and the proof that it satisfies
    [ValueAllocatorLaws]. *)
From S2P Require Import Prelude ErrorModel Effects MemoryModel AllocatorModel SlabAllocatorModel.
Import Memory.

(** The free list from [head] through the [FreeNode]s in memory is [ps]. *)
Fixpoint free_chain (m : memory) (head : option ptr) (ps : list ptr) : Prop :=
  match ps with
  | [] => head = None
  | p :: ps => head = Some p /\ exists next, load_pointer p m = Some next /\ free_chain m next ps
  end.

(** [p] is a block of class [i]: an aligned cell of one of its slabs. The map
    [B] says which class owns which slab. *)
Definition is_object (B : gmap N nat) (i : nat) (osz : Z) (p : ptr) : Prop :=
  B !! p.1 = Some i /\ exists j, 0 <= j /\ p.2 = j * osz /\ (j + 1) * osz <= slab_size.

(** Bytes lost to rounding by an allocation of [n] bytes. *)
Definition fragmentation (n : Z) : Z :=
  match SlabAllocator.class_size n with Some s => s - n | None => 0 end.

(** Bytes in free blocks. *)
Definition free_total (F : list (list ptr)) : Z :=
  zsum id (zip_with (fun f s => zlen f * s) F size_classes).

Record class_ok (m : memory) (L : gmap ptr Z) (B : gmap N nat) (i : nat) (osz : Z)
    (c : SlabClass.t) (free : list ptr) : Prop := {
  ok_size : SlabClass.object_size_ c = osz;
  ok_chain : free_chain m (SlabClass.free_head_ c) free;
  ok_nodup : NoDup free;
  ok_free : forall p, p ∈ free -> is_object B i osz p /\ L !! p = None
}.

(** The bytes of a value in a block of its own. *)
Definition large_size (kv : ptr * Z) : Z := if largest_class <? kv.2 then kv.2 else 0.

(** Classes, free lists, slabs and live values fit together. *)
Record struct_ok (cs : list SlabClass.t) (m : memory) (L : gmap ptr Z)
    (B : gmap N nat) (F : list (list ptr)) : Prop := {
  st_classes : length cs = length size_classes;
  st_free : length F = length size_classes;
  st_class : forall i osz c free,
    size_classes !! i = Some osz -> cs !! i = Some c -> F !! i = Some free ->
    class_ok m L B i osz c free;
  st_fresh : forall b n, blocks m !! b = Some n -> (b < next_block m)%N;
  st_slab : forall b i, B !! b = Some i -> blocks m !! b = Some slab_size;
  st_live : forall p n, L !! p = Some n -> 0 < n /\
    ((n > largest_class /\ p.2 = 0 /\ blocks m !! p.1 = Some n /\ B !! p.1 = None) \/
     (n <= largest_class /\ exists i osz, SlabAllocator.class_index n = Some i /\
       size_classes !! i = Some osz /\ is_object B i osz p))
}.

(** The metrics account for the live values, the free blocks and the heap. *)
Record acct_ok (x : ValueAllocatorMetrics) (hb : Z) (L : gmap ptr Z) (ft : Z) : Prop := {
  ac_used : used_bytes x = msum snd L;
  ac_frag : internal_fragmentation x = msum (fun kv => fragmentation kv.2) L;
  ac_free : free_bytes x = ft /\ 0 <= ft;
  ac_alloc : allocated_bytes x = used_bytes x + free_bytes x + internal_fragmentation x;
  ac_heap : hb = allocated_bytes x;
  ac_space : hb <= address_space;
  ac_count : u64 (allocation_count x - deallocation_count x) = u64 (Z.of_nat (size L))
}.

(** The slabs of each class are whole blocks of the heap, and with the large values
    they are all of it. *)
Record slabs_ok (cs : list SlabClass.t) (B : gmap N nat) (hb : Z) (L : gmap ptr Z) : Prop := {
  sl_slab : forall i c s, cs !! i = Some c -> s ∈ SlabClass.slabs_ c ->
    (Slab.data_ s).2 = 0 /\ B !! (Slab.data_ s).1 = Some i;
  sl_nodup : forall i c, cs !! i = Some c -> NoDup (SlabClass.slabs_ c);
  sl_heap : hb = msum large_size L + slab_size * zsum SlabClass.slab_count cs
}.

Definition slab_owns (a : SlabAllocator.t) (m : memory) (L : gmap ptr Z) : Prop :=
  exists B F, struct_ok (SlabAllocator.classes_ a) m L B F /\
    acct_ok (SlabAllocator.metrics_ a) (heap_bytes m) L (free_total F) /\
    slabs_ok (SlabAllocator.classes_ a) B (heap_bytes m) L.

(** ** Size classes *)

(** Every small request has a class, the first one that is large enough. *)
Lemma class_index_some n :
  0 < n <= largest_class ->
  exists i osz, SlabAllocator.class_index n = Some i /\ SlabAllocator.class_size n = Some osz /\
    size_classes !! i = Some osz /\ n <= osz /\
    (forall j s, (j < i)%nat -> size_classes !! j = Some s -> s < n).
Proof.
  intros [H0 Hn]. unfold SlabAllocator.class_size, SlabAllocator.class_index.
  rewrite (proj2 (Z.ltb_lt 0 n) H0), (proj2 (Z.leb_le _ _) Hn). simpl.
  change largest_class with 8192 in Hn.
  repeat match goal with
  | |- context [if n <=? ?s then _ else _] => destruct (Z.leb_spec n s)
  end; try lia;
  (eexists _, _; split_and!; [reflexivity|reflexivity|reflexivity|lia|];
   intros j s Hj Hs; repeat (destruct j as [|j]; [simpl in Hs; injection Hs as <-; lia|]); lia).
Qed.

Lemma class_index_none n : n > largest_class -> SlabAllocator.class_size n = None.
Proof.
  intros Hn. unfold SlabAllocator.class_size, SlabAllocator.class_index.
  rewrite (proj2 (Z.leb_gt n _)) by lia. by rewrite andb_false_r.
Qed.

Lemma size_classes_bounds i osz :
  size_classes !! i = Some osz ->
  64 <= osz <= 8192 /\ slab_size = (slab_size / osz) * osz.
Proof.
  intros Hi. apply list_elem_of_lookup_2 in Hi. unfold size_classes in Hi.
  repeat (apply elem_of_cons in Hi as [->|Hi]; [vm_compute; split; [split; discriminate|done]|]).
  by apply elem_of_nil in Hi.
Qed.

Lemma fragmentation_nonneg n : 0 < n -> 0 <= fragmentation n.
Proof.
  intros Hn. unfold fragmentation. destruct (Z.le_gt_cases n largest_class).
  - destruct (class_index_some n) as (i & osz & _ & -> & _ & ? & _); lia.
  - rewrite class_index_none by lia. lia.
Qed.

(** ** Blocks of the slabs do not overlap *)

Lemma disjoint_ranges_le p n q k n' k' :
  n' <= n -> k' <= k -> disjoint_ranges p n q k -> disjoint_ranges p n' q k'.
Proof. unfold disjoint_ranges. lia. Qed.

Lemma disjoint_ranges_sym p n q k : disjoint_ranges p n q k -> disjoint_ranges q k p n.
Proof. unfold disjoint_ranges. intuition congruence. Qed.

Lemma is_object_disjoint B i j osz osz' p q :
  size_classes !! i = Some osz -> size_classes !! j = Some osz' ->
  is_object B i osz p -> is_object B j osz' q -> p <> q ->
  disjoint_ranges p osz q osz'.
Proof.
  intros Hi Hj [Hbp (x & Hx0 & Hx & _)] [Hbq (y & Hy0 & Hy & _)] Hne.
  destruct (decide (p.1 = q.1)) as [Hb|Hb]; [|by left].
  rewrite Hb, Hbq in Hbp. injection Hbp as ->. rewrite Hi in Hj. injection Hj as <-.
  assert (x <> y) by (intros ->; apply Hne; destruct p, q; simpl in *; congruence).
  right. rewrite Hx, Hy. nia.
Qed.

Lemma is_object_bounds B m i osz p :
  (forall b i, B !! b = Some i -> blocks m !! b = Some slab_size) ->
  size_classes !! i = Some osz -> is_object B i osz p -> in_bounds m p osz = true.
Proof.
  intros HB Hi [Hb (x & Hx0 & Hx & Hle)]. destruct (size_classes_bounds _ _ Hi) as [? _].
  unfold in_bounds. rewrite (HB _ _ Hb), Hx.
  apply andb_true_iff. split; apply Z.leb_le; nia.
Qed.

(** ** Frames for the free lists *)

Lemma free_chain_ext m m' head ps :
  (forall p, p ∈ ps -> load_pointer p m' = load_pointer p m) ->
  free_chain m head ps -> free_chain m' head ps.
Proof.
  revert head. induction ps as [|p ps IH]; intros head Hext; simpl; [done|].
  intros (-> & next & Hl & Hc). split; [done|]. exists next. split.
  - rewrite Hext; [done|]. by left.
  - apply IH; [|done]. intros q Hq. apply Hext. by right.
Qed.

Lemma pointer_size_fits i osz : size_classes !! i = Some osz -> Z.of_nat pointer_size <= osz.
Proof. intros Hi. apply size_classes_bounds in Hi as [? _]. unfold pointer_size. lia. Qed.

(** ** One size class *)

Notation psz := (Z.of_nat pointer_size).

Lemma class_deallocate_wp c e p free Q :
  free_chain (mem e) (SlabClass.free_head_ c) free ->
  in_bounds (mem e) p psz = true ->
  (forall q, q ∈ free -> disjoint_ranges p psz q psz) ->
  (forall m', m' = write p (pointer_cells (SlabClass.free_head_ c)) (mem e) ->
    free_chain m' (Some p) (p :: free) ->
    Q (Ret tt) (SlabClass.set_free_head (Some p) c, MkEnv m' (faults e))) ->
  wp (SlabClass.deallocate p) (c, e) Q.
Proof.
  intros Hc Hb Hd HQ. unfold SlabClass.deallocate.
  apply wp_bind, wp_on_fst, wp_read. apply wp_bind, wp_on_snd, wp_store; [done|].
  apply wp_on_fst, wp_modify, HQ; [done|]. simpl. split; [done|].
  eexists. split; [by apply load_pointer_write|].
  eapply free_chain_ext; [|exact Hc]. intros q Hq. apply load_pointer_frame.
  rewrite length_pointer_cells. by apply Hd.
Qed.

Lemma carve_wp n b osz : forall index c e free,
  SlabClass.object_size_ c = osz -> psz <= osz -> 0 <= index ->
  (forall k, 0 <= k < index + Z.of_nat n -> in_bounds (mem e) (b, k * osz) osz = true) ->
  free_chain (mem e) (SlabClass.free_head_ c) free ->
  (forall q, q ∈ free -> exists j, 0 <= j < index /\ q = (b, j * osz)) -> NoDup free ->
  wp (SlabClass.carve (b, 0) index n) (c, e) (post
    (fun _ s => exists free',
      free_chain (mem s.2) (SlabClass.free_head_ s.1) free' /\ NoDup free' /\
      zlen free' = zlen free + Z.of_nat n /\
      (forall q, q ∈ free' -> exists j, 0 <= j < index + Z.of_nat n /\ q = (b, j * osz)) /\
      SlabClass.object_size_ s.1 = osz /\ SlabClass.slabs_ s.1 = SlabClass.slabs_ c /\
      blocks (mem s.2) = blocks (mem e) /\ next_block (mem s.2) = next_block (mem e) /\
      heap_bytes (mem s.2) = heap_bytes (mem e) /\
      (forall q, q.1 <> b -> cells (mem s.2) !! q = cells (mem e) !! q))
    (fun _ _ => False)).
Proof.
  induction n as [|n IH]; intros index c e free Hsz Hp Hi Hb Hc Hf Hnd; simpl.
  { apply wp_ret. exists free. split_and!; try done; [simpl; lia|].
    intros q Hq. destruct (Hf q Hq) as (j & ? & ->). exists j. split; [lia|done]. }
  apply wp_bind, wp_on_fst, wp_read.
  set (p := shift (b, 0) (index * SlabClass.object_size_ c)).
  assert (p = (b, index * osz)) as Hpe by (unfold p, shift; simpl; rewrite Hsz; f_equal; lia).
  apply wp_bind. eapply class_deallocate_wp; [exact Hc|..].
  - rewrite Hpe. eapply in_bounds_le, Hb; [unfold pointer_size in *; lia|lia].
  - intros q Hq. destruct (Hf q Hq) as (j & Hj & ->). rewrite Hpe. right. simpl.
    unfold pointer_size in *. nia.
  - intros m' -> Hc'. eapply wp_post_mono; [eapply (IH (index + 1))|..]; simpl; try done.
    + lia.
    + intros k Hk. rewrite in_bounds_write. apply Hb. lia.
    + intros q Hq. apply elem_of_cons in Hq as [->|Hq].
      * exists index. split; [lia|done].
      * destruct (Hf q Hq) as (j & ? & ->). exists j. split; [lia|done].
    + constructor; [|done]. intros Hin. destruct (Hf _ Hin) as (j & Hj & Heq).
      rewrite Hpe in Heq. injection Heq as Heq. unfold pointer_size in *. nia.
    + intros _ [c' e'] (free' & H1 & H2 & H3 & H4 & H5 & H6 & H7 & H8 & H9 & H10).
      exists free'. simpl in *. split_and!; try done; [lia| |].
      * intros q Hq. destruct (H4 q Hq) as (j & ? & ->). exists j. split; [lia|done].
      * intros q Hq. etransitivity; [exact (H10 q Hq)|]. apply write_cells_out.
        left. by rewrite Hpe.
Qed.

(** [add_slab] on an empty class: either a fresh slab whose blocks are all on the
    free list, or [bad_alloc] and the memory and class as before. *)
Lemma add_slab_wp c m fs i osz :
  size_classes !! i = Some osz -> SlabClass.object_size_ c = osz ->
  SlabClass.free_head_ c = None ->
  blocks m !! next_block m = None ->
  wp SlabClass.add_slab (c, MkEnv m fs) (post
    (fun _ s => exists free,
      free_chain (mem s.2) (SlabClass.free_head_ s.1) free /\ NoDup free /\
      zlen free * osz = slab_size /\
      (forall q, q ∈ free -> q.1 = next_block m /\ exists j, 0 <= j /\ q.2 = j * osz /\
        (j + 1) * osz <= slab_size) /\
      SlabClass.object_size_ s.1 = osz /\
      SlabClass.slabs_ s.1 = SlabClass.slabs_ c ++ [Slab.MkSlab (next_block m, 0)] /\
      blocks (mem s.2) = <[next_block m := slab_size]> (blocks m) /\
      next_block (mem s.2) = N.succ (next_block m) /\
      heap_bytes (mem s.2) = heap_bytes m + slab_size /\
      heap_bytes m + slab_size <= address_space /\
      (forall q, q.1 <> next_block m -> cells (mem s.2) !! q = cells m !! q))
    (fun x s => x = bad_alloc /\ s.1 = c /\ same_heap m (mem s.2))).
Proof.
  intros Hi Hsz Hh Hfresh. unfold SlabClass.add_slab.
  destruct (size_classes_bounds i osz Hi) as [Hosz Hdiv].
  apply wp_bind, wp_on_snd, wp_may_alloc; intros fs1; [|done]. simpl.
  apply wp_bind, wp_on_snd, wp_bind, wp_operator_new; intros fs2; [|done]. intros Hsp.
  apply wp_ret. cbn [Slab.data Slab.data_]. cbn beta iota.
  eapply (wp_bind_post _ _ _ (fun _ s => s.1 = c /\ mem s.2 = new_block slab_size m)
    (fun x s => x = bad_alloc /\ s.1 = c /\ same_heap m (mem s.2))); [| |done].
  { eapply (wp_on_throw _ _ _ _
      (fun x s => x = bad_alloc /\ s.1 = c /\ mem s.2 = new_block slab_size m)).
    - apply wp_on_snd, wp_may_alloc; intros fs3; done.
    - intros x [c' [m' fs3]] (-> & Hc & Hm). simpl in Hc, Hm. subst c' m'.
      eapply wp_on_snd, (wp_operator_delete _ slab_size); simpl; [|done|].
      + by rewrite lookup_insert_eq.
      + unfold same_heap. simpl. rewrite delete_insert_id by done.
        split_and!; try done; lia. }
  intros [] [c' [m' fs3]] [Hc Hm]. simpl in Hc, Hm. subst c' m'.
  apply wp_bind, wp_on_fst, wp_modify. apply wp_bind, wp_on_fst, wp_read. simpl.
  rewrite Hsz. set (n := Z.to_nat (slab_size / osz)).
  assert (Z.of_nat n * osz = slab_size) as Hn
    by (unfold n; rewrite Z2Nat.id by (apply Z.div_pos; unfold slab_size; lia); done).
  eapply wp_post_mono; [eapply (carve_wp n _ osz 0 _ _ []); simpl|..]; try done.
  - apply (pointer_size_fits i osz Hi).
  - intros k Hk. unfold in_bounds. simpl. rewrite lookup_insert_eq.
    apply andb_true_iff. split; apply Z.leb_le; nia.
  - by intros q Hq%elem_of_nil.
  - constructor.
  - intros _ [c' e'] (free & H1 & H2 & H3 & H4 & H5 & H6 & H7 & H8 & H9 & H10). simpl in *.
    exists free. split_and!; try done.
    + by rewrite H3.
    + intros q Hq. destruct (H4 q Hq) as (j & Hj & ->). simpl. split; [done|].
      exists j. split_and!; [lia|done|nia].
Qed.

(** ** Structure lemmas *)

Section structure.
Context {cs : list SlabClass.t} {m : memory} {L : gmap ptr Z} {B : gmap N nat}
  {F : list (list ptr)}.
Hypothesis Hok : struct_ok cs m L B F.

Lemma st_lookup i osz :
  size_classes !! i = Some osz -> exists c free, cs !! i = Some c /\ F !! i = Some free /\
    class_ok m L B i osz c free.
Proof.
  intros Hi. apply lookup_lt_Some in Hi as Hlt.
  destruct (lookup_lt_is_Some_2 cs i) as [c Hc]; [by rewrite (st_classes _ _ _ _ _ Hok)|].
  destruct (lookup_lt_is_Some_2 F i) as [free Hf]; [by rewrite (st_free _ _ _ _ _ Hok)|].
  exists c, free. split_and!; try done. by eapply (st_class _ _ _ _ _ Hok).
Qed.

(** A live value and a free block are disjoint, and so are two live values. *)
Lemma live_free_disjoint p n i osz free q :
  L !! p = Some n -> size_classes !! i = Some osz -> F !! i = Some free -> q ∈ free ->
  disjoint_ranges p n q psz.
Proof.
  intros Hp Hi Hf Hq. destruct (st_lookup i osz Hi) as (c & free' & Hc & Hf' & Hcok).
  rewrite Hf in Hf'. injection Hf' as <-.
  destruct (ok_free _ _ _ _ _ _ _ Hcok q Hq) as [Hobj HqL].
  assert (p <> q) as Hne by (intros ->; congruence).
  destruct (st_live _ _ _ _ _ Hok p n Hp) as [_ [(_ & _ & _ & HB)|(Hn & j & osz' & Hj & Hs & Ho)]].
  - left. intros Heq. destruct Hobj as [Hb _]. rewrite Heq in HB. congruence.
  - destruct (class_index_some n) as (j' & s' & Hj' & _ & Hs' & Hle & _).
    { destruct (st_live _ _ _ _ _ Hok p n Hp). lia. }
    rewrite Hj in Hj'. injection Hj' as <-. rewrite Hs in Hs'. injection Hs' as <-.
    eapply disjoint_ranges_le, (is_object_disjoint B j i osz' osz); try done.
    apply (pointer_size_fits i osz Hi).
Qed.

Lemma live_live_disjoint p n q k :
  L !! p = Some n -> L !! q = Some k -> p <> q -> disjoint_ranges p n q k.
Proof.
  intros Hp Hq Hne.
  destruct (st_live _ _ _ _ _ Hok p n Hp) as [Hn [(Hn' & Hpo & _ & HBp)|(Hn' & i & osz & Hi & Hs & Ho)]];
  destruct (st_live _ _ _ _ _ Hok q k Hq) as [Hk [(Hk' & Hqo & _ & HBq)|(Hk' & j & osz' & Hj & Hs' & Ho')]].
  - left. intros Heq. apply Hne. destruct p, q; simpl in *; congruence.
  - left. intros Heq. destruct Ho' as [Hb _]. rewrite Heq in HBp. congruence.
  - left. intros Heq. destruct Ho as [Hb _]. rewrite Heq in Hb. congruence.
  - destruct (class_index_some n) as (? & ? & Hi2 & _ & Hs2 & Hle & _); [lia|].
    destruct (class_index_some k) as (? & ? & Hj2 & _ & Hs2' & Hle' & _); [lia|].
    simplify_eq. by eapply disjoint_ranges_le, (is_object_disjoint B i j osz osz').
Qed.

Lemma live_in_bounds p n : L !! p = Some n -> 0 < n /\ in_bounds m p n = true.
Proof.
  intros Hp.
  destruct (st_live _ _ _ _ _ Hok p n Hp) as [Hn [(_ & Hpo & Hb & _)|(Hn' & i & osz & Hi & Hs & Ho)]];
    (split; [done|]).
  - unfold in_bounds. rewrite Hb, Hpo. by apply Z.leb_le.
  - destruct (class_index_some n) as (? & ? & Hi2 & _ & Hs2 & Hle & _); [lia|]. simplify_eq.
    eapply in_bounds_le; [|by eapply is_object_bounds, Ho; [apply Hok|]]. lia.
Qed.

(** The structure only depends on the blocks and on the free-list pointers. *)
Lemma struct_ok_memory m' :
  (forall b n, blocks m !! b = Some n -> blocks m' !! b = Some n) ->
  (forall b n, blocks m' !! b = Some n -> (b < next_block m')%N) ->
  (forall i osz free q, size_classes !! i = Some osz -> F !! i = Some free -> q ∈ free ->
    load_pointer q m' = load_pointer q m) ->
  struct_ok cs m' L B F.
Proof.
  intros Hb Hfr Hl. destruct Hok as [H1 H2 H3 H4 H5 H6]. constructor; try done.
  - intros i osz c free Hi Hc Hf. destruct (H3 i osz c free Hi Hc Hf) as [C1 C2 C3 C4].
    constructor; try done. eapply free_chain_ext; [|exact C2]. intros q Hq. by eapply Hl.
  - intros b i Hi. by eapply Hb, H5.
  - intros p n Hp. destruct (H6 p n Hp) as [Hn [(? & ? & ? & ?)|?]]; (split; [done|]).
    + left. split_and!; try done. by apply Hb.
    + by right.
Qed.

Lemma struct_ok_same_heap m' : same_heap m m' -> struct_ok cs m' L B F.
Proof.
  intros (Hb & Hc & Hh & Hn). apply struct_ok_memory.
  - intros b n Hbn. by rewrite Hb.
  - intros b n Hbn. rewrite Hb in Hbn. apply (st_fresh _ _ _ _ _ Hok) in Hbn. lia.
  - intros i osz free q _ _ _. apply load_pointer_blocks; [done|by rewrite Hb].
Qed.

Lemma struct_ok_write p n vs :
  L !! p = Some n -> zlen vs <= n -> struct_ok cs (write p vs m) L B F.
Proof.
  intros Hp Hn. apply struct_ok_memory; [done|apply Hok|].
  intros i osz free q Hi Hf Hq. apply load_pointer_frame.
  eapply disjoint_ranges_le; [exact Hn|done|by eapply live_free_disjoint].
Qed.

(** Popping the head of a free list makes it a live value. *)
Lemma struct_ok_pop i osz n c p next free :
  size_classes !! i = Some osz -> SlabAllocator.class_index n = Some i ->
  0 < n <= largest_class -> cs !! i = Some c -> F !! i = Some (p :: free) ->
  load_pointer p m = Some next -> free_chain m next free ->
  L !! p = None /\
  struct_ok (<[i := SlabClass.set_free_head next c]> cs) m (<[p := n]> L) B (<[i := free]> F).
Proof.
  intros Hi Hn Hr Hc Hf Hl Hch.
  destruct (st_class _ _ _ _ _ Hok i osz c (p :: free) Hi Hc Hf) as [C1 C2 C3 C4].
  destruct (C4 p ltac:(left)) as [Hobj HpL]. apply NoDup_cons in C3 as [Hnin C3].
  split; [done|]. constructor.
  - by rewrite length_insert, (st_classes _ _ _ _ _ Hok).
  - by rewrite length_insert, (st_free _ _ _ _ _ Hok).
  - intros j osz' c' free' Hj Hc' Hf'. destruct (decide (i = j)) as [<-|Hij].
    + rewrite list_lookup_insert_eq in Hc' by (by eapply lookup_lt_Some).
      rewrite list_lookup_insert_eq in Hf' by (by eapply lookup_lt_Some).
      simplify_eq. constructor; try done. intros q Hq.
      destruct (C4 q ltac:(by right)) as [? ?]. split; [done|].
      rewrite lookup_insert_ne; [done|]. by intros ->.
    + rewrite list_lookup_insert_ne in Hc' by done. rewrite list_lookup_insert_ne in Hf' by done.
      destruct (st_class _ _ _ _ _ Hok j osz' c' free' Hj Hc' Hf') as [D1 D2 D3 D4].
      constructor; try done. intros q Hq. destruct (D4 q Hq) as [Hqo HqL]. split; [done|].
      rewrite lookup_insert_ne; [done|]. intros ->. destruct Hobj as [HB _], Hqo as [HB' _]. congruence.
  - apply Hok.
  - apply Hok.
  - intros q k Hq. destruct (decide (p = q)) as [<-|Hne].
    + rewrite lookup_insert_eq in Hq. injection Hq as <-. split; [lia|]. right.
      split; [lia|]. eauto.
    + rewrite lookup_insert_ne in Hq by done. by apply (st_live _ _ _ _ _ Hok).
Qed.

(** Pushing a released value back on the free list of its class. *)
Lemma struct_ok_push i osz n c p free m' :
  size_classes !! i = Some osz -> SlabAllocator.class_index n = Some i -> n <= largest_class ->
  cs !! i = Some c -> F !! i = Some free -> L !! p = Some n ->
  m' = write p (pointer_cells (SlabClass.free_head_ c)) m -> free_chain m' (Some p) (p :: free) ->
  struct_ok (<[i := SlabClass.set_free_head (Some p) c]> cs) m' (delete p L) B (<[i := p :: free]> F).
Proof.
  intros Hi Hn Hr Hc Hf Hp -> Hch.
  destruct (st_class _ _ _ _ _ Hok i osz c free Hi Hc Hf) as [C1 C2 C3 C4].
  destruct (st_live _ _ _ _ _ Hok p n Hp) as [Hn0 [(? & _)|(_ & i' & osz' & Hi' & Hs' & Hobj)]]; [lia|].
  simplify_eq. constructor.
  - by rewrite length_insert, (st_classes _ _ _ _ _ Hok).
  - by rewrite length_insert, (st_free _ _ _ _ _ Hok).
  - intros j osz' c' free' Hj Hc' Hf'. destruct (decide (i = j)) as [<-|Hij].
    + rewrite list_lookup_insert_eq in Hc' by (by eapply lookup_lt_Some).
      rewrite list_lookup_insert_eq in Hf' by (by eapply lookup_lt_Some).
      simplify_eq. constructor; try done.
      * constructor; [|done]. intros Hin. destruct (C4 p Hin). congruence.
      * intros q Hq. apply elem_of_cons in Hq as [->|Hq].
        -- split; [done|]. by rewrite lookup_delete_eq.
        -- destruct (C4 q Hq). split; [done|]. by apply lookup_delete_None; right.
    + rewrite list_lookup_insert_ne in Hc' by done. rewrite list_lookup_insert_ne in Hf' by done.
      destruct (st_class _ _ _ _ _ Hok j osz' c' free' Hj Hc' Hf') as [D1 D2 D3 D4].
      constructor; try done.
      * eapply free_chain_ext; [|exact D2]. intros q Hq. apply load_pointer_frame.
        rewrite length_pointer_cells. destruct (D4 q Hq) as [Hqo _].
        left. intros Heq. destruct Hobj as [HB _], Hqo as [HB' _]. rewrite Heq in HB. congruence.
      * intros q Hq. destruct (D4 q Hq). split; [done|]. by apply lookup_delete_None; right.
  - apply Hok.
  - apply Hok.
  - intros q k Hq. apply lookup_delete_Some in Hq as [_ Hq]. by apply (st_live _ _ _ _ _ Hok).
Qed.

(** The memory grew by the block [next_block m], carved into the free list of
    class [i], whose own was empty. *)
Lemma struct_ok_grow i osz c' free m' :
  size_classes !! i = Some osz -> F !! i = Some [] ->
  free_chain m' (SlabClass.free_head_ c') free -> NoDup free ->
  (forall q, q ∈ free -> q.1 = next_block m /\ exists j, 0 <= j /\ q.2 = j * osz /\
    (j + 1) * osz <= slab_size) ->
  SlabClass.object_size_ c' = osz ->
  blocks m' = <[next_block m := slab_size]> (blocks m) ->
  next_block m' = N.succ (next_block m) ->
  (forall q, q.1 <> next_block m -> cells m' !! q = cells m !! q) ->
  struct_ok (<[i := c']> cs) m' L (<[next_block m := i]> B) (<[i := free]> F) /\
  same_contents L m m'.
Proof.
  intros Hi Hf Hch Hnd Hq Hsz Hbl Hnb Hce.
  assert (forall b n, blocks m !! b = Some n -> b <> next_block m) as Hlt.
  { intros b n Hb ->. apply (st_fresh _ _ _ _ _ Hok) in Hb. lia. }
  assert (forall b n, blocks m !! b = Some n -> blocks m' !! b = Some n) as Hkeep.
  { intros b n Hb. rewrite Hbl, lookup_insert_ne; [done|]. by eapply not_eq_sym, Hlt. }
  assert (forall b j, B !! b = Some j -> b <> next_block m) as HBlt.
  { intros b j Hb. eapply Hlt, (st_slab _ _ _ _ _ Hok), Hb. }
  assert (forall j s q, is_object B j s q -> is_object (<[next_block m := i]> B) j s q) as Hobj.
  { intros j s q [HB Hx]. split; [|done]. rewrite lookup_insert_ne; [done|].
    by eapply not_eq_sym, HBlt. }
  assert (forall p n, L !! p = Some n -> p.1 <> next_block m) as HL.
  { intros p n Hp. destruct (live_in_bounds p n Hp) as [_ Hb]. unfold in_bounds in Hb.
    destruct (blocks m !! p.1) eqn:E; [by eapply Hlt|done]. }
  split.
  - constructor.
    + by rewrite length_insert, (st_classes _ _ _ _ _ Hok).
    + by rewrite length_insert, (st_free _ _ _ _ _ Hok).
    + intros j osz' c1 free1 Hj Hc1 Hf1. destruct (decide (i = j)) as [<-|Hij].
      * apply list_lookup_insert_Some in Hc1 as [(_ & -> & _)|(? & _)]; [|done].
        rewrite list_lookup_insert_eq in Hf1 by (by eapply lookup_lt_Some).
        simplify_eq. constructor; try done. intros q Hqin.
        destruct (Hq q Hqin) as [Hqb Hqj]. split.
        -- split; [|done]. by rewrite Hqb, lookup_insert_eq.
        -- apply eq_None_not_Some. intros [n Hn]. by apply (HL q n).
      * rewrite list_lookup_insert_ne in Hc1 by done.
        rewrite list_lookup_insert_ne in Hf1 by done.
        destruct (st_class _ _ _ _ _ Hok j osz' c1 free1 Hj Hc1 Hf1) as [D1 D2 D3 D4].
        constructor; try done.
        -- eapply free_chain_ext; [|exact D2]. intros q Hqin.
           destruct (D4 q Hqin) as [[HB _] _]. apply (load_pointer_off (next_block m)); [done|..].
           ++ by eapply HBlt.
           ++ apply (st_slab _ _ _ _ _ Hok) in HB. by rewrite HB, (Hkeep _ _ HB).
        -- intros q Hqin. destruct (D4 q Hqin). split; [by apply Hobj|done].
    + intros b n. rewrite Hbl, Hnb. intros Hb. apply lookup_insert_Some in Hb as [[<- _]|[_ Hb]]; [lia|].
      apply (st_fresh _ _ _ _ _ Hok) in Hb. lia.
    + intros b j Hb. apply lookup_insert_Some in Hb as [[<- _]|[_ Hb]].
      * by rewrite Hbl, lookup_insert_eq.
      * eapply Hkeep, (st_slab _ _ _ _ _ Hok), Hb.
    + intros p n Hp. destruct (st_live _ _ _ _ _ Hok p n Hp)
        as [Hn [(? & ? & ? & ?)|(? & j & s & ? & ? & ?)]]; (split; [done|]).
      * left. split_and!; try done; [by apply Hkeep|].
        rewrite lookup_insert_ne; [done|]. by eapply not_eq_sym, HL.
      * right. split; [done|]. eauto 6.
  - intros q k Hqk. apply (load_chars_off (next_block m)); [done|by eapply HL|].
    destruct (live_in_bounds q k Hqk) as [_ Hb]. unfold in_bounds in Hb.
    destruct (blocks m !! q.1) eqn:E; [by apply Hkeep|done].
Qed.

End structure.

(** ** Accounting lemmas *)

Lemma free_total_insert F i osz free free' :
  size_classes !! i = Some osz -> F !! i = Some free ->
  free_total (<[i := free']> F) = free_total F - zlen free * osz + zlen free' * osz.
Proof.
  intros Hi Hf. unfold free_total.
  rewrite <- (list_insert_id size_classes i osz Hi) at 1.
  rewrite <- insert_zip_with.
  rewrite (zsum_insert id _ i (zlen free * osz)); [done|].
  rewrite lookup_zip_with, Hf. simpl. by rewrite Hi.
Qed.

Lemma free_total_lower F i osz free :
  size_classes !! i = Some osz -> F !! i = Some free -> zlen free * osz <= free_total F.
Proof.
  intros Hi Hf. pose proof (free_total_insert F i osz free [] Hi Hf) as H0.
  assert (0 <= free_total (<[i := []]> F)); [|simpl in *; lia].
  apply zsum_nonneg. intros x Hx. apply list_elem_of_lookup in Hx as [j Hj].
  apply lookup_zip_with_Some in Hj as (f & s & -> & _ & Es).
  apply size_classes_bounds in Es. simpl. lia.
Qed.

Lemma msum_frag_nonneg (L : gmap ptr Z) :
  (forall p n, L !! p = Some n -> 0 < n) -> 0 <= msum (fun kv => fragmentation kv.2) L.
Proof. intros HL. apply msum_nonneg. intros k v Hk. apply fragmentation_nonneg. by eapply HL. Qed.

(** ** The slabs *)

Lemma slabs_ok_class cs B hb L i c c' :
  slabs_ok cs B hb L -> cs !! i = Some c -> SlabClass.slabs_ c' = SlabClass.slabs_ c ->
  slabs_ok (<[i := c']> cs) B hb L.
Proof.
  intros [H1 H2 H3] Hi Hs. constructor.
  - intros j d s. rewrite list_lookup_insert_Some. intros [(<- & <- & _)|[_ Hj]]; [|by eapply H1].
    rewrite Hs. by eapply H1.
  - intros j d. rewrite list_lookup_insert_Some. intros [(<- & <- & _)|[_ Hj]]; [|by eapply H2].
    rewrite Hs. by eapply H2.
  - rewrite (zsum_insert _ _ _ _ _ Hi). unfold SlabClass.slab_count at 2 3. rewrite Hs. lia.
Qed.

Lemma slabs_ok_grow cs B hb L i c c' b :
  slabs_ok cs B hb L -> cs !! i = Some c ->
  SlabClass.slabs_ c' = SlabClass.slabs_ c ++ [Slab.MkSlab (b, 0)] -> B !! b = None ->
  slabs_ok (<[i := c']> cs) (<[b := i]> B) (hb + slab_size) L.
Proof.
  intros [H1 H2 H3] Hi Hs Hb.
  assert (forall j d s, cs !! j = Some d -> s ∈ SlabClass.slabs_ d -> (Slab.data_ s).1 <> b) as Hne.
  { intros j d s Hj Hin <-. destruct (H1 j d s Hj Hin). congruence. }
  assert (forall j d s, cs !! j = Some d -> s ∈ SlabClass.slabs_ d ->
    (Slab.data_ s).2 = 0 /\ <[b := i]> B !! (Slab.data_ s).1 = Some j) as Hold.
  { intros j d s Hj Hin. rewrite lookup_insert_ne by (by eapply not_eq_sym, Hne). by eapply H1. }
  constructor.
  - intros j d s. rewrite list_lookup_insert_Some. intros [(<- & <- & _)|[_ Hj]]; [|by apply Hold].
    rewrite Hs, elem_of_app, list_elem_of_singleton. intros [Hin| ->]; [by apply (Hold i c)|].
    simpl. by rewrite lookup_insert_eq.
  - intros j d. rewrite list_lookup_insert_Some. intros [(<- & <- & _)|[_ Hj]]; [|by eapply H2].
    rewrite Hs. apply NoDup_app. split_and!; [by eapply H2| |apply NoDup_singleton].
    intros s Hin ->%list_elem_of_singleton. by destruct (Hne i c _ Hi Hin).
  - rewrite (zsum_insert _ _ _ _ _ Hi). unfold SlabClass.slab_count at 2 3. rewrite Hs, length_app. simpl. lia.
Qed.

Lemma slabs_ok_insert cs B hb L p n :
  slabs_ok cs B hb L -> L !! p = None -> slabs_ok cs B (hb + large_size (p, n)) (<[p := n]> L).
Proof. intros [H1 H2 H3] Hp. constructor; [done..|]. rewrite msum_insert by done. lia. Qed.

Lemma slabs_ok_delete cs B hb L p n :
  slabs_ok cs B hb L -> L !! p = Some n -> slabs_ok cs B (hb - large_size (p, n)) (delete p L).
Proof.
  intros [H1 H2 H3] Hp. constructor; [done..|]. pose proof (msum_delete large_size L p n Hp). lia.
Qed.

Lemma large_size_small p n : n <= largest_class -> large_size (p, n) = 0.
Proof. intros Hn. unfold large_size. simpl. by rewrite (proj2 (Z.ltb_ge _ _)) by lia. Qed.

Lemma large_size_large p n : largest_class < n -> large_size (p, n) = n.
Proof. intros Hn. unfold large_size. simpl. by rewrite (proj2 (Z.ltb_lt _ _)) by lia. Qed.

(** ** Allocation and release in one class *)

(** [SlabClass::allocate]: a block that was free and is now live; when the class
    had none left a slab was added first. *)
Lemma class_allocate_wp cs m L B F fs i osz n c :
  struct_ok cs m L B F -> heap_bytes m <= address_space ->
  size_classes !! i = Some osz -> SlabAllocator.class_index n = Some i ->
  0 < n <= largest_class -> cs !! i = Some c ->
  wp SlabClass.allocate (c, MkEnv m fs) (post
    (fun p s => L !! p = None /\ (exists B' F',
      struct_ok (<[i := s.1]> cs) (mem s.2) (<[p := n]> L) B' F' /\
      osz <= free_total F' + osz /\
      (slabs_ok cs B (heap_bytes m) L -> slabs_ok (<[i := s.1]> cs) B' (heap_bytes (mem s.2)) L) /\
      ((SlabClass.slab_count s.1 = SlabClass.slab_count c /\ heap_bytes (mem s.2) = heap_bytes m /\
        free_total F' = free_total F - osz) \/
       (SlabClass.slab_count s.1 = SlabClass.slab_count c + 1 /\
        heap_bytes (mem s.2) = heap_bytes m + slab_size /\
        heap_bytes (mem s.2) <= address_space /\
        free_total F' = free_total F + slab_size - osz))) /\ same_contents L m (mem s.2))
    (fun x s => x = bad_alloc /\ s.1 = c /\ same_heap m (mem s.2))).
Proof.
  intros Hok Hsp Hi Hn Hr Hc. unfold SlabClass.allocate.
  apply lookup_lt_Some in Hc as Hlt.
  destruct (st_lookup Hok i osz Hi) as (c0 & free & Hc0 & Hf & Hcok). simplify_eq.
  apply wp_bind, wp_on_fst, wp_read. simpl.
  destruct (decide _) as [Hnone|Hsome].
  - destruct free as [|p0 free]; [|by destruct (ok_chain _ _ _ _ _ _ _ Hcok) as [? _]; congruence].
    eapply wp_bind_post; [eapply add_slab_wp; try done|..]; [apply Hcok| | |done].
    { apply eq_None_not_Some. intros [k Hk]. apply (st_fresh _ _ _ _ _ Hok) in Hk. lia. }
    intros _ [c' [m' fs']] (free & H1 & H2 & H3 & H4 & H5 & H6 & H7 & H8 & H9 & H10 & H11).
    simpl in *.
    destruct (struct_ok_grow Hok i osz c' free m') as [Hok' Hsame]; try done.
    destruct free as [|p free]; [unfold slab_size in *; simpl in *; lia|].
    destruct H1 as (Hh & next & Hl & Hch).
    apply wp_bind, wp_on_fst, wp_read. apply wp_bind, wp_on_snd, wp_read. simpl.
    rewrite Hh, Hl. apply wp_bind, wp_on_fst, wp_modify, wp_ret. simpl.
    destruct (struct_ok_pop Hok' i osz n c' p next free) as [HpL Hpop]; try done.
    { by rewrite list_lookup_insert_eq. }
    { rewrite list_lookup_insert_eq; [done|]. by eapply lookup_lt_Some. }
    rewrite !list_insert_insert_eq in Hpop.
    split_and!; [done| |done]. eexists _, _. split; [exact Hpop|].
    rewrite (free_total_insert F i osz []) by done. simpl in *.
    pose proof (free_total_lower F i osz [] Hi Hf). simpl in *.
    destruct (size_classes_bounds i osz Hi) as [? _].
    split; [nia|]. split.
    { intros Hsl. rewrite H9. eapply slabs_ok_grow; [exact Hsl|exact Hc|exact H6|].
      apply eq_None_not_Some. intros [j HB]. apply (st_slab _ _ _ _ _ Hok) in HB.
      apply (st_fresh _ _ _ _ _ Hok) in HB. lia. }
    right. unfold SlabClass.slab_count. simpl. rewrite H6, length_app. simpl. lia.
  - apply wp_bind, wp_ret. cbn beta iota.
    apply wp_bind, wp_on_fst, wp_read. apply wp_bind, wp_on_snd, wp_read. simpl.
    pose proof (ok_chain _ _ _ _ _ _ _ Hcok) as Hch.
    destruct free as [|p free]; [done|]. destruct Hch as (Hh & next & Hl & Hch).
    rewrite Hh, Hl. apply wp_bind, wp_on_fst, wp_modify, wp_ret. simpl.
    destruct (struct_ok_pop Hok i osz n c p next free) as [HpL Hpop]; try done.
    split_and!; [done| |apply same_contents_refl]. eexists _, _. split; [exact Hpop|].
    rewrite (free_total_insert F i osz (p :: free)) by done.
    pose proof (free_total_lower F i osz (p :: free) Hi Hf). simpl in *.
    destruct (size_classes_bounds i osz Hi) as [? _].
    split; [nia|]. split; [by intros Hsl; eapply slabs_ok_class|]. left. split_and!; [done|done|nia].
Qed.

(** ** The contract *)

Lemma on_class_wp {A} (a : SlabAllocator.t) e i c (f : M (SlabClass.t * env) A) Q :
  SlabAllocator.classes_ a !! i = Some c ->
  wp f (c, e) (fun o s => Q o
    (SlabAllocator.MkSlabAllocator (<[i := s.1]> (SlabAllocator.classes_ a))
       (SlabAllocator.metrics_ a), s.2)) ->
  wp (SlabAllocator.on_class i f) (a, e) Q.
Proof.
  intros Hc. unfold wp, SlabAllocator.on_class. simpl. rewrite Hc.
  by destruct (f (c, e)) as [o [c' e']].
Qed.

Section accounting.
Context {x : ValueAllocatorMetrics} {hb : Z} {L : gmap ptr Z} {ft : Z}.
Hypothesis Hac : acct_ok x hb L ft.
Hypothesis Hpos : forall p n, L !! p = Some n -> 0 < n.

Lemma acct_bounds : 0 <= msum snd L /\ 0 <= msum (fun kv => fragmentation kv.2) L /\
  msum snd L + ft + msum (fun kv => fragmentation kv.2) L = hb /\ 0 <= ft /\ hb < 2 ^ 63.
Proof.
  destruct Hac as [H1 H2 [H3 H3'] H4 H5 H6 H7]. unfold address_space in *.
  pose proof (msum_frag_nonneg L Hpos).
  assert (0 <= msum snd L) by (apply msum_nonneg; intros k v Hk; apply Hpos in Hk; simpl; lia).
  lia.
Qed.

Lemma acct_count_block p n osz :
  L !! p = None -> 0 < n -> SlabAllocator.class_size n = Some osz -> n <= osz -> osz <= ft ->
  acct_ok (SlabAllocator.count_block n osz x) hb (<[p := n]> L) (ft - osz).
Proof.
  intros Hp Hn Hcs Hle Hft. destruct acct_bounds as (B1 & B2 & B3 & B4 & B5).
  destruct Hac as [H1 H2 [H3 _] H4 H5 H6 H7].
  assert (fragmentation n = osz - n) as Hfr by (unfold fragmentation; by rewrite Hcs).
  constructor; simpl; rewrite ?msum_insert, ?H1, ?H2, ?H3 by done; simpl; rewrite ?Hfr;
    rewrite ?(u64_small (osz - n)) by lia; rewrite ?u64_small by lia; try lia; try done.
  rewrite map_size_insert_None, Nat2Z.inj_succ by done. by apply count_step.
Qed.

Lemma acct_uncount_block p n osz :
  L !! p = Some n -> SlabAllocator.class_size n = Some osz -> n <= osz ->
  acct_ok (SlabAllocator.uncount_block n osz x) hb (delete p L) (ft + osz).
Proof.
  intros Hp Hcs Hle. destruct acct_bounds as (B1 & B2 & B3 & B4 & B5).
  destruct Hac as [H1 H2 [H3 _] H4 H5 H6 H7]. pose proof (Hpos p n Hp) as Hn.
  assert (fragmentation n = osz - n) as Hfr by (unfold fragmentation; by rewrite Hcs).
  pose proof (msum_delete snd L p n Hp) as S1.
  pose proof (msum_delete (fun kv => fragmentation kv.2) L p n Hp) as S2. simpl in S1, S2.
  assert (0 <= msum snd (delete p L)) by (apply msum_nonneg; intros k v Hk;
    apply lookup_delete_Some in Hk as [_ Hk]; apply Hpos in Hk; simpl; lia).
  assert (0 <= msum (fun kv => fragmentation kv.2) (delete p L)) by (apply msum_frag_nonneg;
    intros k v Hk; apply lookup_delete_Some in Hk as [_ Hk]; by eapply Hpos).
  constructor; simpl; rewrite ?H1, ?H2, ?H3; rewrite ?(u64_small (osz - n)) by lia;
    rewrite ?u64_small by lia; try lia; try done.
  rewrite (size_delete_pos L p n) by done. by apply uncount_step.
Qed.

Lemma acct_count_slab :
  hb + slab_size <= address_space ->
  acct_ok (SlabAllocator.count_slab x) (hb + slab_size) L (ft + slab_size).
Proof.
  intros Hsp. destruct acct_bounds as (B1 & B2 & B3 & B4 & B5).
  destruct Hac as [H1 H2 [H3 _] H4 H5 H6 H7]. unfold address_space in *.
  assert (slab_size = 1048576) as Hs by done.
  constructor; simpl; rewrite ?u64_small by lia; try (unfold address_space; lia); done.
Qed.

Lemma acct_count_large p n :
  L !! p = None -> largest_class < n -> hb + n <= address_space ->
  acct_ok (SlabAllocator.count_large n x) (hb + n) (<[p := n]> L) ft.
Proof.
  intros Hp Hn Hsp. destruct acct_bounds as (B1 & B2 & B3 & B4 & B5).
  destruct Hac as [H1 H2 [H3 _] H4 H5 H6 H7]. unfold address_space in *.
  assert (0 < largest_class) by done.
  assert (fragmentation n = 0) as Hfr by (unfold fragmentation; by rewrite class_index_none by lia).
  constructor; simpl; rewrite ?msum_insert by done; simpl; rewrite ?Hfr, ?u64_small by lia;
    try (unfold address_space; lia); try done.
  rewrite map_size_insert_None, Nat2Z.inj_succ by done. by apply count_step.
Qed.

Lemma acct_uncount_large p n :
  L !! p = Some n -> largest_class < n ->
  acct_ok (SlabAllocator.uncount_large n x) (hb - n) (delete p L) ft.
Proof.
  intros Hp Hn. destruct acct_bounds as (B1 & B2 & B3 & B4 & B5).
  destruct Hac as [H1 H2 [H3 _] H4 H5 H6 H7].
  assert (0 < largest_class) by done.
  assert (fragmentation n = 0) as Hfr by (unfold fragmentation; by rewrite class_index_none by lia).
  pose proof (msum_delete snd L p n Hp) as S1.
  pose proof (msum_delete (fun kv => fragmentation kv.2) L p n Hp) as S2. simpl in S1, S2.
  assert (0 <= msum snd (delete p L)) by (apply msum_nonneg; intros k v Hk;
    apply lookup_delete_Some in Hk as [_ Hk]; apply Hpos in Hk; simpl; lia).
  constructor; simpl; rewrite ?u64_small by lia; try lia; try done.
  rewrite (size_delete_pos L p n) by done. by apply uncount_step.
Qed.

End accounting.

Lemma struct_pos {cs m L B F} : struct_ok cs m L B F -> forall p n, L !! p = Some n -> 0 < n.
Proof. intros Hok p n Hp. by apply (live_in_bounds Hok) in Hp as [? _]. Qed.

(** A value larger than every class gets a block of its own. *)
Lemma struct_ok_large cs m L B F n :
  struct_ok cs m L B F -> largest_class < n ->
  L !! (next_block m, 0) = None /\
  struct_ok cs (new_block n m) (<[(next_block m, 0) := n]> L) B F /\
  same_contents L m (new_block n m).
Proof.
  intros Hok Hn.
  assert (forall b k, blocks m !! b = Some k -> next_block m <> b) as Hlt.
  { intros b k Hb <-. apply (st_fresh _ _ _ _ _ Hok) in Hb. lia. }
  assert (L !! (next_block m, 0) = None) as Hfresh.
  { apply eq_None_not_Some. intros [k Hk]. apply (live_in_bounds Hok) in Hk as [_ Hk].
    unfold in_bounds in Hk. simpl in Hk. destruct (blocks m !! next_block m) eqn:E; [|done].
    by apply (Hlt _ _ E). }
  assert (struct_ok cs (new_block n m) L B F) as Hok'.
  { apply (struct_ok_memory Hok).
    - intros b k Hb. simpl. rewrite lookup_insert_ne; [done|]. by eapply Hlt.
    - intros b k Hb. simpl in *. apply lookup_insert_Some in Hb as [[<- _]|[_ Hb]]; [lia|].
      apply (st_fresh _ _ _ _ _ Hok) in Hb. lia.
    - intros i osz free q Hi Hf Hq. apply load_pointer_blocks; [done|]. simpl.
      destruct (st_lookup Hok i osz Hi) as (c & free' & Hc & Hf' & Hcok). simplify_eq.
      destruct (ok_free _ _ _ _ _ _ _ Hcok q Hq) as [[HB _] _].
      apply (st_slab _ _ _ _ _ Hok) in HB. rewrite lookup_insert_ne; [done|]. by eapply Hlt. }
  split_and!; [done| |].
  - destruct Hok' as [H1 H2 H3 H4 H5 H6]. constructor; try done.
    + intros i osz c free Hi Hc Hf. destruct (H3 i osz c free Hi Hc Hf) as [C1 C2 C3 C4].
      constructor; try done. intros q Hq. destruct (C4 q Hq) as [[HB Hj] HqL].
      split; [by split|]. rewrite lookup_insert_ne; [done|]. intros <-. simpl in HB.
      apply (st_slab _ _ _ _ _ Hok) in HB. by apply (Hlt _ _ HB).
    + intros q k Hq. apply lookup_insert_Some in Hq as [[<- <-]|[_ Hq]]; [|by apply H6].
      assert (0 < largest_class) by done. split; [lia|]. left. simpl. rewrite lookup_insert_eq.
      split_and!; [lia|done|done|]. apply eq_None_not_Some. intros [j HB].
      apply (st_slab _ _ _ _ _ Hok) in HB. by apply (Hlt _ _ HB).
  - intros q k Hq. apply load_chars_blocks; [done|]. simpl.
    apply (live_in_bounds Hok) in Hq as [_ Hb]. unfold in_bounds in Hb.
    destruct (blocks m !! q.1) eqn:E; [|done]. rewrite lookup_insert_ne; [done|]. by eapply Hlt.
Qed.

Lemma struct_ok_release_large cs m L B F p n hb :
  struct_ok cs m L B F -> L !! p = Some n -> largest_class < n ->
  let m' := MkMemory (delete p.1 (blocks m)) (cells m) (next_block m) hb in
  blocks m !! p.1 = Some n /\ p.2 = 0 /\
  struct_ok cs m' (delete p L) B F /\ same_contents (delete p L) m m'.
Proof.
  intros Hok Hp Hn m'.
  destruct (st_live _ _ _ _ _ Hok p n Hp) as [Hn0 [(_ & Hoff & Hblk & HBp)|(? & _)]]; [|lia].
  assert (forall q k, delete p L !! q = Some k -> q.1 <> p.1) as Hne.
  { intros q k Hq. apply lookup_delete_Some in Hq as [Hpq Hq]. intros Heq.
    destruct (st_live _ _ _ _ _ Hok q k Hq) as [_ [(_ & Hqo & _)|(_ & i & s & _ & _ & [HB _])]].
    - apply Hpq. destruct p, q; simpl in *; congruence.
    - rewrite Heq in HB. congruence. }
  split_and!; [done|done| |].
  - destruct Hok as [H1 H2 H3 H4 H5 H6]. constructor; try done.
    + intros i osz c free Hi Hc Hf. destruct (H3 i osz c free Hi Hc Hf) as [C1 C2 C3 C4].
      constructor; try done.
      * eapply free_chain_ext; [|exact C2]. intros q Hq. apply load_pointer_blocks; [done|].
        destruct (C4 q Hq) as [[HB _] _]. simpl. rewrite lookup_delete_ne; [done|].
        intros Heq. rewrite <- Heq in HB. congruence.
      * intros q Hq. destruct (C4 q Hq). split; [done|]. by apply lookup_delete_None; right.
    + intros b k Hb. simpl in *. apply lookup_delete_Some in Hb as [_ Hb]. by eapply H4.
    + intros b i Hb. simpl. rewrite lookup_delete_ne; [by eapply H5|]. intros <-. congruence.
    + intros q k Hq. pose proof (Hne q k Hq) as Hqp. apply lookup_delete_Some in Hq as [_ Hq].
      destruct (H6 q k Hq) as [Hk [(? & ? & ? & ?)|?]]; (split; [done|]); [left|by right].
      split_and!; try done. simpl. by rewrite lookup_delete_ne.
  - intros q k Hq. apply load_chars_blocks; [done|]. simpl.
    rewrite lookup_delete_ne; [done|]. by eapply not_eq_sym, Hne.
Qed.

Lemma read_count_wp a e i c Q :
  SlabAllocator.classes_ a !! i = Some c ->
  Q (Ret (SlabClass.slab_count c)) (a, e) ->
  wp (SlabAllocator.on_class i (c <- on_fst read ;; ret (SlabClass.slab_count c))) (a, e) Q.
Proof.
  intros Hc HQ. eapply on_class_wp; [exact Hc|].
  apply wp_bind, wp_on_fst, wp_read, wp_ret. simpl.
  rewrite list_insert_id by done. by destruct a.
Qed.

Lemma slab_allocate_small a m L fs n :
  slab_owns a m L -> 0 < n <= largest_class ->
  wp (SlabAllocator.allocate n) (a, MkEnv m fs) (post
    (fun r s => (exists p, r = Some p /\ L !! p = None /\ slab_owns s.1 (mem s.2) (<[p := n]> L)) /\
      same_contents L m (mem s.2))
    (fun x s => x = bad_alloc /\ slab_owns s.1 (mem s.2) L /\ same_contents L m (mem s.2))).
Proof.
  intros (B & F & Hok & Hac & Hsl) Hr. unfold SlabAllocator.allocate.
  rewrite (proj2 (Z.eqb_neq n 0)) by lia.
  rewrite Z.gtb_ltb, (proj2 (Z.ltb_ge _ _)) by lia.
  destruct (class_index_some n Hr) as (i & osz & Hci & Hcs & Hi & Hle & _). rewrite Hci, Hcs.
  destruct (st_lookup Hok i osz Hi) as (c & free & Hc & Hf & Hcok).
  apply lookup_lt_Some in Hc as Hlt.
  apply wp_bind, (read_count_wp _ _ _ c); [done|]. cbn beta iota.
  apply wp_bind, (on_class_wp _ _ _ c); [done|].
  eapply wp_mono; [eapply class_allocate_wp; try done; apply Hac|].
  intros [p|x|] [c' [m' fs']]; simpl; [| |done].
  2: { intros (-> & -> & Hsh). destruct a as [cs x]. simpl in *.
       rewrite list_insert_id by done. split_and!; [done| |].
       - exists B, F. split; [by apply (struct_ok_same_heap Hok)|].
         destruct Hsh as (_ & _ & -> & _). done.
       - intros q k Hq. destruct Hsh as (Hb & Hcl & _). apply load_chars_blocks; [done|by rewrite Hb]. }
  intros (HpL & (B' & F' & Hok' & Hft & Hsl' & Hcase) & Hsame). specialize (Hsl' Hsl).
  apply wp_bind. eapply (read_count_wp _ _ i c'); [simpl; by rewrite list_lookup_insert_eq|].
  cbn beta iota. apply wp_bind. pose proof (struct_pos Hok) as Hpos.
  assert (forall x m1, acct_ok x (heap_bytes m1) L (free_total F' + osz) -> m1 = m' ->
    wp (SlabAllocator.with_metrics (SlabAllocator.count_block n osz) ;; ret (Some p))
      (SlabAllocator.MkSlabAllocator (<[i := c']> (SlabAllocator.classes_ a)) x, MkEnv m' fs')
      (post (fun r s => (exists p, r = Some p /\ L !! p = None /\
          slab_owns s.1 (mem s.2) (<[p := n]> L)) /\ same_contents L m (mem s.2))
        (fun x s => x = bad_alloc /\ slab_owns s.1 (mem s.2) L /\ same_contents L m (mem s.2))))
    as Hfin.
  { intros x m1 Hx ->. apply wp_bind, wp_on_fst, wp_modify, wp_ret. simpl. split; [|done].
    exists p. split_and!; [done|done|]. exists B', F'. split; [done|]. simpl. split.
    - replace (free_total F') with (free_total F' + osz - osz) by lia.
      apply (acct_count_block Hx); try done; lia.
    - replace (heap_bytes m') with (heap_bytes m' + large_size (p, n)) by (rewrite large_size_small; lia).
      by apply slabs_ok_insert. }
  destruct Hcase as [(Hs & Hh & HF)|(Hs & Hh & Hsp & HF)]; rewrite Hs.
  - rewrite Z.eqb_refl. apply wp_ret. apply (Hfin _ m'); [|done]. simpl.
    rewrite Hh, HF. by replace (free_total F - osz + osz) with (free_total F) by lia.
  - rewrite (proj2 (Z.eqb_neq _ _)) by lia. apply wp_on_fst, wp_modify.
    apply (Hfin _ m'); [|done]. simpl. rewrite Hh, HF.
    replace (free_total F + slab_size - osz + osz) with (free_total F + slab_size) by lia.
    apply (acct_count_slab Hac); [done|]. lia.
Qed.

Lemma slab_allocate_spec a m L fs n :
  slab_owns a m L -> 0 <= n ->
  wp (SlabAllocator.allocate n) (a, MkEnv m fs) (post
    (fun r s => (r = None <-> n = 0) /\ (forall p, r = Some p -> L !! p = None) /\
      slab_owns s.1 (mem s.2) (with_allocation r n L) /\ same_contents L m (mem s.2))
    (fun x s => x = bad_alloc /\ slab_owns s.1 (mem s.2) L /\ same_contents L m (mem s.2))).
Proof.
  intros Ho Hn. destruct (Z.eq_dec n 0) as [->|H0].
  { apply wp_ret. simpl. split_and!; [done|done|done|apply same_contents_refl]. }
  destruct (Z.le_gt_cases n largest_class) as [Hsm|Hlg].
  { eapply wp_post_mono; [apply slab_allocate_small; [exact Ho|lia]|..]; simpl; [|done].
    intros r s [(p & -> & Hp & Hs) Hc]. split_and!; try done. by intros q [= <-]. }
  destruct Ho as (B & F & Hok & Hac & Hsl). unfold SlabAllocator.allocate.
  rewrite (proj2 (Z.eqb_neq n 0)) by done.
  rewrite Z.gtb_ltb, (proj2 (Z.ltb_lt _ _)) by done.
  apply wp_bind, wp_on_snd, wp_operator_new; simpl; intros fs'.
  2: { split_and!; [done|by exists B, F|apply same_contents_refl]. }
  intros Hsp. apply wp_bind, wp_on_fst, wp_modify, wp_ret. simpl.
  destruct (struct_ok_large _ _ _ _ _ n Hok Hlg) as (Hfresh & Hok' & Hsame).
  split_and!; [done|by intros p [= <-]| |done].
  exists B, F. split; [done|]. simpl. split; [apply (acct_count_large Hac); [by eapply struct_pos|done..]|].
  rewrite <- (large_size_large (next_block m, 0) n Hlg) at 1. by apply slabs_ok_insert.
Qed.

Lemma slab_deallocate_spec a m L fs r n :
  slab_owns a m L -> holds_allocation L r n ->
  wp (SlabAllocator.deallocate r n) (a, MkEnv m fs) (post
    (fun _ s => slab_owns s.1 (mem s.2) (without_allocation r L) /\
      same_contents (without_allocation r L) m (mem s.2))
    (fun _ _ => False)).
Proof.
  intros (B & F & Hok & Hac & Hsl) Hr. destruct r as [p|]; simpl in Hr.
  2: { subst n. apply wp_ret. split; [by exists B, F|apply same_contents_refl]. }
  pose proof (struct_pos Hok) as Hpos. pose proof (Hpos p n Hr) as Hn.
  destruct (acct_bounds Hac Hpos) as (B1 & B2 & B3 & B4 & B5).
  assert (n <= msum snd L) as Hle.
  { apply (msum_lookup_le snd L p n); [|done]. intros k v Hk. apply Hpos in Hk. simpl. lia. }
  unfold SlabAllocator.deallocate.
  apply wp_bind, wp_assert; [apply negb_true_iff, Z.eqb_neq; lia|].
  apply wp_bind, wp_on_fst, wp_read. cbn beta iota.
  apply wp_bind, wp_assert; [rewrite (ac_used _ _ _ _ Hac); by apply Z.leb_le|].
  destruct (n >? largest_class) eqn:Hlg; zsimp.
  - apply wp_bind, wp_assert.
    { rewrite <- (ac_heap _ _ _ _ Hac). apply Z.leb_le. lia. }
    destruct (struct_ok_release_large _ _ _ _ _ p n (heap_bytes m - n) Hok Hr Hlg)
      as (Hb & Hoff & Hok' & Hsame).
    eapply wp_bind, wp_on_snd, wp_operator_delete; [exact Hb|done|]. simpl.
    apply wp_on_fst, wp_modify. simpl. split; [|done].
    exists B, F. split; [done|]. split; [by apply (acct_uncount_large Hac)|].
    simpl. rewrite <- (large_size_large p n Hlg) at 1. by apply slabs_ok_delete.
  - destruct (class_index_some n) as (i & osz & Hci & Hcs & Hi & Hno & _); [lia|].
    rewrite Hci, Hcs. destruct (st_lookup Hok i osz Hi) as (c & free & Hc & Hf & Hcok).
    assert (fragmentation n = osz - n) as Hfr by (unfold fragmentation; by rewrite Hcs).
    assert (osz - n <= msum (fun kv => fragmentation kv.2) L) as Hfl.
    { rewrite <- Hfr. apply (msum_lookup_le (fun kv => fragmentation kv.2) L p n); [|done].
      intros k v Hk. by eapply fragmentation_nonneg, Hpos. }
    apply wp_bind, wp_assert.
    { rewrite (ac_frag _ _ _ _ Hac), u64_small; [by apply Z.leb_le|]. lia. }
    apply wp_bind, (on_class_wp _ _ _ c); [done|].
    eapply class_deallocate_wp; [apply Hcok|..].
    + destruct (st_live _ _ _ _ _ Hok p n Hr) as [_ [(? & _)|(_ & j & s & Hj & Hs & Hobj)]]; [lia|].
      simplify_eq. eapply in_bounds_le, (is_object_bounds B m i osz); [|apply Hok|done|done].
      pose proof (pointer_size_fits i osz Hi). lia.
    + intros q Hq. destruct (st_live _ _ _ _ _ Hok p n Hr) as [_ [(? & _)|(_ & j & s & Hj & Hs & Hobj)]]; [lia|].
      simplify_eq. destruct (ok_free _ _ _ _ _ _ _ Hcok q Hq) as [Hqo HqL].
      pose proof (pointer_size_fits i osz Hi).
      eapply disjoint_ranges_le, (is_object_disjoint B i i osz osz); try done. by intros ->; congruence.
    + intros m' Hm' Hch. simpl. apply wp_on_fst, wp_modify. simpl. split.
      * eexists B, _. split; [by eapply (struct_ok_push Hok)|]. simpl.
        rewrite (free_total_insert F i osz free) by done.
        replace (free_total F - zlen free * osz + zlen (p :: free) * osz)
          with (free_total F + osz) by (simpl; lia).
        rewrite Hm'. split; [by apply (acct_uncount_block Hac)|]. simpl.
        replace (heap_bytes m) with (heap_bytes m - large_size (p, n)) by (rewrite large_size_small; lia).
        apply slabs_ok_delete; [by eapply slabs_ok_class|done].
      * intros q k Hq. apply lookup_delete_Some in Hq as [Hne Hq]. rewrite Hm'.
        destruct (live_in_bounds Hok q k Hq) as [Hk _].
        apply load_chars_frame; [lia|]. rewrite length_pointer_cells.
        destruct (st_live _ _ _ _ _ Hok p n Hr) as [_ [(? & _)|(_ & j & s & Hj & Hs & Hobj)]]; [lia|].
        simplify_eq. destruct (st_live _ _ _ _ _ Hok q k Hq)
          as [_ [(_ & _ & _ & HBq)|(Hk' & j' & s' & Hj' & Hs' & Hobj')]].
        -- left. intros Heq. destruct Hobj as [HB _]. rewrite Heq in HB. congruence.
        -- destruct (class_index_some k) as (? & ? & Hj2 & _ & Hs2 & Hle' & _); [lia|]. simplify_eq.
           eapply disjoint_ranges_le, (is_object_disjoint B _ _ osz s'); try done.
           apply (pointer_size_fits _ _ Hi).
Qed.

(** ** Destruction *)

Lemma destroy_slabs_wp slabs e :
  NoDup slabs ->
  (forall s, s ∈ slabs -> (Slab.data_ s).2 = 0 /\ blocks (mem e) !! (Slab.data_ s).1 = Some slab_size) ->
  wp (SlabClass.destroy_slabs slabs) e (post
    (fun _ e' => heap_bytes (mem e') = heap_bytes (mem e) - slab_size * zlen slabs) (fun _ _ => False)).
Proof.
  revert e. induction slabs as [|s slabs IH]; intros e Hnd Hs; cbn [SlabClass.destroy_slabs].
  { apply wp_ret. simpl. lia. }
  apply NoDup_cons in Hnd as [Hnin Hnd]. destruct (Hs s ltac:(left)) as [H0 Hb].
  eapply wp_bind, wp_operator_delete; [exact Hb|exact H0|]. cbn beta iota.
  eapply wp_post_mono; [apply IH; [done|]|..]; [|simpl; lia|done].
  intros s' Hin. destruct (Hs s' ltac:(by right)) as [H0' Hb']. split; [done|]. simpl.
  rewrite lookup_delete_ne; [done|]. intros Heq. apply Hnin.
  destruct s as [[b o]], s' as [[b' o']]. simpl in *. by subst.
Qed.

Lemma destroy_classes_run cs e :
  SlabAllocator.destroy_classes cs e = SlabClass.destroy_slabs (cs ≫= SlabClass.slabs_) e.
Proof.
  revert e. induction cs as [|c cs IH]; intros e; [done|]. csimpl.
  unfold SlabClass.destroy. generalize (SlabClass.slabs_ c). intros slabs. revert e.
  induction slabs as [|s slabs IHs]; intros e; simpl; [apply IH|]. unfold bind.
  destruct (Slab.destroy s e) as [[[]|x|] e']; [apply IHs|done..].
Qed.

Lemma classes_nodup cs m L B F : struct_ok cs m L B F -> NoDup cs.
Proof.
  intros Hok. apply NoDup_alt. intros i j c Hi Hj.
  assert (forall k, cs !! k = Some c -> size_classes !! k = Some (SlabClass.object_size_ c)) as Hsz.
  { intros k Hk. apply lookup_lt_Some in Hk as Hlt. rewrite (st_classes _ _ _ _ _ Hok) in Hlt.
    destruct (lookup_lt_is_Some_2 _ _ Hlt) as [osz Ho]. destruct (st_lookup Hok k osz Ho) as (c' & free & Hc & _ & Hcok).
    simplify_eq. by rewrite (ok_size _ _ _ _ _ _ _ Hcok). }
  apply (NoDup_lookup size_classes i j (SlabClass.object_size_ c)); [|by apply Hsz..].
  apply (bool_decide_unpack _). vm_compute. exact I.
Qed.

Lemma zsum_slabs cs : zsum SlabClass.slab_count cs = zlen (cs ≫= SlabClass.slabs_).
Proof. induction cs as [|c cs IH]; csimpl; [done|]. rewrite length_app, IH. unfold SlabClass.slab_count. lia. Qed.

Lemma slab_destroy_spec a m fs :
  slab_owns a m ∅ ->
  wp SlabAllocator.destroy (a, MkEnv m fs) (post (fun _ s => heap_bytes (mem s.2) = 0) (fun _ _ => False)).
Proof.
  intros (B & F & Hok & _ & Hsl). unfold SlabAllocator.destroy. apply wp_bind, wp_on_fst, wp_read. cbn beta iota.
  apply wp_on_snd. cbn [fst]. set (cs := SlabAllocator.classes_ a) in *. unfold wp. rewrite destroy_classes_run.
  assert (rev cs ≫= SlabClass.slabs_ ≡ₚ cs ≫= SlabClass.slabs_) as Hp by (by rewrite <- Permutation_rev).
  change (wp (SlabClass.destroy_slabs (rev cs ≫= SlabClass.slabs_)) (MkEnv m fs)
    (fun o s => post (fun _ s => heap_bytes (mem s.2) = 0) (fun _ _ => False) o (a, s))).
  eapply wp_mono; [apply destroy_slabs_wp|].
  - rewrite Hp. apply NoDup_bind.
    + intros c1 c2 s (i & Hi)%list_elem_of_lookup (j & Hj)%list_elem_of_lookup H1 H2.
      destruct (sl_slab _ _ _ _ Hsl i c1 s Hi H1) as [_ E1], (sl_slab _ _ _ _ Hsl j c2 s Hj H2) as [_ E2]. congruence.
    + intros c (i & Hi)%list_elem_of_lookup. by eapply (sl_nodup _ _ _ _ Hsl).
    + by eapply classes_nodup.
  - intros s Hs. rewrite Hp in Hs. apply list_elem_of_bind in Hs as (c & Hs & (i & Hi)%list_elem_of_lookup).
    destruct (sl_slab _ _ _ _ Hsl i c s Hi Hs) as [H0 HB]. split; [done|]. by eapply (st_slab _ _ _ _ _ Hok).
  - intros [[]|x|] e'; [|done..]. cbn [post snd mem]. intros ->. rewrite Hp.
    pose proof (sl_heap _ _ _ _ Hsl) as Hh. rewrite msum_empty, zsum_slabs in Hh. lia.
Qed.

#[global] Instance slab_allocator_laws : ValueAllocatorLaws SlabAllocator.t.
Proof.
  refine {| AllocatorModel.owns := slab_owns;
            allocate_spec := slab_allocate_spec;
            deallocate_spec := slab_deallocate_spec;
            destroy_spec := slab_destroy_spec |}.
  - intros a m L p n (B & F & Hok & _). by apply (live_in_bounds Hok).
  - intros a m L p n q k (B & F & Hok & _). by apply (live_live_disjoint Hok).
  - intros a m L p n vs (B & F & Hok & Hac & Hsl) Hp Hl. exists B, F. split; [|done].
    by eapply (struct_ok_write Hok).
  - intros a m L (B & F & Hok & Hac & _).
    destruct (acct_bounds Hac (struct_pos Hok)) as (B1 & B2 & B3 & B4 & B5).
    destruct Hac as [H1 H2 [H3 H3'] H4 H5 H6 H7]. unfold metrics_match. simpl. unfold SlabAllocator.metrics.
    split_and!; [done|done|done|lia|lia|lia].
Defined.

Lemma slab_init_owns : slab_owns SlabAllocator.init empty_memory ∅.
Proof.
  exists ∅, (replicate (length size_classes) []). split_and!.
  - constructor; try done.
    + intros i osz c free Hi Hc Hf. apply list_lookup_fmap_Some in Hc as (s & -> & Hs).
      apply lookup_replicate in Hf as [-> _]. simplify_eq.
      constructor; simpl; [done|done|constructor|by intros p Hp%elem_of_nil].
  - constructor; simpl; rewrite ?msum_empty; done.
  - constructor; [..|by rewrite msum_empty].
    + intros i c s (o & -> & _)%list_lookup_fmap_Some Hs. by apply elem_of_nil in Hs.
    + intros i c (o & -> & _)%list_lookup_fmap_Some. constructor.
Qed.
