(* ===== verification/ValueAllocatorModel.v ===== *)
(** * Choosing an allocator ([memory/value_allocator.cpp])

    [make_value_allocator], the names of the backends, and the virtual dispatch
    through [ValueAllocator &], which keeps the contract because both
    implementations do. *)
From S2P Require Import Prelude ErrorModel Effects MemoryModel AllocatorModel.
From S2P Require Import SystemAllocatorModel SlabAllocatorModel SlabAllocatorFacts.
Import Memory.

Module AnyAllocator.

(** The dynamic type behind a [std::unique_ptr<ValueAllocator>]. *)
Inductive t :=
| System (a : SystemAllocator.t)
| Slab (a : SlabAllocator.t).

(** A virtual call: the method of the dynamic type runs on its own state. *)
Definition dispatch {A} (sys : M (SystemAllocator.t * env) A)
    (slb : M (SlabAllocator.t * env) A) : M (t * env) A := fun s =>
  match s.1 with
  | System a => let '(o, (a', e')) := sys (a, s.2) in (o, (System a', e'))
  | Slab a => let '(o, (a', e')) := slb (a, s.2) in (o, (Slab a', e'))
  end.

Definition allocate (size : Z) : M (t * env) (option ptr) :=
  dispatch (SystemAllocator.allocate size) (SlabAllocator.allocate size).

Definition deallocate (pointer : option ptr) (size : Z) : M (t * env) unit :=
  dispatch (SystemAllocator.deallocate pointer size) (SlabAllocator.deallocate pointer size).

Definition metrics (a : t) : ValueAllocatorMetrics :=
  match a with
  | System a => SystemAllocator.metrics a
  | Slab a => SlabAllocator.metrics a
  end.

Definition destroy : M (t * env) unit := dispatch SystemAllocator.destroy SlabAllocator.destroy.

#[global] Instance any_value_allocator : ValueAllocator t := {|
  AllocatorModel.allocate := allocate;
  AllocatorModel.deallocate := deallocate;
  AllocatorModel.metrics := metrics;
  AllocatorModel.destroy := destroy
|}.

End AnyAllocator.

(** [make_value_allocator]. *)
Definition make_value_allocator (backend : AllocatorBackend) : AnyAllocator.t :=
  match backend with
  | system => AnyAllocator.System SystemAllocator.init
  | slab => AnyAllocator.Slab SlabAllocator.init
  end.

(** [parse_allocator_backend]. *)
Definition parse_allocator_backend (value : bytes) : outcome AllocatorBackend :=
  if bool_decide (value = lit "system") then Ret system
  else if bool_decide (value = lit "slab") then Ret slab
  else Throw (highcache_error (MkHighCacheError invalid_argument
    (lit "unsupported value allocator backend"))).

(** [to_string(AllocatorBackend)]. *)
Definition backend_to_string (backend : AllocatorBackend) : bytes :=
  match backend with
  | system => lit "system"
  | slab => lit "slab"
  end.

(** ** The contract, by dynamic type *)

Definition any_owns (a : AnyAllocator.t) (m : memory) (L : gmap ptr Z) : Prop :=
  match a with
  | AnyAllocator.System a => owns a m L
  | AnyAllocator.Slab a => owns a m L
  end.

Lemma dispatch_wp {A} sys slb (a : AnyAllocator.t) e (Q : outcome A -> AnyAllocator.t * env -> Prop) :
  match a with
  | AnyAllocator.System a => wp sys (a, e) (fun o s => Q o (AnyAllocator.System s.1, s.2))
  | AnyAllocator.Slab a => wp slb (a, e) (fun o s => Q o (AnyAllocator.Slab s.1, s.2))
  end -> wp (AnyAllocator.dispatch sys slb) (a, e) Q.
Proof.
  unfold wp, AnyAllocator.dispatch. destruct a; simpl;
    [destruct (sys _) as [o [a' e']]|destruct (slb _) as [o [a' e']]]; done.
Qed.

#[global] Instance any_allocator_laws : ValueAllocatorLaws AnyAllocator.t.
Proof.
  refine {| AllocatorModel.owns := any_owns |}.
  - intros [a|a] m L p n; apply owns_live.
  - intros [a|a] m L p n q k; apply owns_disjoint.
  - intros [a|a] m L p n vs; apply owns_write.
  - intros [a|a] m L Ho; apply owns_metrics in Ho; exact Ho.
  - intros [a|a] m L fs n Ho Hn; apply dispatch_wp;
      (eapply wp_mono; [apply (allocate_spec a m L fs n Ho Hn)|]); by intros [r|x|] s.
  - intros [a|a] m L fs r n Ho Hn; apply dispatch_wp;
      (eapply wp_mono; [apply (deallocate_spec a m L fs r n Ho Hn)|]); by intros [u|x|] s.
  - intros [a|a] m fs Ho; apply dispatch_wp;
      (eapply wp_mono; [apply (destroy_spec a m fs Ho)|]); by intros [u|x|] s.
Defined.

Lemma make_value_allocator_owns backend : owns (make_value_allocator backend) empty_memory ∅.
Proof. destruct backend; [apply SystemAllocator.system_init_owns|apply slab_init_owns]. Qed.
