(* ===== verification/TimingWheelModel.v ===== *)
(** * The timing wheel ([timer/timing_wheel.h], [timer/timing_wheel.cpp])

    Sixty slots of one second each; an event waits in its slot for
    [remaining_rounds] full turns. *)
From S2P Require Import Prelude ErrorModel Effects MemoryModel.
Import Memory.

(** [struct TimerEvent]. *)
Module TimerEvent.

Record t := MkTimerEvent {
  key : bytes;
  generation : Z;
  remaining_rounds : Z
}.

End TimerEvent.

Module TimingWheel.

Definition slot_count : Z := 60.

(** [tick_resolution] in milliseconds. *)
Definition resolution_milliseconds : Z := 1000.

Record t := MkTimingWheel {
  slots_ : list (list TimerEvent.t);
  current_slot_ : Z
}.

Definition init : t := MkTimingWheel (replicate (Z.to_nat slot_count) []) 0.

(** The ticks, slot and rounds [schedule] computes for a TTL. *)
Definition ticks_of (ttl : Z) : Z :=
  u64 (u64 ttl / resolution_milliseconds +
       (if u64 ttl mod resolution_milliseconds =? 0 then 0 else 1)).

Definition target_slot (current ticks : Z) : Z := u64 (current + ticks mod slot_count) mod slot_count.

Definition rounds_of (ticks : Z) : Z := u64 (ticks - 1) / slot_count.

Definition push_event (slot : Z) (event : TimerEvent.t) (w : t) : option t :=
  match slots_ w !! Z.to_nat slot with
  | Some events =>
      Some (MkTimingWheel (<[Z.to_nat slot := events ++ [event]]> (slots_ w)) (current_slot_ w))
  | None => None
  end.

(** [schedule]: the node of [push_back] may fail to be allocated. *)
Definition schedule (key : bytes) (generation ttl : Z) : M (t * env) unit :=
  assert_ (0 <? ttl) ;;
  w <- on_fst read ;;
  let ticks := ticks_of ttl in
  on_snd may_alloc ;;
  on_fst (modify_opt (push_event (target_slot (current_slot_ w) ticks)
    (TimerEvent.MkTimerEvent key generation (rounds_of ticks)))).

(** The loop of [tick] over one slot: the events that expire, and the slot. *)
Fixpoint expire (events : list TimerEvent.t) : list TimerEvent.t * list TimerEvent.t :=
  match events with
  | [] => ([], [])
  | event :: events =>
      let '(expired, rest) := expire events in
      if 0 <? TimerEvent.remaining_rounds event
      then (expired, TimerEvent.MkTimerEvent (TimerEvent.key event) (TimerEvent.generation event)
                       (u64 (TimerEvent.remaining_rounds event - 1)) :: rest)
      else (event :: expired, rest)
  end.

(** [tick]: [expired.reserve] may fail, before the wheel turns. *)
Definition tick : M (t * env) (list TimerEvent.t) :=
  w <- on_fst read ;;
  let next_slot := u64 (current_slot_ w + 1) mod slot_count in
  match slots_ w !! Z.to_nat next_slot with
  | None => undefined
  | Some events =>
      on_snd may_alloc ;;
      let '(expired, rest) := expire events in
      on_fst (modify (fun w =>
        MkTimingWheel (<[Z.to_nat next_slot := rest]> (slots_ w)) next_slot)) ;;
      ret expired
  end.

End TimingWheel.
