(* ===== verification/TimingWheelFacts.v ===== *)
(** * The timing wheel counts down exactly

    The wheel is a multiset of countdowns: [schedule] adds one of
    [ceil(ttl / 1 s)] ticks, [tick] decrements all of them and returns those
    that reach zero. *)
From S2P Require Import Prelude ErrorModel Effects MemoryModel TimingWheelModel.
Import Memory.
Import TimerEvent(key, generation, remaining_rounds, MkTimerEvent).
Import TimingWheel.

(** Ticks until an event in slot [s] fires when the current slot is [c]. *)
Definition due (c s : Z) (e : TimerEvent.t) : Z :=
  (s - c - 1) mod slot_count + 1 + slot_count * remaining_rounds e.

Abbreviation countdown := (bytes * Z * Z)%type.

Definition countdown_of (c s : Z) (e : TimerEvent.t) : countdown :=
  (key e, generation e, due c s e).

(** The countdowns of the slots from number [s] on. *)
Fixpoint pending_from (c s : Z) (slots : list (list TimerEvent.t)) : list countdown :=
  match slots with
  | [] => []
  | events :: slots => (countdown_of c s <$> events) ++ pending_from c (s + 1) slots
  end.

Definition pending (w : t) : list countdown := pending_from (current_slot_ w) 0 (slots_ w).

(** One second less. *)
Definition decrement (x : countdown) : countdown := (x.1, x.2 - 1).

Definition event_ok (e : TimerEvent.t) : Prop := 0 <= remaining_rounds e < 2 ^ 64.

Record wheel_ok (w : t) : Prop := {
  wheel_slots : length (slots_ w) = Z.to_nat slot_count;
  wheel_current : 0 <= current_slot_ w < slot_count;
  wheel_events : Forall (Forall event_ok) (slots_ w)
}.

(** The rounding of [schedule]: up to a whole number of seconds. *)
Lemma ticks_of_ceil ttl :
  0 < ttl <= i64_max ->
  1000 * (ticks_of ttl - 1) < ttl <= 1000 * ticks_of ttl /\ 0 < ticks_of ttl < 2 ^ 63.
Proof.
  unfold i64_max, ticks_of, resolution_milliseconds. intros Ht.
  rewrite (u64_small ttl) by lia.
  pose proof (Z.div_mod ttl 1000 ltac:(lia)) as Hdm.
  pose proof (Z.mod_pos_bound ttl 1000 ltac:(lia)) as Hm.
  destruct (Z.eqb_spec (ttl mod 1000) 0) as [H0|H0]; rewrite u64_small by lia; lia.
Qed.

(** Slot and rounds encode the number of ticks. *)
Lemma due_target c ticks k g :
  0 <= c < slot_count -> 0 < ticks < 2 ^ 63 ->
  0 <= target_slot c ticks < slot_count /\
  due c (target_slot c ticks) (MkTimerEvent k g (rounds_of ticks)) = ticks /\
  event_ok (MkTimerEvent k g (rounds_of ticks)).
Proof.
  unfold due, target_slot, rounds_of, event_ok, slot_count. simpl. intros Hc Ht.
  rewrite (u64_small (ticks - 1)) by lia.
  pose proof (Z.mod_pos_bound ticks 60 ltac:(lia)) as Hm.
  rewrite (u64_small (c + ticks mod 60)) by lia.
  pose proof (Z.div_mod ticks 60 ltac:(lia)) as H1.
  pose proof (Z.div_mod (ticks - 1) 60 ltac:(lia)) as H2.
  pose proof (Z.mod_pos_bound (ticks - 1) 60 ltac:(lia)) as Hm2.
  split; [apply Z.mod_pos_bound; lia|]. split; [|lia].
  replace (((c + ticks mod 60) mod 60 - c - 1) mod 60) with ((ticks - 1) mod 60); [lia|].
  rewrite Zmod_eq_full with (a := c + ticks mod 60) by lia.
  replace (c + ticks mod 60 - (c + ticks mod 60) / 60 * 60 - c - 1)
    with (ticks - 1 + (- (ticks / 60) - (c + ticks mod 60) / 60) * 60) by lia.
  by rewrite Z.mod_add by lia.
Qed.

Lemma pending_from_app c s l1 l2 :
  pending_from c s (l1 ++ l2) = pending_from c s l1 ++ pending_from c (s + zlen l1) l2.
Proof.
  revert s. induction l1 as [|evs l1 IH]; intros s; simpl.
  - by rewrite Z.add_0_r.
  - rewrite IH, app_assoc. f_equal. f_equal. lia.
Qed.

(** The wheel opened at slot [i]. *)
Lemma pending_open w i events :
  slots_ w !! Z.to_nat i = Some events -> 0 <= i ->
  pending w = pending_from (current_slot_ w) 0 (take (Z.to_nat i) (slots_ w)) ++
    (countdown_of (current_slot_ w) i <$> events) ++
    pending_from (current_slot_ w) (i + 1) (drop (S (Z.to_nat i)) (slots_ w)).
Proof.
  intros Hi H0. apply lookup_lt_Some in Hi as Hlt. unfold pending.
  rewrite <- (take_drop_middle _ _ _ Hi) at 1. rewrite pending_from_app. simpl.
  rewrite length_take_le by lia. by rewrite Z2Nat.id.
Qed.

Lemma wheel_lookup w i : wheel_ok w -> 0 <= i < slot_count ->
  exists events, slots_ w !! Z.to_nat i = Some events /\ Forall event_ok events.
Proof.
  intros Hw Hi. destruct (lookup_lt_is_Some_2 (slots_ w) (Z.to_nat i)) as [events He].
  - rewrite (wheel_slots _ Hw). unfold slot_count in *. lia.
  - exists events. split; [done|]. by eapply Forall_lookup_1, He; apply Hw.
Qed.

(** ** [schedule] *)

Lemma schedule_wp w e k g ttl Q :
  wheel_ok w -> 0 < ttl <= i64_max ->
  (forall w' fs, wheel_ok w' -> pending w' ≡ₚ (k, g, ticks_of ttl) :: pending w ->
    Q (Ret tt) (w', MkEnv (mem e) fs)) ->
  (forall fs, Q (Throw bad_alloc) (w, MkEnv (mem e) fs)) ->
  wp (schedule k g ttl) (w, e) Q.
Proof.
  intros Hw Ht HR HT. unfold schedule.
  apply wp_bind, wp_assert; [apply Z.ltb_lt; lia|].
  apply wp_bind, wp_on_fst, wp_read. cbn beta iota zeta.
  apply wp_bind, wp_on_snd, wp_may_alloc; intros fs; [|apply HT].
  destruct (ticks_of_ceil ttl Ht) as [_ Htk].
  destruct (due_target (current_slot_ w) (ticks_of ttl) k g (wheel_current _ Hw) Htk)
    as (Hs & Hd & He). set (s := target_slot _ _) in *.
  destruct (wheel_lookup w s Hw Hs) as (events & Hev & Hok).
  set (ev := MkTimerEvent _ _ _) in *.
  apply wp_on_fst. eapply wp_modify_opt.
  { unfold push_event. rewrite Hev. reflexivity. }
  apply HR; simpl.
  - destruct Hw as [W1 W2 W3]. constructor; simpl; [by rewrite length_insert|done|].
    apply Forall_insert; [done|]. apply Forall_app. split; [done|]. by constructor.
  - apply lookup_lt_Some in Hev as Hlt.
    rewrite (pending_open _ s (events ++ [ev])); simpl; [|by rewrite list_lookup_insert_eq|lia].
    rewrite (pending_open w s events) by (done || lia).
    rewrite take_insert_ge, drop_insert_lt by lia.
    rewrite fmap_app. simpl. unfold countdown_of at 2. simpl. rewrite Hd.
    rewrite <- app_assoc. simpl.
    rewrite (Permutation_middle _ _ (k, g, ticks_of ttl)), <- Permutation_middle. done.
Qed.

(** ** [tick] *)

Lemma due_next c s e :
  0 <= c < slot_count -> 0 <= s < slot_count -> s <> (c + 1) mod slot_count ->
  due ((c + 1) mod slot_count) s e = due c s e - 1 /\ 1 < due c s e - slot_count * remaining_rounds e.
Proof.
  unfold due, slot_count. intros Hc Hs Hne.
  assert ((s - c - 1) mod 60 <> 0) as Hnz.
  { intros H0. apply Hne. apply Z.mod_divide in H0 as [q Hq]; [|lia].
    rewrite (Z.mod_eq (c + 1)) by lia.
    destruct (Z.lt_ge_cases (c + 1) 60).
    - rewrite (Z.div_small (c + 1)) by lia. lia.
    - assert (c = 59) as -> by lia. change ((59 + 1) / 60) with 1. lia. }
  pose proof (Z.mod_pos_bound (s - c - 1) 60 ltac:(lia)).
  split; [|lia].
  replace ((s - (c + 1) mod 60 - 1) mod 60) with ((s - c - 1) mod 60 - 1); [lia|].
  pose proof (Z.div_mod (s - c - 1) 60 ltac:(lia)).
  pose proof (Z.div_mod (c + 1) 60 ltac:(lia)).
  apply (Z.mod_unique _ _ ((s - c - 1) / 60 + (c + 1) / 60)); lia.
Qed.

Lemma pending_from_next c s l :
  0 <= c < slot_count -> 0 <= s -> s + zlen l <= slot_count ->
  (forall i, s <= i < s + zlen l -> i <> (c + 1) mod slot_count) -> Forall (Forall event_ok) l ->
  pending_from ((c + 1) mod slot_count) s l = decrement <$> pending_from c s l /\
  Forall (fun x => 1 < x.2) (pending_from c s l).
Proof.
  revert s. induction l as [|evs l IH]; intros s Hc Hs Hle Hne Hok; simpl in *; [by split|].
  apply Forall_cons in Hok as [Hev Hok].
  destruct (IH (s + 1) Hc) as [IH1 IH2]; [lia|lia| |done|].
  { intros i Hi. apply Hne. lia. }
  rewrite fmap_app, IH1. split.
  - f_equal. rewrite <- list_fmap_compose. apply list_fmap_ext. intros i e He.
    unfold countdown_of, decrement, compose. simpl. f_equal.
    apply due_next; [done|lia|apply Hne; lia].
  - apply Forall_app. split; [|done]. apply Forall_fmap. eapply Forall_impl; [exact Hev|].
    intros e [He _]. unfold compose. simpl.
    destruct (due_next c s e Hc) as [_ Hd]; [lia|apply Hne; lia|]. unfold slot_count in *. lia.
Qed.

(** In the next slot to come up, only the rounds count. *)
Lemma due_now c e : due c ((c + 1) mod slot_count) e = 1 + slot_count * remaining_rounds e.
Proof.
  unfold due, slot_count.
  replace (((c + 1) mod 60 - c - 1) mod 60) with 0; [lia|].
  symmetry. rewrite (Z.mod_eq (c + 1)) by lia.
  replace (c + 1 - 60 * ((c + 1) / 60) - c - 1) with (- ((c + 1) / 60) * 60) by lia.
  apply Z.mod_mul. lia.
Qed.

(** The slot that comes up: events with no rounds left expire, the others wait
    one turn more. *)
Lemma expire_spec c events :
  0 <= c < slot_count -> Forall event_ok events ->
  let n := (c + 1) mod slot_count in
  let '(expired, rest) := expire events in
  (countdown_of c n <$> expired) = filter (fun x => x.2 = 1) (countdown_of c n <$> events) /\
  (countdown_of n n <$> rest) =
    decrement <$> filter (fun x => 1 < x.2) (countdown_of c n <$> events) /\
  Forall event_ok rest /\ Forall (fun e => remaining_rounds e = 0) expired.
Proof.
  intros Hc. cbn zeta. set (n := (c + 1) mod slot_count).
  assert (forall e, due c n e = 1 + slot_count * remaining_rounds e) as Hd by (intros; apply due_now).
  assert (forall e, due n n e = 60 + slot_count * remaining_rounds e) as Hd'.
  { intros e. unfold due. replace (n - n - 1) with (-1) by lia. by change (-1 mod slot_count) with 59. }
  induction events as [|e events IH]; intros Hok; [by simpl|].
  apply Forall_cons in Hok as [[He He'] Hok]. specialize (IH Hok). csimpl.
  destruct (expire events) as [expired rest]. destruct IH as (IH1 & IH2 & IH3 & IH4).
  unfold slot_count in *. destruct (Z.ltb_spec 0 (remaining_rounds e)) as [Hr|Hr]; csimpl.
  - rewrite filter_cons_False by (simpl; rewrite Hd; lia).
    rewrite filter_cons_True by (simpl; rewrite Hd; lia). csimpl.
    rewrite IH1, IH2. split_and!; [done| | |done].
    + f_equal. unfold countdown_of, decrement. simpl. f_equal.
      rewrite Hd, Hd'. simpl. rewrite u64_small; lia.
    + constructor; [|done]. unfold event_ok. simpl. rewrite u64_small; lia.
  - rewrite filter_cons_True by (simpl; rewrite Hd; lia).
    rewrite filter_cons_False by (simpl; rewrite Hd; lia).
    rewrite IH1, IH2. split_and!; try done. constructor; [lia|done].
Qed.

Lemma filter_none {A} (P : A -> Prop) `{!forall x, Decision (P x)} (l : list A) :
  Forall (fun x => ~ P x) l -> filter P l = [].
Proof. induction 1; [done|]. by rewrite filter_cons_False. Qed.

Lemma filter_all {A} (P : A -> Prop) `{!forall x, Decision (P x)} (l : list A) :
  Forall P l -> filter P l = l.
Proof. induction 1 as [|x l Hx Hl IH]; [done|]. by rewrite filter_cons_True, IH. Qed.

Lemma filter_not_due (l : list countdown) :
  Forall (fun x => 1 < x.2) l -> filter (fun x => x.2 = 1) l = [].
Proof. intros Hl. apply filter_none. eapply Forall_impl; [exact Hl|]. simpl. intros; lia. Qed.

Lemma tick_wp w e Q :
  wheel_ok w ->
  (forall w' expired fs, wheel_ok w' ->
    (fun ev => (key ev, generation ev, 1)) <$> expired = filter (fun x => x.2 = 1) (pending w) ->
    pending w' = decrement <$> filter (fun x => 1 < x.2) (pending w) ->
    Q (Ret expired) (w', MkEnv (mem e) fs)) ->
  (forall fs, Q (Throw bad_alloc) (w, MkEnv (mem e) fs)) ->
  wp tick (w, e) Q.
Proof.
  intros Hw HR HT. unfold tick. apply wp_bind, wp_on_fst, wp_read. cbn beta iota zeta.
  pose proof (wheel_current _ Hw) as Hc.
  rewrite (u64_small (current_slot_ w + 1)) by (unfold slot_count in *; lia).
  set (n := (current_slot_ w + 1) mod slot_count).
  assert (0 <= n < slot_count) as Hn by (apply Z.mod_pos_bound; done).
  destruct (wheel_lookup w n Hw Hn) as (events & Hev & Hok). rewrite Hev.
  apply wp_bind, wp_on_snd, wp_may_alloc; intros fs; [|apply HT].
  pose proof (expire_spec (current_slot_ w) events Hc Hok) as Hexp. cbn zeta in Hexp.
  fold n in Hexp. destruct (expire events) as [expired rest].
  destruct Hexp as (E1 & E2 & E3 & E4).
  apply wp_bind, wp_on_fst, wp_modify, wp_ret. simpl.
  pose proof (wheel_slots _ Hw) as Hlen. apply lookup_lt_Some in Hev as Hlt.
  pose proof (pending_open w n events Hev ltac:(lia)) as Hopen.
  pose proof (wheel_events _ Hw) as Hall.
  destruct (pending_from_next (current_slot_ w) 0 (take (Z.to_nat n) (slots_ w)) Hc)
    as [T1 T2]; [lia| | |by apply Forall_take|].
  { rewrite length_take_le by lia. lia. }
  { rewrite length_take_le by lia. fold n. lia. }
  destruct (pending_from_next (current_slot_ w) (n + 1) (drop (S (Z.to_nat n)) (slots_ w)) Hc)
    as [D1 D2]; [lia| | |by apply Forall_drop|].
  { rewrite length_drop, Hlen. unfold slot_count in *. lia. }
  { fold n. lia. }
  fold n in T1, D1.
  apply HR.
  - constructor; simpl; [by rewrite length_insert|done|by apply Forall_insert].
  - rewrite Hopen, !filter_app, <- E1.
    rewrite (filter_not_due _ T2), (filter_not_due _ D2).
    rewrite app_nil_r. simpl. clear -E4 Hc. induction E4 as [|ev l Hev _ IH]; [done|].
    csimpl. rewrite IH. f_equal. unfold countdown_of. f_equal. rewrite due_now, Hev. done.
  - rewrite (pending_open _ n rest); simpl; [|by rewrite list_lookup_insert_eq|lia].
    rewrite take_insert_ge, drop_insert_lt by lia. rewrite T1, D1, E2.
    rewrite Hopen, !filter_app, !fmap_app.
    rewrite (filter_all _ _ T2), (filter_all _ _ D2). done.
Qed.

Lemma wheel_init_ok : wheel_ok init.
Proof. constructor; [done|done|]. apply Forall_replicate. constructor. Qed.

Lemma pending_init : pending init = [].
Proof. done. Qed.
