(* ===== verification/CacheEntryModel.v ===== *)
(** * Cache entries ([cache/cache_entry.h], [cache/cache.cpp])

    [CacheEntry] owns one value of the allocator: the resource-acquisition
    discipline (constructor, move, swap, destructor) as explicit operations. *)
From S2P Require Import Prelude ErrorModel Effects MemoryModel AllocatorModel.
Import Memory.

Module CacheEntry.

(** [allocator_] is whether the pointer is non-null: every entry of a cache
    points to the same allocator. *)
Record t := MkCacheEntry {
  allocator_ : bool;
  data_ : option ptr;
  size_ : Z
}.

(** The moved-from entry. *)
Definition moved_from : t := MkCacheEntry false None 0.

Section entry.
Context {A : Type} {VA : ValueAllocator A}.

(** [CacheEntry(allocator, value)]: allocate and [memcpy]. *)
Definition create (value : bytes) : M (A * env) t :=
  data <- allocate (zlen value) ;;
  (if zlen value =? 0 then ret tt
   else match data with
        | Some p => on_snd (store p (char_cells value))
        | None => undefined
        end) ;;
  ret (MkCacheEntry true data (zlen value)).

(** [~CacheEntry]. *)
Definition destroy (e : t) : M (A * env) unit :=
  if allocator_ e then deallocate (data_ e) (size_ e) else ret tt.

(** [CacheEntry(CacheEntry &&other)]: the new entry and what is left of [other]. *)
Definition move (other : t) : t * t :=
  (MkCacheEntry (allocator_ other) (data_ other) (size_ other), moved_from).

(** [operator=(CacheEntry &&other)]: the assigned entry and what is left of
    [other]; [same] is [this == &other]. *)
Definition move_assign (same : bool) (self other : t) : M (A * env) (t * t) :=
  if same then ret (self, self)
  else
    (if allocator_ self then deallocate (data_ self) (size_ self) else ret tt) ;;
    ret (MkCacheEntry (allocator_ other) (data_ other) (size_ other), moved_from).

(** [value()]; [None] is an access outside the entry's storage. *)
Definition value (m : memory) (e : t) : option bytes :=
  if size_ e =? 0 then Some []
  else match data_ e with
       | Some p => load_chars p (size_ e) m
       | None => None
       end.

(** [replace_value(CacheEntry replacement)]: swap, then the parameter, which now
    holds the old value, is destroyed. *)
Definition replace_value (self replacement : t) : M (A * env) t :=
  assert_ (Bool.eqb (allocator_ self) (allocator_ replacement)) ;;
  let self' := MkCacheEntry (allocator_ self) (data_ replacement) (size_ replacement) in
  let replacement' := MkCacheEntry (allocator_ replacement) (data_ self) (size_ self) in
  destroy replacement' ;;
  ret self'.

End entry.

End CacheEntry.
