(* ===== verification/CacheModel.v ===== *)
(** * The cache ([cache/cache.h], [cache/cache.cpp])

    One [Cache]: the index [entries_], the recency list [recency_] with the
    iterators the entries keep into it, the timing wheel, the counters, and
    every operation with its exceptions, its destructors and its assertions. *)
From S2P Require Import Prelude ErrorModel Effects MemoryModel AllocatorModel.
From S2P Require Import TimingWheelModel CacheEntryModel.
Import Memory.

Inductive CacheStatus :=
| ok
| not_found
| invalid_key
| key_too_large
| value_too_large
| item_too_large
| invalid_ttl.

#[export] Instance CacheStatus_eq_dec : EqDecision CacheStatus.
Proof. solve_decision. Defined.

(** [to_string(CacheStatus)]. *)
Definition cache_status_to_string (status : CacheStatus) : bytes :=
  match status with
  | ok => lit "ok"
  | not_found => lit "not_found"
  | invalid_key => lit "invalid_key"
  | key_too_large => lit "key_too_large"
  | value_too_large => lit "value_too_large"
  | item_too_large => lit "item_too_large"
  | invalid_ttl => lit "invalid_ttl"
  end.

(** ** [std::list<std::string>]: nodes with identities, so that iterators stay
    valid while their node is moved and dangle once it is erased. *)
Module RecencyList.

Definition iterator : Type := N.

Record t := MkRecencyList {
  nodes : list (iterator * bytes);
  next_node : iterator
}.

Definition init : t := MkRecencyList [] 0%N.

Definition push_front (s : bytes) (l : t) : t :=
  MkRecencyList ((next_node l, s) :: nodes l) (N.succ (next_node l)).

(** The node an iterator designates, and the list without it. *)
Definition find_node (i : iterator) (l : t) : option (iterator * bytes) :=
  snd <$> list_find (fun x => x.1 = i) (nodes l).

Definition others (i : iterator) (l : t) : list (iterator * bytes) :=
  filter (fun x => x.1 <> i) (nodes l).

(** [splice(begin(), *this, i)]. *)
Definition splice_front (i : iterator) (l : t) : option t :=
  match find_node i l with
  | Some x => Some (MkRecencyList (x :: others i l) (next_node l))
  | None => None
  end.

Definition erase (i : iterator) (l : t) : option t :=
  match find_node i l with
  | Some _ => Some (MkRecencyList (others i l) (next_node l))
  | None => None
  end.

Definition pop_front (l : t) : option t :=
  match nodes l with
  | _ :: rest => Some (MkRecencyList rest (next_node l))
  | [] => None
  end.

Definition begin (l : t) : option iterator := fst <$> head (nodes l).

Definition back (l : t) : option bytes := snd <$> last (nodes l).

Definition empty (l : t) : bool := bool_decide (nodes l = []).

End RecencyList.

Module Cache.

Definition max_key_length : Z := 250.
Definition max_value_length : Z := 1024 * 1024.
Definition default_capacity_bytes : Z := 64 * 1024 * 1024.

Record StoredEntry := MkStoredEntry {
  entry : CacheEntry.t;
  recency_position : RecencyList.iterator;
  generation : Z
}.

Record t := MkCache {
  capacity_bytes_ : Z;
  memory_usage_bytes_ : Z;
  hit_count_ : Z;
  miss_count_ : Z;
  eviction_count_ : Z;
  expired_count_ : Z;
  generation_source_ : Z;
  timing_wheel_ : TimingWheel.t;
  recency_ : RecencyList.t;
  entries_ : gmap bytes StoredEntry
}.

(** [Cache(capacity_bytes, allocator)]. *)
Definition init (capacity_bytes : Z) : t :=
  MkCache capacity_bytes 0 0 0 0 0 0 TimingWheel.init RecencyList.init ∅.

(** Field updates. *)
Definition set_usage (u : Z) (c : t) : t :=
  MkCache (capacity_bytes_ c) u (hit_count_ c) (miss_count_ c) (eviction_count_ c)
    (expired_count_ c) (generation_source_ c) (timing_wheel_ c) (recency_ c) (entries_ c).

Definition incr_hit (c : t) : t :=
  MkCache (capacity_bytes_ c) (memory_usage_bytes_ c) (u64 (hit_count_ c + 1)) (miss_count_ c)
    (eviction_count_ c) (expired_count_ c) (generation_source_ c) (timing_wheel_ c)
    (recency_ c) (entries_ c).

Definition incr_miss (c : t) : t :=
  MkCache (capacity_bytes_ c) (memory_usage_bytes_ c) (hit_count_ c) (u64 (miss_count_ c + 1))
    (eviction_count_ c) (expired_count_ c) (generation_source_ c) (timing_wheel_ c)
    (recency_ c) (entries_ c).

Definition incr_eviction (c : t) : t :=
  MkCache (capacity_bytes_ c) (memory_usage_bytes_ c) (hit_count_ c) (miss_count_ c)
    (u64 (eviction_count_ c + 1)) (expired_count_ c) (generation_source_ c) (timing_wheel_ c)
    (recency_ c) (entries_ c).

Definition incr_expired (c : t) : t :=
  MkCache (capacity_bytes_ c) (memory_usage_bytes_ c) (hit_count_ c) (miss_count_ c)
    (eviction_count_ c) (u64 (expired_count_ c + 1)) (generation_source_ c) (timing_wheel_ c)
    (recency_ c) (entries_ c).

Definition set_generation_source (g : Z) (c : t) : t :=
  MkCache (capacity_bytes_ c) (memory_usage_bytes_ c) (hit_count_ c) (miss_count_ c)
    (eviction_count_ c) (expired_count_ c) g (timing_wheel_ c) (recency_ c) (entries_ c).

Definition set_wheel (w : TimingWheel.t) (c : t) : t :=
  MkCache (capacity_bytes_ c) (memory_usage_bytes_ c) (hit_count_ c) (miss_count_ c)
    (eviction_count_ c) (expired_count_ c) (generation_source_ c) w (recency_ c) (entries_ c).

Definition set_recency (l : RecencyList.t) (c : t) : t :=
  MkCache (capacity_bytes_ c) (memory_usage_bytes_ c) (hit_count_ c) (miss_count_ c)
    (eviction_count_ c) (expired_count_ c) (generation_source_ c) (timing_wheel_ c) l
    (entries_ c).

Definition set_entries (m : gmap bytes StoredEntry) (c : t) : t :=
  MkCache (capacity_bytes_ c) (memory_usage_bytes_ c) (hit_count_ c) (miss_count_ c)
    (eviction_count_ c) (expired_count_ c) (generation_source_ c) (timing_wheel_ c)
    (recency_ c) m.

(** [validate_key]. *)
Definition validate_key (key : bytes) : CacheStatus :=
  if zlen key =? 0 then invalid_key
  else if zlen key >? max_key_length then key_too_large
  else ok.

(** [entry_charge], of a key and the size of a value. *)
Definition entry_charge (key : bytes) (value_size : Z) : Z := u64 (zlen key + value_size).

Definition stored_charge (key : bytes) (se : StoredEntry) : Z :=
  entry_charge key (CacheEntry.size_ (entry se)).

(** [mark_mru] on the element of [key]. *)
Definition mark_mru (key : bytes) (c : t) : option t :=
  match entries_ c !! key with
  | Some se =>
      match RecencyList.splice_front (recency_position se) (recency_ c) with
      | Some l =>
          match RecencyList.begin l with
          | Some b =>
              Some (set_entries (<[key := MkStoredEntry (entry se) b (generation se)]> (entries_ c))
                      (set_recency l c))
          | None => None
          end
      | None => None
      end
  | None => None
  end.

(** What [remove_entry] does before the element's destructor runs. *)
Definition unlink (key : bytes) (se : StoredEntry) (c : t) : option t :=
  match RecencyList.erase (recency_position se) (recency_ c) with
  | Some l =>
      Some (set_entries (delete key (entries_ c)) (set_recency l
        (set_usage (u64 (memory_usage_bytes_ c - stored_charge key se)) c)))
  | None => None
  end.

(** [next_generation]. *)
Definition next_generation : M t Z :=
  c <- read ;;
  if generation_source_ c =? u64_max
  then throw (std_overflow_error (lit "cache entry generation exhausted"))
  else
    let g := u64 (generation_source_ c + 1) in
    modify (set_generation_source g) ;;
    ret g.

Section cache.
Context {A : Type} {VA : ValueAllocator A}.

(** The state of an operation: the cache, the allocator it refers to, and the
    memory. *)
Definition state : Type := t * (A * env).

(** An allocation outside the value allocator: a string copy or a node. *)
Definition node_alloc : M state unit := on_snd (on_snd may_alloc).

(** An operation of [timing_wheel_]. *)
Definition on_wheel {B} (f : M (TimingWheel.t * env) B) : M state B := fun s =>
  let '(o, (w', e')) := f (timing_wheel_ s.1, s.2.2) in
  (o, (set_wheel w' s.1, (s.2.1, e'))).

(** [remove_entry] of the element of [key]. *)
Definition remove_entry (key : bytes) : M state unit :=
  c <- on_fst read ;;
  match entries_ c !! key with
  | Some se =>
      on_fst (modify_opt (unlink key se)) ;;
      on_snd (CacheEntry.destroy (entry se))
  | None => undefined
  end.

(** [evict_lru]. *)
Definition evict_lru : M state unit :=
  c <- on_fst read ;;
  assert_ (negb (RecencyList.empty (recency_ c))) ;;
  match RecencyList.back (recency_ c) with
  | Some lru_key =>
      assert_ (bool_decide (is_Some (entries_ c !! lru_key))) ;;
      remove_entry lru_key ;;
      on_fst (modify incr_eviction)
  | None => undefined
  end.

(** [while (over()) evict_lru();]: each round erases a node, and an empty list is
    a failed assertion, so one round more than there are nodes is enough. *)
Fixpoint evict_rounds (n : nat) (over : t -> bool) : M state unit :=
  match n with
  | O => undefined
  | S n =>
      c <- on_fst read ;;
      if over c then evict_lru ;; evict_rounds n over else ret tt
  end.

Definition evict_while (over : t -> bool) : M state unit :=
  c <- on_fst read ;;
  evict_rounds (S (length (RecencyList.nodes (recency_ c)))) over.

(** The generation of a SET and, for a positive TTL, its timer event. *)
Definition stamp (key : bytes) (ttl : Z) : M state Z :=
  generation <- on_fst next_generation ;;
  (if 0 <? ttl
   then node_alloc ;; on_wheel (TimingWheel.schedule key generation ttl)
   else ret tt) ;;
  ret generation.

(** [set] on a present key, from the construction of [replacement] on. *)
Definition overwrite (key value : bytes) (ttl : Z) (existing : StoredEntry) (new_charge : Z) :
    M state CacheStatus :=
  replacement <- on_snd (CacheEntry.create value) ;;
  let old_charge := stored_charge key existing in
  generation <- on_throw (stamp key ttl) (on_snd (CacheEntry.destroy replacement)) ;;
  on_fst (modify_opt (mark_mru key)) ;;
  evict_while (fun c => u64 (memory_usage_bytes_ c - old_charge) >?
                        u64 (capacity_bytes_ c - new_charge)) ;;
  c <- on_fst read ;;
  match entries_ c !! key with
  | None => undefined
  | Some se =>
      let '(moved, emptied) := CacheEntry.move replacement in
      entry' <- on_snd (CacheEntry.replace_value (entry se) moved) ;;
      on_fst (modify (fun c =>
        set_usage (u64 (u64 (memory_usage_bytes_ c - old_charge) + new_charge))
          (set_entries (<[key := MkStoredEntry entry' (recency_position se) generation]>
                          (entries_ c)) c))) ;;
      on_snd (CacheEntry.destroy emptied) ;;
      ret ok
  end.

(** [set] on an absent key. *)
Definition insert_new (key value : bytes) (ttl : Z) (new_charge : Z) : M state CacheStatus :=
  node_alloc ;;
  node_alloc ;;
  new_entry <- on_snd (CacheEntry.create value) ;;
  generation <- on_throw
    (generation <- stamp key ttl ;;
     evict_while (fun c => memory_usage_bytes_ c >? u64 (capacity_bytes_ c - new_charge)) ;;
     node_alloc ;;
     ret generation)
    (on_snd (CacheEntry.destroy new_entry)) ;;
  on_fst (modify (fun c => set_recency (RecencyList.push_front key (recency_ c)) c)) ;;
  let '(moved, emptied) := CacheEntry.move new_entry in
  on_throw node_alloc
    (on_snd (CacheEntry.destroy moved) ;;
     on_fst (modify_opt (fun c =>
       match RecencyList.pop_front (recency_ c) with
       | Some l => Some (set_recency l c)
       | None => None
       end)) ;;
     on_snd (CacheEntry.destroy emptied)) ;;
  c <- on_fst read ;;
  assert_ (bool_decide (entries_ c !! key = None)) ;;
  match RecencyList.begin (recency_ c) with
  | None => undefined
  | Some position =>
      on_fst (modify (fun c =>
        set_entries (<[key := MkStoredEntry moved position generation]> (entries_ c)) c)) ;;
      on_fst (modify (fun c => set_usage (u64 (memory_usage_bytes_ c + new_charge)) c)) ;;
      on_snd (CacheEntry.destroy emptied) ;;
      ret ok
  end.

(** [Cache::set]. *)
Definition set (key value : bytes) (ttl : Z) : M state CacheStatus :=
  let key_status := validate_key key in
  if decide (key_status <> ok) then ret key_status
  else if zlen value >? max_value_length then ret value_too_large
  else if ttl <? 0 then ret invalid_ttl
  else
    c <- on_fst read ;;
    let new_charge := entry_charge key (zlen value) in
    if new_charge >? capacity_bytes_ c then ret item_too_large
    else
      node_alloc ;;
      match entries_ c !! key with
      | Some existing => overwrite key value ttl existing new_charge
      | None => insert_new key value ttl new_charge
      end.

(** [Cache::get]: the status and the caller's [output] afterwards. *)
Definition get (key output : bytes) : M state (CacheStatus * bytes) :=
  let key_status := validate_key key in
  if decide (key_status <> ok) then ret (key_status, output)
  else
    node_alloc ;;
    s <- read ;;
    match entries_ s.1 !! key with
    | None => on_fst (modify incr_miss) ;; ret (not_found, output)
    | Some se =>
        match CacheEntry.value (mem s.2.2) (entry se) with
        | None => undefined
        | Some value =>
            (if decide (value = []) then ret tt else node_alloc) ;;
            on_fst (modify_opt (mark_mru key)) ;;
            on_fst (modify incr_hit) ;;
            ret (ok, value)
        end
    end.

(** [Cache::erase]. *)
Definition erase (key : bytes) : M state CacheStatus :=
  let key_status := validate_key key in
  if decide (key_status <> ok) then ret key_status
  else
    node_alloc ;;
    c <- on_fst read ;;
    match entries_ c !! key with
    | None => ret not_found
    | Some _ => remove_entry key ;; ret ok
    end.

(** The loop of [Cache::tick] over the expired events. *)
Fixpoint expire_events (events : list TimerEvent.t) : M state unit :=
  match events with
  | [] => ret tt
  | event :: events =>
      c <- on_fst read ;;
      (match entries_ c !! TimerEvent.key event with
       | None => ret tt
       | Some se =>
           if generation se =? TimerEvent.generation event
           then remove_entry (TimerEvent.key event) ;; on_fst (modify incr_expired)
           else ret tt
       end) ;;
      expire_events events
  end.

(** [Cache::tick]. *)
Definition tick : M state unit :=
  events <- on_wheel TimingWheel.tick ;;
  expire_events events.

(** The destructor: every element of [entries_] is destroyed. *)
Fixpoint destroy_entries (l : list (bytes * StoredEntry)) : M state unit :=
  match l with
  | [] => ret tt
  | (key, se) :: l => on_snd (CacheEntry.destroy (entry se)) ;; destroy_entries l
  end.

Definition destroy : M state unit :=
  c <- on_fst read ;;
  destroy_entries (map_to_list (entries_ c)).

End cache.

(** The observers. *)
Definition size (c : t) : Z := Z.of_nat (base.size (entries_ c)).
Definition empty (c : t) : bool := bool_decide (entries_ c = ∅).
Definition capacity_bytes (c : t) : Z := capacity_bytes_ c.
Definition memory_usage_bytes (c : t) : Z := memory_usage_bytes_ c.
Definition hit_count (c : t) : Z := hit_count_ c.
Definition miss_count (c : t) : Z := miss_count_ c.
Definition eviction_count (c : t) : Z := eviction_count_ c.
Definition expired_count (c : t) : Z := expired_count_ c.

(** [allocator_.metrics()]. *)
Definition allocator_metrics {A} `{ValueAllocator A} (s : state (A := A)) : ValueAllocatorMetrics :=
  metrics s.2.1.

End Cache.
