(* ===== verification/LruSpec.v ===== *)
(** * What a cache promises: an abstract LRU cache with lifetimes

    The specification the concrete cache refines: a list of items, most recently
    used first, each with the seconds it has left to live. There is no index, no
    generation, no timing wheel, no iterator and no memory here. *)
From S2P Require Import Prelude CacheModel.

Module Lru.

Record item := MkItem {
  i_key : bytes;
  i_value : bytes;
  i_ttl : option Z     (** ticks left; [None] never expires *)
}.

#[export] Instance item_eq_dec : EqDecision item.
Proof. solve_decision. Defined.

(** The logical size of an item: key and value bytes. *)
Definition charge (x : item) : Z := zlen (i_key x) + zlen (i_value x).

Definition usage (items : list item) : Z := zsum charge items.

Definition lookup (k : bytes) (items : list item) : option item :=
  snd <$> list_find (fun x => i_key x = k) items.

Definition remove (k : bytes) (items : list item) : list item :=
  filter (fun x => i_key x <> k) items.

(** The most recent items that fit in [budget] bytes. *)
Fixpoint fit (budget : Z) (items : list item) : list item :=
  match items with
  | [] => []
  | x :: items => if charge x <=? budget then x :: fit (budget - charge x) items else []
  end.

(** Lifetimes are whole seconds, rounded up; 0 is no limit. *)
Definition lifetime (ttl_ms : Z) : option Z :=
  if ttl_ms =? 0 then None else Some ((ttl_ms + 999) / 1000).

Definition key_status (k : bytes) : CacheStatus :=
  if decide (k = []) then invalid_key
  else if decide (250 < zlen k) then key_too_large else ok.

(** SET: refuse what breaks a limit; otherwise the item becomes the most recent
    one and the least recent others go until it fits. *)
Definition set (capacity : Z) (k v : bytes) (ttl_ms : Z) (items : list item) :
    CacheStatus * list item :=
  if decide (key_status k <> ok) then (key_status k, items)
  else if decide (1048576 < zlen v) then (value_too_large, items)
  else if decide (ttl_ms < 0) then (invalid_ttl, items)
  else if decide (capacity < zlen k + zlen v) then (item_too_large, items)
  else (ok, MkItem k v (lifetime ttl_ms) :: fit (capacity - (zlen k + zlen v)) (remove k items)).

(** GET: a hit makes the item the most recent one. *)
Definition get (k : bytes) (items : list item) : CacheStatus * option bytes * list item :=
  if decide (key_status k <> ok) then (key_status k, None, items)
  else match lookup k items with
       | Some x => (ok, Some (i_value x), x :: remove k items)
       | None => (not_found, None, items)
       end.

(** DELETE. *)
Definition erase (k : bytes) (items : list item) : CacheStatus * list item :=
  if decide (key_status k <> ok) then (key_status k, items)
  else match lookup k items with
       | Some _ => (ok, remove k items)
       | None => (not_found, items)
       end.

(** One second passes. *)
Definition age (x : item) : option item :=
  match i_ttl x with
  | None => Some x
  | Some d => if d <=? 1 then None else Some (MkItem (i_key x) (i_value x) (Some (d - 1)))
  end.

Definition tick (items : list item) : list item := omap age items.

End Lru.
