(* ===== verification/CacheEntryFacts.v ===== *)
(** * Ownership of values by cache entries

    The live allocations as a multiset of (pointer, size) pairs: constructing an
    entry adds its pair, destroying it removes it, and every other value keeps
    its contents. *)
From S2P Require Import Prelude ErrorModel Effects MemoryModel AllocatorModel.
From S2P Require Import CacheEntryModel.
Import Memory.

(** The allocation an entry owns. *)
Definition entry_alloc (e : CacheEntry.t) : list (ptr * Z) :=
  match CacheEntry.data_ e with
  | Some p => [(p, CacheEntry.size_ e)]
  | None => []
  end.

Definition entry_ok (e : CacheEntry.t) : Prop :=
  CacheEntry.allocator_ e = true /\ 0 <= CacheEntry.size_ e /\
  (CacheEntry.data_ e = None <-> CacheEntry.size_ e = 0).

(** The values at these places are the same in both memories. *)
Definition keeps (l : list (ptr * Z)) (m m' : memory) : Prop :=
  forall p n, (p, n) ∈ l -> load_chars p n m' = load_chars p n m.

Section ownership.
Context {A : Type} {VA : ValueAllocator A} {VL : ValueAllocatorLaws A}.

(** The live allocations of [a] are exactly [l]. *)
Definition owns_list (a : A) (m : memory) (l : list (ptr * Z)) : Prop :=
  exists L, owns a m L /\ map_to_list L ≡ₚ l.

#[export] Instance owns_list_perm a m : Proper ((≡ₚ) ==> iff) (owns_list a m).
Proof.
  intros l k Hlk. unfold owns_list. split; intros (L & HL & Hp); exists L; (split; [done|]).
  - by rewrite Hp.
  - by rewrite Hp, Hlk.
Qed.

Lemma keeps_refl l m : keeps l m m.
Proof. by intros p n Hp. Qed.

Lemma keeps_trans l m1 m2 m3 : keeps l m1 m2 -> keeps l m2 m3 -> keeps l m1 m3.
Proof. intros H1 H2 p n Hp. by rewrite (H2 p n Hp), (H1 p n Hp). Qed.

Lemma keeps_sub l k m m' : (forall x, x ∈ k -> x ∈ l) -> keeps l m m' -> keeps k m m'.
Proof. intros Hs Hk p n Hp. apply Hk. by apply Hs. Qed.

Lemma keeps_same_contents (L : gmap ptr Z) l m m' :
  map_to_list L ≡ₚ l -> same_contents L m m' -> keeps l m m'.
Proof.
  intros Hp Hs p n Hin. apply Hs. rewrite <- Hp in Hin. by apply elem_of_map_to_list in Hin.
Qed.

Lemma value_keeps e m m' : keeps (entry_alloc e) m m' -> CacheEntry.value m' e = CacheEntry.value m e.
Proof.
  intros Hk. unfold CacheEntry.value, entry_alloc, keeps in *. destruct (_ =? 0); [done|].
  destruct (CacheEntry.data_ e); [|done]. apply Hk. by left.
Qed.

(** The size of an entry is the length of its value. *)
Lemma value_length e m v :
  entry_ok e -> CacheEntry.value m e = Some v -> CacheEntry.size_ e = zlen v.
Proof.
  intros (_ & Hs & Hd). unfold CacheEntry.value. destruct (Z.eqb_spec (CacheEntry.size_ e) 0) as [H0|H0].
  { intros [= <-]. done. }
  destruct (CacheEntry.data_ e) as [p|]; [|done]. unfold load_chars. destruct (in_bounds _ _ _); [|done].
  destruct (read_cells _ _ _) as [vs|] eqn:E; [|done]. intros Hv.
  apply read_cells_length in E. apply as_chars_length in Hv. lia.
Qed.

Lemma create_wp a m l fs v :
  owns_list a m l ->
  wp (CacheEntry.create v) (a, MkEnv m fs) (post
    (fun e s => entry_ok e /\ CacheEntry.size_ e = zlen v /\
      owns_list s.1 (mem s.2) (entry_alloc e ++ l) /\
      CacheEntry.value (mem s.2) e = Some v /\ keeps l m (mem s.2))
    (fun x s => x = bad_alloc /\ owns_list s.1 (mem s.2) l /\ keeps l m (mem s.2))).
Proof.
  intros (L & Ho & Hp). unfold CacheEntry.create.
  eapply wp_bind_post; [apply (allocate_spec a m L fs (zlen v) Ho); lia|..].
  2: { intros x [a' e'] (-> & Ho' & Hs). simpl in *. split_and!; [done|by exists L|].
       by eapply keeps_same_contents. }
  intros r [a' [m' fs']] (Hr & Hfresh & Ho' & Hs). simpl in *. destruct r as [p|].
  - assert (zlen v <> 0) as Hne by (intros H0; apply Hr in H0; done).
    rewrite (proj2 (Z.eqb_neq _ _) Hne). simpl in Ho'.
    destruct (owns_live _ _ _ _ _ Ho' (lookup_insert_eq L p (zlen v))) as [Hpos Hb].
    apply wp_bind, wp_on_snd, wp_store; [by rewrite length_char_cells|].
    apply wp_ret. simpl. split_and!.
    + unfold entry_ok. simpl. split_and!; [done|lia|]. split; [done|intros; lia].
    + done.
    + exists (<[p := zlen v]> L). split.
      * eapply owns_write; [exact Ho'|apply lookup_insert_eq|]. by rewrite length_char_cells.
      * rewrite map_to_list_insert by (by apply Hfresh). unfold entry_alloc. simpl. by rewrite Hp.
    + unfold CacheEntry.value. simpl. rewrite (proj2 (Z.eqb_neq _ _) Hne). by apply load_chars_write.
    + intros q k Hq. rewrite <- Hp in Hq. apply elem_of_map_to_list in Hq.
      assert (p <> q) as Hpq by (intros ->; rewrite Hfresh in Hq by done; done).
      rewrite load_chars_frame; [by apply Hs| |].
      * apply (owns_live _ _ _ _ _ Ho) in Hq. lia.
      * rewrite length_char_cells. eapply (owns_disjoint a'); [exact Ho'|apply lookup_insert_eq| |done].
        by rewrite lookup_insert_ne.
  - assert (zlen v = 0) as H0 by (by apply Hr). rewrite H0. simpl.
    apply wp_bind, wp_ret, wp_ret. simpl. split_and!.
    + by unfold entry_ok.
    + done.
    + by exists L.
    + unfold CacheEntry.value. simpl. destruct v; [done|simpl in H0; lia].
    + by eapply keeps_same_contents.
Qed.

Lemma owns_list_delete (a : A) (m : memory) (L : gmap ptr Z) (p : ptr) (n : Z) l :
  owns a m (delete p L) -> map_to_list L ≡ₚ (p, n) :: l -> owns_list a m l.
Proof.
  intros Ho Hp. exists (delete p L). split; [done|].
  assert (L !! p = Some n) as Hl.
  { apply elem_of_map_to_list. rewrite Hp. by left. }
  apply (Permutation_cons_inv (a := (p, n))). by rewrite map_to_list_delete.
Qed.

Lemma destroy_wp e a m l fs :
  entry_ok e -> owns_list a m (entry_alloc e ++ l) ->
  wp (CacheEntry.destroy e) (a, MkEnv m fs) (post
    (fun _ s => owns_list s.1 (mem s.2) l /\ keeps l m (mem s.2)) (fun _ _ => False)).
Proof.
  intros (Hal & Hsz & Hd) (L & Ho & Hp). unfold CacheEntry.destroy. rewrite Hal.
  unfold entry_alloc in Hp. destruct (CacheEntry.data_ e) as [p|] eqn:Hde; simpl in Hp.
  - assert (L !! p = Some (CacheEntry.size_ e)) as Hl.
    { apply elem_of_map_to_list. rewrite Hp. by left. }
    eapply wp_post_mono; [apply (deallocate_spec a m L fs (Some p)); [done|exact Hl]|..]; [|done].
    simpl. intros _ [a' e'] [Ho' Hs]. simpl in *. split; [by eapply owns_list_delete|].
    intros q k Hq. apply Hs. apply elem_of_map_to_list.
    assert ((p, CacheEntry.size_ e) :: map_to_list (delete p L) ≡ₚ (p, CacheEntry.size_ e) :: l) as Hpp
      by (by rewrite map_to_list_delete).
    apply Permutation_cons_inv in Hpp. by rewrite Hpp.
  - eapply wp_post_mono; [apply (deallocate_spec a m L fs None (CacheEntry.size_ e)); [done|]|..]; [|..|done].
    + simpl. by apply Hd.
    + simpl. intros _ [a' e'] [Ho' Hs]. simpl in *. split; [by exists L|by eapply keeps_same_contents].
Qed.

End ownership.

#[export] Hint Resolve keeps_refl : hc.
