(* ===== verification/CacheRep.v ===== *)
(** * How a cache represents a list of items

    A [row] ties together what the concrete cache spreads over its recency list,
    its index, the allocator's memory and the timing wheel, for one item of the
    abstract LRU list. *)
From S2P Require Import Prelude ErrorModel Effects MemoryModel AllocatorModel.
From S2P Require Import TimingWheelModel TimingWheelFacts CacheEntryModel CacheModel.
From S2P Require Import LruSpec CacheEntryFacts.
Import Memory.
Import Cache.

(** ** The abstract list *)

Lemma charge_nonneg x : 0 <= Lru.charge x.
Proof. unfold Lru.charge. lia. Qed.

Lemma usage_nonneg items : 0 <= Lru.usage items.
Proof. apply zsum_nonneg. intros x _. apply charge_nonneg. Qed.

#[export] Hint Resolve charge_nonneg usage_nonneg : hc.

Lemma fit_all T items : Lru.usage items <= T -> Lru.fit T items = items.
Proof.
  revert T. induction items as [|x items IH]; intros T HT; simpl; [done|].
  unfold Lru.usage in *. simpl in HT. pose proof (usage_nonneg items). unfold Lru.usage in *.
  rewrite (proj2 (Z.leb_le _ _)) by lia. rewrite IH by lia. done.
Qed.

(** Dropping the last item of a list that does not fit changes nothing. *)
Lemma fit_snoc T items x :
  T < Lru.usage (items ++ [x]) -> Lru.fit T (items ++ [x]) = Lru.fit T items.
Proof.
  revert T. induction items as [|y items IH]; intros T HT; unfold Lru.usage in *; simpl in *.
  - destruct (Z.leb_spec (Lru.charge x) T); [lia|done].
  - destruct (Z.leb_spec (Lru.charge y) T); [|done]. by rewrite IH by lia.
Qed.

Lemma fit_usage T items : 0 <= T -> Lru.usage (Lru.fit T items) <= T.
Proof.
  revert T. induction items as [|x items IH]; intros T HT; unfold Lru.usage in *; simpl; [lia|].
  destruct (Z.leb_spec (Lru.charge x) T); simpl; [|lia]. specialize (IH (T - Lru.charge x)). lia.
Qed.

Lemma fit_prefix T items : Lru.fit T items `prefix_of` items.
Proof.
  revert T. induction items as [|x items IH]; intros T; simpl; [done|].
  destruct (_ <=? _); [by apply prefix_cons|apply prefix_nil].
Qed.

Lemma lifetime_ticks ttl :
  0 <= ttl <= i64_max -> Lru.lifetime ttl = if 0 <? ttl then Some (TimingWheel.ticks_of ttl) else None.
Proof.
  intros Ht. unfold Lru.lifetime. destruct (Z.eqb_spec ttl 0) as [->|Hne]; [done|].
  rewrite (proj2 (Z.ltb_lt 0 ttl)) by lia. f_equal.
  destruct (ticks_of_ceil ttl ltac:(lia)) as [Hc _].
  pose proof (Z.div_mod (ttl + 999) 1000 ltac:(lia)). pose proof (Z.mod_pos_bound (ttl + 999) 1000 ltac:(lia)).
  lia.
Qed.

Lemma key_status_validate k : Lru.key_status k = validate_key k.
Proof.
  unfold Lru.key_status, validate_key, max_key_length. destruct k as [|b k]; [done|].
  rewrite decide_False by done. change (zlen (b :: k) =? 0) with false.
  rewrite Z.gtb_ltb. destruct (Z.ltb_spec 250 (zlen (b :: k))); [by rewrite decide_True|].
  by rewrite decide_False by lia.
Qed.

Lemma validate_key_ok k : validate_key k = ok -> 0 < zlen k <= max_key_length.
Proof.
  unfold validate_key. destruct (zlen k =? 0) eqn:H0; [done|].
  destruct (zlen k >? max_key_length) eqn:H1; [done|]. zsimp. lia.
Qed.

(** ** Rows *)

Record row := MkRow {
  r_id : RecencyList.iterator;
  r_item : Lru.item;
  r_stored : StoredEntry
}.

Definition r_key (r : row) : bytes := Lru.i_key (r_item r).
Definition r_node (r : row) : RecencyList.iterator * bytes := (r_id r, r_key r).
Definition r_binding (r : row) : bytes * StoredEntry := (r_key r, r_stored r).
Definition r_alloc (r : row) : list (ptr * Z) := entry_alloc (entry (r_stored r)).
Definition r_charge (r : row) : Z := Lru.charge (r_item r).
Definition allocs (rows : list row) : list (ptr * Z) := rows ≫= r_alloc.

(** An item within the limits of the protocol. *)
Definition item_ok (x : Lru.item) : Prop :=
  0 < zlen (Lru.i_key x) <= max_key_length /\ zlen (Lru.i_value x) <= max_value_length.

(** The timer of a row: an item with [d] ticks to live has an event of its
    generation due in [d] ticks, an item without a limit has none. *)
Definition timer_ok (l : list countdown) (r : row) : Prop :=
  match Lru.i_ttl (r_item r) with
  | Some d => 0 < d /\ (r_key r, generation (r_stored r), d) ∈ l
  | None => generation (r_stored r) ∉ (fun x => x.1.2) <$> l
  end.

Record row_ok (src : Z) (l : list countdown) (m : memory) (r : row) : Prop := {
  row_position : recency_position (r_stored r) = r_id r;
  row_entry : entry_ok (entry (r_stored r));
  row_value : CacheEntry.value m (entry (r_stored r)) = Some (Lru.i_value (r_item r));
  row_item : item_ok (r_item r);
  row_generation : 0 <= generation (r_stored r) <= src;
  row_timer : timer_ok l r
}.

(** Every event in the wheel carries its own generation, already given out. *)
Record timers_ok (src : Z) (w : TimingWheel.t) : Prop := {
  timers_src : 0 <= src <= u64_max;
  timers_wheel : wheel_ok w;
  timers_fresh : Forall (fun x => 0 <= x.1.2 <= src) (pending w);
  timers_nodup : NoDup ((fun x => x.1.2) <$> pending w)
}.

Record rows_rep (cap : Z) (c : Cache.t) (m : memory) (rows : list row) : Prop := {
  rep_cap : capacity_bytes_ c = cap;
  rep_cap_range : 0 <= cap < 2 ^ 64;
  rep_nodes : RecencyList.nodes (recency_ c) = r_node <$> rows;
  rep_ids : NoDup (r_id <$> rows);
  rep_next : Forall (fun r => (r_id r < RecencyList.next_node (recency_ c))%N) rows;
  rep_keys : NoDup (r_key <$> rows);
  rep_entries : entries_ c = list_to_map (r_binding <$> rows);
  rep_usage : memory_usage_bytes_ c = zsum r_charge rows;
  rep_fits : zsum r_charge rows <= cap;
  rep_timers : timers_ok (generation_source_ c) (timing_wheel_ c);
  rep_rows : Forall (row_ok (generation_source_ c) (pending (timing_wheel_ c)) m) rows
}.

Lemma zsum_rows rows : zsum r_charge rows = Lru.usage (r_item <$> rows).
Proof. unfold Lru.usage. induction rows as [|r rows IH]; csimpl; [done|]. by rewrite IH. Qed.

Lemma r_charge_nonneg r : 0 <= r_charge r.
Proof. apply charge_nonneg. Qed.

Lemma rows_usage_nonneg rows : 0 <= zsum r_charge rows.
Proof. rewrite zsum_rows. apply usage_nonneg. Qed.

#[export] Hint Resolve rows_usage_nonneg : hc.

Lemma allocs_app l1 l2 : allocs (l1 ++ l2) = allocs l1 ++ allocs l2.
Proof. apply bind_app. Qed.

Lemma allocs_cons r l : allocs (r :: l) = r_alloc r ++ allocs l.
Proof. done. Qed.

#[export] Instance allocs_perm : Proper ((≡ₚ) ==> (≡ₚ)) allocs.
Proof. intros l k Hlk. unfold allocs. by rewrite Hlk. Qed.

Lemma row_alloc_sub r rows x : r ∈ rows -> x ∈ r_alloc r -> x ∈ allocs rows.
Proof. intros Hr Hx. apply list_elem_of_bind. by exists r. Qed.

(** The charge the code computes is the one of the item. *)
Lemma stored_charge_row src l m r :
  row_ok src l m r -> stored_charge (r_key r) (r_stored r) = r_charge r.
Proof.
  intros [_ He Hv [Hk Hl] _ _]. unfold stored_charge, entry_charge, r_charge, Lru.charge.
  rewrite (value_length _ _ _ He Hv). unfold max_key_length, max_value_length, r_key in *.
  apply u64_small. lia.
Qed.

(** Rows do not depend on the rest of the memory, nor on other timers. *)
Lemma row_ok_mono src src' l l' m m' r :
  row_ok src l m r -> src <= src' -> keeps (r_alloc r) m m' ->
  (timer_ok l r -> timer_ok l' r) -> row_ok src' l' m' r.
Proof.
  intros [R1 R2 R3 R4 R5 R6] Hsrc Hk Ht. constructor; auto; [|lia].
  by rewrite (value_keeps _ m).
Qed.

Lemma rows_ok_keeps src l m m' rows :
  Forall (row_ok src l m) rows -> keeps (allocs rows) m m' -> Forall (row_ok src l m') rows.
Proof.
  intros Hr Hk. apply Forall_forall. intros r Hin. rewrite Forall_forall in Hr.
  eapply row_ok_mono; [by apply Hr|lia| |done].
  eapply keeps_sub; [|exact Hk]. intros x. by apply row_alloc_sub.
Qed.

(** ** Lookups *)

Lemma rep_lookup_row cap c m l1 r l2 :
  rows_rep cap c m (l1 ++ r :: l2) -> entries_ c !! r_key r = Some (r_stored r).
Proof.
  intros Hr. rewrite (rep_entries _ _ _ _ Hr). apply elem_of_list_to_map.
  - rewrite <- list_fmap_compose. apply Hr.
  - apply list_elem_of_fmap. exists r. split; [done|]. set_solver.
Qed.

Lemma rep_lookup_none cap c m rows k :
  rows_rep cap c m rows -> entries_ c !! k = None -> k ∉ r_key <$> rows.
Proof.
  intros Hr Hk. rewrite (rep_entries _ _ _ _ Hr) in Hk. apply not_elem_of_list_to_map_2 in Hk.
  by rewrite <- list_fmap_compose in Hk.
Qed.

Lemma rep_lookup_some cap c m rows k se :
  rows_rep cap c m rows -> entries_ c !! k = Some se ->
  exists l1 r l2, rows = l1 ++ r :: l2 /\ r_key r = k /\ r_stored r = se.
Proof.
  intros Hr Hk. rewrite (rep_entries _ _ _ _ Hr) in Hk. apply elem_of_list_to_map_2 in Hk.
  apply list_elem_of_fmap in Hk as (r & Hb & Hin). apply list_elem_of_split in Hin as (l1 & l2 & ->).
  exists l1, r, l2. unfold r_binding in Hb. by simplify_eq.
Qed.

Lemma rep_none_iff cap c m rows k :
  rows_rep cap c m rows -> k ∉ r_key <$> rows -> entries_ c !! k = None.
Proof.
  intros Hr Hk. rewrite (rep_entries _ _ _ _ Hr). apply not_elem_of_list_to_map_1.
  by rewrite <- list_fmap_compose.
Qed.

(** The same facts on the abstract list. *)
Lemma lru_lookup_row l1 r l2 :
  NoDup (r_key <$> (l1 ++ r :: l2)) ->
  Lru.lookup (r_key r) (r_item <$> (l1 ++ r :: l2)) = Some (r_item r) /\
  Lru.remove (r_key r) (r_item <$> (l1 ++ r :: l2)) = r_item <$> (l1 ++ l2).
Proof.
  intros Hnd. unfold Lru.lookup, Lru.remove. rewrite !fmap_app, fmap_cons.
  assert (NoDup (Lru.i_key <$> (r_item <$> l1) ++ r_item r :: (r_item <$> l2))) as Hnd'.
  { replace (Lru.i_key <$> _) with (r_key <$> (l1 ++ r :: l2)); [done|].
    rewrite !fmap_app, !fmap_cons, <- !list_fmap_compose. done. }
  split; [by apply (keyed_find Lru.i_key)|by apply (keyed_filter Lru.i_key)].
Qed.

Lemma lru_lookup_none rows k :
  k ∉ r_key <$> rows ->
  Lru.lookup k (r_item <$> rows) = None /\ Lru.remove k (r_item <$> rows) = r_item <$> rows.
Proof.
  intros Hk. assert (k ∉ Lru.i_key <$> (r_item <$> rows)) as Hk' by (by rewrite <- list_fmap_compose).
  split; [by apply (keyed_find_none Lru.i_key)|by apply (filter_ne_notin Lru.i_key)].
Qed.

(** ** The recency list *)

Lemma find_row L l1 r l2 :
  RecencyList.nodes L = r_node <$> (l1 ++ r :: l2) -> NoDup (r_id <$> (l1 ++ r :: l2)) ->
  RecencyList.find_node (r_id r) L = Some (r_node r) /\
  RecencyList.others (r_id r) L = r_node <$> (l1 ++ l2).
Proof.
  intros HL Hnd. unfold RecencyList.find_node, RecencyList.others. rewrite HL.
  rewrite !fmap_app, !fmap_cons.
  assert (NoDup (fst <$> ((r_node <$> l1) ++ r_node r :: (r_node <$> l2)))) as Hnd'.
  { replace (fst <$> _) with (r_id <$> (l1 ++ r :: l2)); [done|].
    rewrite !fmap_app, !fmap_cons, <- !list_fmap_compose. done. }
  split; [by apply (keyed_find fst _ (r_node r))|by apply (keyed_filter fst _ (r_node r))].
Qed.
