(* ===== verification/CacheSteps.v ===== *)
(** * The steps of the cache's operations on its representation

    Unlinking, recency moves, eviction, generations and timers: each internal
    operation of [Cache] as a change of the list of rows. *)
From S2P Require Import Prelude ErrorModel Effects MemoryModel AllocatorModel.
From S2P Require Import TimingWheelModel TimingWheelFacts CacheEntryModel CacheModel.
From S2P Require Import LruSpec CacheEntryFacts CacheRep.
Import Memory.
Import Cache.

(** The counters are numbers of 64 bits. [counted]: they advanced by so many hits,
    misses, evictions and expiries (modulo 2^64, as [std::size_t] counts) and stayed
    numbers of 64 bits. *)
Definition counters_ok (c : Cache.t) : Prop :=
  0 <= hit_count_ c <= u64_max /\ 0 <= miss_count_ c <= u64_max /\
  0 <= eviction_count_ c <= u64_max /\ 0 <= expired_count_ c <= u64_max.

Record counted (h m e x : Z) (c c' : Cache.t) : Prop := {
  counted_hits : u64 (hit_count_ c') = u64 (hit_count_ c + h);
  counted_misses : u64 (miss_count_ c') = u64 (miss_count_ c + m);
  counted_evictions : u64 (eviction_count_ c') = u64 (eviction_count_ c + e);
  counted_expired : u64 (expired_count_ c') = u64 (expired_count_ c + x);
  counted_within : counters_ok c -> counters_ok c'
}.

Lemma counted_same c c' :
  hit_count_ c' = hit_count_ c -> miss_count_ c' = miss_count_ c ->
  eviction_count_ c' = eviction_count_ c -> expired_count_ c' = expired_count_ c ->
  counted 0 0 0 0 c c'.
Proof.
  intros H1 H2 H3 H4. constructor; rewrite ?Z.add_0_r; [congruence..|]. unfold counters_ok. by rewrite H1, H2, H3, H4.
Qed.

Lemma u64_add_trans a b c x y : u64 b = u64 (a + x) -> u64 c = u64 (b + y) -> u64 c = u64 (a + (x + y)).
Proof.
  intros Hb ->. rewrite <- u64_add_l, Hb, u64_add_l. f_equal. lia.
Qed.

Lemma counted_trans h1 m1 e1 x1 h2 m2 e2 x2 c1 c2 c3 :
  counted h1 m1 e1 x1 c1 c2 -> counted h2 m2 e2 x2 c2 c3 ->
  counted (h1 + h2) (m1 + m2) (e1 + e2) (x1 + x2) c1 c3.
Proof. intros [] []. constructor; [by eapply u64_add_trans..|]. auto. Qed.

Lemma u64_within x : 0 <= u64 x <= u64_max.
Proof. unfold u64, u64_max. pose proof (Z.mod_pos_bound x (2 ^ 64) ltac:(lia)). lia. Qed.

Lemma incr_hit_counted c : counted 1 0 0 0 c (incr_hit c).
Proof.
  constructor; simpl; rewrite ?u64_idemp, ?Z.add_0_r; try done.
  intros (? & ? & ? & ?). split_and!; simpl; try apply u64_within; lia.
Qed.

Lemma incr_miss_counted c : counted 0 1 0 0 c (incr_miss c).
Proof.
  constructor; simpl; rewrite ?u64_idemp, ?Z.add_0_r; try done.
  intros (? & ? & ? & ?). split_and!; simpl; try apply u64_within; lia.
Qed.

Lemma incr_eviction_counted c : counted 0 0 1 0 c (incr_eviction c).
Proof.
  constructor; simpl; rewrite ?u64_idemp, ?Z.add_0_r; try done.
  intros (? & ? & ? & ?). split_and!; simpl; try apply u64_within; lia.
Qed.

Lemma incr_expired_counted c : counted 0 0 0 1 c (incr_expired c).
Proof.
  constructor; simpl; rewrite ?u64_idemp, ?Z.add_0_r; try done.
  intros (? & ? & ? & ?). split_and!; simpl; try apply u64_within; lia.
Qed.

(** Counters are no part of what a cache holds. *)
Lemma rows_rep_counters cap c c' m rows :
  capacity_bytes_ c' = capacity_bytes_ c -> memory_usage_bytes_ c' = memory_usage_bytes_ c ->
  generation_source_ c' = generation_source_ c -> timing_wheel_ c' = timing_wheel_ c ->
  recency_ c' = recency_ c -> entries_ c' = entries_ c ->
  rows_rep cap c m rows -> rows_rep cap c' m rows.
Proof. intros E1 E2 E3 E4 E5 E6 []. constructor; rewrite ?E1, ?E2, ?E3, ?E4, ?E5, ?E6; done. Qed.

(** The wheel and the generation counter are untouched. *)
Definition same_timers (c c' : Cache.t) : Prop :=
  timing_wheel_ c' = timing_wheel_ c /\ generation_source_ c' = generation_source_ c.

Lemma same_timers_trans c1 c2 c3 : same_timers c1 c2 -> same_timers c2 c3 -> same_timers c1 c3.
Proof. unfold same_timers. intros [H1 H2] [H3 H4]. split; congruence. Qed.

(** ** Changes of the cache record *)

Lemma rows_rep_keeps cap c m m' rows :
  rows_rep cap c m rows -> keeps (allocs rows) m m' -> rows_rep cap c m' rows.
Proof. intros [] Hk. constructor; try done. by eapply rows_ok_keeps. Qed.

Lemma binding_middle l1 r l2 :
  NoDup (r_key <$> (l1 ++ r :: l2)) ->
  list_to_map (M := gmap bytes StoredEntry) (r_binding <$> (l1 ++ r :: l2)) =
    <[r_key r := r_stored r]> (list_to_map (r_binding <$> (l1 ++ l2))) /\
  list_to_map (M := gmap bytes StoredEntry) (r_binding <$> (l1 ++ l2)) !! r_key r = None.
Proof.
  intros Hnd. split.
  - rewrite (list_to_map_proper _ (r_binding <$> (r :: l1 ++ l2))); [done| |].
    + by rewrite <- list_fmap_compose.
    + by rewrite Permutation_middle.
  - apply not_elem_of_list_to_map_1. rewrite <- list_fmap_compose.
    rewrite <- Permutation_middle in Hnd. csimpl in Hnd. by apply NoDup_cons in Hnd as [? _].
Qed.

Lemma unlink_rep cap c m l1 r l2 :
  rows_rep cap c m (l1 ++ r :: l2) ->
  exists c', unlink (r_key r) (r_stored r) c = Some c' /\ rows_rep cap c' m (l1 ++ l2) /\
    same_timers c c' /\ counted 0 0 0 0 c c'.
Proof.
  intros Hr. pose proof Hr as [R1 R2 R3 R4 R5 R6 R7 R8 R9 R10 R11]. unfold unlink.
  assert (row_ok (generation_source_ c) (pending (timing_wheel_ c)) m r) as Hrow.
  { apply Forall_app in R11 as [_ R11]. by apply Forall_cons in R11 as [? _]. }
  rewrite (row_position _ _ _ _ Hrow), (stored_charge_row _ _ _ _ Hrow).
  destruct (find_row _ _ _ _ R3 R4) as [Hf Ho]. unfold RecencyList.erase. rewrite Hf, Ho.
  eexists. split; [done|]. split; [|split; [done|by apply counted_same]].
  assert (zsum r_charge (l1 ++ r :: l2) = r_charge r + zsum r_charge (l1 ++ l2)) as Hsum.
  { by rewrite <- Permutation_middle. }
  pose proof (rows_usage_nonneg (l1 ++ l2)). pose proof (charge_nonneg (r_item r)).
  unfold r_charge in Hsum at 2.
  rewrite <- Permutation_middle in R4, R5, R6, R11. csimpl in *.
  apply NoDup_cons in R4 as [_ R4]. apply NoDup_cons in R6 as [R6' R6].
  apply Forall_cons in R5 as [_ R5]. apply Forall_cons in R11 as [_ R11].
  constructor; simpl; try done.
  - rewrite R7. destruct (binding_middle l1 r l2) as [-> Hnone]; [apply Hr|].
    by rewrite delete_insert_id.
  - unfold r_charge at 1. rewrite u64_small; lia.
  - lia.
Qed.

Lemma mark_mru_rep cap c m l1 r l2 :
  rows_rep cap c m (l1 ++ r :: l2) ->
  exists c', mark_mru (r_key r) c = Some c' /\ rows_rep cap c' m (r :: l1 ++ l2) /\
    same_timers c c' /\ counted 0 0 0 0 c c'.
Proof.
  intros Hr. pose proof Hr as [R1 R2 R3 R4 R5 R6 R7 R8 R9 R10 R11]. unfold mark_mru.
  rewrite (rep_lookup_row _ _ _ _ _ _ Hr).
  assert (row_ok (generation_source_ c) (pending (timing_wheel_ c)) m r) as Hrow.
  { apply Forall_app in R11 as [_ R11]. by apply Forall_cons in R11 as [? _]. }
  rewrite (row_position _ _ _ _ Hrow). destruct (find_row _ _ _ _ R3 R4) as [Hf Ho].
  unfold RecencyList.splice_front. rewrite Hf, Ho. simpl.
  eexists. split; [done|]. split; [|split; [done|by apply counted_same]].
  rewrite <- Permutation_middle in R4, R5, R6, R8, R9, R11.
  constructor; simpl; try done.
  rewrite R7. destruct (binding_middle l1 r l2) as [-> _]; [apply Hr|].
  rewrite insert_insert_eq. f_equal. rewrite <- (row_position _ _ _ _ Hrow).
  by destruct (r_stored r).
Qed.

(** ** Timers *)

Lemma timer_ok_perm l l' r : l ≡ₚ l' -> timer_ok l r -> timer_ok l' r.
Proof. intros Hp. unfold timer_ok. destruct (Lru.i_ttl _); by rewrite Hp. Qed.

(** A new event of a later generation disturbs no row. *)
Lemma timer_ok_cons k g d l r :
  generation (r_stored r) < g -> timer_ok l r -> timer_ok ((k, g, d) :: l) r.
Proof.
  intros Hg. unfold timer_ok. destruct (Lru.i_ttl _).
  - intros [? ?]. split; [done|]. by right.
  - csimpl. rewrite not_elem_of_cons. intros ?. split; [lia|done].
Qed.

Lemma rows_ok_cons src k g d l m rows :
  src < g -> Forall (row_ok src l m) rows -> Forall (row_ok g ((k, g, d) :: l) m) rows.
Proof.
  intros Hg Hr. eapply Forall_impl; [exact Hr|]. intros r Hrow.
  eapply row_ok_mono; [exact Hrow|lia|apply keeps_refl|].
  apply timer_ok_cons. pose proof (row_generation _ _ _ _ Hrow). lia.
Qed.

Lemma rows_ok_src src g l m rows :
  src <= g -> Forall (row_ok src l m) rows -> Forall (row_ok g l m) rows.
Proof.
  intros Hg Hr. eapply Forall_impl; [exact Hr|]. intros r Hrow.
  by eapply row_ok_mono; [exact Hrow|lia|apply keeps_refl|].
Qed.

Lemma timers_ok_src src g w : timers_ok src w -> src <= g <= u64_max -> timers_ok g w.
Proof.
  intros [T1 T2 T3 T4] Hg. constructor; [lia|done| |done].
  eapply Forall_impl; [exact T3|]. simpl. intros; lia.
Qed.

Lemma timers_ok_cons src g w w' k d :
  timers_ok src w -> src < g <= u64_max -> wheel_ok w' ->
  pending w' ≡ₚ (k, g, d) :: pending w -> timers_ok g w'.
Proof.
  intros [T1 T2 T3 T4] Hg Hw Hp. constructor; [lia|done|..].
  - rewrite Hp. constructor; [simpl; lia|]. eapply Forall_impl; [exact T3|]. simpl. intros; lia.
  - rewrite Hp. csimpl. constructor; [|done]. intros Hin.
    apply list_elem_of_fmap in Hin as (x & Heq & Hx). rewrite Forall_forall in T3.
    specialize (T3 _ Hx). simpl in T3. lia.
Qed.

(** The exceptions an operation of the cache can end with. *)
Definition cache_exn (x : exn) : Prop :=
  x = bad_alloc \/ x = std_overflow_error (lit "cache entry generation exhausted").

Section steps.
Context {A : Type} {VA : ValueAllocator A} {VL : ValueAllocatorLaws A}.
Implicit Types (s : state (A := A)) (X : list (ptr * Z)).

(** The cache holds [rows], and the allocator's live allocations are the values
    of the rows and [X]. *)
Definition holds (cap : Z) s (rows : list row) X : Prop :=
  rows_rep cap s.1 (mem s.2.2) rows /\ owns_list s.2.1 (mem s.2.2) (allocs rows ++ X).

(** The timers, the counters and the allocations of others after some steps. *)
Definition step_frame (e x : Z) X s s' : Prop :=
  same_timers s.1 s'.1 /\ counted 0 0 e x s.1 s'.1 /\ keeps X (mem s.2.2) (mem s'.2.2).

Lemma step_frame_trans e1 x1 e2 x2 X s1 s2 s3 :
  step_frame e1 x1 X s1 s2 -> step_frame e2 x2 X s2 s3 -> step_frame (e1 + e2) (x1 + x2) X s1 s3.
Proof.
  intros (T1 & C1 & K1) (T2 & C2 & K2). split_and!.
  - by eapply same_timers_trans.
  - apply (counted_trans _ _ _ _ _ _ _ _ _ _ _ C1 C2).
  - by eapply keeps_trans.
Qed.

Lemma step_frame_refl X s : step_frame 0 0 X s s.
Proof. split_and!; [done|by apply counted_same|apply keeps_refl]. Qed.

Lemma node_alloc_wp s Q :
  (forall fs, Q (Ret tt) (s.1, (s.2.1, MkEnv (mem s.2.2) fs))) ->
  (forall fs, Q (Throw bad_alloc) (s.1, (s.2.1, MkEnv (mem s.2.2) fs))) ->
  wp node_alloc s Q.
Proof.
  intros HR HT. unfold node_alloc. destruct s as [c [a e]].
  apply wp_on_snd, wp_on_snd, wp_may_alloc; auto.
Qed.

Lemma wp_on_wheel {B} (f : M (TimingWheel.t * env) B) c (a : A) e Q :
  wp f (timing_wheel_ c, e) (fun o we => Q o (set_wheel we.1 c, (a, we.2))) ->
  wp (on_wheel f) (c, (a, e)) Q.
Proof. unfold wp, on_wheel. simpl. by destruct (f _) as [o [w' e']]. Qed.

Lemma remove_entry_wp cap s l1 r l2 X :
  holds cap s (l1 ++ r :: l2) X ->
  wp (remove_entry (r_key r)) s (post
    (fun _ s' => holds cap s' (l1 ++ l2) X /\ step_frame 0 0 X s s') (fun _ _ => False)).
Proof.
  intros [Hr Ho]. destruct s as [c [a [m fs]]]. simpl in *. unfold remove_entry.
  apply wp_bind, wp_on_fst, wp_read. cbn beta iota. rewrite (rep_lookup_row _ _ _ _ _ _ Hr).
  destruct (unlink_rep _ _ _ _ _ _ Hr) as (c' & Hu & Hr' & Ht & Hc).
  apply wp_bind, wp_on_fst. eapply wp_modify_opt; [exact Hu|]. cbn beta iota.
  assert (entry_ok (entry (r_stored r))) as He.
  { pose proof (rep_rows _ _ _ _ Hr) as R. apply Forall_app in R as [_ R].
    apply Forall_cons in R as [R _]. apply R. }
  apply wp_on_snd. eapply wp_post_mono; [apply (destroy_wp _ a m (allocs (l1 ++ l2) ++ X) fs He)|..].
  - rewrite app_assoc. change (entry_alloc _) with (r_alloc r). rewrite <- allocs_cons.
    by rewrite Permutation_middle.
  - intros _ [a' [m' fs']] [Ho' Hk]. simpl in *. split; [split; [|done]|].
    + eapply rows_rep_keeps; [exact Hr'|]. eapply keeps_sub; [|exact Hk]. intros y. rewrite elem_of_app. tauto.
    + split_and!; [done|done|]. eapply keeps_sub; [|exact Hk]. intros y. rewrite elem_of_app. tauto.
  - done.
Qed.

Lemma evict_lru_wp cap s rows r X :
  holds cap s (rows ++ [r]) X ->
  wp evict_lru s (post
    (fun _ s' => holds cap s' rows X /\ step_frame 1 0 X s s') (fun _ _ => False)).
Proof.
  intros Hh. pose proof Hh as [Hr Ho]. unfold evict_lru. destruct s as [c ae].
  apply wp_bind, wp_on_fst, wp_read. cbn beta iota.
  pose proof (rep_nodes _ _ _ _ Hr) as Hn. simpl in Hn. rewrite fmap_app in Hn. csimpl in Hn.
  apply wp_bind, wp_assert.
  { unfold RecencyList.empty. rewrite Hn. apply negb_true_iff, bool_decide_eq_false.
    by destruct (r_node <$> rows). }
  cbn beta iota. unfold RecencyList.back. rewrite Hn, last_snoc. simpl.
  apply wp_bind, wp_assert.
  { apply bool_decide_eq_true. eexists. exact (rep_lookup_row _ _ _ rows r [] Hr). }
  cbn beta iota. eapply wp_bind_post; [apply (remove_entry_wp cap _ rows r []), Hh|..]; [|done].
  intros _ [c' ae'] [[Hr' Ho'] Hf]. rewrite app_nil_r in *. simpl in *.
  apply wp_on_fst, wp_modify. simpl. split.
  - split; [|done]. simpl. by eapply rows_rep_counters, Hr'.
  - destruct Hf as (T & C & K). split_and!; [done| |done].
    exact (counted_trans _ _ _ _ _ _ _ _ _ _ _ C (incr_eviction_counted c')).
Qed.

Lemma evict_rounds_wp n cap over base l T s X :
  (length l < n)%nat -> 0 <= T -> holds cap s (base ++ l) X ->
  (forall c m l', l' `prefix_of` l -> rows_rep cap c m (base ++ l') ->
    over c = (zsum r_charge l' >? T)) ->
  wp (evict_rounds n over) s (post
    (fun _ s' => exists l', l' `prefix_of` l /\
      r_item <$> l' = Lru.fit T (r_item <$> l) /\ holds cap s' (base ++ l') X /\
      step_frame (zlen l - zlen l') 0 X s s')
    (fun _ _ => False)).
Proof.
  intros Hn HT. revert l s Hn. induction n as [|n IH]; intros l s Hn Hh Hover; [lia|].
  simpl. destruct s as [c ae]. apply wp_bind, wp_on_fst, wp_read. cbn beta iota.
  rewrite (Hover c _ l (reflexivity _) (proj1 Hh)).
  destruct (zsum r_charge l >? T) eqn:Hgt; zsimp.
  - destruct l as [|r l _] using rev_ind; [simpl in Hgt; lia|].
    rewrite app_assoc in Hh. rewrite length_app in *. simpl in *.
    eapply wp_bind_post; [apply (evict_lru_wp cap _ (base ++ l) r), Hh|..]; [|done].
    intros _ s' [Hh' Hf].
    eapply wp_post_mono; [apply (IH l s'); [lia|done|]|..]; [|..|done].
    { intros c' m' l' Hl'. apply Hover. by apply prefix_app_r. }
    intros _ s'' (l' & Hp & Hi & Hh'' & Hf'). exists l'. split_and!; [by apply prefix_app_r| |done|].
    + rewrite Hi, fmap_app. symmetry. apply fit_snoc.
      change [_] with (r_item <$> [r]). rewrite <- fmap_app, <- zsum_rows. done.
    + replace (Z.of_nat (length l + 1) - zlen l') with (1 + (zlen l - zlen l')) by lia.
      by apply (step_frame_trans 1 0 _ 0 _ _ s').
  - apply wp_ret. exists l. split_and!; [done| |done|].
    + symmetry. apply fit_all. by rewrite <- zsum_rows.
    + rewrite Z.sub_diag. apply step_frame_refl.
Qed.

Lemma evict_while_wp cap over base l T s X :
  0 <= T -> holds cap s (base ++ l) X ->
  (forall c m l', l' `prefix_of` l -> rows_rep cap c m (base ++ l') ->
    over c = (zsum r_charge l' >? T)) ->
  wp (evict_while over) s (post
    (fun _ s' => exists l', l' `prefix_of` l /\
      r_item <$> l' = Lru.fit T (r_item <$> l) /\ holds cap s' (base ++ l') X /\
      step_frame (zlen l - zlen l') 0 X s s')
    (fun _ _ => False)).
Proof.
  intros HT Hh Hover. unfold evict_while. destruct s as [c ae].
  apply wp_bind, wp_on_fst, wp_read. cbn beta iota. eapply evict_rounds_wp; [|done..].
  pose proof (rep_nodes _ _ _ _ (proj1 Hh)) as Hn. simpl in Hn. rewrite Hn, length_fmap, length_app. lia.
Qed.

(** ** Generations and timers of a SET *)

(** What the generation [g] just given out promises for a row with that lifetime. *)
Definition stamped (k : bytes) (ttl : Z) (g : Z) (c : Cache.t) : Prop :=
  (generation_source_ c = g /\ 0 <= g) /\
  match Lru.lifetime ttl with
  | Some d => 0 < d /\ (k, g, d) ∈ pending (timing_wheel_ c)
  | None => g ∉ (fun x => x.1.2) <$> pending (timing_wheel_ c)
  end.

(** The operation changed timers only. *)
Definition timers_only s s' : Prop :=
  counted 0 0 0 0 s.1 s'.1 /\ mem s'.2.2 = mem s.2.2 /\ s'.2.1 = s.2.1.

Ltac timers_tac := split_and!; [by apply counted_same|done|done].

Lemma next_generation_rep cap c m rows :
  rows_rep cap c m rows -> generation_source_ c <> u64_max ->
  rows_rep cap (set_generation_source (u64 (generation_source_ c + 1)) c) m rows /\
  u64 (generation_source_ c + 1) = generation_source_ c + 1.
Proof.
  intros Hr Hne. pose proof (timers_src _ _ (rep_timers _ _ _ _ Hr)) as Hs. destruct Hr. unfold u64_max in *.
  rewrite u64_small by lia. split; [|done]. constructor; simpl; try done.
  - eapply timers_ok_src; [done|]. unfold u64_max. lia.
  - eapply rows_ok_src; [|done]. lia.
Qed.

Lemma schedule_rep cap c m rows w' k d :
  rows_rep cap c m rows -> generation_source_ c <> u64_max -> wheel_ok w' ->
  pending w' ≡ₚ (k, u64 (generation_source_ c + 1), d) :: pending (timing_wheel_ c) ->
  rows_rep cap (set_wheel w' (set_generation_source (u64 (generation_source_ c + 1)) c)) m rows.
Proof.
  intros Hr Hne Hw Hp. destruct (next_generation_rep _ _ _ _ Hr Hne) as [_ Hg]. rewrite Hg in *.
  pose proof (timers_src _ _ (rep_timers _ _ _ _ Hr)) as Hs. destruct Hr. unfold u64_max in *.
  constructor; simpl; try done.
  - eapply timers_ok_cons; [done| |done|done]. unfold u64_max. lia.
  - eapply Forall_impl; [apply (rows_ok_cons (generation_source_ c) k (generation_source_ c + 1) d); [lia|done]|].
    intros r Hrow. eapply row_ok_mono; [exact Hrow|lia|apply keeps_refl|].
    apply timer_ok_perm. by rewrite Hp.
Qed.

Lemma stamp_wp cap s rows X k ttl :
  holds cap s rows X -> 0 <= ttl <= i64_max ->
  wp (stamp k ttl) s (post
    (fun g s' => holds cap s' rows X /\ timers_only s s' /\ stamped k ttl g s'.1)
    (fun x s' => holds cap s' rows X /\ timers_only s s' /\ cache_exn x)).
Proof.
  intros [Hr Ho] Ht. destruct s as [c [a [m fs]]]. simpl in *. unfold stamp.
  apply wp_bind, wp_on_fst. unfold next_generation.
  apply wp_bind, wp_read. cbn beta iota. destruct (Z.eqb_spec (generation_source_ c) u64_max) as [Hm|Hm].
  { split_and!; [done|timers_tac|by right]. }
  apply wp_bind, wp_modify, wp_ret. cbn beta iota.
  destruct (next_generation_rep _ _ _ _ Hr Hm) as [Hr' Hg].
  set (g := u64 (generation_source_ c + 1)) in *. set (c1 := set_generation_source g c) in *.
  unfold stamped. rewrite lifetime_ticks by done.
  assert (0 <= g) as Hg0 by apply u64_within.
  destruct (Z.ltb_spec 0 ttl) as [Hpos|Hpos].
  - apply wp_bind, wp_bind, node_alloc_wp; simpl; intros fs1.
    2: { split_and!; [done|timers_tac|by left]. }
    apply wp_on_wheel, schedule_wp; [apply Hr|lia|..]; simpl.
    + intros w2 fs2 Hw2 Hp2. split_and!; [|timers_tac|done|done| |].
      * split; [|done]. by eapply schedule_rep.
      * apply ticks_of_ceil. lia.
      * simpl. rewrite Hp2. by left.
    + intros fs2. split_and!; [|timers_tac|by left]. split; [|done]. by destruct c.
  - apply wp_bind, wp_ret. cbn beta iota. apply wp_ret. simpl.
    split_and!; [done|timers_tac|done|done|].
    intros Hin. apply list_elem_of_fmap in Hin as (x & Heq & Hx).
    pose proof (timers_fresh _ _ (rep_timers _ _ _ _ Hr)) as Hf. rewrite Forall_forall in Hf.
    specialize (Hf _ Hx). simpl in Hf. lia.
Qed.

End steps.
