(* ===== verification/CacheSetFacts.v ===== *)
(** * SET refines the abstract LRU cache *)
From S2P Require Import Prelude ErrorModel Effects MemoryModel AllocatorModel.
From S2P Require Import TimingWheelModel TimingWheelFacts CacheEntryModel CacheModel.
From S2P Require Import LruSpec CacheEntryFacts CacheRep CacheSteps.
Import Memory.
Import Cache.

(** ** The two updates of the index *)

(** The first row is replaced; of the memory only the values of [l] need to be
    the same. *)
Lemma replace_rep cap c m m' r l r' :
  rows_rep cap c m (r :: l) -> keeps (allocs l) m m' ->
  r_key r' = r_key r -> r_id r' = r_id r ->
  row_ok (generation_source_ c) (pending (timing_wheel_ c)) m' r' ->
  r_charge r' + zsum r_charge l <= cap ->
  rows_rep cap (set_usage (r_charge r' + zsum r_charge l)
    (set_entries (<[r_key r := r_stored r']> (entries_ c)) c)) m' (r' :: l).
Proof.
  intros Hr Hk Hkey Hid Hrow Hc.
  destruct Hr as [R1 R2 R3 R4 R5 R6 R7 R8 R9 R10 R11]. csimpl in *.
  apply Forall_cons in R5 as [R5 R5'], R11 as [_ R11].
  constructor; csimpl; try done.
  - rewrite R3. unfold r_node. by rewrite Hkey, Hid.
  - by rewrite Hid.
  - constructor; [by rewrite Hid|done].
  - by rewrite Hkey.
  - rewrite R7. unfold r_binding at 2. simpl. rewrite insert_insert_eq. by rewrite Hkey.
  - constructor; [done|]. by eapply rows_ok_keeps.
Qed.

Lemma insert_rep cap c m l r :
  rows_rep cap c m l -> r_key r ∉ r_key <$> l ->
  r_id r = RecencyList.next_node (recency_ c) ->
  row_ok (generation_source_ c) (pending (timing_wheel_ c)) m r ->
  r_charge r + zsum r_charge l <= cap ->
  rows_rep cap (set_usage (r_charge r + zsum r_charge l)
    (set_entries (<[r_key r := r_stored r]> (entries_ c))
      (set_recency (RecencyList.push_front (r_key r) (recency_ c)) c))) m (r :: l).
Proof.
  intros [R1 R2 R3 R4 R5 R6 R7 R8 R9 R10 R11] Hk Hi Hrow Hc.
  constructor; csimpl; try done.
  - rewrite R3. unfold r_node. by rewrite Hi.
  - constructor; [|done]. rewrite Hi. intros Hin. apply list_elem_of_fmap in Hin as (y & Heq & Hy).
    rewrite Forall_forall in R5. specialize (R5 _ Hy). lia.
  - constructor; [lia|]. eapply Forall_impl; [exact R5|]. simpl. intros; lia.
  - by constructor.
  - by rewrite R7.
  - by constructor.
Qed.

(** A node pushed and popped again leaves only its number used. *)
Lemma pop_rep cap c m l k :
  rows_rep cap c m l ->
  rows_rep cap (set_recency (RecencyList.MkRecencyList (RecencyList.nodes (recency_ c))
    (RecencyList.next_node (RecencyList.push_front k (recency_ c))))
    (set_recency (RecencyList.push_front k (recency_ c)) c)) m l.
Proof.
  intros [R1 R2 R3 R4 R5 R6 R7 R8 R9 R10 R11]. constructor; try done.
  simpl. eapply Forall_impl; [exact R5|]. simpl. intros; lia.
Qed.

(** The charge of a SET that passed the checks. *)
Lemma entry_charge_small (k v : bytes) :
  zlen k <= max_key_length -> zlen v <= max_value_length ->
  entry_charge k (zlen v) = zlen k + zlen v.
Proof. unfold entry_charge, max_key_length, max_value_length. intros. apply u64_small. lia. Qed.

Lemma entry_eta e :
  CacheEntry.MkCacheEntry (CacheEntry.allocator_ e) (CacheEntry.data_ e) (CacheEntry.size_ e) = e.
Proof. by destruct e. Qed.

Section set_facts.
Context {A : Type} {VA : ValueAllocator A} {VL : ValueAllocatorLaws A}.
Implicit Types (s : state (A := A)) (X : list (ptr * Z)).

Lemma create_holds cap s rows v :
  holds cap s rows [] ->
  wp (on_snd (CacheEntry.create v)) s (post
    (fun e s' => s'.1 = s.1 /\ holds cap s' rows (entry_alloc e) /\ entry_ok e /\
      CacheEntry.size_ e = zlen v /\ CacheEntry.value (mem s'.2.2) e = Some v)
    (fun x s' => s'.1 = s.1 /\ holds cap s' rows [] /\ x = bad_alloc)).
Proof.
  intros [Hr Ho]. destruct s as [c [a [m fs]]]. simpl in *. rewrite app_nil_r in Ho.
  apply wp_on_snd. eapply wp_post_mono; [apply (create_wp a m (allocs rows) fs v Ho)|..].
  - intros e [a' [m' fs']] (He & Hs & Ho' & Hv & Hk). simpl in *. split_and!; [done| |done..].
    split; simpl; [by eapply rows_rep_keeps|]. by rewrite (comm app).
  - intros x [a' [m' fs']] (-> & Ho' & Hk). simpl in *. split_and!; [done| |done].
    split; simpl; [by eapply rows_rep_keeps|]. by rewrite app_nil_r.
Qed.

Lemma destroy_holds cap s rows e :
  holds cap s rows (entry_alloc e) -> entry_ok e ->
  wp (on_snd (CacheEntry.destroy e)) s (post
    (fun _ s' => s'.1 = s.1 /\ holds cap s' rows []) (fun _ _ => False)).
Proof.
  intros [Hr Ho] He. destruct s as [c [a [m fs]]]. simpl in *. rewrite (comm app) in Ho.
  apply wp_on_snd. eapply wp_post_mono; [apply (destroy_wp e a m (allocs rows) fs He Ho)|..]; [|done].
  intros _ [a' [m' fs']] [Ho' Hk]. simpl in *. split; [done|].
  split; simpl; [by eapply rows_rep_keeps|by rewrite app_nil_r].
Qed.

(** The row a SET makes of a stamped entry. *)
Definition new_row (id : RecencyList.iterator) (k v : bytes) (ttl : Z) (e : CacheEntry.t) (g : Z) : row :=
  MkRow id (Lru.MkItem k v (Lru.lifetime ttl)) (MkStoredEntry e id g).

Lemma new_row_ok c m id k v ttl e g :
  stamped k ttl g c -> entry_ok e -> CacheEntry.value m e = Some v ->
  0 < zlen k <= max_key_length -> zlen v <= max_value_length ->
  row_ok (generation_source_ c) (pending (timing_wheel_ c)) m (new_row id k v ttl e g).
Proof.
  intros [[Hg Hg0] Ht] He Hv Hk Hl. constructor; try done. simpl. lia.
Qed.

(** [stamped] only depends on the timers. *)
Lemma stamped_frame k ttl g c c' : same_timers c c' -> stamped k ttl g c -> stamped k ttl g c'.
Proof. intros [Hw Hg]. unfold stamped. by rewrite Hw, Hg. Qed.

(** What a SET of [k] ends in, from the rows [others] of the other keys. *)
Definition stored cap (k : bytes) (others : list row) (v : bytes) (ttl : Z) s s' : Prop :=
  exists rows', r_item <$> rows' = Lru.MkItem k v (Lru.lifetime ttl) ::
      Lru.fit (cap - (zlen k + zlen v)) (r_item <$> others) /\
    holds cap s' rows' [] /\ counted 0 0 (1 + zlen others - zlen rows') 0 s.1 s'.1.

(** What a SET that throws can leave: some of the least recent rows are gone. *)
Definition shrunk cap (rows : list row) s s' : Prop :=
  exists rows', rows' `prefix_of` rows /\ holds cap s' rows' [] /\
    counted 0 0 (zlen rows - zlen rows') 0 s.1 s'.1.

Lemma replace_value_holds cap s r l e :
  holds cap s (r :: l) (entry_alloc e) -> entry_ok e ->
  wp (on_snd (CacheEntry.replace_value (entry (r_stored r)) (CacheEntry.move e).1)) s (post
    (fun e' s' => e' = e /\ s'.1 = s.1 /\
      owns_list s'.2.1 (mem s'.2.2) (allocs l ++ entry_alloc e) /\
      keeps (allocs l ++ entry_alloc e) (mem s.2.2) (mem s'.2.2))
    (fun _ _ => False)).
Proof.
  intros [Hr Ho] He. destruct s as [c [a [m fs]]]. simpl in *. apply wp_on_snd.
  pose proof (rep_rows _ _ _ _ Hr) as R. apply Forall_cons in R as [[_ Her _ _ _ _] _].
  unfold CacheEntry.replace_value. rewrite entry_eta. pose proof Her as [Ha _]. pose proof He as [Hb _].
  apply wp_bind, wp_assert; [by rewrite Ha, Hb|]. cbn beta iota zeta.
  rewrite Hb, <- Ha, entry_eta.
  eapply wp_bind_post; [apply (destroy_wp _ a m (allocs l ++ entry_alloc e) fs Her)|..]; [|..|done].
  - by rewrite app_assoc.
  - intros _ [a' [m' fs']] [Ho' Hk]. apply wp_ret. simpl in *. split_and!; [|done..].
    rewrite Ha, <- Hb. apply entry_eta.
Qed.


Lemma mark_mru_holds cap s l1 r l2 X :
  holds cap s (l1 ++ r :: l2) X ->
  wp (on_fst (modify_opt (mark_mru (r_key r)))) s (post
    (fun _ s' => holds cap s' (r :: l1 ++ l2) X /\ step_frame 0 0 X s s') (fun _ _ => False)).
Proof.
  intros [Hr Ho]. destruct s as [c ae]. destruct (mark_mru_rep _ _ _ _ _ _ Hr) as (c' & Hm & Hr' & Ht & Hc).
  apply wp_on_fst. eapply wp_modify_opt; [exact Hm|]. simpl in *. split.
  - split; [done|]. by rewrite Permutation_middle.
  - split_and!; [done|done|apply keeps_refl].
Qed.

(** The eviction loop of an overwriting SET never reaches the overwritten row:
    its condition is about the other rows. *)
Lemma overwrite_condition cap c m r l new :
  rows_rep cap c m (r :: l) -> 0 <= new <= cap ->
  (u64 (memory_usage_bytes_ c - r_charge r) >? u64 (capacity_bytes_ c - new)) =
    (zsum r_charge l >? cap - new).
Proof.
  intros Hr Hn. rewrite (rep_usage _ _ _ _ Hr), (rep_cap _ _ _ _ Hr).
  pose proof (rep_fits _ _ _ _ Hr) as Hf. pose proof (rep_cap_range _ _ _ _ Hr).
  pose proof (rows_usage_nonneg l). pose proof (r_charge_nonneg r). simpl in *.
  rewrite !u64_small by lia. by replace (r_charge r + zsum r_charge l - r_charge r) with (zsum r_charge l) by lia.
Qed.

Lemma insert_condition cap c m l new :
  rows_rep cap c m l -> 0 <= new <= cap ->
  (memory_usage_bytes_ c >? u64 (capacity_bytes_ c - new)) = (zsum r_charge l >? cap - new).
Proof.
  intros Hr Hn. rewrite (rep_usage _ _ _ _ Hr), (rep_cap _ _ _ _ Hr).
  pose proof (rep_cap_range _ _ _ _ Hr). by rewrite u64_small by lia.
Qed.

(** The end of an overwriting SET: swap in the new value and account for it. *)
Lemma overwrite_commit_wp cap s r l e v ttl g :
  holds cap s (r :: l) (entry_alloc e) -> entry_ok e ->
  CacheEntry.size_ e = zlen v -> CacheEntry.value (mem s.2.2) e = Some v ->
  stamped (r_key r) ttl g s.1 -> zlen v <= max_value_length ->
  zlen (r_key r) + zlen v + zsum r_charge l <= cap ->
  wp (entry' <- on_snd (CacheEntry.replace_value (entry (r_stored r)) (CacheEntry.move e).1) ;;
      on_fst (modify (fun c =>
        set_usage (u64 (u64 (memory_usage_bytes_ c - r_charge r) + (zlen (r_key r) + zlen v)))
          (set_entries (<[r_key r := MkStoredEntry entry' (recency_position (r_stored r)) g]>
                          (entries_ c)) c))) ;;
      on_snd (CacheEntry.destroy (CacheEntry.move e).2) ;;
      ret ok) s (post
    (fun st s' => st = ok /\ holds cap s' (new_row (r_id r) (r_key r) v ttl e g :: l) [] /\
      counted 0 0 0 0 s.1 s'.1)
    (fun _ _ => False)).
Proof.
  intros Hh He Hs Hv Hst Hl Hfit. pose proof Hh as [Hr Ho].
  eapply wp_bind_post; [by apply (replace_value_holds cap)|..]; [|done].
  intros e' [c' [a' [m' fs']]] (-> & Hc & Ho' & Hk). destruct s as [c [a [m fs]]]. simpl in *. subst c'.
  apply wp_bind, wp_on_fst, wp_modify. cbn beta iota.
  apply wp_bind, wp_on_snd, wp_ret. cbn beta iota. apply wp_ret. simpl.
  pose proof (rep_rows _ _ _ _ Hr) as R. apply Forall_cons in R as [R _].
  pose proof (row_item _ _ _ _ R) as [Hkl _]. change (Lru.i_key (r_item r)) with (r_key r) in Hkl.
  set (r' := new_row (r_id r) (r_key r) v ttl e g).
  assert (rows_rep cap (set_usage (r_charge r' + zsum r_charge l)
    (set_entries (<[r_key r := r_stored r']> (entries_ c)) c)) m' (r' :: l)) as Hr'.
  { apply (replace_rep cap c m m'); try done.
    - eapply keeps_sub; [|exact Hk]. intros y. rewrite elem_of_app. tauto.
    - apply new_row_ok; try done. rewrite <- Hv. apply value_keeps.
      eapply keeps_sub; [|exact Hk]. intros y. rewrite elem_of_app. tauto. }
  split_and!; [done| |by apply counted_same]. split; simpl.
  - replace (u64 _) with (r_charge r' + zsum r_charge l).
    { rewrite (row_position _ _ _ _ R). exact Hr'. }
    rewrite (rep_usage _ _ _ _ Hr). simpl. rewrite u64_add_l.
    pose proof (rows_usage_nonneg l). pose proof (rep_cap_range _ _ _ _ Hr).
    unfold r_charge at 1, Lru.charge. simpl. rewrite u64_small; lia.
  - rewrite app_nil_r. by rewrite (comm app) in Ho'.
Qed.

Lemma overwrite_wp cap s l1 r l2 v ttl :
  holds cap s (l1 ++ r :: l2) [] -> 0 <= ttl <= i64_max -> zlen v <= max_value_length ->
  zlen (r_key r) + zlen v <= cap ->
  wp (overwrite (r_key r) v ttl (r_stored r) (zlen (r_key r) + zlen v)) s (post
    (fun st s' => st = ok /\ stored cap (r_key r) (l1 ++ l2) v ttl s s')
    (fun x s' => cache_exn x /\ holds cap s' (l1 ++ r :: l2) [] /\ counted 0 0 0 0 s.1 s'.1)).
Proof.
  intros Hh Ht Hl Hcap. unfold overwrite.
  assert (stored_charge (r_key r) (r_stored r) = r_charge r) as ->.
  { pose proof (rep_rows _ _ _ _ (proj1 Hh)) as R. apply Forall_app in R as [_ R].
    apply Forall_cons in R as [R _]. by eapply stored_charge_row. }
  eapply wp_bind_post; [apply (create_holds cap s _ v Hh)|..].
  2: { intros x s1 (Hc1 & Hh1 & ->). split_and!; [by left|done|]. apply counted_same; by rewrite Hc1. }
  intros e s1 (Hc1 & Hh1 & He & Hs & Hv). cbn zeta.
  eapply wp_bind_post.
  { eapply (wp_on_throw _ _ _ _ _ (fun x s' => cache_exn x /\ holds cap s' (l1 ++ r :: l2) [] /\
      counted 0 0 0 0 s.1 s'.1)); [apply (stamp_wp cap s1 _ (entry_alloc e) (r_key r) ttl Hh1 Ht)|].
    intros x s2 (Hh2 & (Hc2 & _) & Hx). eapply wp_post_mono; [by apply (destroy_holds cap)|..]; [|done].
    intros _ s3 [Hc3 Hh3]. split_and!; [done|done|]. by rewrite Hc3, <- Hc1. }
  2: { by intros x s2 H. }
  intros g s2 (Hh2 & (Hc2 & Hm2 & Ha2) & Hst).
  eapply wp_bind_post; [by apply (mark_mru_holds cap)|..]; [|done].
  intros _ s3 [Hh3 (Ht3 & Hc3 & Hk3)].
  eapply wp_bind_post; [apply (evict_while_wp cap _ [r] (l1 ++ l2) (cap - (zlen (r_key r) + zlen v)) s3)|..];
    [lia|exact Hh3| | |done].
  { intros c m l' _ Hr. apply (overwrite_condition cap c m r l'); [done|lia]. }
  intros _ s4 (l' & _ & Hi & Hh4 & (Ht4 & Hc4 & Hk4)).
  destruct s4 as [c4 ae4]. apply wp_bind, wp_on_fst, wp_read. cbn beta iota.
  rewrite (rep_lookup_row _ _ _ [] r l' (proj1 Hh4) : entries_ c4 !! r_key r = _).
  assert (zlen (r_key r) + zlen v + zsum r_charge l' <= cap) as Hfit.
  { rewrite zsum_rows, Hi.
    pose proof (fit_usage (cap - (zlen (r_key r) + zlen v)) (r_item <$> (l1 ++ l2)) ltac:(lia)). lia. }
  eapply wp_post_mono; [apply (overwrite_commit_wp cap (c4, ae4) r l' e v ttl g)|..]; try done.
  - rewrite <- Hv. simpl. apply value_keeps. eapply keeps_trans; [|exact Hk4].
    eapply keeps_trans; [|exact Hk3]. rewrite Hm2. apply keeps_refl.
  - eapply stamped_frame; [exact Ht4|]. by eapply stamped_frame.
  - intros st s5 (-> & Hh5 & Hc5). split; [done|].
    eexists. split; [|split; [exact Hh5|]]; [by csimpl; rewrite Hi|].
    pose proof (counted_trans _ _ _ _ _ _ _ _ _ _ _ Hc2
      (counted_trans _ _ _ _ _ _ _ _ _ _ _ Hc3 (counted_trans _ _ _ _ _ _ _ _ _ _ _ Hc4 Hc5))) as HC.
    rewrite Hc1 in HC. simpl in HC |- *.
    by replace (1 + zlen (l1 ++ l2) - Z.of_nat (S (length l'))) with (zlen (l1 ++ l2) - zlen l' + 0) by lia.
Qed.


Lemma holds_faults cap s rows X fs :
  holds cap s rows X -> holds cap (s.1, (s.2.1, MkEnv (mem s.2.2) fs)) rows X.
Proof. by destruct s as [c [a [m f]]]. Qed.

(** The part of an inserting SET between the construction of the entry and the
    insertion: it may throw after having evicted. *)
Lemma insert_prepare_wp cap s rows e (k v : bytes) ttl :
  holds cap s rows (entry_alloc e) -> entry_ok e -> 0 <= ttl <= i64_max -> zlen k + zlen v <= cap ->
  wp (generation <- stamp k ttl ;;
      evict_while (fun c => memory_usage_bytes_ c >? u64 (capacity_bytes_ c - (zlen k + zlen v))) ;;
      node_alloc ;;
      ret generation) s (post
    (fun g s' => exists rows', rows' `prefix_of` rows /\
      r_item <$> rows' = Lru.fit (cap - (zlen k + zlen v)) (r_item <$> rows) /\
      holds cap s' rows' (entry_alloc e) /\ stamped k ttl g s'.1 /\
      keeps (entry_alloc e) (mem s.2.2) (mem s'.2.2) /\
      counted 0 0 (zlen rows - zlen rows') 0 s.1 s'.1)
    (fun x s' => cache_exn x /\ exists rows', rows' `prefix_of` rows /\
      holds cap s' rows' (entry_alloc e) /\ counted 0 0 (zlen rows - zlen rows') 0 s.1 s'.1)).
Proof.
  intros Hh He Ht Hcap.
  eapply wp_bind_post; [apply (stamp_wp cap s rows (entry_alloc e) k ttl Hh Ht)|..].
  2: { intros x s1 (Hh1 & (Hc1 & _) & Hx). split; [done|]. exists rows. by rewrite Z.sub_diag. }
  intros g s1 (Hh1 & (Hc1 & Hm1 & _) & Hst).
  eapply wp_bind_post; [apply (evict_while_wp cap _ [] rows (cap - (zlen k + zlen v)) s1)|..];
    [lia|exact Hh1| | |done].
  { intros c m l' _ Hr. apply (insert_condition cap c m); [done|lia]. }
  intros _ s2 (l' & Hp & Hi & Hh2 & (Ht2 & Hc2 & Hk2)).
  pose proof (counted_trans _ _ _ _ _ _ _ _ _ _ _ Hc1 Hc2) as HC.
  apply wp_bind, node_alloc_wp; intros fs.
  - apply wp_ret. exists l'. split_and!; [done|done|by apply (holds_faults cap)| | |done].
    + by eapply stamped_frame.
    + rewrite <- Hm1. done.
  - split; [by left|]. exists l'. split_and!; [done|by apply (holds_faults cap)|done].
Qed.

(** The insertion proper. *)
Lemma insert_commit_wp cap s rows e (k v : bytes) ttl g :
  holds cap s rows (entry_alloc e) -> entry_ok e -> CacheEntry.value (mem s.2.2) e = Some v ->
  stamped k ttl g s.1 -> k ∉ r_key <$> rows ->
  0 < zlen k <= max_key_length -> zlen v <= max_value_length ->
  zlen k + zlen v + zsum r_charge rows <= cap ->
  let c' := set_entries (<[k := MkStoredEntry e (RecencyList.next_node (recency_ s.1)) g]> (entries_ s.1))
    (set_recency (RecencyList.push_front k (recency_ s.1)) s.1) in
  holds cap (set_usage (u64 (memory_usage_bytes_ c' + (zlen k + zlen v))) c', s.2)
    (new_row (RecencyList.next_node (recency_ s.1)) k v ttl e g :: rows) [].
Proof.
  intros [Hr Ho] He Hv Hst Hk Hkl Hvl Hfit. destruct s as [c [a [m fs]]]. simpl in *.
  set (r := new_row (RecencyList.next_node (recency_ c)) k v ttl e g).
  pose proof (insert_rep cap c m rows r Hr Hk eq_refl) as Hr'.
  split; simpl.
  - replace (u64 _) with (r_charge r + zsum r_charge rows).
    { apply Hr'; [by apply new_row_ok|done]. }
    rewrite (rep_usage _ _ _ _ Hr). unfold r_charge at 1, Lru.charge. simpl.
    pose proof (rows_usage_nonneg rows). pose proof (rep_cap_range _ _ _ _ Hr). rewrite u64_small; lia.
  - rewrite app_nil_r. by rewrite (comm app) in Ho.
Qed.

(** The handler around [emplace]: the entry is destroyed and the node popped. *)
Lemma insert_unwind_wp cap s rows e k :
  holds cap s rows (entry_alloc e) -> entry_ok e ->
  wp (on_snd (CacheEntry.destroy e) ;;
      on_fst (modify_opt (fun c =>
        match RecencyList.pop_front (recency_ c) with
        | Some l => Some (set_recency l c)
        | None => None
        end)) ;;
      on_snd (CacheEntry.destroy CacheEntry.moved_from))
    (set_recency (RecencyList.push_front k (recency_ s.1)) s.1, s.2) (post
    (fun _ s' => holds cap s' rows [] /\ counted 0 0 0 0 s.1 s'.1) (fun _ _ => False)).
Proof.
  intros [Hr Ho] He. destruct s as [c [a [m fs]]]. simpl in *. rewrite (comm app) in Ho.
  apply wp_bind, wp_on_snd. eapply wp_mono; [apply (destroy_wp e a m (allocs rows) fs He Ho)|].
  intros [[]|x|] [a' [m' fs']]; [|done|done]. simpl. intros [Ho' Hk].
  apply wp_bind, wp_on_fst. eapply wp_modify_opt; [reflexivity|]. cbn beta iota.
  apply wp_on_snd, wp_ret. simpl. split; [|by apply counted_same]. split; simpl.
  - apply pop_rep. by eapply rows_rep_keeps.
  - by rewrite app_nil_r.
Qed.

Lemma insert_new_wp cap s rows (k v : bytes) ttl :
  holds cap s rows [] -> k ∉ r_key <$> rows -> 0 <= ttl <= i64_max ->
  0 < zlen k <= max_key_length -> zlen v <= max_value_length -> zlen k + zlen v <= cap ->
  wp (insert_new k v ttl (zlen k + zlen v)) s (post
    (fun st s' => st = ok /\ stored cap k rows v ttl s s')
    (fun x s' => cache_exn x /\ shrunk cap rows s s')).
Proof.
  intros Hh Hk Ht Hkl Hvl Hcap. unfold insert_new.
  assert (forall s' : state (A := A), s'.1 = s.1 -> holds cap s' rows [] -> shrunk cap rows s s') as Hsame.
  { intros s' Hc Hs. exists rows. rewrite Z.sub_diag. split_and!; [done|done|]. apply counted_same; by rewrite Hc. }
  apply wp_bind, node_alloc_wp; intros fs1.
  2: { split; [by left|]. apply Hsame; [done|by apply (holds_faults cap)]. }
  apply wp_bind, node_alloc_wp; intros fs2.
  2: { split; [by left|]. apply Hsame; [done|by apply (holds_faults cap)]. }
  eapply wp_bind_post; [apply (create_holds cap _ rows v); exact (holds_faults _ _ _ _ fs2 Hh)|..].
  2: { intros x s1 (Hc1 & Hh1 & ->). split; [by left|by apply Hsame]. }
  intros e s1 (Hc1 & Hh1 & He & Hs & Hv). simpl in Hc1.
  eapply wp_bind_post.
  { eapply (wp_on_throw _ _ _ _ _ (fun x s' => cache_exn x /\ shrunk cap rows s s'));
      [apply (insert_prepare_wp cap s1 rows e k v ttl Hh1 He Ht Hcap)|].
    intros x s2 (Hx & rows' & Hp & Hh2 & Hc2). eapply wp_post_mono; [by apply (destroy_holds cap)|..]; [|done].
    intros _ s3 [Hc3 Hh3]. split; [done|]. exists rows'. rewrite Hc3, <- Hc1. done. }
  2: { by intros x s2 H. }
  intros g s2 (rows' & Hp & Hi & Hh2 & Hst & Hk2 & Hc2). rewrite Hc1 in Hc2.
  assert (k ∉ r_key <$> rows') as Hk'.
  { destruct Hp as [rest ->]. rewrite fmap_app, not_elem_of_app in Hk. by destruct Hk. }
  destruct s2 as [c2 [a2 [m2 f2]]]. simpl in *.
  apply wp_bind, wp_on_fst, wp_modify. cbn beta iota. rewrite entry_eta.
  eapply wp_bind_post.
  { eapply (wp_on_throw _ _ _
      (fun _ s' => exists fs, s' = (set_recency (RecencyList.push_front k (recency_ c2)) c2, (a2, MkEnv m2 fs)))
      (fun x s' => x = bad_alloc /\
        exists fs, s' = (set_recency (RecencyList.push_front k (recency_ c2)) c2, (a2, MkEnv m2 fs)))
      (fun x s' => cache_exn x /\ shrunk cap rows s s')).
    - apply node_alloc_wp; intros fs; simpl; by eauto.
    - intros x s3 (-> & fs3 & ->).
      eapply wp_post_mono; [apply (insert_unwind_wp cap (c2, (a2, MkEnv m2 fs3)) rows' e k Hh2 He)|..]; [|done].
      intros _ s4 [Hh4 Hc4]. split; [by left|]. exists rows'. split_and!; [done|done|].
      pose proof (counted_trans _ _ _ _ _ _ _ _ _ _ _ Hc2 Hc4) as HC. by rewrite !Z.add_0_r in HC. }
  2: { by intros x s3 H. }
  intros _ s3 (fs3 & ->). apply wp_bind, wp_on_fst, wp_read. cbn beta iota.
  apply wp_bind, wp_assert.
  { apply bool_decide_eq_true. exact (rep_none_iff _ _ _ _ _ (proj1 Hh2) Hk'). }
  cbn beta iota. simpl.
  apply wp_bind, wp_on_fst, wp_modify. cbn beta iota. apply wp_bind, wp_on_fst, wp_modify. cbn beta iota.
  apply wp_bind, wp_on_snd, wp_ret. cbn beta iota. apply wp_ret. simpl. split; [done|].
  eexists. split; [|split; [apply (insert_commit_wp cap (c2, (a2, MkEnv m2 fs3)) rows' e k v ttl g)|]]; try done.
  - csimpl. by rewrite Hi.
  - simpl. rewrite <- Hv. by apply value_keeps.
  - rewrite zsum_rows, Hi.
    pose proof (fit_usage (cap - (zlen k + zlen v)) (r_item <$> rows) ltac:(lia)). lia.
  - simpl. replace (1 + zlen rows - Z.of_nat (S (length rows'))) with (zlen rows - zlen rows') by lia.
    by destruct Hc2.
Qed.

End set_facts.
