(* ===== verification/CacheFacts.v ===== *)
(** * The cache refines the abstract LRU cache

    For every operation, from a cache that holds a list of items: it never
    reaches undefined behaviour, a return is the abstract operation's, and an
    exception leaves a cache that still holds a list of items. *)
From S2P Require Import Prelude ErrorModel Effects MemoryModel AllocatorModel.
From S2P Require Import TimingWheelModel TimingWheelFacts CacheEntryModel CacheModel.
From S2P Require Import LruSpec CacheEntryFacts CacheRep CacheSteps CacheSetFacts.
Import Memory.
Import Cache.

Section cache_facts.
Context {A : Type} {VA : ValueAllocator A} {VL : ValueAllocatorLaws A}.
Implicit Types (s : state (A := A)).

(** The cache of capacity [cap] holds exactly [items], and its allocator exactly
    their values. *)
Definition cache_holds (cap : Z) s (items : list Lru.item) : Prop :=
  exists rows, items = r_item <$> rows /\ holds cap s rows [].

(** ** SET *)

(** The evictions of a SET of [k] that turns [items] into [items']. *)
Definition evictions (st : CacheStatus) (k : bytes) (items items' : list Lru.item) : Z :=
  if decide (st = ok) then 1 + zlen (Lru.remove k items) - zlen items' else 0.

Definition set_returns cap k v ttl items s (st : CacheStatus) s' : Prop :=
  exists items', Lru.set cap k v ttl items = (st, items') /\ cache_holds cap s' items' /\
    counted 0 0 (evictions st k items items') 0 s.1 s'.1.

Definition set_throws cap k items s (x : exn) s' : Prop :=
  cache_exn x /\ exists items', items' `prefix_of` items /\
    (Lru.lookup k items <> None -> items' = items) /\ cache_holds cap s' items' /\
    counted 0 0 (zlen items - zlen items') 0 s.1 s'.1.

Lemma refused_wp cap k v ttl items st s :
  Lru.set cap k v ttl items = (st, items) -> st <> ok -> cache_holds cap s items ->
  wp (ret st) s (post (set_returns cap k v ttl items s) (set_throws cap k items s)).
Proof.
  intros Hs Hst Hh. apply wp_ret. exists items. split_and!; [done|done|].
  unfold evictions. rewrite decide_False by done. by apply counted_same.
Qed.

Lemma prefix_fmap_items (l rows : list row) : l `prefix_of` rows -> (r_item <$> l) `prefix_of` (r_item <$> rows).
Proof. intros [k ->]. rewrite fmap_app. by exists (r_item <$> k). Qed.

Lemma set_wp cap s items k v ttl :
  cache_holds cap s items -> ttl <= i64_max ->
  wp (Cache.set k v ttl) s (post (set_returns cap k v ttl items s) (set_throws cap k items s)).
Proof.
  intros Hh Ht. pose proof Hh as (rows & Hi & Hr). unfold Cache.set. cbn zeta.
  assert (Lru.set cap k v ttl items = Lru.set cap k v ttl items) as Hset by done.
  unfold Lru.set in Hset at 2. rewrite key_status_validate in Hset.
  destruct (decide (validate_key k <> ok)) as [Hk|Hk]; [by apply refused_wp|].
  apply dec_stable in Hk.
  pose proof (validate_key_ok _ Hk) as Hkl.
  rewrite Z.gtb_ltb. change max_value_length with 1048576.
  destruct (Z.ltb_spec 1048576 (zlen v)) as [Hv|Hv].
  { rewrite decide_True in Hset by done. by apply refused_wp. }
  rewrite decide_False in Hset by lia. destruct (Z.ltb_spec ttl 0) as [Hn|Hn].
  { rewrite decide_True in Hset by done. by apply refused_wp. }
  rewrite decide_False in Hset by lia.
  destruct s as [c ae]. apply wp_bind, wp_on_fst, wp_read. cbn beta iota zeta.
  rewrite entry_charge_small by (done || lia).
  rewrite (rep_cap _ _ _ _ (proj1 Hr) : capacity_bytes_ c = cap), Z.gtb_ltb.
  destruct (Z.ltb_spec cap (zlen k + zlen v)) as [Hc|Hc].
  { rewrite decide_True in Hset by done. by apply refused_wp. }
  rewrite decide_False in Hset by lia.
  apply wp_bind, node_alloc_wp; intros fs.
  2: { split; [by left|]. exists items. rewrite Z.sub_diag. split_and!; [done|done| |by apply counted_same].
       exists rows. split; [done|]. by apply (holds_faults cap (c, ae)). }
  pose proof (holds_faults _ _ _ _ fs Hr) as Hr'. simpl in *.
  destruct (entries_ c !! k) as [se|] eqn:He.
  - destruct (rep_lookup_some _ _ _ _ _ _ (proj1 Hr) He) as (l1 & r & l2 & -> & <- & <-).
    destruct (lru_lookup_row l1 r l2) as [HL HR]; [apply Hr|]. rewrite <- Hi in HL, HR.
    eapply wp_post_mono; [apply (overwrite_wp cap _ _ _ _ v ttl Hr'); done || lia|..].
    + intros st s' (-> & rows' & Hi' & Hh' & Hc'). eexists. rewrite Hset, HR, <- Hi'.
      split_and!; [done|by exists rows'|]. unfold evictions. rewrite decide_True, HR, !length_fmap by done. done.
    + intros x s' (Hx & Hh' & Hc'). split; [done|]. exists items. rewrite Z.sub_diag.
      split_and!; [done|done|by eexists|done].
  - pose proof (rep_lookup_none _ _ _ _ _ (proj1 Hr) He) as Hnin.
    destruct (lru_lookup_none rows k Hnin) as [HL HR]. rewrite <- Hi in HL, HR.
    eapply wp_post_mono; [apply (insert_new_wp cap _ _ k v ttl Hr'); done || lia|..].
    + intros st s' (-> & rows' & Hi' & Hh' & Hc'). eexists. rewrite Hset, HR, Hi, <- Hi'.
      split_and!; [done|by exists rows'|]. unfold evictions.
      rewrite decide_True, <- Hi, HR, Hi, !length_fmap by done. done.
    + intros x s' (Hx & rows' & Hp & Hh' & Hc'). split; [done|]. exists (r_item <$> rows').
      rewrite Hi, !length_fmap, <- Hi. split_and!; [rewrite Hi; by apply prefix_fmap_items|done|by eexists|done].
Qed.

(** ** GET *)

Lemma get_wp cap s items k output :
  cache_holds cap s items ->
  wp (Cache.get k output) s (post
    (fun r s' => exists ov items', Lru.get k items = (r.1, ov, items') /\
      r.2 = default output ov /\ cache_holds cap s' items' /\
      counted (if decide (r.1 = ok) then 1 else 0) (if decide (r.1 = not_found) then 1 else 0) 0 0 s.1 s'.1)
    (fun x s' => x = bad_alloc /\ cache_holds cap s' items /\ s'.1 = s.1)).
Proof.
  intros (rows & Hi & Hr). unfold Cache.get, Lru.get. cbn zeta. rewrite key_status_validate.
  destruct (decide (validate_key k <> ok)) as [Hk|Hk].
  { apply wp_ret. exists None, items. simpl. rewrite decide_False by done.
    assert (validate_key k <> not_found) by (unfold validate_key; by repeat case_match).
    rewrite decide_False by done. split_and!; [done|done|by exists rows|by apply counted_same]. }
  apply dec_stable in Hk.
  apply wp_bind, node_alloc_wp; intros fs.
  2: { split_and!; [done| |done]. exists rows. split; [done|]. by apply (holds_faults cap). }
  pose proof (holds_faults _ _ _ _ fs Hr) as Hr'. destruct s as [c [a [m f]]]. simpl in *.
  apply wp_bind, wp_read. cbn beta iota. simpl.
  destruct (entries_ c !! k) as [se|] eqn:He.
  - destruct (rep_lookup_some _ _ _ _ _ _ (proj1 Hr) He) as (l1 & r & l2 & -> & <- & <-).
    destruct (lru_lookup_row l1 r l2) as [HL HR]; [apply Hr|]. rewrite <- Hi in HL, HR. rewrite HL, HR.
    pose proof (rep_rows _ _ _ _ (proj1 Hr)) as R. apply Forall_app in R as [_ R].
    apply Forall_cons in R as [R _]. simpl in R. rewrite (row_value _ _ _ _ R).
    assert (forall fs', wp (on_fst (modify_opt (mark_mru (r_key r))) ;;
        on_fst (modify incr_hit) ;; ret (ok, Lru.i_value (r_item r))) (c, (a, MkEnv m fs')) (post
        (fun r0 s' => exists ov items', (ok, Some (Lru.i_value (r_item r)), r_item r :: (r_item <$> l1 ++ l2)) =
            (r0.1, ov, items') /\ r0.2 = default output ov /\ cache_holds cap s' items' /\
          counted (if decide (r0.1 = ok) then 1 else 0) (if decide (r0.1 = not_found) then 1 else 0) 0 0 c s'.1)
        (fun x s' => x = bad_alloc /\ cache_holds cap s' items /\ s'.1 = c))) as Hrest.
    { intros fs'. eapply wp_bind_post; [apply (mark_mru_holds cap _ l1 r l2 []); by apply Hr|..]; [|done].
      intros _ [c' ae'] [Hh' (Ht & Hc & _)]. apply wp_bind, wp_on_fst, wp_modify. cbn beta iota.
      apply wp_ret. simpl. eexists _, _. split; [done|]. split; [done|]. split.
      - exists (r :: l1 ++ l2). split; [done|]. split; [|apply Hh']. simpl.
        by eapply rows_rep_counters, (proj1 Hh').
      - exact (counted_trans _ _ _ _ _ _ _ _ _ _ _ Hc (incr_hit_counted c')). }
    destruct (decide (Lru.i_value (r_item r) = [])); [by apply wp_bind, wp_ret, Hrest|].
    apply wp_bind, node_alloc_wp; intros fs'; simpl; [apply Hrest|].
    split_and!; [done| |done]. by exists (l1 ++ r :: l2).
  - pose proof (rep_lookup_none _ _ _ _ _ (proj1 Hr) He) as Hnin.
    destruct (lru_lookup_none rows k Hnin) as [HL _]. rewrite <- Hi in HL. rewrite HL.
    apply wp_bind, wp_on_fst, wp_modify. cbn beta iota. apply wp_ret. simpl.
    exists None, items. split; [done|]. split; [done|]. split.
    + exists rows. split; [done|]. split; [|apply Hr']. simpl. by eapply rows_rep_counters, (proj1 Hr').
    + apply incr_miss_counted.
Qed.

End cache_facts.
