(* ===== verification/CacheTickFacts.v ===== *)
(** * Expiry: DELETE, the timer tick and the destructor *)
From S2P Require Import Prelude ErrorModel Effects MemoryModel AllocatorModel.
From S2P Require Import TimingWheelModel TimingWheelFacts CacheEntryModel CacheModel.
From S2P Require Import LruSpec CacheEntryFacts CacheRep CacheSteps CacheSetFacts CacheFacts.
Import Memory.
Import Cache.

(** ** Lists without duplicate keys *)

Lemma nodup_fmap_inj {T B} (f : T -> B) l x y :
  NoDup (f <$> l) -> x ∈ l -> y ∈ l -> f x = f y -> x = y.
Proof.
  intros Hnd Hx Hy Heq. apply list_elem_of_lookup in Hx as [i Hi], Hy as [j Hj].
  assert (i = j) as ->; [|congruence].
  eapply (NoDup_lookup (f <$> l) i j (f x)); [done|..]; rewrite list_lookup_fmap.
  - by rewrite Hi.
  - by rewrite Hj, Heq.
Qed.

Lemma nodup_fmap_filter {T B} (f : T -> B) (P : T -> Prop) `{!forall x, Decision (P x)} l :
  NoDup (f <$> l) -> NoDup (f <$> filter P l).
Proof.
  induction l as [|x l IH]; csimpl; [done|]. intros [Hx Hl]%NoDup_cons.
  destruct (decide (P x)); [rewrite filter_cons_True by done|rewrite filter_cons_False by done; auto].
  csimpl. constructor; [|auto]. intros Hin. apply Hx.
  apply list_elem_of_fmap in Hin as (y & -> & Hy). apply list_elem_of_filter in Hy as [_ Hy].
  by apply list_elem_of_fmap_2.
Qed.

(** ** The wheel turns *)

(** A row after one second; one that is due waits, without a timer, for the loop
    that removes it. *)
Definition turn (r : row) : row :=
  MkRow (r_id r) (Lru.MkItem (r_key r) (Lru.i_value (r_item r))
    (match Lru.i_ttl (r_item r) with
     | Some d => if d <=? 1 then None else Some (d - 1)
     | None => None
     end)) (r_stored r).

Lemma turn_timer_ok l r :
  NoDup ((fun x => x.1.2) <$> l) -> timer_ok l r ->
  timer_ok (decrement <$> filter (fun x => 1 < x.2) l) (turn r).
Proof.
  intros Hnd Ht. unfold timer_ok in *. simpl.
  assert (forall g, g ∈ (fun x => x.1.2) <$> (decrement <$> filter (fun x => 1 < x.2) l) ->
    exists y, y ∈ l /\ y.1.2 = g /\ 1 < y.2) as Hin.
  { intros g Hg. rewrite <- list_fmap_compose in Hg. apply list_elem_of_fmap in Hg as (y & -> & Hy).
    apply list_elem_of_filter in Hy as [Hy1 Hy2]. by exists y. }
  destruct (Lru.i_ttl (r_item r)) as [d|].
  - destruct Ht as [Hd Hl]. destruct (Z.leb_spec d 1).
    + intros (y & Hy & Hg & H1)%Hin.
      assert (y = (r_key r, generation (r_stored r), d)) as -> by (by eapply nodup_fmap_inj).
      simpl in H1. lia.
    + split; [lia|]. apply list_elem_of_fmap. exists (r_key r, generation (r_stored r), d).
      split; [done|]. apply list_elem_of_filter. simpl. split; [lia|done].
  - intros (y & Hy & Hg & _)%Hin. apply Ht. rewrite <- Hg. by apply (list_elem_of_fmap_2 (fun x => x.1.2)).
Qed.

Lemma allocs_turn rows : allocs (turn <$> rows) = allocs rows.
Proof. unfold allocs. induction rows as [|r rows IH]; csimpl; [done|]. by rewrite IH. Qed.

Lemma bindings_allocs rows : (r_binding <$> rows) ≫= (fun x => entry_alloc (entry x.2)) = allocs rows.
Proof. unfold allocs. induction rows as [|r rows IH]; csimpl; [done|]. by rewrite IH. Qed.

Lemma turn_timers_ok src w w' :
  timers_ok src w -> wheel_ok w' -> pending w' = decrement <$> filter (fun x => 1 < x.2) (pending w) ->
  timers_ok src w'.
Proof.
  intros [T1 T2 T3 T4] Hw Hp. constructor; [done|done|..]; rewrite Hp.
  - apply Forall_fmap, Forall_forall. intros y Hy. apply list_elem_of_filter in Hy as [_ Hy].
    rewrite Forall_forall in T3. exact (T3 _ Hy).
  - rewrite <- list_fmap_compose. by apply (nodup_fmap_filter (fun x => x.1.2)).
Qed.

Lemma turn_rep cap c m rows w' :
  rows_rep cap c m rows -> wheel_ok w' ->
  pending w' = decrement <$> filter (fun x => 1 < x.2) (pending (timing_wheel_ c)) ->
  rows_rep cap (set_wheel w' c) m (turn <$> rows).
Proof.
  intros [R1 R2 R3 R4 R5 R6 R7 R8 R9 R10 R11] Hw Hp.
  assert (zsum r_charge (turn <$> rows) = zsum r_charge rows) as Hz.
  { clear. induction rows as [|r rows IH]; csimpl; [done|]. by rewrite IH. }
  constructor; simpl; try done; rewrite <- ?list_fmap_compose; try done.
  - by apply Forall_fmap.
  - by rewrite Hz.
  - by rewrite Hz.
  - by eapply turn_timers_ok.
  - apply Forall_fmap. eapply Forall_impl; [exact R11|]. intros r [Q1 Q2 Q3 Q4 Q5 Q6].
    constructor; try done. simpl. rewrite Hp. apply turn_timer_ok; [apply R10|done].
Qed.

(** The rows whose timer fires are those with one second left. *)
Lemma fires_iff w src m r :
  timers_ok src w -> row_ok src (pending w) m r ->
  (r_key r, generation (r_stored r), 1) ∈ pending w <-> Lru.i_ttl (r_item r) = Some 1.
Proof.
  intros [_ _ _ Hnd] [_ _ _ _ _ Ht]. unfold timer_ok in Ht. split.
  - intros Hin. destruct (Lru.i_ttl (r_item r)) as [d|].
    + destruct Ht as [_ Hd]. assert ((r_key r, generation (r_stored r), d) = (r_key r, generation (r_stored r), 1))
        as [= ->] by (by eapply nodup_fmap_inj). done.
    + destruct Ht. apply (list_elem_of_fmap_2 (fun x => x.1.2) _ _ Hin).
  - intros Heq. rewrite Heq in Ht. by destruct Ht.
Qed.

(** Turning the wheel and removing what fires is ageing the items. *)
Lemma tick_items src w m rows (fired : row -> Prop) `{!forall r, Decision (fired r)} :
  timers_ok src w -> Forall (row_ok src (pending w) m) rows ->
  (forall r, fired (turn r) <-> (r_key r, generation (r_stored r), 1) ∈ pending w) ->
  r_item <$> filter (fun r => ~ fired r) (turn <$> rows) = Lru.tick (r_item <$> rows).
Proof.
  intros Ht Hrows Hf. induction Hrows as [|r rows Hr _ IH]; [done|]. csimpl.
  pose proof (fires_iff _ _ _ _ Ht Hr) as Hfires. rewrite <- Hf in Hfires.
  pose proof (row_timer _ _ _ _ Hr) as Htm. unfold timer_ok in Htm. unfold Lru.age at 1.
  destruct (decide (Lru.i_ttl (r_item r) = Some 1)) as [He|He].
  - rewrite filter_cons_False by tauto. rewrite He. simpl. exact IH.
  - rewrite filter_cons_True by tauto. csimpl. rewrite IH. simpl.
    destruct (Lru.i_ttl (r_item r)) as [d|] eqn:Hd.
    + destruct (Z.leb_spec d 1) as [H1|H1]; [|done]. destruct He. f_equal. lia.
    + f_equal. unfold r_key. rewrite <- Hd. by destruct (r_item r).
Qed.

Section tick_facts.
Context {A : Type} {VA : ValueAllocator A} {VL : ValueAllocatorLaws A}.
Implicit Types (s : state (A := A)).

(** The identities of fired events, and the rows they remove. *)
Definition fired_ids (events : list TimerEvent.t) : list (bytes * Z) :=
  (fun ev => (TimerEvent.key ev, TimerEvent.generation ev)) <$> events.

Definition hit_by (ids : list (bytes * Z)) (r : row) : Prop :=
  (r_key r, generation (r_stored r)) ∈ ids.

#[export] Instance hit_by_dec ids r : Decision (hit_by ids r).
Proof. unfold hit_by. apply _. Defined.

Lemma filter_hit_cons k g ids (rows : list row) :
  filter (fun r => ~ hit_by ((k, g) :: ids) r) rows =
  filter (fun r => ~ hit_by ids r) (filter (fun r => ~ (r_key r = k /\ generation (r_stored r) = g)) rows).
Proof.
  rewrite list_filter_filter. apply list_filter_iff. intros r. unfold hit_by.
  rewrite elem_of_cons, pair_equal_spec. tauto.
Qed.

(** No row has both this key and this generation. *)
Lemma filter_miss k g (rows : list row) :
  (forall r, r ∈ rows -> ~ (r_key r = k /\ generation (r_stored r) = g)) ->
  filter (fun r => ~ (r_key r = k /\ generation (r_stored r) = g)) rows = rows.
Proof. intros H. apply filter_all, Forall_forall. done. Qed.

Lemma filter_hit l1 r l2 :
  NoDup (r_key <$> (l1 ++ r :: l2)) ->
  filter (fun x => ~ (r_key x = r_key r /\ generation (r_stored x) = generation (r_stored r)))
    (l1 ++ r :: l2) = l1 ++ l2.
Proof.
  intros Hnd. rewrite filter_app, filter_cons_False by tauto.
  rewrite fmap_app in Hnd. csimpl in Hnd. apply NoDup_app in Hnd as (_ & H1 & H2).
  apply NoDup_cons in H2 as [H2 _].
  rewrite !filter_miss; [done|..]; intros x Hx [Hk _].
  - apply H2. rewrite <- Hk. by apply list_elem_of_fmap_2.
  - apply (H1 (r_key x)); [by apply list_elem_of_fmap_2|]. rewrite Hk. by left.
Qed.

Lemma expire_events_wp cap events s rows :
  holds cap s rows [] ->
  wp (expire_events events) s (post
    (fun _ s' => holds cap s' (filter (fun r => ~ hit_by (fired_ids events) r) rows) [] /\
      counted 0 0 0 (zlen rows - zlen (filter (fun r => ~ hit_by (fired_ids events) r) rows)) s.1 s'.1)
    (fun _ _ => False)).
Proof.
  revert s rows. induction events as [|ev events IH]; intros s rows Hh; simpl.
  { apply wp_ret. rewrite filter_all.
    - rewrite Z.sub_diag. split; [done|by apply counted_same].
    - apply Forall_forall. intros r _ Hin. by apply not_elem_of_nil in Hin. }
  rewrite filter_hit_cons. set (k := TimerEvent.key ev). set (g := TimerEvent.generation ev).
  destruct s as [c ae]. apply wp_bind, wp_on_fst, wp_read. cbn beta iota. fold k g.
  assert (filter (fun r => ~ (r_key r = k /\ generation (r_stored r) = g)) rows = rows ->
    wp (ret tt ;; expire_events events) (c, ae) (post
      (fun _ s' => holds cap s' (filter (fun r => ~ hit_by (fired_ids events) r)
        (filter (fun r => ~ (r_key r = k /\ generation (r_stored r) = g)) rows)) [] /\
        counted 0 0 0 (zlen rows - zlen (filter (fun r => ~ hit_by (fired_ids events) r)
        (filter (fun r => ~ (r_key r = k /\ generation (r_stored r) = g)) rows))) c s'.1)
      (fun _ _ => False))) as Hskip.
  { intros ->. apply wp_bind, wp_ret. by apply IH. }
  destruct (entries_ c !! k) as [se|] eqn:He.
  - destruct (rep_lookup_some _ _ _ _ _ _ (proj1 Hh) He) as (l1 & r & l2 & -> & Hk & <-).
    destruct (Z.eqb_spec (generation (r_stored r)) g) as [Hg|Hg].
    + rewrite <- Hk, <- Hg, filter_hit by apply Hh.
      apply wp_bind. eapply wp_bind_post; [apply (remove_entry_wp cap _ _ _ _ [] Hh)|..]; [|done].
      intros _ [c1 ae1] [Hh1 (_ & Hc1 & _)]. apply wp_on_fst, wp_modify. cbn beta iota. simpl in *.
      eapply wp_post_mono; [apply (IH (incr_expired c1, ae1) (l1 ++ l2))|..]; [|..|done].
      * split; [|apply Hh1]. by eapply rows_rep_counters, (proj1 Hh1).
      * intros _ s' [Hh' Hc']. split; [done|].
        pose proof (counted_trans _ _ _ _ _ _ _ _ _ _ _ Hc1
          (counted_trans _ _ _ _ _ _ _ _ _ _ _ (incr_expired_counted c1) Hc')) as HC.
        rewrite !length_app in *. simpl in *.
        replace (Z.of_nat (length l1 + S (length l2))) with (0 + (1 + Z.of_nat (length l1 + length l2))) by lia.
        rewrite <- !Z.add_sub_assoc. exact HC.
    + apply Hskip, filter_miss. intros x Hx [Hkx Hgx].
      assert (x = r) as ->; [|done]. eapply (nodup_fmap_inj r_key); [apply Hh|done| |congruence].
      apply elem_of_app. right. by left.
  - apply Hskip, filter_miss. intros x Hx [Hkx _].
    apply (rep_lookup_none _ _ _ _ _ (proj1 Hh) He). rewrite <- Hkx. by apply list_elem_of_fmap_2.
Qed.

Lemma cache_tick_wp cap s items :
  cache_holds cap s items ->
  wp Cache.tick s (post
    (fun _ s' => cache_holds cap s' (Lru.tick items) /\
      counted 0 0 0 (zlen items - zlen (Lru.tick items)) s.1 s'.1)
    (fun x s' => x = bad_alloc /\ s'.1 = s.1 /\ cache_holds cap s' items)).
Proof.
  intros (rows & -> & Hr & Ho). destruct s as [c [a [m fs]]]. simpl in *. unfold Cache.tick.
  pose proof (rep_timers _ _ _ _ Hr) as Htm.
  apply wp_bind, wp_on_wheel, tick_wp; [apply Htm|..]; simpl.
  2: { intros fs'. assert (set_wheel (timing_wheel_ c) c = c) as -> by (by destruct c).
       split_and!; [done|done|]. by exists rows. }
  intros w' expired fs' Hw Hexp Hp.
  assert (holds cap (set_wheel w' c, (a, MkEnv m fs')) (turn <$> rows) []) as Hh.
  { split; simpl; [by apply turn_rep|]. by rewrite allocs_turn. }
  assert (r_item <$> filter (fun r => ~ hit_by (fired_ids expired) r) (turn <$> rows) = Lru.tick (r_item <$> rows)) as Hi.
  { eapply tick_items; [exact Htm|apply Hr|]. intros r. unfold hit_by. change (r_key (turn r)) with (r_key r). simpl.
    transitivity ((r_key r, generation (r_stored r), 1) ∈ filter (fun x => x.2 = 1) (pending (timing_wheel_ c))).
    - rewrite <- Hexp. unfold fired_ids. rewrite !list_elem_of_fmap.
      split; intros (ev & Heq & Hin); exists ev; (split; [congruence|done]).
    - rewrite list_elem_of_filter. tauto. }
  eapply wp_post_mono; [apply (expire_events_wp cap expired _ _ Hh)|..]; [|done].
  intros _ s' [Hh' Hc']. rewrite <- Hi, !length_fmap. split; [by eexists|].
  rewrite length_fmap in Hc'. by destruct Hc'.
Qed.

Lemma erase_wp cap s items k :
  cache_holds cap s items ->
  wp (Cache.erase k) s (post
    (fun st s' => exists items', Lru.erase k items = (st, items') /\ cache_holds cap s' items' /\
      counted 0 0 0 0 s.1 s'.1)
    (fun x s' => x = bad_alloc /\ cache_holds cap s' items /\ s'.1 = s.1)).
Proof.
  intros (rows & Hi & Hr). unfold Cache.erase, Lru.erase. cbn zeta. rewrite key_status_validate.
  destruct (decide (validate_key k <> ok)) as [Hk|Hk].
  { apply wp_ret. exists items. split_and!; [done|by exists rows|by apply counted_same]. }
  apply wp_bind, node_alloc_wp; intros fs.
  2: { split_and!; [done| |done]. exists rows. split; [done|]. by apply (holds_faults cap). }
  pose proof (holds_faults _ _ _ _ fs Hr) as Hr'. destruct s as [c ae]. simpl in *.
  apply wp_bind, wp_on_fst, wp_read. cbn beta iota.
  destruct (entries_ c !! k) as [se|] eqn:He.
  - destruct (rep_lookup_some _ _ _ _ _ _ (proj1 Hr) He) as (l1 & r & l2 & -> & <- & <-).
    destruct (lru_lookup_row l1 r l2) as [HL HR]; [apply Hr|]. rewrite <- Hi in HL, HR. rewrite HL, HR.
    eapply wp_bind_post; [apply (remove_entry_wp cap _ _ _ _ [] Hr')|..]; [|done].
    intros _ s' [Hh' (_ & Hc & _)]. apply wp_ret. eexists. split; [done|]. split; [by eexists|done].
  - pose proof (rep_lookup_none _ _ _ _ _ (proj1 Hr) He) as Hnin.
    destruct (lru_lookup_none rows k Hnin) as [HL _]. rewrite <- Hi in HL. rewrite HL.
    apply wp_ret. exists items. split_and!; [done|by exists rows|by apply counted_same].
Qed.

(** ** Construction and destruction *)

Lemma destroy_entries_wp (l : list (bytes * StoredEntry)) s :
  Forall (fun x => entry_ok (entry x.2)) l ->
  owns_list s.2.1 (mem s.2.2) (l ≫= fun x => entry_alloc (entry x.2)) ->
  wp (destroy_entries l) s (post (fun _ s' => owns_list s'.2.1 (mem s'.2.2) []) (fun _ _ => False)).
Proof.
  revert s. induction l as [|[k se] l IH]; intros s Hok Ho; simpl; [by apply wp_ret|].
  apply Forall_cons in Hok as [He Hok]. destruct s as [c [a [m fs]]]. simpl in *.
  apply wp_bind, wp_on_snd. eapply wp_mono; [apply (destroy_wp _ a m _ fs He Ho)|].
  intros [[]|x|] [a' [m' fs']]; [|done|done]. simpl. intros [Ho' _]. by apply IH.
Qed.

Lemma destroy_all_wp cap s items :
  cache_holds cap s items ->
  wp Cache.destroy s (post (fun _ s' => owns_list s'.2.1 (mem s'.2.2) []) (fun _ _ => False)).
Proof.
  intros (rows & _ & Hr & Ho). destruct s as [c [a [m fs]]]. unfold Cache.destroy.
  apply wp_bind, wp_on_fst, wp_read. cbn beta iota. simpl in *.
  assert (map_to_list (entries_ c) ≡ₚ r_binding <$> rows) as Hp.
  { rewrite (rep_entries _ _ _ _ Hr). apply map_to_list_to_map. rewrite <- list_fmap_compose. apply Hr. }
  apply destroy_entries_wp.
  - rewrite Hp. apply Forall_fmap. eapply Forall_impl; [apply (rep_rows _ _ _ _ Hr)|]. intros r Hrow. apply Hrow.
  - simpl. rewrite Hp, bindings_allocs. by rewrite app_nil_r in Ho.
Qed.

Lemma init_holds cap a m fs :
  0 <= cap < 2 ^ 64 -> owns_list a m [] -> cache_holds cap (Cache.init cap, (a, MkEnv m fs)) [].
Proof.
  intros Hc Ho. exists []. split; [done|]. split; [|done]. simpl.
  assert (timers_ok 0 TimingWheel.init) as Ht.
  { constructor; [done|apply wheel_init_ok|..]; rewrite pending_init; constructor. }
  constructor; simpl; try done; try constructor; lia.
Qed.

(** ** Observers *)

Lemma cache_holds_size cap s items : cache_holds cap s items -> Cache.size s.1 = zlen items.
Proof.
  intros (rows & -> & Hr & _). unfold Cache.size. rewrite (rep_entries _ _ _ _ Hr).
  rewrite map_size_list_to_map; [by rewrite !length_fmap|]. rewrite <- list_fmap_compose. apply Hr.
Qed.

Lemma cache_holds_usage cap s items :
  cache_holds cap s items -> Cache.memory_usage_bytes s.1 = Lru.usage items /\ Lru.usage items <= cap.
Proof.
  intros (rows & -> & Hr & _). unfold Cache.memory_usage_bytes.
  rewrite (rep_usage _ _ _ _ Hr), zsum_rows. split; [done|]. rewrite <- zsum_rows. apply Hr.
Qed.

Lemma cache_holds_empty cap s items :
  cache_holds cap s items -> Cache.empty s.1 = bool_decide (items = []).
Proof.
  intros Hh. pose proof (cache_holds_size _ _ _ Hh) as Hs. unfold Cache.empty, Cache.size in *.
  apply bool_decide_ext. rewrite <- map_size_empty_iff. destruct items; simpl in *; [|split; [lia|done]].
  split; [done|lia].
Qed.

Lemma zsum_alloc_sizes src l m rows :
  Forall (row_ok src l m) rows ->
  zsum snd (allocs rows) = zsum (fun x => zlen (Lru.i_value x)) (r_item <$> rows).
Proof.
  induction 1 as [|r rows [_ He Hv _ _ _] _ IH]; [done|]. rewrite allocs_cons, zsum_app, IH. csimpl. f_equal.
  rewrite <- (value_length _ _ _ He Hv). unfold r_alloc, entry_alloc. destruct He as (_ & _ & Hd).
  destruct (CacheEntry.data_ _); simpl; [lia|]. by rewrite (proj1 Hd).
Qed.

(** The allocator accounts for exactly the values of the items. *)
Lemma cache_holds_used cap s items :
  cache_holds cap s items ->
  used_bytes (metrics s.2.1) = zsum (fun x => zlen (Lru.i_value x)) items.
Proof.
  intros (rows & -> & Hr & L & Ho & Hp). apply owns_metrics in Ho as [-> _].
  unfold msum. rewrite Hp, app_nil_r. by eapply zsum_alloc_sizes, Hr.
Qed.

(** Keys are distinct and within the limits. *)
Lemma cache_holds_items cap s items :
  cache_holds cap s items -> NoDup (Lru.i_key <$> items) /\ Forall item_ok items.
Proof.
  intros (rows & -> & Hr & _). split.
  - rewrite <- list_fmap_compose. apply Hr.
  - apply Forall_fmap. eapply Forall_impl; [apply (rep_rows _ _ _ _ Hr)|]. intros r Hrow. apply Hrow.
Qed.

Lemma cache_holds_cap cap s items : cache_holds cap s items -> Cache.capacity_bytes s.1 = cap.
Proof. intros (rows & _ & Hr & _). apply Hr. Qed.

(** ** The keys of the items an operation leaves *)

Lemma prefix_keys (l items : list Lru.item) x :
  l `prefix_of` items -> x ∈ l -> Lru.i_key x ∈ Lru.i_key <$> items.
Proof. intros [k ->] Hx. apply list_elem_of_fmap_2, elem_of_app. by left. Qed.

Lemma remove_keys k items x : x ∈ Lru.remove k items -> Lru.i_key x ∈ Lru.i_key <$> items.
Proof. intros [_ Hx]%list_elem_of_filter. by apply list_elem_of_fmap_2. Qed.

Lemma set_keys cap k v ttl items st items' x :
  Lru.set cap k v ttl items = (st, items') -> x ∈ items' ->
  Lru.i_key x = k \/ Lru.i_key x ∈ Lru.i_key <$> items.
Proof.
  unfold Lru.set. intros Hs Hx. repeat case_decide; simplify_eq;
    try (right; by apply list_elem_of_fmap_2).
  apply elem_of_cons in Hx as [->|Hx]; [by left|]. right.
  apply (prefix_keys _ _ _ (fit_prefix _ _)) in Hx as Hk. apply list_elem_of_fmap in Hk as (y & -> & Hy).
  by eapply remove_keys.
Qed.

Lemma lookup_elem k items x : Lru.lookup k items = Some x -> x ∈ items /\ Lru.i_key x = k.
Proof.
  unfold Lru.lookup. intros ([i y] & Hf & ->)%fmap_Some. apply list_find_Some in Hf as (Hi & Hk & _).
  split; [by eapply list_elem_of_lookup_2|done].
Qed.

Lemma get_keys k items st ov items' x :
  Lru.get k items = (st, ov, items') -> x ∈ items' -> Lru.i_key x = k \/ Lru.i_key x ∈ Lru.i_key <$> items.
Proof.
  unfold Lru.get. intros Hs Hx. case_decide; [simplify_eq; right; by apply list_elem_of_fmap_2|].
  destruct (Lru.lookup k items) as [y|] eqn:Hl; simplify_eq; [|right; by apply list_elem_of_fmap_2].
  apply elem_of_cons in Hx as [->|Hx]; [left; by apply lookup_elem in Hl as [_ ?]|right; by eapply remove_keys].
Qed.

Lemma erase_keys k items st items' x :
  Lru.erase k items = (st, items') -> x ∈ items' -> Lru.i_key x = k \/ Lru.i_key x ∈ Lru.i_key <$> items.
Proof.
  unfold Lru.erase. intros Hs Hx. case_decide; [simplify_eq; right; by apply list_elem_of_fmap_2|].
  destruct (Lru.lookup k items) as [y|] eqn:Hl; simplify_eq; [|right; by apply list_elem_of_fmap_2].
  right. by eapply remove_keys.
Qed.

End tick_facts.

(** ** Reading back *)

Lemma lru_set_get cap k v ttl items items' st ov items2 :
  Lru.set cap k v ttl items = (ok, items') -> Lru.get k items' = (st, ov, items2) ->
  st = ok /\ ov = Some v.
Proof.
  unfold Lru.set, Lru.get. intros Hs Hg. destruct (decide (Lru.key_status k <> ok)); [simplify_eq; done|].
  repeat case_decide; simplify_eq/=. unfold Lru.lookup in Hg. simpl in Hg.
  rewrite decide_True in Hg by done. by simplify_eq/=.
Qed.
