(* ===== verification/ProgressFacts.v ===== *)
(** * Progress: when operations return

    The specifications of the operations allow an exception at every point that
    may allocate. Here: with no allocation failure scheduled and room left in the
    address space, none is thrown. *)
From S2P Require Import Prelude ErrorModel Effects MemoryModel AllocatorModel.
From S2P Require Import SystemAllocatorModel SlabAllocatorModel ValueAllocatorModel.
From S2P Require Import TimingWheelModel CacheEntryModel CacheModel.
Import Memory.

(** From a state of [P], the operation throws nothing and returns in one of [Q];
    that it stays within defined behaviour is for [wp] to say. *)
Definition calm {S A} (P : S -> Prop) (m : M S A) (Q : S -> Prop) : Prop :=
  forall s, P s ->
    match m s with
    | (Ret _, s') => Q s'
    | (Throw _, _) => False
    | (Undefined, _) => True
    end.

Create HintDb calm discriminated.

Lemma calm_mono {S A} (P P' Q Q' : S -> Prop) (m : M S A) :
  calm P m Q -> (forall s, P' s -> P s) -> (forall s, Q s -> Q' s) -> calm P' m Q'.
Proof. intros Hm HP HQ s Hs. specialize (Hm s (HP s Hs)). destruct (m s) as [[]]; auto. Qed.

Lemma calm_ret {S A} (P : S -> Prop) (a : A) : calm P (ret a) P.
Proof. by intros s. Qed.

Lemma calm_undefined {S A} (P Q : S -> Prop) : calm P (@undefined S A) Q.
Proof. by intros s. Qed.

Lemma calm_read {S} (P : S -> Prop) : calm P read P.
Proof. by intros s. Qed.

Lemma calm_modify {S} (P Q : S -> Prop) f : (forall s, P s -> Q (f s)) -> calm P (modify f) Q.
Proof. intros H s. apply H. Qed.

Lemma calm_modify_opt {S} (P Q : S -> Prop) f :
  (forall s s', f s = Some s' -> P s -> Q s') -> calm P (modify_opt f) Q.
Proof. intros H s Hs. unfold modify_opt. destruct (f s) eqn:E; eauto. Qed.

Lemma calm_assert {S} (P : S -> Prop) b : calm P (assert_ b) P.
Proof. intros s Hs. by destruct b. Qed.

Lemma calm_bind {S A B} (P Q R : S -> Prop) (m : M S A) (k : A -> M S B) :
  calm P m Q -> (forall a, calm Q (k a) R) -> calm P (bind m k) R.
Proof.
  intros Hm Hk s Hs. specialize (Hm s Hs). unfold bind.
  destruct (m s) as [[a|x|] s']; [|done|done]. by apply Hk.
Qed.

Lemma calm_on_throw {S A} (P Q : S -> Prop) (m : M S A) c : calm P m Q -> calm P (on_throw m c) Q.
Proof. intros Hm s Hs. specialize (Hm s Hs). unfold on_throw. by destruct (m s) as [[]]. Qed.

(** The half of the state an operation does not touch is framed. *)
Lemma calm_on_snd {S T A} (F : S -> Prop) (P Q : T -> Prop) (m : M T A) :
  calm P m Q -> calm (fun s => F s.1 /\ P s.2) (on_snd m) (fun s => F s.1 /\ Q s.2).
Proof. intros Hm s [HF Hs]. specialize (Hm _ Hs). unfold on_snd. by destruct (m s.2) as [[]]. Qed.

Lemma calm_on_fst {S T A} (F : T -> Prop) (P Q : S -> Prop) (m : M S A) :
  calm P m Q -> calm (fun s => P s.1 /\ F s.2) (on_fst m) (fun s => Q s.1 /\ F s.2).
Proof. intros Hm s [Hs HF]. specialize (Hm _ Hs). unfold on_fst. by destruct (m s.1) as [[]]. Qed.

Lemma calm_if {S A} (P Q : S -> Prop) (b : bool) (m1 m2 : M S A) :
  calm P m1 Q -> calm P m2 Q -> calm P (if b then m1 else m2) Q.
Proof. intros H1 H2. by destruct b. Qed.

(** A condition on the second half of the state. *)
Definition at_snd {S T} (P : T -> Prop) (s : S * T) : Prop := P s.2.

Lemma calm_at_fst {S T A} (F : T -> Prop) (m : M S A) :
  calm (fun _ => True) m (fun _ => True) -> calm (at_snd F) (on_fst m) (at_snd F).
Proof. intros Hm s HF. specialize (Hm s.1 I). unfold on_fst. by destruct (m s.1) as [[]]. Qed.

Lemma calm_at_snd {S T A} (P Q : T -> Prop) (m : M T A) :
  calm P m Q -> calm (at_snd (S := S) P) (on_snd m) (at_snd Q).
Proof. intros Hm s Hs. specialize (Hm _ Hs). unfold on_snd. by destruct (m s.2) as [[]]. Qed.

Lemma calm_free_read {S} : calm (fun _ : S => True) read (fun _ => True).
Proof. done. Qed.

Lemma calm_free_modify {S} f : calm (fun _ : S => True) (modify f) (fun _ => True).
Proof. done. Qed.

Lemma calm_free_modify_opt {S} f : calm (fun _ : S => True) (modify_opt f) (fun _ => True).
Proof. intros s _. unfold modify_opt. by destruct (f s). Qed.

#[export] Hint Resolve calm_ret calm_undefined calm_read calm_assert calm_free_read
  calm_free_modify calm_free_modify_opt : calm.

Lemma calm_bind_same {S A B} (P : S -> Prop) (m : M S A) (k : A -> M S B) :
  calm P m P -> (forall a, calm P (k a) P) -> calm P (bind m k) P.
Proof. apply calm_bind. Qed.

(** [calm_step] decomposes a straight-line operation whose condition is the same
    all along. *)
Ltac calm_step :=
  repeat first
    [ progress (cbn beta iota zeta)
    | solve [auto with calm]
    | apply calm_on_throw
    | (apply calm_bind_same; [|intros ?])
    | apply calm_at_fst
    | apply calm_at_snd
    | apply calm_if
    | match goal with |- calm _ (match ?x with _ => _ end) _ => destruct x end ].

(** ** Conditions that last

    Whatever the outcome, the condition holds afterwards if it held before. *)
Definition lasting {S A} (P : S -> Prop) (m : M S A) : Prop := forall s, P s -> P (m s).2.

Create HintDb lasting discriminated.

Lemma lasting_ret {S A} (P : S -> Prop) (a : A) : lasting P (ret a).
Proof. by intros s. Qed.
Lemma lasting_throw {S A} (P : S -> Prop) x : lasting P (@throw S A x).
Proof. by intros s. Qed.
Lemma lasting_undefined {S A} (P : S -> Prop) : lasting P (@undefined S A).
Proof. by intros s. Qed.
Lemma lasting_read {S} (P : S -> Prop) : lasting P read.
Proof. by intros s. Qed.

Lemma lasting_bind {S A B} (P : S -> Prop) (m : M S A) (k : A -> M S B) :
  lasting P m -> (forall a, lasting P (k a)) -> lasting P (bind m k).
Proof.
  intros Hm Hk s Hs. specialize (Hm s Hs). unfold bind. destruct (m s) as [[a|x|] s']; cbn [fst snd] in *; [|done|done].
  by apply Hk.
Qed.

Lemma lasting_try_catch {S A} (P : S -> Prop) (m : M S A) (h : exn -> M S A) :
  lasting P m -> (forall x, lasting P (h x)) -> lasting P (try_catch m h).
Proof.
  intros Hm Hh s Hs. specialize (Hm s Hs). unfold try_catch. destruct (m s) as [[a|x|] s']; cbn [fst snd] in *; [done| |done].
  by apply Hh.
Qed.

Lemma lasting_on_fst {S T A} (P : T -> Prop) (m : M S A) : lasting (at_snd P) (on_fst m).
Proof. intros [s t] Hs. unfold on_fst. cbn [fst]. by destruct (m s). Qed.

Lemma lasting_on_snd {S T A} (P : T -> Prop) (m : M T A) : lasting P m -> lasting (at_snd (S := S) P) (on_snd m).
Proof. intros Hm [s t] Ht. specialize (Hm t Ht). unfold on_snd. cbn [snd]. by destruct (m t). Qed.

#[export] Hint Resolve lasting_ret lasting_throw lasting_undefined lasting_read lasting_on_fst : lasting.

(** [lasting_step] decomposes an operation. *)
Ltac lasting_step :=
  repeat first
    [ progress (cbn beta iota zeta)
    | solve [auto with lasting]
    | (apply lasting_bind; [|intros ?])
    | (apply lasting_try_catch; [|intros ?])
    | apply lasting_on_snd
    | match goal with |- lasting _ (match ?x with _ => _ end) => destruct x end ].

(** ** Memory *)

(** No allocation failure to come. *)
Definition quiet (e : env) : Prop := faults e = [].

(** And room for [n] more bytes in the address space. *)
Definition ready (n : Z) (e : env) : Prop := quiet e /\ heap_bytes (mem e) + n <= address_space.

Lemma ready_quiet n e : ready n e -> quiet e.
Proof. by intros [? _]. Qed.

Lemma may_alloc_quiet : calm quiet may_alloc quiet.
Proof. intros e He. unfold may_alloc. by rewrite He. Qed.

Lemma may_alloc_lasting : lasting quiet may_alloc.
Proof. intros e He. unfold may_alloc. by rewrite He. Qed.

#[export] Hint Resolve may_alloc_lasting : lasting.

Lemma may_alloc_ready n : calm (ready n) may_alloc (ready n).
Proof. intros e He. unfold may_alloc. by rewrite (ready_quiet n e He). Qed.

#[export] Hint Resolve may_alloc_quiet may_alloc_ready : calm.

Lemma operator_new_calm n k : n <= k -> calm (ready k) (operator_new n) quiet.
Proof.
  intros Hn. unfold operator_new. eapply calm_bind; [apply may_alloc_ready|]. intros [] e [Hq Hr].
  unfold bind, read. cbn beta iota. destruct (_ >? _) eqn:Hgt; zsimp; [lia|exact Hq].
Qed.

Lemma operator_delete_calm p : calm quiet (operator_delete p) quiet.
Proof. apply calm_modify_opt. intros e e' He Hq. by simplify_option_eq. Qed.

Lemma store_calm p vs : calm quiet (store p vs) quiet.
Proof.
  apply calm_modify_opt. intros e e' He Hq. destruct (in_bounds _ _ _); [|done]. by injection He as <-.
Qed.

#[export] Hint Resolve operator_delete_calm store_calm : calm.

(** ** The allocators *)

(** What progress needs of a value allocator: it allocates while there is room for
    the value and for one slab. *)
Class AllocatorProgress (A : Type) `{ValueAllocator A} := {
  allocate_calm : forall n, calm (at_snd (ready (Z.max n slab_size))) (allocate n) (at_snd quiet);
  deallocate_calm : forall r n, calm (at_snd quiet) (deallocate r n) (at_snd quiet)
}.

Lemma ret_ready {S A} k (a : A) : calm (at_snd (S := S) (ready k)) (ret a) (at_snd quiet).
Proof. intros s. apply ready_quiet. Qed.

#[global] Instance system_progress : AllocatorProgress SystemAllocator.t.
Proof.
  split.
  - intros n. simpl. unfold SystemAllocator.allocate. apply calm_if; [apply ret_ready|].
    eapply calm_bind; [apply calm_at_snd, (operator_new_calm n); lia|]. intros p. calm_step.
  - intros r n. simpl. unfold SystemAllocator.deallocate. calm_step.
Qed.

Lemma on_class_calm {A} i (P Q : env -> Prop) (f : M (SlabClass.t * env) A) :
  calm (at_snd P) f (at_snd Q) -> calm (at_snd P) (SlabAllocator.on_class i f) (at_snd Q).
Proof.
  intros Hf s Hs. unfold SlabAllocator.on_class. destruct (_ !! i) as [c|]; [|done].
  specialize (Hf (c, s.2) Hs). by destruct (f (c, s.2)) as [[] [c' e']].
Qed.

Lemma carve_calm data i n : calm (at_snd quiet) (SlabClass.carve data i n) (at_snd quiet).
Proof.
  revert i. induction n as [|n IH]; intros i; cbn [SlabClass.carve]; unfold SlabClass.deallocate; calm_step.
Qed.

#[export] Hint Resolve carve_calm : calm.

Lemma class_allocate_calm k : slab_size <= k -> calm (at_snd (ready k)) SlabClass.allocate (at_snd quiet).
Proof.
  intros Hk. unfold SlabClass.allocate.
  eapply (calm_bind _ (at_snd (ready k))); [calm_step|]. intros c.
  eapply (calm_bind _ (at_snd quiet)); [|intros []; calm_step].
  destruct (decide _); [|apply ret_ready].
  unfold SlabClass.add_slab. eapply (calm_bind _ (at_snd (ready k))); [calm_step|]. intros [].
  eapply (calm_bind _ (at_snd quiet)).
  - apply calm_at_snd. eapply calm_bind; [apply (operator_new_calm slab_size k Hk)|]. intros data. apply calm_ret.
  - intros s. cbn zeta. unfold Slab.destroy. calm_step.
Qed.

#[global] Instance slab_progress : AllocatorProgress SlabAllocator.t.
Proof.
  split.
  - intros n. simpl. unfold SlabAllocator.allocate, SlabAllocator.with_metrics.
    set (k := Z.max n slab_size). apply calm_if; [apply ret_ready|]. apply calm_if.
    + eapply calm_bind; [apply calm_at_snd, (operator_new_calm n); lia|]. intros p. calm_step.
    + destruct (SlabAllocator.class_index n) as [i|]; [|apply calm_undefined].
      destruct (SlabAllocator.class_size n); [|apply calm_undefined].
      eapply (calm_bind _ (at_snd (ready k))); [apply on_class_calm; calm_step|]. intros before.
      eapply calm_bind; [apply on_class_calm, (class_allocate_calm k); lia|]. intros p.
      apply calm_bind_same; [apply on_class_calm; calm_step|]. intros after. calm_step.
  - intros r n. simpl. unfold SlabAllocator.deallocate, SlabAllocator.with_metrics. calm_step.
    apply on_class_calm. unfold SlabClass.deallocate. calm_step.
Qed.

Lemma dispatch_calm {A} (P Q : env -> Prop) (f : M (SystemAllocator.t * env) A) (g : M (SlabAllocator.t * env) A) :
  calm (at_snd P) f (at_snd Q) -> calm (at_snd P) g (at_snd Q) ->
  calm (at_snd P) (AnyAllocator.dispatch f g) (at_snd Q).
Proof.
  intros Hf Hg [[a|a] e] Hs; unfold AnyAllocator.dispatch; simpl.
  - specialize (Hf (a, e) Hs). by destruct (f (a, e)) as [[] []].
  - specialize (Hg (a, e) Hs). by destruct (g (a, e)) as [[] []].
Qed.

#[global] Instance any_progress : AllocatorProgress AnyAllocator.t.
Proof.
  split.
  - intros n. apply dispatch_calm; [exact (allocate_calm (A := SystemAllocator.t) n)|exact (allocate_calm (A := SlabAllocator.t) n)].
  - intros r n. apply dispatch_calm; [exact (deallocate_calm (A := SystemAllocator.t) r n)|exact (deallocate_calm (A := SlabAllocator.t) r n)].
Qed.

(** ** The timing wheel *)

Lemma schedule_calm k g ttl : calm (at_snd quiet) (TimingWheel.schedule k g ttl) (at_snd quiet).
Proof. unfold TimingWheel.schedule. calm_step. Qed.

Lemma wheel_tick_calm : calm (at_snd quiet) TimingWheel.tick (at_snd quiet).
Proof. unfold TimingWheel.tick. calm_step. Qed.

(** ** The cache *)

Section cache.
Context {A : Type} {VA : ValueAllocator A} {VP : AllocatorProgress A}.

(** The condition during an operation, on the state of a cache. *)
Definition cache_quiet (s : Cache.state (A := A)) : Prop := quiet s.2.2.

(** The condition before a SET: room for a value or a slab, and generations left. *)
Definition cache_ready (s : Cache.state (A := A)) : Prop :=
  ready slab_size s.2.2 /\ Cache.generation_source_ s.1 <> u64_max.

Lemma destroy_entry_calm e : calm (at_snd quiet) (CacheEntry.destroy (A := A) e) (at_snd quiet).
Proof. unfold CacheEntry.destroy. apply calm_if; [apply deallocate_calm|apply calm_ret]. Qed.

Lemma create_entry_calm v :
  zlen v <= slab_size -> calm (at_snd (ready slab_size)) (CacheEntry.create (A := A) v) (at_snd quiet).
Proof.
  intros Hv. unfold CacheEntry.create. eapply calm_bind; [|intros data].
  - pose proof (allocate_calm (zlen v)) as H. rewrite Z.max_r in H by lia. exact H.
  - calm_step.
Qed.

Lemma on_fst_calm {B} (m : M Cache.t B) :
  calm (fun _ => True) m (fun _ => True) -> calm cache_quiet (on_fst m) cache_quiet.
Proof. apply (calm_at_fst (at_snd quiet)). Qed.

Lemma on_snd_calm {B} (m : M (A * env) B) :
  calm (at_snd quiet) m (at_snd quiet) -> calm cache_quiet (on_snd m) cache_quiet.
Proof. apply (calm_at_snd (at_snd quiet) (at_snd quiet)). Qed.

Lemma on_wheel_calm {B} (f : M (TimingWheel.t * env) B) :
  calm (at_snd quiet) f (at_snd quiet) -> calm cache_quiet (Cache.on_wheel f) cache_quiet.
Proof.
  intros Hf s Hs. specialize (Hf (Cache.timing_wheel_ s.1, s.2.2) Hs). unfold Cache.on_wheel.
  by destruct (f _) as [[] [w e]].
Qed.

Lemma node_alloc_calm : calm cache_quiet (Cache.node_alloc (A := A)) cache_quiet.
Proof. apply on_snd_calm, calm_at_snd, may_alloc_quiet. Qed.

Lemma destroy_calm e : calm cache_quiet (on_snd (CacheEntry.destroy (A := A) e)) cache_quiet.
Proof. apply on_snd_calm, destroy_entry_calm. Qed.

#[local] Hint Resolve on_fst_calm node_alloc_calm destroy_calm : calm.

Lemma remove_entry_calm k : calm cache_quiet (Cache.remove_entry (A := A) k) cache_quiet.
Proof. unfold Cache.remove_entry. calm_step. Qed.

#[local] Hint Resolve remove_entry_calm : calm.

Lemma evict_rounds_calm n over : calm cache_quiet (Cache.evict_rounds (A := A) n over) cache_quiet.
Proof.
  induction n as [|n IH]; cbn [Cache.evict_rounds]; unfold Cache.evict_lru; calm_step.
Qed.

#[local] Hint Resolve evict_rounds_calm : calm.

Lemma stamp_calm k ttl :
  calm (fun s => cache_quiet s /\ Cache.generation_source_ s.1 <> u64_max) (Cache.stamp (A := A) k ttl) cache_quiet.
Proof.
  unfold Cache.stamp. eapply (calm_bind _ cache_quiet).
  - intros s [Hq Hg]. unfold on_fst, Cache.next_generation, bind, read. cbn beta iota.
    by rewrite (proj2 (Z.eqb_neq _ _)) by done.
  - intros g. calm_step. apply on_wheel_calm, schedule_calm.
Qed.

(** Creating the entry keeps the generations. *)
Lemma on_snd_create_calm v :
  zlen v <= slab_size ->
  calm cache_ready (on_snd (CacheEntry.create (A := A) v))
    (fun s => cache_quiet s /\ Cache.generation_source_ s.1 <> u64_max).
Proof.
  intros Hv s [Hr Hg]. pose proof (create_entry_calm v Hv s.2 Hr) as H. unfold on_snd.
  by destruct (CacheEntry.create v s.2) as [[] [a e]].
Qed.

Lemma node_alloc_ready : calm cache_ready (Cache.node_alloc (A := A)) cache_ready.
Proof.
  intros s [Hr Hg]. pose proof (may_alloc_ready slab_size s.2.2 Hr) as H. unfold Cache.node_alloc, on_snd.
  by destruct (may_alloc s.2.2) as [[] e].
Qed.

Lemma ret_cache_ready {B} (b : B) : calm cache_ready (ret b) cache_quiet.
Proof. intros s [Hr _]. exact (ready_quiet _ _ Hr). Qed.

Lemma set_calm k v ttl : calm cache_ready (Cache.set (A := A) k v ttl) cache_quiet.
Proof.
  unfold Cache.set. cbn zeta. destruct (decide _); [apply ret_cache_ready|].
  destruct (_ >? _) eqn:Hv; [apply ret_cache_ready|]. zsimp. apply calm_if; [apply ret_cache_ready|].
  eapply (calm_bind _ cache_ready); [by intros s Hs|]. intros c. apply calm_if; [apply ret_cache_ready|].
  eapply calm_bind; [apply node_alloc_ready|]. intros [].
  destruct (_ !! k).
  - unfold Cache.overwrite. eapply calm_bind; [by apply on_snd_create_calm|]. intros r. cbn zeta.
    eapply calm_bind; [apply calm_on_throw, stamp_calm|]. intros g. unfold Cache.evict_while, CacheEntry.replace_value.
    calm_step. apply on_snd_calm. calm_step. apply deallocate_calm.
  - unfold Cache.insert_new. eapply calm_bind; [apply node_alloc_ready|]. intros [].
    eapply calm_bind; [apply node_alloc_ready|]. intros [].
    eapply calm_bind; [by apply on_snd_create_calm|]. intros r.
    eapply (calm_bind _ cache_quiet).
    { apply calm_on_throw. eapply calm_bind; [apply stamp_calm|]. intros g. unfold Cache.evict_while. calm_step. }
    intros g. calm_step.
Qed.

Lemma get_calm k out : calm cache_quiet (Cache.get (A := A) k out) cache_quiet.
Proof. unfold Cache.get. calm_step. Qed.

Lemma erase_calm k : calm cache_quiet (Cache.erase (A := A) k) cache_quiet.
Proof. unfold Cache.erase. calm_step. Qed.

Lemma expire_events_calm evs : calm cache_quiet (Cache.expire_events (A := A) evs) cache_quiet.
Proof. induction evs as [|ev evs IH]; cbn [Cache.expire_events]; calm_step. Qed.

Lemma tick_calm : calm cache_quiet (Cache.tick (A := A)) cache_quiet.
Proof.
  unfold Cache.tick. eapply calm_bind; [apply on_wheel_calm, wheel_tick_calm|]. intros evs. apply expire_events_calm.
Qed.

End cache.

(** A verified operation that is calm returns. *)
Lemma calm_returns {S A} (P Q : S -> Prop) (m : M S A) s R E :
  calm P m Q -> P s -> wp m s (post R E) -> exists a s', m s = (Ret a, s') /\ R a s' /\ Q s'.
Proof.
  intros Hm Hs Hw. specialize (Hm s Hs). unfold wp in Hw.
  destruct (m s) as [[a|x|] s']; [|done|done]. by exists a, s'.
Qed.
