(* ===== verification/CacheShardModel.v ===== *)
(** * Shards ([cache/cache_shard.h], [cache/cache_shard.cpp])

    A shard is a cache, the allocator it owns, and the mutex every method holds
    from its first statement to its last, exceptions included. *)
From S2P Require Import Prelude ErrorModel Effects MemoryModel AllocatorModel.
From S2P Require Import ValueAllocatorModel CacheModel.
Import Memory.

Module CacheShard.

Record t := MkCacheShard {
  mutex_ : bool;     (** held *)
  contents : Cache.state (A := AnyAllocator.t)   (** [cache_], [allocator_] and the memory *)
}.

(** [CacheShard(capacity_bytes, allocator_backend)], in a memory with its
    schedule of allocation failures. *)
Definition init (capacity_bytes : Z) (allocator_backend : AllocatorBackend)
    (schedule : list bool) : t :=
  MkCacheShard false
    (Cache.init capacity_bytes,
     (make_value_allocator allocator_backend, MkEnv empty_memory schedule)).

(** [const std::lock_guard lock(mutex_);] around the rest of a method: locking a
    mutex the thread already holds is undefined, and the guard releases it on
    every way out. *)
Definition with_lock {B} (m : M Cache.state B) : M t B := fun s =>
  if mutex_ s then (Undefined, s)
  else let '(o, c') := m (contents s) in (o, MkCacheShard false c').

Definition set (key value : bytes) (ttl : Z) : M t CacheStatus :=
  with_lock (Cache.set key value ttl).

Definition get (key output : bytes) : M t (CacheStatus * bytes) :=
  with_lock (Cache.get key output).

Definition erase (key : bytes) : M t CacheStatus := with_lock (Cache.erase key).

Definition tick : M t unit := with_lock Cache.tick.

(** The observers. *)
Definition observe {B} (f : Cache.state -> B) : M t B :=
  with_lock (s <- read ;; ret (f s)).

Definition size : M t Z := observe (fun s => Cache.size s.1).
Definition empty : M t bool := observe (fun s => Cache.empty s.1).
Definition capacity_bytes : M t Z := observe (fun s => Cache.capacity_bytes s.1).
Definition memory_usage_bytes : M t Z := observe (fun s => Cache.memory_usage_bytes s.1).
Definition hit_count : M t Z := observe (fun s => Cache.hit_count s.1).
Definition miss_count : M t Z := observe (fun s => Cache.miss_count s.1).
Definition eviction_count : M t Z := observe (fun s => Cache.eviction_count s.1).
Definition expired_count : M t Z := observe (fun s => Cache.expired_count s.1).
Definition allocator_metrics : M t ValueAllocatorMetrics :=
  observe Cache.allocator_metrics.

(** The destructor: [cache_] with its entries goes before [allocator_], and the mutex
    must not be held. *)
Definition destroy : M t unit :=
  with_lock (Cache.destroy ;; on_snd AllocatorModel.destroy).

End CacheShard.
