(* ===== verification/CacheEngineModel.v ===== *)
(** * The engine ([cache/cache_engine.h], [cache/cache_engine.cpp])

    The capacity divided among shards, and every key routed to one of them by
    [std::hash<std::string_view>], which is a parameter. *)
From S2P Require Import Prelude ErrorModel Effects MemoryModel AllocatorModel.
From S2P Require Import CacheModel CacheShardModel.
Import Memory.

Module CacheEngine.

Definition default_shard_count : Z := 64.

Record t := MkCacheEngine {
  capacity_bytes_ : Z;
  allocator_backend_ : AllocatorBackend;
  shards_ : list CacheShard.t
}.

(** The capacity of shard [shard_index] out of [shard_count]. *)
Definition shard_capacity (capacity_bytes shard_count shard_index : Z) : Z :=
  u64 (capacity_bytes / shard_count +
       (if shard_index <? capacity_bytes mod shard_count then 1 else 0)).

(** The loop of the constructor, [n] shards from [shard_index] on. *)
Fixpoint make_shards (capacity_bytes shard_count : Z) (backend : AllocatorBackend)
    (schedule : Z -> list bool) (shard_index : Z) (n : nat) : M env (list CacheShard.t) :=
  match n with
  | O => ret []
  | S n =>
      may_alloc ;;
      rest <- make_shards capacity_bytes shard_count backend schedule (shard_index + 1) n ;;
      ret (CacheShard.init (shard_capacity capacity_bytes shard_count shard_index) backend
             (schedule shard_index) :: rest)
  end.

(** [CacheEngine(capacity_bytes, shard_count, allocator_backend)]; [schedule]
    says when the allocations of each shard will fail. *)
Definition create (capacity_bytes shard_count : Z) (allocator_backend : AllocatorBackend)
    (schedule : Z -> list bool) : M env t :=
  if shard_count =? 0
  then throw (highcache_error (MkHighCacheError invalid_argument
         (lit "cache shard count must be greater than zero")))
  else
    may_alloc ;;
    shards <- make_shards capacity_bytes shard_count allocator_backend schedule 0
                (Z.to_nat shard_count) ;;
    ret (MkCacheEngine capacity_bytes allocator_backend shards).

(** A call on [*shards_[index]]. *)
Definition on_shard {B} (index : nat) (m : M CacheShard.t B) : M t B := fun e =>
  match shards_ e !! index with
  | Some sh =>
      let '(o, sh') := m sh in
      (o, MkCacheEngine (capacity_bytes_ e) (allocator_backend_ e) (<[index := sh']> (shards_ e)))
  | None => (Undefined, e)
  end.

Section engine.
Variable hash : bytes -> Z.

(** [shard_for]. *)
Definition shard_index (shard_count : Z) (key : bytes) : nat :=
  Z.to_nat (u64 (hash key) mod shard_count).

Definition shard_for (key : bytes) (e : t) : nat := shard_index (zlen (shards_ e)) key.

Definition set (key value : bytes) (ttl : Z) : M t CacheStatus :=
  e <- read ;;
  on_shard (shard_for key e) (CacheShard.set key value ttl).

Definition get (key output : bytes) : M t (CacheStatus * bytes) :=
  e <- read ;;
  on_shard (shard_for key e) (CacheShard.get key output).

Definition erase (key : bytes) : M t CacheStatus :=
  e <- read ;;
  on_shard (shard_for key e) (CacheShard.erase key).
End engine.

(** [for (const auto &shard : shards_) shard->tick();] *)
Fixpoint tick_from (index : nat) (n : nat) : M t unit :=
  match n with
  | O => ret tt
  | S n => on_shard index CacheShard.tick ;; tick_from (S index) n
  end.

Definition tick : M t unit :=
  e <- read ;;
  tick_from 0 (length (shards_ e)).

(** [for (const auto &shard : shards_) total += shard->f();] *)
Fixpoint accumulate {B} (add : B -> B -> B) (f : M CacheShard.t B) (index n : nat) (total : B) :
    M t B :=
  match n with
  | O => ret total
  | S n =>
      x <- on_shard index f ;;
      accumulate add f (S index) n (add total x)
  end.

Definition total {B} (add : B -> B -> B) (zero : B) (f : M CacheShard.t B) : M t B :=
  e <- read ;;
  accumulate add f 0 (length (shards_ e)) zero.

Definition add_size (x y : Z) : Z := u64 (x + y).

Definition size : M t Z := total add_size 0 CacheShard.size.
Definition memory_usage_bytes : M t Z := total add_size 0 CacheShard.memory_usage_bytes.
Definition hit_count : M t Z := total add_size 0 CacheShard.hit_count.
Definition miss_count : M t Z := total add_size 0 CacheShard.miss_count.
Definition eviction_count : M t Z := total add_size 0 CacheShard.eviction_count.
Definition expired_count : M t Z := total add_size 0 CacheShard.expired_count.

Definition add_metrics (x y : ValueAllocatorMetrics) : ValueAllocatorMetrics :=
  MkMetrics
    (add_size (allocated_bytes x) (allocated_bytes y))
    (add_size (used_bytes x) (used_bytes y))
    (add_size (free_bytes x) (free_bytes y))
    (add_size (allocation_count x) (allocation_count y))
    (add_size (deallocation_count x) (deallocation_count y))
    (add_size (internal_fragmentation x) (internal_fragmentation y))
    (add_size (slab_count x) (slab_count y)).

Definition allocator_metrics : M t ValueAllocatorMetrics :=
  total add_metrics zero_metrics CacheShard.allocator_metrics.

(** [empty]: the first shard that is not ends the loop. *)
Fixpoint empty_from (index n : nat) : M t bool :=
  match n with
  | O => ret true
  | S n =>
      b <- on_shard index CacheShard.empty ;;
      if b then empty_from (S index) n else ret false
  end.

Definition empty : M t bool :=
  e <- read ;;
  empty_from 0 (length (shards_ e)).

Definition capacity_bytes (e : t) : Z := capacity_bytes_ e.
Definition shard_count (e : t) : Z := zlen (shards_ e).
Definition allocator_backend (e : t) : AllocatorBackend := allocator_backend_ e.

(** The destructor: every shard is destroyed. *)
Fixpoint destroy_from (index n : nat) : M t unit :=
  match n with
  | O => ret tt
  | S n => on_shard index CacheShard.destroy ;; destroy_from (S index) n
  end.

Definition destroy : M t unit :=
  e <- read ;;
  destroy_from 0 (length (shards_ e)).

End CacheEngine.
