(* ===== verification/CacheEngineFacts.v ===== *)
(** * The engine is a family of LRU caches

    Each shard holds the items of the keys routed to it, within its share of the
    capacity; an operation touches the shard of its key and no other. *)
From S2P Require Import Prelude ErrorModel Effects MemoryModel AllocatorModel.
From S2P Require Import ValueAllocatorModel CacheModel LruSpec CacheEntryFacts CacheRep CacheSteps.
From S2P Require Import CacheFacts CacheTickFacts CacheShardModel CacheEngineModel.
Import Memory.
Import CacheEngine.

(** ** The division of the capacity *)

Lemma shard_capacity_range cap n i :
  0 <= cap < 2 ^ 64 -> 0 < n -> 0 <= i ->
  shard_capacity cap n i = cap / n + (if i <? cap mod n then 1 else 0) /\
  0 <= shard_capacity cap n i < 2 ^ 64.
Proof.
  intros Hc Hn Hi. unfold shard_capacity.
  pose proof (Z.div_mod cap n ltac:(lia)) as Hd. pose proof (Z.mod_pos_bound cap n Hn) as Hm.
  assert (0 <= cap / n) by (by apply Z.div_pos; lia).
  assert (0 <= cap / n + (if i <? cap mod n then 1 else 0) <= cap) as Hb.
  { destruct (Z.ltb_spec i (cap mod n)); nia. }
  rewrite u64_small by lia. lia.
Qed.

(** The shares of [k] shards from number [i] on. *)
Fixpoint shares (cap n i : Z) (k : nat) : list Z :=
  match k with
  | O => []
  | S k => shard_capacity cap n i :: shares cap n (i + 1) k
  end.

Lemma zsum_shares cap n i k :
  0 <= cap < 2 ^ 64 -> 0 < n -> 0 <= i ->
  zsum id (shares cap n i k) = Z.of_nat k * (cap / n) + Z.max 0 (Z.min (Z.of_nat k) (cap mod n - i)).
Proof.
  intros Hc Hn. revert i. induction k as [|k IH]; intros i Hi; simpl shares; [simpl; lia|].
  simpl zsum. rewrite IH by lia. unfold id.
  destruct (shard_capacity_range cap n i Hc Hn Hi) as [-> _].
  destruct (Z.ltb_spec i (cap mod n)); lia.
Qed.

Lemma shares_lookup cap n i k j :
  shares cap n i k !! j = if decide (j < k)%nat then Some (shard_capacity cap n (i + Z.of_nat j)) else None.
Proof.
  revert i j. induction k as [|k IH]; intros i j; [by rewrite decide_False by lia|].
  destruct j as [|j]; simpl; [by rewrite Z.add_0_r|]. rewrite IH.
  destruct (decide (j < k)%nat), (decide (S j < S k)%nat); try lia; [|done]. do 2 f_equal. lia.
Qed.

Lemma length_shares cap n i k : length (shares cap n i k) = k.
Proof. revert i. induction k as [|k IH]; intros i; simpl; [done|]. by rewrite IH. Qed.

Section engine_facts.
Variable hash : bytes -> Z.

(** Shard [sh] holds [items], all routed to it. *)
Definition shard_holds (cap n i : Z) (sh : CacheShard.t) (items : list Lru.item) : Prop :=
  CacheShard.mutex_ sh = false /\
  cache_holds (shard_capacity cap n i) (CacheShard.contents sh) items /\
  Forall (fun x => Z.of_nat (shard_index hash n (Lru.i_key x)) = i) items.

(** The engine of capacity [cap] holds the items [ls !! i] in shard [i]. *)
Definition engine_holds (cap : Z) (e : t) (ls : list (list Lru.item)) : Prop :=
  capacity_bytes_ e = cap /\ 0 <= cap < 2 ^ 64 /\ ls <> [] /\
  length (shards_ e) = length ls /\
  forall i sh items, shards_ e !! i = Some sh -> ls !! i = Some items ->
    shard_holds cap (zlen ls) (Z.of_nat i) sh items.

Lemma shard_index_lt n k : 0 < n -> (shard_index hash n k < Z.to_nat n)%nat.
Proof.
  intros Hn. unfold shard_index. pose proof (Z.mod_pos_bound (u64 (hash k)) n Hn). lia.
Qed.

(** The shard of a key, and what it holds. *)
Lemma engine_shard cap e ls k :
  engine_holds cap e ls ->
  exists sh items, shards_ e !! shard_for hash k e = Some sh /\
    ls !! shard_index hash (zlen ls) k = Some items /\
    shard_for hash k e = shard_index hash (zlen ls) k /\
    shard_holds cap (zlen ls) (Z.of_nat (shard_index hash (zlen ls) k)) sh items.
Proof.
  intros (_ & _ & Hne & Hlen & Hall). unfold shard_for. rewrite Hlen.
  assert (shard_index hash (zlen ls) k < length ls)%nat as Hlt.
  { assert (length ls <> 0%nat) by (by destruct ls). pose proof (shard_index_lt (zlen ls) k ltac:(lia)). lia. }
  destruct (lookup_lt_is_Some_2 ls _ Hlt) as [items Hi].
  assert (shard_index hash (zlen ls) k < length (shards_ e))%nat as Hlt' by (by rewrite Hlen).
  destruct (lookup_lt_is_Some_2 (shards_ e) _ Hlt') as [sh Hs].
  exists sh, items. split_and!; [done|done|done|]. by apply Hall.
Qed.

Lemma with_lock_wp {B} (m : M Cache.state B) sh Q :
  CacheShard.mutex_ sh = false ->
  wp m (CacheShard.contents sh) (fun o c => Q o (CacheShard.MkCacheShard false c)) ->
  wp (CacheShard.with_lock m) sh Q.
Proof.
  unfold wp, CacheShard.with_lock. intros ->. by destruct (m _).
Qed.

Lemma on_shard_wp {B} i (m : M CacheShard.t B) e sh Q :
  shards_ e !! i = Some sh ->
  wp m sh (fun o sh' =>
    Q o (MkCacheEngine (capacity_bytes_ e) (allocator_backend_ e) (<[i := sh']> (shards_ e)))) ->
  wp (on_shard i m) e Q.
Proof. unfold wp, on_shard. intros ->. by destruct (m sh). Qed.

(** Replacing one shard and its items. *)
Lemma engine_insert cap e ls i sh items :
  engine_holds cap e ls -> shard_holds cap (zlen ls) (Z.of_nat i) sh items ->
  engine_holds cap (MkCacheEngine (capacity_bytes_ e) (allocator_backend_ e) (<[i := sh]> (shards_ e)))
    (<[i := items]> ls).
Proof.
  intros (Hc & Hr & Hne & Hlen & Hall) Hs. unfold engine_holds. simpl. rewrite !length_insert.
  split_and!; [done|lia|lia|by destruct ls, i|done|].
  intros j sh' items' Hj Hi. destruct (decide (i = j)) as [->|Hij].
  - apply list_lookup_insert_Some in Hj as [(_ & -> & _)|[? _]]; [|done].
    apply list_lookup_insert_Some in Hi as [(_ & -> & _)|[? _]]; [|done]. done.
  - rewrite list_lookup_insert_ne in Hj by done. rewrite list_lookup_insert_ne in Hi by done.
    by apply Hall.
Qed.

(** An operation on the shard of [k] that keeps its keys among the old ones and
    [k]. *)
Lemma shard_op_wp {B} cap e ls k (m : M Cache.state B)
    (R : Z -> B -> list Lru.item -> list Lru.item -> Cache.t -> Cache.t -> Prop)
    (E : Z -> exn -> list Lru.item -> list Lru.item -> Cache.t -> Cache.t -> Prop) :
  engine_holds cap e ls ->
  (forall c s items, cache_holds c s items ->
    wp m s (post
      (fun b s' => exists items', R c b items items' s.1 s'.1 /\ cache_holds c s' items' /\
         forall x, x ∈ items' -> Lru.i_key x = k \/ Lru.i_key x ∈ Lru.i_key <$> items)
      (fun x s' => exists items', E c x items items' s.1 s'.1 /\ cache_holds c s' items' /\
         forall x, x ∈ items' -> Lru.i_key x = k \/ Lru.i_key x ∈ Lru.i_key <$> items))) ->
  wp (e <- read ;; on_shard (shard_for hash k e) (CacheShard.with_lock m)) e (post
    (fun b e' => exists items items' sh sh', let i := shard_index hash (zlen ls) k in
       ls !! i = Some items /\ shards_ e !! i = Some sh /\ shards_ e' !! i = Some sh' /\
       R (shard_capacity cap (zlen ls) (Z.of_nat i)) b items items' (CacheShard.contents sh).1 (CacheShard.contents sh').1 /\
       engine_holds cap e' (<[i := items']> ls) /\ (forall j, j <> i -> shards_ e' !! j = shards_ e !! j))
    (fun x e' => exists items items' sh sh', let i := shard_index hash (zlen ls) k in
       ls !! i = Some items /\ shards_ e !! i = Some sh /\ shards_ e' !! i = Some sh' /\
       E (shard_capacity cap (zlen ls) (Z.of_nat i)) x items items' (CacheShard.contents sh).1 (CacheShard.contents sh').1 /\
       engine_holds cap e' (<[i := items']> ls) /\ (forall j, j <> i -> shards_ e' !! j = shards_ e !! j))).
Proof.
  intros He Hm. destruct (engine_shard cap e ls k He) as (sh & items & Hsh & Hi & Hfor & Hlk & Hh & Hroute).
  apply wp_bind, wp_read. cbn beta iota. rewrite Hfor in *. set (i := shard_index hash (zlen ls) k) in *.
  eapply on_shard_wp; [exact Hsh|]. apply with_lock_wp; [done|].
  apply lookup_lt_Some in Hsh as Hlt.
  assert (forall c' items', cache_holds (shard_capacity cap (zlen ls) (Z.of_nat i)) c' items' ->
    (forall x, x ∈ items' -> Lru.i_key x = k \/ Lru.i_key x ∈ Lru.i_key <$> items) ->
    engine_holds cap (MkCacheEngine (capacity_bytes_ e) (allocator_backend_ e)
      (<[i := CacheShard.MkCacheShard false c']> (shards_ e))) (<[i := items']> ls)) as Hput.
  { intros c' items' Hc' Hkeys. apply engine_insert; [done|]. split_and!; [done|done|].
    apply Forall_forall. intros x Hx. destruct (Hkeys x Hx) as [->|Hin]; [done|].
    apply list_elem_of_fmap in Hin as (y & -> & Hy). rewrite Forall_forall in Hroute. by apply Hroute. }
  eapply wp_mono; [apply (Hm _ _ _ Hh)|]. intros [b|x|] c'; simpl; [..|done];
    intros (items' & HR & Hc' & Hkeys); eexists items, items', sh, _;
    (split_and!; [done|done|by rewrite list_lookup_insert_eq|exact HR|by apply Hput|]);
    intros j Hj; by rewrite list_lookup_insert_ne.
Qed.


(** ** Ticks *)

Definition put_shard (i : nat) (sh : CacheShard.t) (e : t) : t :=
  MkCacheEngine (capacity_bytes_ e) (allocator_backend_ e) (<[i := sh]> (shards_ e)).

Lemma engine_lookup cap e ls i items :
  engine_holds cap e ls -> ls !! i = Some items ->
  exists sh, shards_ e !! i = Some sh /\ shard_holds cap (zlen ls) (Z.of_nat i) sh items.
Proof.
  intros (_ & _ & _ & Hlen & Hall) Hi. apply lookup_lt_Some in Hi as Hlt. rewrite <- Hlen in Hlt.
  destruct (lookup_lt_is_Some_2 (shards_ e) i Hlt) as [sh Hs]. exists sh. split; [done|by apply Hall].
Qed.

Lemma tick_keys items x : x ∈ Lru.tick items -> Lru.i_key x ∈ Lru.i_key <$> items.
Proof.
  intros (y & Hy & Ha)%list_elem_of_omap. apply list_elem_of_fmap. exists y. split; [|done].
  unfold Lru.age in Ha. destruct (Lru.i_ttl y); [|by simplify_eq]. by destruct (_ <=? _); simplify_eq.
Qed.

Lemma shard_tick_holds cap n i sh items :
  shard_holds cap n i sh items ->
  wp CacheShard.tick sh (post
    (fun _ sh' => shard_holds cap n i sh' (Lru.tick items))
    (fun x sh' => x = bad_alloc /\ shard_holds cap n i sh' items)).
Proof.
  intros (Hl & Hh & Hr). apply with_lock_wp; [done|].
  eapply wp_mono; [by apply cache_tick_wp|]. intros [[]|x|] c'; simpl; [| |done].
  - intros [Hh' _]. split_and!; [done|done|]. apply Forall_forall. intros x Hx.
    apply tick_keys, list_elem_of_fmap in Hx as (y & -> & Hy). rewrite Forall_forall in Hr. by apply Hr.
  - intros (-> & _ & Hh'). by split_and!.
Qed.

Lemma tick_from_wp cap n i e done todo :
  engine_holds cap e (done ++ todo) -> i = length done -> n = length todo ->
  wp (tick_from i n) e (post
    (fun _ e' => engine_holds cap e' (done ++ (Lru.tick <$> todo)))
    (fun x e' => x = bad_alloc /\ exists j, (j <= n)%nat /\
      engine_holds cap e' (done ++ (Lru.tick <$> take j todo) ++ drop j todo))).
Proof.
  intros He -> ->. revert e done He. induction todo as [|items todo IH]; intros e dn He; simpl; [by apply wp_ret|].
  assert ((dn ++ items :: todo) !! length dn = Some items) as Hi by (by apply list_lookup_middle).
  destruct (engine_lookup _ _ _ _ _ He Hi) as (sh & Hs & Hh).
  assert (forall sh' items', shard_holds cap (zlen (dn ++ items :: todo)) (Z.of_nat (length dn)) sh' items' ->
    engine_holds cap (put_shard (length dn) sh' e) (dn ++ items' :: todo)) as Hput.
  { intros sh' items' Hsh'. pose proof (engine_insert _ _ _ _ _ _ He Hsh') as Hins.
    by rewrite insert_app_r_alt, Nat.sub_diag in Hins by lia. }
  apply wp_bind. eapply on_shard_wp; [exact Hs|].
  eapply wp_mono; [apply (shard_tick_holds _ _ _ _ _ Hh)|]. intros [[]|x|] sh'; simpl; [| |done].
  - intros Hsh'. specialize (Hput _ _ Hsh'). rewrite (cons_middle _ _ todo), app_assoc in Hput.
    specialize (IH _ (dn ++ [Lru.tick items]) Hput). rewrite length_app, Nat.add_comm in IH. simpl in IH.
    eapply wp_post_mono; [exact IH|..].
    + intros [] e'. simpl. by rewrite <- app_assoc.
    + intros x e' (-> & j & Hj & He'). split; [done|]. exists (S j). split; [lia|]. by rewrite <- app_assoc in He'.
  - intros (-> & Hsh'). split; [done|]. exists 0%nat. split; [lia|]. by apply Hput.
Qed.

(** ** Observers *)

Lemma observe_run {B} cap n i sh items (f : Cache.state -> B) :
  shard_holds cap n i sh items -> CacheShard.observe f sh = (Ret (f (CacheShard.contents sh)), sh).
Proof. intros [Hl _]. unfold CacheShard.observe, CacheShard.with_lock. rewrite Hl. by destruct sh; simpl in *; subst. Qed.

Lemma engine_all_hold cap e ls i sh :
  engine_holds cap e ls -> shards_ e !! i = Some sh ->
  exists items, ls !! i = Some items /\ shard_holds cap (zlen ls) (Z.of_nat i) sh items.
Proof.
  intros (_ & _ & _ & Hlen & Hall) Hi. apply lookup_lt_Some in Hi as Hlt. rewrite Hlen in Hlt.
  destruct (lookup_lt_is_Some_2 ls i Hlt) as [items Hs]. exists items. split; [done|by apply Hall].
Qed.

Lemma on_shard_observe {B} cap e ls i sh (f : Cache.state -> B) :
  engine_holds cap e ls -> shards_ e !! i = Some sh ->
  on_shard i (CacheShard.observe f) e = (Ret (f (CacheShard.contents sh)), e).
Proof.
  intros He Hi. destruct (engine_all_hold _ _ _ _ _ He Hi) as (items & _ & Hh).
  unfold on_shard. rewrite Hi, (observe_run _ _ _ _ _ f Hh), list_insert_id by done. by destruct e.
Qed.

Lemma accumulate_run {B} cap e ls (add : B -> B -> B) (f : Cache.state -> B) n i z :
  engine_holds cap e ls -> (i + n = length (shards_ e))%nat ->
  accumulate add (CacheShard.observe f) i n z e =
    (Ret (foldl add z ((fun sh => f (CacheShard.contents sh)) <$> drop i (shards_ e))), e).
Proof.
  intros He. revert i z. induction n as [|n IH]; intros i z Hn; simpl.
  - by rewrite drop_ge by lia.
  - destruct (lookup_lt_is_Some_2 (shards_ e) i ltac:(lia)) as [sh Hs].
    unfold bind. rewrite (on_shard_observe _ _ _ _ _ f He Hs), IH by lia. by rewrite (drop_S _ _ _ Hs).
Qed.

Lemma total_run {B} cap e ls (add : B -> B -> B) z (f : Cache.state -> B) :
  engine_holds cap e ls ->
  total add z (CacheShard.observe f) e =
    (Ret (foldl add z ((fun sh => f (CacheShard.contents sh)) <$> shards_ e)), e).
Proof.
  intros He. unfold total, bind, read. rewrite (accumulate_run _ _ _ _ _ _ _ _ He) by lia. done.
Qed.

Lemma zsum_id_fmap {T} (g : T -> Z) l : zsum id (g <$> l) = zsum g l.
Proof. induction l as [|x l IH]; csimpl; [done|]. by rewrite IH. Qed.

Lemma foldl_add_size l z : foldl add_size (u64 z) l = u64 (z + zsum id l).
Proof.
  revert z. induction l as [|x l IH]; intros z; simpl; [by rewrite Z.add_0_r|].
  unfold add_size at 2. rewrite u64_add_l, IH. f_equal. unfold id. lia.
Qed.

(** A sum over the shards is the sum over their items. *)
Lemma engine_zsum cap e ls (f : Cache.state -> Z) (g : list Lru.item -> Z) :
  engine_holds cap e ls ->
  (forall c s items, cache_holds c s items -> f s = g items) ->
  total add_size 0 (CacheShard.observe f) e = (Ret (u64 (zsum g ls)), e).
Proof.
  intros He Hfg. rewrite (total_run _ _ _ _ _ _ He). f_equal. f_equal.
  rewrite (foldl_add_size _ 0), Z.add_0_l. f_equal.
  assert ((fun sh => f (CacheShard.contents sh)) <$> shards_ e = g <$> ls) as ->.
  - destruct He as (_ & _ & _ & Hlen & Hall). apply list_eq. intros i. rewrite !list_lookup_fmap.
    destruct (shards_ e !! i) as [sh|] eqn:Hs; simpl.
    + apply lookup_lt_Some in Hs as Hlt. rewrite Hlen in Hlt.
      destruct (lookup_lt_is_Some_2 ls i Hlt) as [items Hi]. rewrite Hi. simpl. f_equal.
      destruct (Hall _ _ _ Hs Hi) as (_ & Hh & _). by eapply Hfg.
    + apply lookup_ge_None in Hs. rewrite Hlen in Hs. by rewrite (proj2 (lookup_ge_None ls i)).
  - apply zsum_id_fmap.
Qed.

(** ** The operations by key *)

(** The engine after an operation on the shard of [k] turned its items into
    [items'] and its cache record from [c] into [c']; other shards are untouched. *)
Definition shard_step (cap : Z) (k : bytes) (ls : list (list Lru.item)) (e e' : t)
    (P : Z -> list Lru.item -> list Lru.item -> Cache.t -> Cache.t -> Prop) : Prop :=
  exists items items' sh sh', let i := shard_index hash (zlen ls) k in
    ls !! i = Some items /\ shards_ e !! i = Some sh /\ shards_ e' !! i = Some sh' /\
    P (shard_capacity cap (zlen ls) (Z.of_nat i)) items items'
      (CacheShard.contents sh).1 (CacheShard.contents sh').1 /\
    engine_holds cap e' (<[i := items']> ls) /\ (forall j, j <> i -> shards_ e' !! j = shards_ e !! j).

Lemma engine_set_wp cap e ls k v ttl :
  engine_holds cap e ls -> ttl <= i64_max ->
  wp (set hash k v ttl) e (post
    (fun st e' => shard_step cap k ls e e' (fun c items items' s s' =>
       Lru.set c k v ttl items = (st, items') /\ counted 0 0 (evictions st k items items') 0 s s'))
    (fun x e' => shard_step cap k ls e e' (fun c items items' s s' =>
       cache_exn x /\ items' `prefix_of` items /\ (Lru.lookup k items <> None -> items' = items) /\
       counted 0 0 (zlen items - zlen items') 0 s s'))).
Proof.
  intros He Ht. unfold set, CacheShard.set.
  apply (shard_op_wp cap e ls k (Cache.set k v ttl)
    (fun c st items items' s s' =>
       Lru.set c k v ttl items = (st, items') /\ counted 0 0 (evictions st k items items') 0 s s')
    (fun c x items items' s s' =>
       cache_exn x /\ items' `prefix_of` items /\ (Lru.lookup k items <> None -> items' = items) /\
       counted 0 0 (zlen items - zlen items') 0 s s')); [done|].
  intros c s items Hh. eapply wp_post_mono; [by apply set_wp|..].
  - intros st s' (items' & Hs & Hh' & Hc). exists items'. split; [done|]. split; [done|].
    intros x Hx. by eapply set_keys.
  - intros x s' (Hx & items' & Hp & Hl & Hh' & Hc). exists items'. split; [done|]. split; [done|].
    intros y Hy. right. by eapply prefix_keys.
Qed.

Lemma engine_get_wp cap e ls k output :
  engine_holds cap e ls ->
  wp (get hash k output) e (post
    (fun r e' => shard_step cap k ls e e' (fun _ items items' s s' =>
       (exists ov, Lru.get k items = (r.1, ov, items') /\ r.2 = default output ov) /\
       counted (if decide (r.1 = ok) then 1 else 0) (if decide (r.1 = not_found) then 1 else 0) 0 0 s s'))
    (fun x e' => shard_step cap k ls e e' (fun _ items items' s s' =>
       x = bad_alloc /\ items' = items /\ s' = s))).
Proof.
  intros He. unfold get, CacheShard.get.
  apply (shard_op_wp cap e ls k (Cache.get k output)
    (fun _ r items items' s s' =>
       (exists ov, Lru.get k items = (r.1, ov, items') /\ r.2 = default output ov) /\
       counted (if decide (r.1 = ok) then 1 else 0) (if decide (r.1 = not_found) then 1 else 0) 0 0 s s')
    (fun _ x items items' s s' => x = bad_alloc /\ items' = items /\ s' = s)); [done|].
  intros c s items Hh. eapply wp_post_mono; [by apply get_wp|..].
  - intros r s' (ov & items' & Hg & Hr & Hh' & Hc). exists items'. split; [by eauto|]. split; [done|].
    intros x Hx. by eapply get_keys.
  - intros x s' (-> & Hh' & Hs). exists items. split; [done|]. split; [done|].
    intros y Hy. right. by apply list_elem_of_fmap_2.
Qed.

Lemma engine_erase_wp cap e ls k :
  engine_holds cap e ls ->
  wp (erase hash k) e (post
    (fun st e' => shard_step cap k ls e e' (fun _ items items' s s' =>
       Lru.erase k items = (st, items') /\ counted 0 0 0 0 s s'))
    (fun x e' => shard_step cap k ls e e' (fun _ items items' s s' =>
       x = bad_alloc /\ items' = items /\ s' = s))).
Proof.
  intros He. unfold erase, CacheShard.erase.
  apply (shard_op_wp cap e ls k (Cache.erase k)
    (fun _ st items items' s s' => Lru.erase k items = (st, items') /\ counted 0 0 0 0 s s')
    (fun _ x items items' s s' => x = bad_alloc /\ items' = items /\ s' = s)); [done|].
  intros c s items Hh. eapply wp_post_mono; [by apply erase_wp|..].
  - intros st s' (items' & Hs & Hh' & Hc). exists items'. split; [done|]. split; [done|].
    intros x Hx. by eapply erase_keys.
  - intros x s' (-> & Hh' & Hs). exists items. split; [done|]. split; [done|].
    intros y Hy. right. by apply list_elem_of_fmap_2.
Qed.

(** ** Construction *)

Lemma init_shard_holds cap n i backend fs :
  0 <= cap < 2 ^ 64 -> 0 < n -> 0 <= i ->
  shard_holds cap n i (CacheShard.init (shard_capacity cap n i) backend fs) [].
Proof.
  intros Hc Hn Hi. split_and!; [done| |by constructor]. apply init_holds.
  - by apply shard_capacity_range.
  - exists ∅. split; [apply make_value_allocator_owns|]. by rewrite map_to_list_empty.
Qed.

Lemma make_shards_wp cap n backend schedule k i e :
  wp (make_shards cap n backend schedule i k) e (post
    (fun shards _ => shards = (fun j => CacheShard.init (shard_capacity cap n j) backend (schedule j)) <$> seqZ i (Z.of_nat k))
    (fun x _ => x = bad_alloc)).
Proof.
  revert i e. induction k as [|k IH]; intros i e; simpl; [by apply wp_ret|].
  apply wp_bind, wp_may_alloc; intros fs; [|done].
  eapply wp_bind_post; [apply IH|..]; [|done]. intros rest e' ->. apply wp_ret. simpl.
  rewrite (seqZ_cons i (Z.of_nat (S k))) by lia. csimpl. do 3 f_equal; lia.
Qed.

Lemma create_engine_wp cap n backend schedule e :
  0 <= cap < 2 ^ 64 -> 0 < n ->
  wp (create cap n backend schedule) e (post
    (fun eng _ => engine_holds cap eng (replicate (Z.to_nat n) []) /\ shard_count eng = n /\
       allocator_backend eng = backend)
    (fun x _ => x = bad_alloc)).
Proof.
  intros Hc Hn. unfold create. rewrite (proj2 (Z.eqb_neq n 0)) by lia.
  apply wp_bind, wp_may_alloc; intros fs; [|done].
  eapply wp_bind_post; [apply make_shards_wp|..]; [|done].
  intros shards e' ->. apply wp_ret. simpl. split_and!; [|unfold shard_count; simpl; rewrite length_fmap, length_seqZ; lia|done].
  split_and!; simpl; [done|lia|lia| |by rewrite length_fmap, length_seqZ, length_replicate; lia|].
  - destruct (Z.to_nat n) eqn:E; [lia|done].
  - intros i sh items Hs Hi. apply lookup_replicate in Hi as [-> Hi].
    rewrite list_lookup_fmap in Hs. apply fmap_Some in Hs as (j & Hj & ->).
    apply lookup_seqZ in Hj as [-> Hj]. rewrite length_replicate, Z2Nat.id, Z.add_0_l by lia.
    apply init_shard_holds; lia.
Qed.

(** The usage of the whole engine. *)
Lemma engine_usage_le cap e ls :
  engine_holds cap e ls -> 0 <= zsum Lru.usage ls <= cap.
Proof.
  intros He. pose proof He as (_ & Hc & Hne & Hlen & Hall). split; [apply zsum_nonneg; intros; apply usage_nonneg|].
  assert (0 < zlen ls) as Hn by (destruct ls; simpl; [done|lia]).
  assert (forall k l, k ++ l = ls -> zsum Lru.usage l <= zsum id (shares cap (zlen ls) (zlen k) (length l))) as Hle.
  { intros k l. revert k. induction l as [|items l IH]; intros k Hk; simpl; [lia|].
    specialize (IH (k ++ [items])). rewrite <- app_assoc, length_app in IH. simpl in IH. specialize (IH Hk).
    replace (Z.of_nat (length k + 1)) with (zlen k + 1) in IH by lia.
    assert (ls !! length k = Some items) as Hi by (rewrite <- Hk; by apply list_lookup_middle).
    destruct (engine_lookup _ _ _ _ _ He Hi) as (sh & _ & _ & Hh & _).
    apply cache_holds_usage in Hh as [_ Hu]. unfold id in *. lia. }
  specialize (Hle [] ls eq_refl). simpl in Hle. rewrite zsum_shares in Hle by lia.
  pose proof (Z.div_mod cap (zlen ls) ltac:(lia)). pose proof (Z.mod_pos_bound cap (zlen ls) Hn). lia.
Qed.

Lemma empty_from_run cap e ls n i :
  engine_holds cap e ls -> (i + n = length ls)%nat ->
  empty_from i n e = (Ret (bool_decide (Forall (fun items => items = []) (drop i ls))), e).
Proof.
  intros He. revert i. induction n as [|n IH]; intros i Hn; simpl.
  - by rewrite drop_ge by lia.
  - destruct (lookup_lt_is_Some_2 ls i ltac:(lia)) as [items Hi].
    destruct (engine_lookup _ _ _ _ _ He Hi) as (sh & Hs & _ & Hh & _).
    unfold bind, CacheShard.empty. rewrite (on_shard_observe _ _ _ _ _ (fun s => Cache.empty s.1) He Hs).
    rewrite (cache_holds_empty _ _ _ Hh), (drop_S _ _ _ Hi).
    destruct (bool_decide (items = [])) eqn:Hb; zsimp.
    + rewrite IH by lia. do 2 f_equal. apply bool_decide_ext. rewrite Forall_cons. tauto.
    + rewrite bool_decide_eq_false_2; [done|]. rewrite Forall_cons. tauto.
Qed.

End engine_facts.

(** ** Destruction *)

(** Nothing is left on the heap of a shard. *)
Definition shard_freed (sh : CacheShard.t) : Prop :=
  heap_bytes (mem (CacheShard.contents sh).2.2) = 0.

Lemma shard_destroy_wp cap n i sh items hash :
  shard_holds hash cap n i sh items ->
  wp CacheShard.destroy sh (post (fun _ sh' => shard_freed sh') (fun _ _ => False)).
Proof.
  intros (Hl & Hh & _). apply with_lock_wp; [done|]. apply wp_bind.
  eapply wp_mono; [by eapply destroy_all_wp|]. intros [[]|x|] [c [a [m fs]]]; [|done..].
  intros (L & Ho & HL). cbn [fst snd mem] in *. apply Permutation_nil_r, map_to_list_empty_iff in HL. subst L.
  apply wp_on_snd. eapply wp_mono; [by apply destroy_spec|]. by intros [[]|x|] s'.
Qed.

Lemma destroy_from_wp n i e :
  (forall j, (i <= j < i + n)%nat -> exists sh, shards_ e !! j = Some sh /\
     wp CacheShard.destroy sh (post (fun _ sh' => shard_freed sh') (fun _ _ => False))) ->
  wp (destroy_from i n) e (post
    (fun _ e' => length (shards_ e') = length (shards_ e) /\
       (forall j, (j < i)%nat -> shards_ e' !! j = shards_ e !! j) /\
       forall j sh, (i <= j < i + n)%nat -> shards_ e' !! j = Some sh -> shard_freed sh)
    (fun _ _ => False)).
Proof.
  revert i e. induction n as [|n IH]; intros i e Hall; cbn [destroy_from].
  { apply wp_ret. split_and!; [done|done|lia]. }
  destruct (Hall i ltac:(lia)) as (sh & Hi & Hsh). apply wp_bind. eapply on_shard_wp; [exact Hi|].
  eapply wp_mono; [exact Hsh|]. intros [[]|x|] sh' Hf; [|done|done]. cbn beta iota.
  eapply wp_post_mono; [apply IH| |done].
  - intros j Hj. cbn [shards_]. rewrite list_lookup_insert_ne by lia. apply Hall. lia.
  - intros [] e' (H1 & H2 & H3). cbn [shards_] in *. rewrite length_insert in H1. split_and!; [done|..].
    + intros j Hj. rewrite H2 by lia. by rewrite list_lookup_insert_ne by lia.
    + intros j sh1 Hj Hl. destruct (decide (j = i)) as [->|Hne]; [|apply (H3 j sh1); [lia|done]].
      rewrite H2, list_lookup_insert_eq in Hl by (try lia; by eapply lookup_lt_Some). by injection Hl as <-.
Qed.

Lemma engine_destroy_wp hash cap e ls :
  engine_holds hash cap e ls ->
  wp destroy e (post (fun _ e' => Forall shard_freed (shards_ e')) (fun _ _ => False)).
Proof.
  intros He. unfold destroy. apply wp_bind, wp_read. cbn beta iota.
  eapply wp_post_mono; [apply (destroy_from_wp _ 0)| |done].
  - intros j Hj. destruct (lookup_lt_is_Some_2 (shards_ e) j ltac:(lia)) as [sh Hsh]. exists sh. split; [done|].
    destruct (engine_all_hold hash cap e ls j sh He Hsh) as (items & _ & Hh). by eapply shard_destroy_wp.
  - intros [] e' (H1 & _ & H2). apply Forall_lookup. intros j sh Hj. apply (H2 j sh); [|done].
    apply lookup_lt_Some in Hj. lia.
Qed.
