(* ===== verification/ConcurrentModel.v ===== *)
(** * Threads that share the engine ([cache/cache_shard.cpp], [cache/cache_engine.cpp])

    The workers call [set], [get] and [erase] on the one engine while the acceptor
    calls [tick], and every method of a shard starts with
    [const std::lock_guard lock(mutex_)]. Here any number of threads make any calls,
    one after the other each, and the steps of all of them interleave: taking the
    mutex of a shard, each access to the contents of the shard, releasing the mutex,
    going on to the next shard, returning. How the body of a critical section is cut
    into accesses is left open ([program]). *)
From S2P Require Import Prelude ErrorModel Effects MemoryModel AllocatorModel.
From S2P Require Import ValueAllocatorModel CacheModel CacheShardModel CacheEngineModel.
Import Memory.

Module Concurrent.

(** ** The calls of the interface of the engine *)

Inductive call :=
| c_set (key value : bytes) (ttl : Z)
| c_get (key output : bytes)
| c_erase (key : bytes)
| c_tick
| c_size
| c_memory_usage_bytes
| c_hit_count
| c_miss_count
| c_eviction_count
| c_expired_count
| c_allocator_metrics
| c_empty.

Inductive answer :=
| a_status (st : CacheStatus)
| a_found (st : CacheStatus) (output : bytes)
| a_nothing                                   (** [void] *)
| a_number (n : Z)
| a_metrics (m : ValueAllocatorMetrics)
| a_flag (b : bool).

(** The result of an operation as an answer. *)
Definition as_answer {S B} (f : B -> answer) (m : M S B) : M S answer := b <- m ;; ret (f b).

(** What a call does in one shard: the method of [CacheShard] ... *)
Definition visit (c : call) : M CacheShard.t answer :=
  match c with
  | c_set key value ttl => as_answer a_status (CacheShard.set key value ttl)
  | c_get key output => as_answer (fun r => a_found r.1 r.2) (CacheShard.get key output)
  | c_erase key => as_answer a_status (CacheShard.erase key)
  | c_tick => as_answer (fun _ => a_nothing) CacheShard.tick
  | c_size => as_answer a_number CacheShard.size
  | c_memory_usage_bytes => as_answer a_number CacheShard.memory_usage_bytes
  | c_hit_count => as_answer a_number CacheShard.hit_count
  | c_miss_count => as_answer a_number CacheShard.miss_count
  | c_eviction_count => as_answer a_number CacheShard.eviction_count
  | c_expired_count => as_answer a_number CacheShard.expired_count
  | c_allocator_metrics => as_answer a_metrics CacheShard.allocator_metrics
  | c_empty => as_answer a_flag CacheShard.empty
  end.

(** ... and what that method does while it holds the mutex. *)
Definition observed (f : Cache.state (A := AnyAllocator.t) -> answer) : M Cache.state answer :=
  s <- read ;; ret (f s).

Definition critical (c : call) : M (Cache.state (A := AnyAllocator.t)) answer :=
  match c with
  | c_set key value ttl => as_answer a_status (Cache.set key value ttl)
  | c_get key output => as_answer (fun r => a_found r.1 r.2) (Cache.get key output)
  | c_erase key => as_answer a_status (Cache.erase key)
  | c_tick => as_answer (fun _ => a_nothing) Cache.tick
  | c_size => observed (fun s => a_number (Cache.size s.1))
  | c_memory_usage_bytes => observed (fun s => a_number (Cache.memory_usage_bytes s.1))
  | c_hit_count => observed (fun s => a_number (Cache.hit_count s.1))
  | c_miss_count => observed (fun s => a_number (Cache.miss_count s.1))
  | c_eviction_count => observed (fun s => a_number (Cache.eviction_count s.1))
  | c_expired_count => observed (fun s => a_number (Cache.expired_count s.1))
  | c_allocator_metrics => observed (fun s => a_metrics (Cache.allocator_metrics s))
  | c_empty => observed (fun s => a_flag (Cache.empty s.1))
  end.

(** ** From shard to shard *)

(** Where a call stands after a shard has answered. *)
Inductive progress :=
| go_on (index : nat) (total : answer)       (** the next shard of the loop *)
| finished (o : outcome answer).

(** [total += x]. *)
Definition add_answer (total x : answer) : answer :=
  match total, x with
  | a_number t, a_number n => a_number (CacheEngine.add_size t n)
  | a_metrics t, a_metrics n => a_metrics (CacheEngine.add_metrics t n)
  | _, _ => total
  end.

(** [total] before the loop; [empty] returns [true] after it. *)
Definition zero (c : call) : answer :=
  match c with
  | c_set _ _ _ | c_get _ _ | c_erase _ | c_tick => a_nothing
  | c_allocator_metrics => a_metrics zero_metrics
  | c_empty => a_flag true
  | _ => a_number 0
  end.

(** Whether the call concerns one shard, that of its key. *)
Definition keyed_by (c : call) : option bytes :=
  match c with
  | c_set key _ _ | c_get key _ | c_erase key => Some key
  | _ => None
  end.

Definition advance (shard_count index : nat) (total : answer) : progress :=
  if decide (S index < shard_count)%nat then go_on (S index) total else finished (Ret total).

(** After shard [index] of [shard_count] gave [o]: a call with a key is over, and so
    is one that met an exception, or [empty] at a shard with items; else the loop
    goes on. *)
Definition after (shard_count : nat) (c : call) (index : nat) (total : answer)
    (o : outcome answer) : progress :=
  match keyed_by c, o with
  | None, Ret (a_flag false) => finished (Ret (a_flag false))
  | None, Ret x => advance shard_count index (add_answer total x)
  | _, _ => finished o
  end.

Section shards.
Variable hash : bytes -> Z.

(** The shard a call enters first. *)
Definition first_shard (shard_count : nat) (c : call) : nat :=
  match keyed_by c with
  | Some key => CacheEngine.shard_index hash (Z.of_nat shard_count) key
  | None => 0
  end.

(** The call on the engine, by itself. *)
Definition run_call (c : call) : M CacheEngine.t answer :=
  match c with
  | c_set key value ttl => as_answer a_status (CacheEngine.set hash key value ttl)
  | c_get key output => as_answer (fun r => a_found r.1 r.2) (CacheEngine.get hash key output)
  | c_erase key => as_answer a_status (CacheEngine.erase hash key)
  | c_tick => as_answer (fun _ => a_nothing) CacheEngine.tick
  | c_size => as_answer a_number CacheEngine.size
  | c_memory_usage_bytes => as_answer a_number CacheEngine.memory_usage_bytes
  | c_hit_count => as_answer a_number CacheEngine.hit_count
  | c_miss_count => as_answer a_number CacheEngine.miss_count
  | c_eviction_count => as_answer a_number CacheEngine.eviction_count
  | c_expired_count => as_answer a_number CacheEngine.expired_count
  | c_allocator_metrics => as_answer a_metrics CacheEngine.allocator_metrics
  | c_empty => as_answer a_flag CacheEngine.empty
  end.
End shards.

(** ** Critical sections *)

(** A body as a tree of accesses: each changes the state and chooses what follows
    from what it saw. *)
Inductive program (S B : Type) :=
| Finish (o : outcome B)
| Access (change : S -> S) (next : S -> program S B).
Arguments Finish {S B} o.
Arguments Access {S B} change next.

(** Run without interference. *)
Fixpoint run_program {S B} (p : program S B) (s : S) : outcome B * S :=
  match p with
  | Finish o => (o, s)
  | Access change next => run_program (next s) (change s)
  end.

(** The whole body as one access. *)
Definition one_access {S B} (m : M S B) : program S B :=
  Access (fun s => (m s).2) (fun s => Finish (m s).1).

(** ** Threads *)

Inductive pc :=
| idle
| at_lock (c : call) (index : nat) (total : answer)       (** [mutex_.lock()] *)
| inside (c : call) (index : nat) (total : answer)
    (p : program (Cache.state (A := AnyAllocator.t)) answer)
| returning (c : call) (o : outcome answer).

(** What can be observed: calls and returns, and the moments a critical section of
    a call ends with its result. *)
Inductive event :=
| ev_call (thread : nat) (c : call)
| ev_point (thread : nat) (c : call) (index : nat) (o : outcome answer)
| ev_return (thread : nat) (c : call) (o : outcome answer).

Definition ev_thread (ev : event) : nat :=
  match ev with ev_call j _ | ev_point j _ _ _ | ev_return j _ _ => j end.

Record t := MkConcurrent {
  engine : CacheEngine.t;
  threads : list pc;
  history : list event
}.

Definition shard_count (s : t) : nat := length (CacheEngine.shards_ (engine s)).

Definition put_shard (index : nat) (sh : CacheShard.t) (e : CacheEngine.t) : CacheEngine.t :=
  CacheEngine.MkCacheEngine (CacheEngine.capacity_bytes_ e) (CacheEngine.allocator_backend_ e)
    (<[index := sh]> (CacheEngine.shards_ e)).

Definition pc_of (c : call) (p : progress) : pc :=
  match p with
  | go_on index total => at_lock c index total
  | finished o => returning c o
  end.

Definition init (e : CacheEngine.t) (n : nat) : t := MkConcurrent e (replicate n idle) [].

Section steps.
Variable hash : bytes -> Z.
(** How the body of each critical section is cut into accesses. *)
Variable code : call -> program (Cache.state (A := AnyAllocator.t)) answer.

(** A step of a call that has begun, by thread [j]. *)
Inductive inner_step (j : nat) : t -> t -> Prop :=
| step_lock e ths h c index total contents :
    ths !! j = Some (at_lock c index total) ->
    CacheEngine.shards_ e !! index = Some (CacheShard.MkCacheShard false contents) ->
    inner_step j (MkConcurrent e ths h)
      (MkConcurrent (put_shard index (CacheShard.MkCacheShard true contents) e)
         (<[j := inside c index total (code c)]> ths) h)
| step_access e ths h c index total change next b contents :
    ths !! j = Some (inside c index total (Access change next)) ->
    CacheEngine.shards_ e !! index = Some (CacheShard.MkCacheShard b contents) ->
    inner_step j (MkConcurrent e ths h)
      (MkConcurrent (put_shard index (CacheShard.MkCacheShard b (change contents)) e)
         (<[j := inside c index total (next contents)]> ths) h)
| step_unlock e ths h c index total o b contents :
    ths !! j = Some (inside c index total (Finish o)) ->
    CacheEngine.shards_ e !! index = Some (CacheShard.MkCacheShard b contents) ->
    inner_step j (MkConcurrent e ths h)
      (MkConcurrent (put_shard index (CacheShard.MkCacheShard false contents) e)
         (<[j := pc_of c (after (length (CacheEngine.shards_ e)) c index total o)]> ths)
         (h ++ [ev_point j c index o]))
| step_return e ths h c o :
    ths !! j = Some (returning c o) ->
    inner_step j (MkConcurrent e ths h)
      (MkConcurrent e (<[j := idle]> ths) (h ++ [ev_return j c o])).

(** A step of the system: a thread makes a call, or goes on with its call. *)
Inductive step : t -> t -> Prop :=
| step_call j e ths h c :
    ths !! j = Some idle ->
    step (MkConcurrent e ths h)
      (MkConcurrent e
         (<[j := at_lock c (first_shard hash (length (CacheEngine.shards_ e)) c) (zero c)]> ths)
         (h ++ [ev_call j c]))
| step_inner j s s' : inner_step j s s' -> step s s'.

Inductive reachable (s0 : t) : t -> Prop :=
| reachable_start : reachable s0 s0
| reachable_next s s' : reachable s0 s -> step s s' -> reachable s0 s'.

(** Without new calls. *)
Definition internal (s s' : t) : Prop := exists j, inner_step j s s'.

(** The same steps as a function: a schedule says which thread calls what, or goes on. *)
Inductive action := act_call (thread : nat) (c : call) | act_go (thread : nat).

Definition act (a : action) (s : t) : option t :=
  let '(MkConcurrent e ths h) := s in
  match a with
  | act_call j c =>
      match ths !! j with
      | Some idle =>
          Some (MkConcurrent e
            (<[j := at_lock c (first_shard hash (length (CacheEngine.shards_ e)) c) (zero c)]> ths)
            (h ++ [ev_call j c]))
      | _ => None
      end
  | act_go j =>
      match ths !! j with
      | Some (at_lock c index total) =>
          match CacheEngine.shards_ e !! index with
          | Some (CacheShard.MkCacheShard false contents) =>
              Some (MkConcurrent (put_shard index (CacheShard.MkCacheShard true contents) e)
                (<[j := inside c index total (code c)]> ths) h)
          | _ => None
          end
      | Some (inside c index total p) =>
          match CacheEngine.shards_ e !! index with
          | Some (CacheShard.MkCacheShard b contents) =>
              match p with
              | Access change next =>
                  Some (MkConcurrent (put_shard index (CacheShard.MkCacheShard b (change contents)) e)
                    (<[j := inside c index total (next contents)]> ths) h)
              | Finish o =>
                  Some (MkConcurrent (put_shard index (CacheShard.MkCacheShard false contents) e)
                    (<[j := pc_of c (after (length (CacheEngine.shards_ e)) c index total o)]> ths)
                    (h ++ [ev_point j c index o]))
              end
          | None => None
          end
      | Some (returning c o) => Some (MkConcurrent e (<[j := idle]> ths) (h ++ [ev_return j c o]))
      | _ => None
      end
  end.

Fixpoint execute (schedule : list action) (s : t) : option t :=
  match schedule with
  | [] => Some s
  | a :: schedule => match act a s with Some s' => execute schedule s' | None => None end
  end.
End steps.

(** ** Histories *)

(** The operations on shards, in the order in which their critical sections end. *)
Definition point_of (ev : event) : option (call * nat * outcome answer) :=
  match ev with ev_point _ c index o => Some (c, index, o) | _ => None end.

Definition points (h : list event) : list (call * nat * outcome answer) := omap point_of h.

(** Running them one after the other on an engine: each gives the result recorded. *)
Fixpoint replays (e : CacheEngine.t) (l : list (call * nat * outcome answer)) (e' : CacheEngine.t) : Prop :=
  match l with
  | [] => e' = e
  | (c, index, o) :: l => exists e1, CacheEngine.on_shard index (visit c) e = (o, e1) /\ replays e1 l e'
  end.

(** The events of one thread. *)
Definition of_thread (j : nat) (h : list event) : list event :=
  filter (fun ev => ev_thread ev = j) h.

(** The answer of a call whose visits gave [visits], in order, from shard [index]
    with [total] on; [None] when it has not answered yet or cannot have made them. *)
Fixpoint conclude (n : nat) (c : call) (index : nat) (total : answer)
    (visits : list (nat * outcome answer)) : option (outcome answer) :=
  match visits with
  | [] => None
  | (index', o) :: visits =>
      if decide (index' = index) then
        match after n c index total o with
        | finished r => match visits with [] => Some r | _ => None end
        | go_on index' total' => conclude n c index' total' visits
        end
      else None
  end.

(** A call and return of thread [j] with the points between them. *)
Definition point (j : nat) (c : call) (v : nat * outcome answer) : event := ev_point j c v.1 v.2.

End Concurrent.
