(* ===== verification/ConcurrentFacts.v ===== *)
(** * The threads on the engine: mutual exclusion and the order of the points

    Three invariants of the interleaved calls: who holds which mutex ([owns]), what the
    engine is compared with the sequential run of the critical sections that have ended
    ([agrees]), and what each thread has done ([traced], [returned]). *)
From S2P Require Import Prelude ErrorModel Effects MemoryModel AllocatorModel.
From S2P Require Import ValueAllocatorModel CacheModel CacheShardModel CacheEngineModel ConcurrentModel.
Import Memory Concurrent.

(** ** A call without interference *)

Lemma visit_run c contents :
  visit c (CacheShard.MkCacheShard false contents) =
  ((critical c contents).1, CacheShard.MkCacheShard false (critical c contents).2).
Proof.
  destruct c; unfold visit, critical, as_answer, bind; try reflexivity;
    unfold CacheShard.set, CacheShard.get, CacheShard.erase, CacheShard.tick, CacheShard.with_lock;
    cbn [CacheShard.mutex_ CacheShard.contents].
  - by destruct (Cache.set _ _ _ _) as [[] ?].
  - by destruct (Cache.get _ _ _) as [[] ?].
  - by destruct (Cache.erase _ _) as [[] ?].
  - by destruct (Cache.tick _) as [[] ?].
Qed.

Section calls.
Variable hash : bytes -> Z.

Lemma on_shard_answer {B} (f : B -> answer) i (m : M CacheShard.t B) e :
  CacheEngine.on_shard i (as_answer f m) e = as_answer f (CacheEngine.on_shard i m) e.
Proof.
  unfold CacheEngine.on_shard, as_answer, bind. destruct (_ !! i) as [sh|]; [|done].
  by destruct (m sh) as [[] ?].
Qed.

(** The visits of a call, one shard after the other. *)
Fixpoint drive (fuel : nat) (c : call) (index : nat) (total : answer) : M CacheEngine.t answer := fun e =>
  match fuel with
  | O => (Undefined, e)
  | S fuel =>
      let '(o, e') := CacheEngine.on_shard index (visit c) e in
      match after (length (CacheEngine.shards_ e)) c index total o with
      | finished r => (r, e')
      | go_on index' total' => drive fuel c index' total' e'
      end
  end.

Lemma on_shard_length {B} i (m : M CacheShard.t B) e o e' :
  CacheEngine.on_shard i m e = (o, e') -> length (CacheEngine.shards_ e') = length (CacheEngine.shards_ e).
Proof.
  unfold CacheEngine.on_shard. destruct (_ !! i); [|by intros [= _ <-]].
  destruct (m _). intros [= _ <-]. simpl. by rewrite length_insert.
Qed.

Lemma drive_keyed fuel c index total e :
  is_Some (keyed_by c) -> drive (S fuel) c index total e = CacheEngine.on_shard index (visit c) e.
Proof.
  intros [k Hk]. simpl. destruct (CacheEngine.on_shard _ _ e) as [o e'].
  unfold after. rewrite Hk. by destruct o.
Qed.

Lemma after_loop n c index total x :
  keyed_by c = None -> x <> a_flag false ->
  after n c index total (Ret x) = advance n index (add_answer total x).
Proof. intros Hk Hx. unfold after. rewrite Hk. by destruct x as [| | | | |[]]. Qed.

Lemma after_fault n c index total (o : outcome answer) :
  (forall x, o <> Ret x) -> after n c index total o = finished o.
Proof. intros Ho. unfold after. destruct (keyed_by c), o; naive_solver. Qed.

(** The loops of the engine. *)
Lemma drive_tick n index e total :
  (index + S n = length (CacheEngine.shards_ e))%nat ->
  drive (S n) c_tick index total e = as_answer (fun _ => total) (CacheEngine.tick_from index (S n)) e.
Proof.
  revert index e. induction n as [|n IH]; intros index e Hn.
  - simpl drive. simpl visit. rewrite on_shard_answer. unfold as_answer, bind. simpl.
    unfold bind. destruct (CacheEngine.on_shard _ _ e) as [[[]|x|] e'] eqn:E; [|done|done].
    unfold after, advance. simpl. rewrite decide_False by lia. by destruct total.
  - remember (S n) as n'. simpl drive. simpl visit. rewrite on_shard_answer. unfold as_answer, bind. simpl.
    unfold bind. destruct (CacheEngine.on_shard _ _ e) as [[[]|x|] e'] eqn:E; [|done|done].
    apply on_shard_length in E as Hl. unfold after, advance. simpl. rewrite decide_True by lia.
    subst n'. replace (add_answer total a_nothing) with total by (by destruct total).
    rewrite IH by lia. unfold as_answer, bind. simpl. done.
Qed.

Lemma drive_accumulate {B} (f : B -> answer) add c (m : M CacheShard.t B) n index e total :
  visit c = as_answer f m -> keyed_by c = None ->
  (forall x y, add_answer (f x) (f y) = f (add x y)) -> (forall x, f x <> a_flag false) ->
  (index + S n = length (CacheEngine.shards_ e))%nat ->
  drive (S n) c index (f total) e = as_answer f (CacheEngine.accumulate add m index (S n) total) e.
Proof.
  intros Hv Hk Hadd Hf. revert index e total. induction n as [|n IH]; intros index e total Hn.
  - simpl. rewrite Hv, on_shard_answer. unfold as_answer, bind. simpl.
    destruct (CacheEngine.on_shard _ _ e) as [[x|x|] e'] eqn:E; [|by rewrite after_fault..].
    unfold ret. rewrite after_loop, Hadd by done. unfold advance. by rewrite decide_False by lia.
  - remember (S n) as n'. simpl. rewrite Hv, on_shard_answer. unfold as_answer, bind. simpl.
    destruct (CacheEngine.on_shard _ _ e) as [[x|x|] e'] eqn:E; [|by rewrite after_fault..].
    apply on_shard_length in E as Hl. subst n'. unfold ret at 1. rewrite after_loop, Hadd by done.
    unfold advance. rewrite decide_True by lia. by rewrite IH by lia.
Qed.

Lemma drive_empty n index e :
  (index + S n = length (CacheEngine.shards_ e))%nat ->
  drive (S n) c_empty index (a_flag true) e = as_answer a_flag (CacheEngine.empty_from index (S n)) e.
Proof.
  revert index e. induction n as [|n IH]; intros index e Hn.
  - simpl drive. simpl visit. rewrite on_shard_answer. unfold as_answer, bind. simpl.
    unfold bind. destruct (CacheEngine.on_shard _ _ e) as [[[]|x|] e'] eqn:E; [|done|done|done].
    unfold after, advance. simpl. by rewrite decide_False by lia.
  - remember (S n) as n'. simpl drive. simpl visit. rewrite on_shard_answer. unfold as_answer, bind. simpl.
    unfold bind. destruct (CacheEngine.on_shard _ _ e) as [[[]|x|] e'] eqn:E; [|done|done|done].
    apply on_shard_length in E as Hl. unfold after, advance. simpl. rewrite decide_True by lia.
    subst n'. by rewrite IH by lia.
Qed.

(** A call by itself is its visits. *)
Lemma run_call_drive c e :
  CacheEngine.shards_ e <> [] ->
  run_call hash c e =
  drive (length (CacheEngine.shards_ e)) c (first_shard hash (length (CacheEngine.shards_ e)) c) (zero c) e.
Proof.
  intros Hne. destruct (length (CacheEngine.shards_ e)) as [|n] eqn:Hlen; [by destruct (CacheEngine.shards_ e)|].
  unfold first_shard. rewrite <- Hlen.
  destruct c; cbn [keyed_by zero]; rewrite Hlen;
    first [rewrite drive_keyed by done; simpl visit; rewrite on_shard_answer; cbn [run_call];
           unfold CacheEngine.set, CacheEngine.get, CacheEngine.erase, CacheEngine.shard_for, as_answer, bind;
           simpl; by rewrite Hlen | idtac];
    try (match goal with |- context [drive _ ?c _ _ _] =>
           rewrite (drive_accumulate a_number CacheEngine.add_size c _ n 0 e 0 eq_refl eq_refl) by (done || lia)
         end;
         cbn [run_call]; unfold CacheEngine.size, CacheEngine.memory_usage_bytes, CacheEngine.hit_count,
           CacheEngine.miss_count, CacheEngine.eviction_count, CacheEngine.expired_count,
           CacheEngine.total, as_answer, bind, read; cbn beta iota; by rewrite Hlen).
  - rewrite drive_tick by lia. unfold run_call, as_answer, CacheEngine.tick, bind. unfold read. cbn beta iota.
    by rewrite Hlen.
  - rewrite (drive_accumulate a_metrics CacheEngine.add_metrics c_allocator_metrics _ n 0 e _ eq_refl eq_refl) by (done || lia).
    unfold run_call, as_answer, bind, CacheEngine.allocator_metrics, CacheEngine.total, bind, read.
    cbn beta iota. by rewrite Hlen.
  - rewrite drive_empty by lia. unfold run_call, as_answer, CacheEngine.empty, bind. unfold read. cbn beta iota.
    by rewrite Hlen.
Qed.

(** ** Visits and answers *)

Lemma conclude_step n c index total o visits :
  conclude n c index total ((index, o) :: visits) =
  match after n c index total o with
  | finished r => match visits with [] => Some r | _ => None end
  | go_on index' total' => conclude n c index' total' visits
  end.
Proof. simpl. by rewrite decide_True. Qed.

Lemma after_next n c index total o index' total' :
  after n c index total o = go_on index' total' ->
  keyed_by c = None /\ index' = S index /\ (S index < n)%nat.
Proof.
  unfold after, advance. destruct (keyed_by c), o as [[| | | | |[]]|x|]; try done; by case_decide; intros [= <- _].
Qed.

Lemma conclude_length n c index total visits o :
  conclude n c index total visits = Some o -> (length visits <= Nat.max 1 (n - index))%nat.
Proof.
  revert index total. induction visits as [|[i o'] visits IH]; intros index total; [done|]. simpl.
  destruct (decide (i = index)) as [->|]; [|done]. destruct (after _ _ _ _ _) as [i' t'|r] eqn:E.
  - apply after_next in E as (_ & -> & Hn). intros H%IH. lia.
  - destruct visits; [simpl; lia|done].
Qed.

Definition visited (c : call) (v : nat * outcome answer) : call * nat * outcome answer := (c, v.1, v.2).

(** Visits with nothing between them are the call on the engine. *)
Lemma drive_conclude fuel c index total visits o e e' :
  conclude (length (CacheEngine.shards_ e)) c index total visits = Some o ->
  (length visits <= fuel)%nat -> replays e (visited c <$> visits) e' ->
  drive fuel c index total e = (o, e').
Proof.
  revert fuel index total e. induction visits as [|[i o'] visits IH]; intros fuel index total e; [done|].
  simpl. destruct (decide (i = index)) as [->|]; [|done].
  destruct fuel as [|fuel]; [lia|]. intros Hc Hf (e1 & Ho & Hr). simpl in Ho, Hr. simpl. rewrite Ho.
  apply on_shard_length in Ho as Hl. destruct (after _ _ _ _ _) as [i' t'|r].
  - apply IH; [by rewrite Hl|lia|done].
  - destruct visits; [|done]. injection Hc as <-. simpl in Hr. by subst.
Qed.

Lemma run_call_conclude c visits o e e' :
  let n := length (CacheEngine.shards_ e) in
  CacheEngine.shards_ e <> [] ->
  conclude n c (first_shard hash n c) (zero c) visits = Some o ->
  replays e (visited c <$> visits) e' -> run_call hash c e = (o, e').
Proof.
  intros n Hne Hc Hr. rewrite run_call_drive by done. eapply drive_conclude; [done| |done].
  apply conclude_length in Hc. assert (n <> 0%nat) by (unfold n; by destruct (CacheEngine.shards_ e)).
  fold n. lia.
Qed.

(** A call with a key makes one visit, to the shard of the key. *)
Lemma conclude_keyed n c visits o :
  is_Some (keyed_by c) -> conclude n c (first_shard hash n c) (zero c) visits = Some o ->
  visits = [(first_shard hash n c, o)].
Proof.
  intros [k Hk]. destruct visits as [|[i o'] visits]; [done|]. simpl.
  destruct (decide (i = _)) as [->|]; [|done]. unfold after. rewrite Hk.
  by destruct o', visits; intros [= <-].
Qed.

Lemma run_call_keyed c e :
  is_Some (keyed_by c) -> CacheEngine.shards_ e <> [] ->
  CacheEngine.on_shard (first_shard hash (length (CacheEngine.shards_ e)) c) (visit c) e = run_call hash c e.
Proof.
  intros Hk Hne. rewrite run_call_drive by done.
  destruct (length (CacheEngine.shards_ e)) eqn:Hl; [by destruct (CacheEngine.shards_ e)|]. by rewrite drive_keyed.
Qed.

Lemma replays_app e l1 l2 e2 :
  replays e (l1 ++ l2) e2 <-> exists e1, replays e l1 e1 /\ replays e1 l2 e2.
Proof.
  revert e. induction l1 as [|[[c i] o] l1 IH]; intros e; simpl; [naive_solver|].
  setoid_rewrite IH. naive_solver.
Qed.

Lemma replays_length e l e' :
  replays e l e' -> length (CacheEngine.shards_ e') = length (CacheEngine.shards_ e).
Proof.
  revert e. induction l as [|[[c i] o] l IH]; intros e; simpl; [by intros ->|].
  intros (e1 & H1 & H2). by rewrite (IH _ H2), (on_shard_length _ _ _ _ _ H1).
Qed.

End calls.

Lemma points_app h1 h2 : points (h1 ++ h2) = points h1 ++ points h2.
Proof. apply omap_app. Qed.

(** ** Who holds which mutex *)

(** The shard whose critical section a thread is in. *)
Definition section (p : pc) : option nat :=
  match p with inside _ index _ _ => Some index | _ => None end.

Definition mutexes (e : CacheEngine.t) : list bool := CacheShard.mutex_ <$> CacheEngine.shards_ e.

(** A mutex is held when exactly one thread is in the section it guards. *)
Definition owns (ms : list bool) (secs : list (option nat)) : Prop :=
  forall (i : nat) (b : bool), ms !! i = Some b ->
    if b then exists j : nat, secs !! j = Some (Some i) /\ forall j' : nat, secs !! j' = Some (Some i) -> j' = j
    else forall j : nat, secs !! j <> Some (Some i).

Lemma owns_acquire ms secs i j :
  owns ms secs -> ms !! i = Some false -> secs !! j = Some None ->
  owns (<[i := true]> ms) (<[j := Some i]> secs).
Proof.
  intros Ho Hi Hj i' b. apply lookup_lt_Some in Hj as Hlt.
  rewrite list_lookup_insert_Some. intros [(<- & <- & _)|[Hne Hb]].
  - exists j. split; [by apply list_lookup_insert_eq|]. intros j'.
    rewrite list_lookup_insert_Some. intros [(<- & _)|[_ H]]; [done|]. by destruct (Ho i false Hi j').
  - specialize (Ho i' b Hb). destruct b.
    + destruct Ho as (j0 & H0 & Hu). exists j0. rewrite list_lookup_insert_ne by congruence.
      split; [done|]. intros j'. rewrite list_lookup_insert_Some. intros [(_ & ? & _)|[_ H]]; [congruence|auto].
    + intros j'. rewrite list_lookup_insert_Some. intros [(_ & ? & _)|[_ H]]; [congruence|]. by destruct (Ho j').
Qed.

Lemma owns_release ms secs i j :
  owns ms secs -> secs !! j = Some (Some i) -> owns (<[i := false]> ms) (<[j := None]> secs).
Proof.
  intros Ho Hj i' b. rewrite list_lookup_insert_Some. intros [(<- & <- & Hlt)|[Hne Hb]].
  - destruct (lookup_lt_is_Some_2 ms i Hlt) as [b Hb]. specialize (Ho i b Hb). destruct b; [|by destruct (Ho j)].
    destruct Ho as (j0 & _ & Hu). intros j'. rewrite list_lookup_insert_Some. intros [(_ & ? & _)|[Hne H]]; [done|].
    apply Hne. by rewrite (Hu j Hj), (Hu j' H).
  - specialize (Ho i' b Hb). destruct b.
    + destruct Ho as (j0 & H0 & Hu). exists j0. rewrite list_lookup_insert_ne by congruence.
      split; [done|]. intros j'. rewrite list_lookup_insert_Some. intros [(_ & ? & _)|[_ H]]; [congruence|auto].
    + intros j'. rewrite list_lookup_insert_Some. intros [(_ & ? & _)|[_ H]]; [congruence|]. by destruct (Ho j').
Qed.

(** The thread in a section holds its mutex, alone. *)
Lemma owns_held ms secs i b j :
  owns ms secs -> ms !! i = Some b -> secs !! j = Some (Some i) ->
  b = true /\ forall j', secs !! j' = Some (Some i) -> j' = j.
Proof.
  intros Ho Hi Hj. specialize (Ho i b Hi). destruct b; [|by destruct (Ho j)].
  destruct Ho as (j0 & _ & Hu). split; [done|]. intros j' H. by rewrite (Hu j Hj), (Hu j' H).
Qed.

(** ** Schedules *)

Lemma act_step hash code a s s' : act hash code a s = Some s' -> step hash code s s'.
Proof.
  destruct s as [e ths h], a as [j c|j]; simpl.
  - destruct (ths !! j) as [[]|] eqn:Hj; try done. intros [= <-]. by apply step_call.
  - intros H. apply step_inner with j. destruct (ths !! j) as [[|c i total|c i total p|c o]|] eqn:Hj; try done.
    + destruct (_ !! i) as [[[] contents]|] eqn:Hi; try done. injection H as <-. by apply step_lock.
    + destruct (_ !! i) as [[b contents]|] eqn:Hi; try done.
      destruct p; injection H as <-; [by eapply step_unlock|by apply step_access].
    + injection H as <-. by apply step_return.
Qed.

Lemma execute_reachable hash code schedule s0 s s' :
  reachable hash code s0 s -> execute hash code schedule s = Some s' -> reachable hash code s0 s'.
Proof.
  revert s. induction schedule as [|a schedule IH]; intros s Hr; simpl; [by intros [= <-]|].
  destruct (act hash code a s) as [s1|] eqn:Ha; [|done]. apply IH.
  eapply reachable_next; [done|by eapply act_step].
Qed.
