(* ===== verification/ConcurrentRunFacts.v ===== *)
(** * What every interleaving of calls on the engine keeps

    The invariant [conc_ok] of the system of [ConcurrentModel], for any way of cutting
    the critical sections into accesses. *)
From S2P Require Import Prelude ErrorModel Effects MemoryModel AllocatorModel.
From S2P Require Import ValueAllocatorModel CacheModel CacheShardModel CacheEngineModel.
From S2P Require Import ConcurrentModel ConcurrentFacts.
Import Memory Concurrent.

(** ** The contents *)

(** Shard [index], as it is and as the sequential run has it: the same when nobody is
    inside; else the thread inside will bring it to where the sequential run goes. *)
Definition agree_at (ths : list pc) (index : nat) (sh sh0 : CacheShard.t) : Prop :=
  CacheShard.mutex_ sh0 = false /\
  (CacheShard.mutex_ sh = false -> CacheShard.contents sh = CacheShard.contents sh0) /\
  (forall j c total p, ths !! j = Some (inside c index total p) ->
    run_program p (CacheShard.contents sh) = critical c (CacheShard.contents sh0)).

Definition agrees (e e0 : CacheEngine.t) (ths : list pc) : Prop :=
  CacheEngine.capacity_bytes_ e = CacheEngine.capacity_bytes_ e0 /\
  CacheEngine.allocator_backend_ e = CacheEngine.allocator_backend_ e0 /\
  length (CacheEngine.shards_ e) = length (CacheEngine.shards_ e0) /\
  forall i sh sh0, CacheEngine.shards_ e !! i = Some sh -> CacheEngine.shards_ e0 !! i = Some sh0 ->
    agree_at ths i sh sh0.

(** Without anybody inside, the engines are equal. *)
Lemma agrees_equal e e0 ths :
  agrees e e0 ths -> Forall (fun b => b = false) (mutexes e) -> e = e0.
Proof.
  intros (Hc & Hb & Hl & Ha) Hm. destruct e as [c b l], e0 as [c0 b0 l0]; simpl in *. subst.
  f_equal. apply list_eq_same_length with (length l0); [done|done|].
  intros i sh sh0 _ Hi Hi0. destruct (Ha i sh sh0 Hi Hi0) as (H0 & Hs & _).
  assert (CacheShard.mutex_ sh = false) as H1.
  { unfold mutexes in Hm. rewrite Forall_fmap in Hm. exact (Forall_lookup_1 _ _ _ _ Hm Hi). }
  specialize (Hs H1). destruct sh, sh0; simpl in *. by subst.
Qed.

(** Threads outside the sections do not matter. *)
Lemma agrees_thread e e0 ths j p :
  agrees e e0 ths -> section p = None -> agrees e e0 (<[j := p]> ths).
Proof.
  intros (Hc & Hb & Hl & Ha) Hp. split_and!; [done..|]. intros i sh sh0 Hi Hi0.
  destruct (Ha i sh sh0 Hi Hi0) as (H0 & Hs & Hr). split_and!; [done..|].
  intros j' c total q. rewrite list_lookup_insert_Some. intros [(_ & -> & _)|[_ Hq]]; [done|by eapply Hr].
Qed.

(** A step of thread [j] on shard [i]. *)
Lemma agrees_put e e0 ths j p i sh sh0 sh1 :
  agrees e e0 ths -> CacheEngine.shards_ e !! i = Some sh -> CacheEngine.shards_ e0 !! i = Some sh0 ->
  (forall i', section p = Some i' -> i' = i) ->
  agree_at (<[j := p]> ths) i sh1 sh0 ->
  agrees (put_shard i sh1 e) e0 (<[j := p]> ths).
Proof.
  intros (Hc & Hb & Hl & Ha) Hi Hi0 Hp Hat. unfold agrees, put_shard. simpl. rewrite length_insert.
  split_and!; [done..|]. intros i' sh' sh0'. rewrite list_lookup_insert_Some.
  intros [(<- & <- & _)|[Hne Hi']] Hi0'; [by simplify_eq|].
  destruct (Ha _ _ _ Hi' Hi0') as (H0 & Hs & Hr). split_and!; [done..|]. intros j' c total q.
  rewrite list_lookup_insert_Some. intros [(_ & -> & _)|[_ Hq]]; [|by eapply Hr].
  by specialize (Hp i' eq_refl).
Qed.

(** The end of a section moves the sequential run on. *)
Lemma agrees_put_seq e e0 ths j p i contents :
  agrees e e0 ths -> (i < length (CacheEngine.shards_ e))%nat -> section p = None ->
  (forall j' q, ths !! j' = Some q -> section q = Some i -> j' = j) ->
  agrees (put_shard i (CacheShard.MkCacheShard false contents) e)
    (put_shard i (CacheShard.MkCacheShard false contents) e0) (<[j := p]> ths).
Proof.
  intros (Hc & Hb & Hl & Ha) Hi Hp Hu. unfold agrees, put_shard. simpl. rewrite !length_insert.
  split_and!; [done..|]. intros i' sh' sh0'. destruct (decide (i = i')) as [<-|Hne].
  - rewrite !list_lookup_insert_eq by lia. intros [= <-] [= <-]. split_and!; [done..|].
    intros j' c total q. rewrite list_lookup_insert_Some. intros [(_ & -> & _)|[Hj Hq]]; [done|].
    by destruct Hj; rewrite (Hu _ _ Hq).
  - rewrite !list_lookup_insert_ne by done. intros Hi' Hi0'.
    destruct (Ha _ _ _ Hi' Hi0') as (H0 & Hs & Hr). split_and!; [done..|].
    intros j' c total q. rewrite list_lookup_insert_Some. intros [(_ & -> & _)|[_ Hq]]; [done|by eapply Hr].
Qed.

(** ** What each thread has done *)

Section runs.
Variable hash : bytes -> Z.
Variable n : nat.     (** shards *)

(** The history of a call of thread [j] that has made [visits] so far. *)
Definition called (j : nat) (h : list event) (c : call) (visits : list (nat * outcome answer)) : Prop :=
  exists a b, h = a ++ ev_call j c :: b /\ of_thread j b = point j c <$> visits.

Definition traced (j : nat) (h : list event) (p : pc) : Prop :=
  match p with
  | idle => True
  | at_lock c index total | inside c index total _ =>
      (index < n)%nat /\ (is_Some (keyed_by c) -> index = first_shard hash n c) /\
      exists visits, called j h c visits /\
        forall more, conclude n c (first_shard hash n c) (zero c) (visits ++ more) = conclude n c index total more
  | returning c o =>
      exists visits, called j h c visits /\
        conclude n c (first_shard hash n c) (zero c) visits = Some o
  end.

(** Every return in the history answers a call by the visits between them. *)
Definition returned (h : list event) : Prop :=
  forall h1 j c o h2, h = h1 ++ ev_return j c o :: h2 ->
    exists visits, called j h1 c visits /\ conclude n c (first_shard hash n c) (zero c) visits = Some o.

Lemma of_thread_snoc j h ev :
  of_thread j (h ++ [ev]) = of_thread j h ++ (if decide (ev_thread ev = j) then [ev] else []).
Proof. unfold of_thread. rewrite filter_app, filter_cons. by destruct (decide _). Qed.

Lemma called_other j h c visits ev :
  called j h c visits -> ev_thread ev <> j -> called j (h ++ [ev]) c visits.
Proof.
  intros (a & b & -> & Hb) Hev. exists a, (b ++ [ev]). split; [by rewrite <- app_assoc|].
  by rewrite of_thread_snoc, decide_False, app_nil_r by done.
Qed.

Lemma called_point j h c visits i o :
  called j h c visits -> called j (h ++ [ev_point j c i o]) c (visits ++ [(i, o)]).
Proof.
  intros (a & b & -> & Hb). exists a, (b ++ [ev_point j c i o]). split; [by rewrite <- app_assoc|].
  by rewrite of_thread_snoc, decide_True, Hb, fmap_app by done.
Qed.

Lemma traced_other j h p ev : traced j h p -> ev_thread ev <> j -> traced j (h ++ [ev]) p.
Proof.
  intros Ht Hev. destruct p; simpl in *; naive_solver eauto using called_other.
Qed.

Lemma traced_call j h c :
  (0 < n)%nat -> traced j (h ++ [ev_call j c]) (at_lock c (first_shard hash n c) (zero c)).
Proof.
  intros Hn. split_and!; [|done|].
  - unfold first_shard. destruct (keyed_by c) as [k|]; [|done]. unfold CacheEngine.shard_index.
    pose proof (Z.mod_pos_bound (u64 (hash k)) (Z.of_nat n) ltac:(lia)). lia.
  - exists []. split; [|done]. exists h, []. by split.
Qed.

Lemma traced_point j h c index total p o :
  traced j h (inside c index total p) ->
  traced j (h ++ [ev_point j c index o]) (pc_of c (after n c index total o)).
Proof.
  intros (Hi & Hk & visits & Hc & Hv).
  assert (forall more, conclude n c (first_shard hash n c) (zero c) ((visits ++ [(index, o)]) ++ more) =
    conclude n c index total ((index, o) :: more)) as Hv'.
  { intros more. by rewrite <- app_assoc, Hv. }
  setoid_rewrite conclude_step in Hv'. destruct (after _ _ _ _ _) as [i' t'|r] eqn:E; simpl.
  - apply after_next in E as (Hkey & -> & Hn). split; [done|]. rewrite Hkey.
    split; [by intros [? ?]|]. exists (visits ++ [(index, o)]). split; [by apply called_point|done].
  - exists (visits ++ [(index, o)]). split; [by apply called_point|]. by rewrite <- (Hv' []), app_nil_r.
Qed.

Lemma returned_snoc h ev :
  returned h ->
  (forall j c o, ev = ev_return j c o -> traced j h (returning c o)) -> returned (h ++ [ev]).
Proof.
  intros Hr Hev h1 j c o h2 Heq. destruct h2 as [|ev' h2 _] using rev_ind.
  - apply app_inj_tail in Heq as [-> ->]. by apply Hev.
  - rewrite app_comm_cons, app_assoc in Heq. apply app_inj_tail in Heq as [-> _]. by eapply Hr.
Qed.

End runs.

(** ** The invariant *)

Section invariant.
Variable hash : bytes -> Z.
Variable code : call -> program (Cache.state (A := AnyAllocator.t)) answer.
Hypothesis code_runs : forall c s, run_program (code c) s = critical c s.
Variable e0 : CacheEngine.t.
Let n := length (CacheEngine.shards_ e0).
Hypothesis some_shards : (0 < n)%nat.

Record conc_ok (s : t) := {
  co_count : length (CacheEngine.shards_ (engine s)) = n;
  co_owns : owns (mutexes (engine s)) (section <$> threads s);
  co_replays : exists e, replays e0 (points (history s)) e /\ agrees (engine s) e (threads s);
  co_traced : forall j p, threads s !! j = Some p -> traced hash n j (history s) p;
  co_returned : returned hash n (history s)
}.

Lemma mutexes_put i sh e : mutexes (put_shard i sh e) = <[i := CacheShard.mutex_ sh]> (mutexes e).
Proof. apply list_fmap_insert. Qed.

Lemma mutexes_lookup e i sh :
  CacheEngine.shards_ e !! i = Some sh -> mutexes e !! i = Some (CacheShard.mutex_ sh).
Proof. intros Hi. unfold mutexes. by rewrite list_lookup_fmap, Hi. Qed.

Lemma section_lookup (ths : list pc) (j : nat) p : ths !! j = Some p -> (section <$> ths) !! j = Some (section p).
Proof. intros Hj. by rewrite list_lookup_fmap, Hj. Qed.

Lemma length_put i sh e : length (CacheEngine.shards_ (put_shard i sh e)) = length (CacheEngine.shards_ e).
Proof. apply length_insert. Qed.

(** Thread [j] moves without an event, or with one of its own. *)
Lemma traced_move h (ths : list pc) (j : nat) p h' :
  (forall j p, ths !! j = Some p -> traced hash n j h p) ->
  (h' = h \/ exists ev, ev_thread ev = j /\ h' = h ++ [ev]) -> traced hash n j h' p ->
  forall j' p', <[j := p]> ths !! j' = Some p' -> traced hash n j' h' p'.
Proof.
  intros Ht Hh' Hp j' p'. rewrite list_lookup_insert_Some. intros [(<- & <- & _)|[Hne Hj']]; [done|].
  destruct Hh' as [->|(ev & <- & ->)]; [by apply Ht|]. apply traced_other; [by apply Ht|done].
Qed.

Lemma agrees_lookup e e' ths i sh :
  agrees e e' ths -> CacheEngine.shards_ e !! i = Some sh ->
  exists sh0, CacheEngine.shards_ e' !! i = Some sh0 /\ agree_at ths i sh sh0.
Proof.
  intros (_ & _ & Hl & Ha) Hi. apply lookup_lt_Some in Hi as Hlt. rewrite Hl in Hlt.
  destruct (lookup_lt_is_Some_2 _ _ Hlt) as [sh0 H0]. exists sh0. split; [done|by apply Ha].
Qed.

Lemma conc_init m : Forall (fun b => b = false) (mutexes e0) -> conc_ok (init e0 m).
Proof.
  intros Hm. assert (forall i sh, CacheEngine.shards_ e0 !! i = Some sh -> CacheShard.mutex_ sh = false) as Hm'.
  { intros i sh Hi. apply mutexes_lookup in Hi. exact (Forall_lookup_1 _ _ _ _ Hm Hi). }
  constructor; simpl; [done|..].
  - intros i b Hb. rewrite (Forall_lookup_1 _ _ _ _ Hm Hb). intros j Hj.
    rewrite fmap_replicate in Hj. by apply lookup_replicate in Hj as [? _].
  - exists e0. split; [done|]. split_and!; [done..|]. intros i sh sh0 Hi Hi0. simplify_eq.
    split_and!; [by eapply Hm'|done|]. intros j c total p Hj. by apply lookup_replicate in Hj as [? _].
  - intros j p Hj. by apply lookup_replicate in Hj as [-> _].
  - intros h1 j c o h2 Hh. by destruct h1.
Qed.

Lemma conc_lock e ths h j c index total contents :
  conc_ok (MkConcurrent e ths h) -> ths !! j = Some (at_lock c index total) ->
  CacheEngine.shards_ e !! index = Some (CacheShard.MkCacheShard false contents) ->
  conc_ok (MkConcurrent (put_shard index (CacheShard.MkCacheShard true contents) e)
    (<[j := inside c index total (code c)]> ths) h).
Proof.
  intros [Hn Ho (e' & Hr & Ha) Ht Hret] Hj Hi. simpl in *. constructor; simpl.
  - by rewrite length_insert.
  - rewrite mutexes_put, list_fmap_insert. simpl.
    apply owns_acquire; [done|exact (mutexes_lookup _ _ _ Hi)|exact (section_lookup _ _ _ Hj)].
  - exists e'. split; [done|]. destruct (agrees_lookup _ _ _ _ _ Ha Hi) as (sh0 & Hi0 & H0 & Hs & _).
    eapply agrees_put; [done..|by intros i' [= <-]|]. split_and!; [done..|]. simpl. intros j' c' total' p.
    rewrite list_lookup_insert_Some. intros [(_ & [= <- <- <-] & _)|[_ Hq]].
    + rewrite code_runs. by rewrite <- Hs.
    + apply section_lookup in Hq. by destruct (Ho _ _ (mutexes_lookup _ _ _ Hi) j').
  - eapply traced_move; [done|by left|]. exact (Ht _ _ Hj).
  - done.
Qed.

Lemma conc_access e ths h j c index total change next b contents :
  conc_ok (MkConcurrent e ths h) -> ths !! j = Some (inside c index total (Access change next)) ->
  CacheEngine.shards_ e !! index = Some (CacheShard.MkCacheShard b contents) ->
  conc_ok (MkConcurrent (put_shard index (CacheShard.MkCacheShard b (change contents)) e)
    (<[j := inside c index total (next contents)]> ths) h).
Proof.
  intros [Hn Ho (e' & Hr & Ha) Ht Hret] Hj Hi. simpl in *.
  destruct (owns_held _ _ _ _ _ Ho (mutexes_lookup _ _ _ Hi) (section_lookup _ _ _ Hj)) as [Hb Hu]. simpl in Hb.
  constructor; simpl.
  - by rewrite length_insert.
  - rewrite mutexes_put, list_fmap_insert. simpl. rewrite list_insert_id by exact (mutexes_lookup _ _ _ Hi).
    by rewrite list_insert_id by exact (section_lookup _ _ _ Hj).
  - exists e'. split; [done|]. destruct (agrees_lookup _ _ _ _ _ Ha Hi) as (sh0 & Hi0 & H0 & Hs & Hp).
    eapply agrees_put; [done..|by intros i' [= <-]|]. split_and!; [done|by rewrite Hb|]. simpl. intros j' c' total' p.
    rewrite list_lookup_insert_Some. intros [(_ & [= <- <- <-] & _)|[Hne Hq]].
    + by rewrite <- (Hp _ _ _ _ Hj).
    + destruct Hne. symmetry. apply Hu. exact (section_lookup _ _ _ Hq).
  - eapply traced_move; [done|by left|]. exact (Ht _ _ Hj).
  - done.
Qed.

Lemma conc_unlock e ths h j c index total o b contents :
  conc_ok (MkConcurrent e ths h) -> ths !! j = Some (inside c index total (Finish o)) ->
  CacheEngine.shards_ e !! index = Some (CacheShard.MkCacheShard b contents) ->
  conc_ok (MkConcurrent (put_shard index (CacheShard.MkCacheShard false contents) e)
    (<[j := pc_of c (after (length (CacheEngine.shards_ e)) c index total o)]> ths)
    (h ++ [ev_point j c index o])).
Proof.
  intros [Hn Ho (e' & Hr & Ha) Ht Hret] Hj Hi. simpl in *.
  destruct (owns_held _ _ _ _ _ Ho (mutexes_lookup _ _ _ Hi) (section_lookup _ _ _ Hj)) as [_ Hu].
  assert (section (pc_of c (after (length (CacheEngine.shards_ e)) c index total o)) = None) as Hsec.
  { by destruct (after _ _ _ _ _). }
  constructor; simpl.
  - by rewrite length_insert.
  - rewrite mutexes_put, list_fmap_insert, Hsec. apply owns_release; [done|exact (section_lookup _ _ _ Hj)].
  - destruct (agrees_lookup _ _ _ _ _ Ha Hi) as ([b0 contents0] & Hi0 & H0 & _ & Hp). simpl in H0. subst b0.
    specialize (Hp _ _ _ _ Hj). simpl in Hp.
    exists (put_shard index (CacheShard.MkCacheShard false contents) e'). split.
    + rewrite points_app. apply replays_app. exists e'. split; [done|]. simpl.
      eexists. split; [|done]. unfold CacheEngine.on_shard. rewrite Hi0, visit_run, <- Hp. done.
    + apply agrees_put_seq; [done|by eapply lookup_lt_Some|done|].
      intros j' q Hq Hs. apply Hu. rewrite <- Hs. by apply section_lookup.
  - eapply traced_move; [done|right; eexists; by split; [|done]|]. rewrite Hn. eapply traced_point, (Ht _ _ Hj).
  - by apply returned_snoc.
Qed.

Lemma conc_step s s' : conc_ok s -> step hash code s s' -> conc_ok s'.
Proof.
  intros Hok Hs. destruct Hs as [j e ths h c Hj|j s s' Hs].
  - destruct Hok as [Hn Ho (e' & Hr & Ha) Ht Hret]. simpl in *. constructor; simpl; [done|..].
    + by rewrite list_fmap_insert, list_insert_id by exact (section_lookup _ _ _ Hj).
    + exists e'. rewrite points_app, app_nil_r. split; [done|by apply agrees_thread].
    + eapply traced_move; [done|right; eexists; by split; [|done]|]. rewrite Hn. by apply traced_call.
    + by apply returned_snoc.
  - destruct Hs as [e ths|e ths|e ths|e ths h c o Hj]; [by eapply (conc_lock e ths)|by eapply (conc_access e ths)|by eapply (conc_unlock e ths)|].
    destruct Hok as [Hn Ho (e' & Hr & Ha) Ht Hret]. simpl in *. constructor; simpl; [done|..].
    + by rewrite list_fmap_insert, list_insert_id by exact (section_lookup _ _ _ Hj).
    + exists e'. rewrite points_app, app_nil_r. split; [done|by apply agrees_thread].
    + eapply traced_move; [done|right; eexists; by split; [|done]|done].
    + apply returned_snoc; [done|]. intros ??? [= <- <- <-]. by apply Ht.
Qed.

Lemma conc_reachable m s :
  Forall (fun b => b = false) (mutexes e0) -> reachable hash code (init e0 m) s -> conc_ok s.
Proof. intros Hm Hr. induction Hr; [by apply conc_init|by eapply conc_step]. Qed.

End invariant.
