(* ===== verification/BufferModel.v ===== *)
(** * Byte buffers ([net/buffer.h], [net/buffer.cpp])

    A [std::vector<char>] and the index of its first unread byte. The contract is
    a queue of bytes: [append] adds at the end, [retrieve] removes at the front,
    whatever compaction or reallocation happens underneath. *)
From S2P Require Import Prelude ErrorModel Effects MemoryModel.
Import Memory.

(** ** [std::vector<char>] *)
Module CharVector.

Record t := MkCharVector {
  elements : bytes;
  capacity : Z
}.

Definition max_size : Z := 2 ^ 63 - 1.

Definition size (v : t) : Z := zlen (elements v).

(** [reserve]. *)
Definition reserve (n : Z) : M (t * env) unit :=
  if n >? max_size then throw (std_length_error (lit "vector::reserve"))
  else
    v <- on_fst read ;;
    if n >? capacity v
    then on_snd may_alloc ;; on_fst (modify (fun v => MkCharVector (elements v) n))
    else ret tt.

(** [resize]: new elements are zero; more than the capacity reallocates, to the
    size plus the larger of the size and the growth. *)
Definition resize (n : Z) : M (t * env) unit :=
  v <- on_fst read ;;
  if n <=? size v
  then on_fst (modify (fun v => MkCharVector (take (Z.to_nat n) (elements v)) (capacity v)))
  else
    (if n >? capacity v
     then on_snd may_alloc ;;
          on_fst (modify (fun v =>
            MkCharVector (elements v) (size v + Z.max (size v) (n - size v))))
     else ret tt) ;;
    on_fst (modify (fun v =>
      MkCharVector (elements v ++ replicate (Z.to_nat (n - size v)) Byte.x00) (capacity v))).

(** [memcpy] or [memmove] of [bs] to position [at]; undefined outside the vector. *)
Definition write_at (at_ : Z) (bs : bytes) (v : t) : option t :=
  if at_ + zlen bs <=? size v
  then Some (MkCharVector (take (Z.to_nat at_) (elements v) ++ bs ++
                           drop (Z.to_nat (at_ + zlen bs)) (elements v)) (capacity v))
  else None.

End CharVector.

Module Buffer.
Import CharVector(elements, capacity).

Record t := MkBuffer {
  storage_ : CharVector.t;
  reader_index_ : Z
}.

(** [Buffer(initial_capacity)]. *)
Definition create (initial_capacity : Z) : M env t := fun e =>
  let '(o, (v, e')) := CharVector.reserve initial_capacity (CharVector.MkCharVector [] 0, e) in
  (match o with
   | Ret _ => Ret (MkBuffer v 0)
   | Throw x => Throw x
   | Undefined => Undefined
   end, e').

Definition set_storage (v : CharVector.t) (b : t) : t := MkBuffer v (reader_index_ b).
Definition set_reader (i : Z) (b : t) : t := MkBuffer (storage_ b) i.

Definition readable_bytes (b : t) : Z := u64 (CharVector.size (storage_ b) - reader_index_ b).

Definition writable_bytes (b : t) : Z := u64 (capacity (storage_ b) - CharVector.size (storage_ b)).

Definition empty (b : t) : bool := readable_bytes b =? 0.

(** The bytes from [data()] on; also [readable_view()]. *)
Definition readable_view (b : t) : bytes := drop (Z.to_nat (reader_index_ b)) (elements (storage_ b)).

(** An operation of [storage_]. *)
Definition on_storage {A} (f : M (CharVector.t * env) A) : M (t * env) A := fun s =>
  let '(o, (v, e)) := f (storage_ s.1, s.2) in (o, (set_storage v s.1, e)).

Definition retrieve_all (b : t) : t :=
  MkBuffer (CharVector.MkCharVector [] (capacity (storage_ b))) 0.

(** [retrieve]; [None] is the failed assertion. *)
Definition retrieve (length : Z) (b : t) : option t :=
  if length <=? readable_bytes b
  then if length =? readable_bytes b then Some (retrieve_all b)
       else Some (set_reader (u64 (reader_index_ b + length)) b)
  else None.

(** [prepare_append]. *)
Definition prepare_append (length : Z) : M (t * env) unit :=
  b <- on_fst read ;;
  let readable := readable_bytes b in
  if length >? u64 (CharVector.max_size - readable)
  then throw (std_length_error (lit "buffer size exceeds vector maximum"))
  else if length <=? writable_bytes b then ret tt
  else if length <=? u64 (reader_index_ b + writable_bytes b)
  then
    on_fst (modify_opt (fun b =>
      match CharVector.write_at 0 (readable_view b) (storage_ b) with
      | Some v => Some (set_storage v b)
      | None => None
      end)) ;;
    on_storage (CharVector.resize readable) ;;
    on_fst (modify (set_reader 0))
  else
    let required := u64 (readable + length) in
    let doubled := if capacity (storage_ b) <=? u64_max / 2
                   then u64 (capacity (storage_ b) * 2) else CharVector.max_size in
    (fun s =>
       let '(o, (v, e)) :=
         CharVector.reserve (Z.max required doubled) (CharVector.MkCharVector [] 0, s.2) in
       match o with
       | Ret _ =>
           (Ret tt, (MkBuffer (CharVector.MkCharVector
                       (elements v ++ readable_view s.1) (capacity v)) 0, e))
       | Throw x => (Throw x, (s.1, e))
       | Undefined => (Undefined, (s.1, e))
       end).

(** [append(data, length)]; [data = None] is the null pointer. *)
Definition append_raw (data : option bytes) (length : Z) : M (t * env) unit :=
  if length =? 0 then ret tt
  else match data with
       | None => throw (std_invalid_argument (lit "buffer append data must not be null"))
       | Some bs =>
           prepare_append length ;;
           b <- on_fst read ;;
           let old_size := CharVector.size (storage_ b) in
           on_storage (CharVector.resize (u64 (old_size + length))) ;;
           on_fst (modify_opt (fun b =>
             match CharVector.write_at old_size bs (storage_ b) with
             | Some v => Some (set_storage v b)
             | None => None
             end))
       end.

(** [append(std::string_view)]. *)
Definition append (data : bytes) : M (t * env) unit := append_raw (Some data) (zlen data).

(** ** The queue of bytes *)

Record buffer_ok (b : t) : Prop := {
  ok_reader : 0 <= reader_index_ b <= CharVector.size (storage_ b);
  ok_capacity : CharVector.size (storage_ b) <= capacity (storage_ b) <= CharVector.max_size
}.

Lemma readable_bytes_view b : buffer_ok b -> readable_bytes b = zlen (readable_view b).
Proof.
  intros [H1 H2]. unfold readable_bytes, readable_view, CharVector.size, CharVector.max_size in *.
  rewrite length_drop, u64_small by lia. lia.
Qed.

Lemma empty_view b : buffer_ok b -> empty b = bool_decide (readable_view b = []).
Proof.
  intros Hb. unfold empty. rewrite (readable_bytes_view b Hb).
  destruct (readable_view b); [done|]. rewrite bool_decide_eq_false_2 by done. apply Z.eqb_neq. simpl. lia.
Qed.

Lemma retrieve_spec b n :
  buffer_ok b -> 0 <= n <= zlen (readable_view b) ->
  exists b', retrieve n b = Some b' /\ buffer_ok b' /\
    readable_view b' = drop (Z.to_nat n) (readable_view b).
Proof.
  intros Hb Hn. unfold retrieve. rewrite (readable_bytes_view b Hb).
  rewrite (proj2 (Z.leb_le _ _)) by lia. destruct Hb as [H1 H2].
  destruct (Z.eqb_spec n (zlen (readable_view b))) as [He|He].
  - eexists. split; [done|]. split.
    + constructor; simpl; unfold CharVector.size in *; simpl; lia.
    + unfold readable_view at 1. simpl. by rewrite drop_ge by lia.
  - unfold readable_view in Hn, He. rewrite length_drop in Hn, He.
    unfold CharVector.size, CharVector.max_size in *.
    eexists. split; [done|]. rewrite u64_small by lia. split.
    + constructor; simpl; unfold CharVector.size, CharVector.max_size; lia.
    + unfold readable_view. simpl. rewrite drop_drop. f_equal. lia.
Qed.

Lemma retrieve_all_spec b : buffer_ok b -> buffer_ok (retrieve_all b) /\ readable_view (retrieve_all b) = [].
Proof.
  intros [H1 H2]. split; [|done]. constructor; simpl; unfold CharVector.size in *; simpl; lia.
Qed.

Lemma wp_on_storage {A} (f : M (CharVector.t * env) A) b e Q :
  wp f (storage_ b, e) (fun o s => Q o (set_storage s.1 b, s.2)) -> wp (on_storage f) (b, e) Q.
Proof. unfold wp, on_storage. simpl. by destruct (f _) as [o [v e']]. Qed.

(** Within the capacity [resize] cannot fail. *)
Lemma resize_wp n v e Q :
  0 <= n <= capacity v -> CharVector.size v <= capacity v ->
  Q (Ret tt) (CharVector.MkCharVector
    (take (Z.to_nat n) (elements v) ++ replicate (Z.to_nat (n - CharVector.size v)) Byte.x00) (capacity v), e) ->
  wp (CharVector.resize n) (v, e) Q.
Proof.
  intros Hn Hc HQ. unfold CharVector.resize. apply wp_bind, wp_on_fst, wp_read. cbn beta iota.
  destruct (Z.leb_spec n (CharVector.size v)).
  - apply wp_on_fst, wp_modify.
    replace (Z.to_nat (n - CharVector.size v)) with 0%nat in HQ by lia. simpl in HQ. by rewrite app_nil_r in HQ.
  - rewrite Z.gtb_ltb, (proj2 (Z.ltb_ge _ _)) by lia. apply wp_bind, wp_ret. cbn beta iota.
    apply wp_on_fst, wp_modify. unfold CharVector.size in *. by rewrite take_ge in HQ by lia.
Qed.

(** What is left to [append] after [prepare_append]: there is room, and no
    unread byte was lost. *)
Lemma prepare_append_wp n b e :
  buffer_ok b -> 0 <= n ->
  wp (prepare_append n) (b, e) (post
    (fun _ s => buffer_ok s.1 /\ readable_view s.1 = readable_view b /\
       CharVector.size (storage_ s.1) + n <= capacity (storage_ s.1) /\ mem s.2 = mem e)
    (fun x s => s.1 = b /\ mem s.2 = mem e /\
       (x = bad_alloc \/ exists w, x = std_length_error w))).
Proof.
  intros Hb Hn. unfold prepare_append. apply wp_bind, wp_on_fst, wp_read. cbn beta iota zeta.
  rewrite (readable_bytes_view b Hb), !Z.gtb_ltb. pose proof Hb as [H1 H2].
  assert (zlen (readable_view b) = CharVector.size (storage_ b) - reader_index_ b) as Hlen.
  { unfold readable_view, CharVector.size in *. rewrite length_drop. lia. }
  rewrite (u64_small (CharVector.max_size - _)) by (unfold CharVector.max_size in *; lia).
  destruct (Z.ltb_spec (CharVector.max_size - zlen (readable_view b)) n) as [Hm|Hm].
  { split_and!; [done|done|by eauto]. }
  unfold writable_bytes. unfold CharVector.max_size in *.
  rewrite (u64_small (capacity (storage_ b) - CharVector.size (storage_ b))) by lia.
  destruct (Z.leb_spec n (capacity (storage_ b) - CharVector.size (storage_ b))) as [Hw|Hw].
  { apply wp_ret. split_and!; [done|done|simpl; lia|done]. }
  rewrite u64_small by lia.
  destruct (Z.leb_spec n (reader_index_ b + (capacity (storage_ b) - CharVector.size (storage_ b)))) as [Hr|Hr].
  - apply wp_bind, wp_on_fst. eapply wp_modify_opt.
    { unfold CharVector.write_at. rewrite (proj2 (Z.leb_le _ _)) by lia. reflexivity. }
    cbn beta iota. apply wp_bind, wp_on_storage, resize_wp; simpl.
    + lia.
    + unfold CharVector.size in *. simpl. rewrite length_app, length_drop. lia.
    + apply wp_on_fst, wp_modify. simpl. unfold CharVector.size in *. simpl.
      rewrite length_app, length_drop. rewrite take_app_length' by lia.
      replace (Z.to_nat _) with 0%nat by lia. simpl. rewrite app_nil_r. split_and!; [|done| |done].
      * constructor; simpl; unfold CharVector.size, CharVector.max_size; simpl; lia.
      * lia.
  - rewrite (u64_small (zlen (readable_view b) + n)) by lia.
    rewrite (proj2 (Z.leb_le _ (u64_max / 2))) by (unfold u64_max; change ((2 ^ 64 - 1) / 2) with (2 ^ 63 - 1); lia).
    rewrite (u64_small (capacity (storage_ b) * 2)) by lia.
    set (k := Z.max _ _).
    pose proof (fun Q => wp_may_alloc e Q) as Hma.
    unfold wp at 1. simpl. unfold CharVector.reserve. rewrite Z.gtb_ltb.
    destruct (Z.ltb_spec CharVector.max_size k) as [Hk|Hk]; [simpl; by eauto|].
    unfold bind, on_fst at 1, read. simpl.
    rewrite Z.gtb_ltb. destruct (Z.ltb_spec 0 k) as [Hp|Hp]; [|lia].
    unfold on_snd. simpl. specialize (Hma (fun o s => mem s = mem e /\ (o = Ret tt \/ o = Throw bad_alloc))).
    unfold wp in Hma. destruct (may_alloc e) as [o e']. simpl in *.
    destruct Hma as [He Ho]; [by eauto|by eauto|].
    destruct Ho as [->| ->]; simpl; [|by eauto].
    assert (zlen (readable_view b) + n <= k) by lia.
    split_and!; [|done| |done].
    + constructor; simpl; unfold CharVector.size; simpl; lia.
    + unfold CharVector.size. simpl. lia.
Qed.

Lemma append_wp bs b e :
  buffer_ok b ->
  wp (append bs) (b, e) (post
    (fun _ s => buffer_ok s.1 /\ readable_view s.1 = readable_view b ++ bs /\ mem s.2 = mem e)
    (fun x s => s.1 = b /\ mem s.2 = mem e /\
       (x = bad_alloc \/ exists w, x = std_length_error w))).
Proof.
  intros Hb. unfold append, append_raw. destruct (Z.eqb_spec (zlen bs) 0) as [H0|H0].
  { destruct bs; [|simpl in H0; lia]. apply wp_ret. by rewrite app_nil_r. }
  eapply wp_bind_post; [apply prepare_append_wp; [done|lia]|..]; [|done].
  intros _ [b' e'] (Hb' & Hv & Hroom & Hm). simpl in *. apply wp_bind, wp_on_fst, wp_read. cbn beta iota zeta.
  pose proof Hb' as [H1 H2]. unfold CharVector.max_size in *. rewrite u64_small by lia.
  apply wp_bind, wp_on_storage, resize_wp; [lia|lia|]. cbn beta iota.
  unfold CharVector.size in *. rewrite take_ge by lia.
  replace (Z.to_nat (zlen (elements (storage_ b')) + zlen bs - zlen (elements (storage_ b')))) with (length bs) by lia.
  apply wp_on_fst. eapply wp_modify_opt.
  { unfold CharVector.write_at, CharVector.size. simpl. rewrite length_app, length_replicate.
    rewrite (proj2 (Z.leb_le _ _)) by lia. reflexivity. }
  simpl. rewrite take_app_length' by lia.
  rewrite (drop_ge (elements _ ++ replicate _ _)) by (rewrite length_app, length_replicate; lia).
  rewrite app_nil_r. split_and!; [| |done].
  - constructor; simpl; unfold CharVector.size, CharVector.max_size; simpl; rewrite ?length_app; lia.
  - rewrite <- Hv. unfold readable_view. simpl. rewrite drop_app_le by lia. done.
Qed.

Lemma create_buffer_wp n e :
  0 <= n <= CharVector.max_size ->
  wp (create n) e (post
    (fun b e' => buffer_ok b /\ readable_view b = [] /\ mem e' = mem e)
    (fun x e' => x = bad_alloc /\ mem e' = mem e)).
Proof.
  intros Hn. unfold wp, create, CharVector.reserve. rewrite Z.gtb_ltb, (proj2 (Z.ltb_ge _ _)) by lia.
  unfold bind, on_fst at 1, read. simpl. rewrite Z.gtb_ltb. unfold CharVector.max_size in *.
  destruct (Z.ltb_spec 0 n) as [H0|H0].
  - unfold on_snd. simpl. pose proof (wp_may_alloc e (fun o s => mem s = mem e /\ (o = Ret tt \/ o = Throw bad_alloc))) as Hma.
    unfold wp in Hma. destruct (may_alloc e) as [o e']. simpl in *.
    destruct Hma as [He [->| ->]]; [by eauto|by eauto| |]; simpl; [|done].
    split_and!; [|done|done]. constructor; simpl; unfold CharVector.size, CharVector.max_size; simpl; lia.
  - simpl. split_and!; [|done|done]. constructor; simpl; unfold CharVector.size, CharVector.max_size; simpl; lia.
Qed.

End Buffer.
