(* ===== verification/ProtocolModel.v ===== *)
(** * The wire protocol ([protocol/protocol_codec.h], [protocol/protocol_codec.cpp])

    Big-endian fixed headers followed by key and value. A [std::string] or a
    message that is built allocates, and may throw. *)
From S2P Require Import Prelude ErrorModel Effects MemoryModel BufferModel CacheModel.
Import Memory.

Module Protocol.

Definition magic : Z := 0x48434143.
Definition version : Z := 1.
Definition request_header_size : Z := 32.
Definition response_header_size : Z := 20.
Definition max_request_frame_size : Z :=
  request_header_size + Cache.max_key_length + Cache.max_value_length.
Definition max_response_frame_size : Z := response_header_size + Cache.max_value_length.

(** The enumerations have a fixed underlying type, so an object of them can hold a
    value without a name. *)
Inductive Opcode := op_get | op_set | op_erase | op_unnamed (v : Z).

Definition opcode_value (o : Opcode) : Z :=
  match o with op_get => 1 | op_set => 2 | op_erase => 3 | op_unnamed v => v end.

(** [static_cast<Opcode>]. *)
Definition opcode_of (v : Z) : Opcode :=
  if v =? 1 then op_get else if v =? 2 then op_set else if v =? 3 then op_erase else op_unnamed v.

#[export] Instance Opcode_eq_dec : EqDecision Opcode.
Proof. solve_decision. Defined.

Inductive WireStatus :=
| ws_ok | ws_not_found | ws_invalid_key | ws_key_too_large | ws_value_too_large
| ws_item_too_large | ws_invalid_ttl | ws_protocol_error | ws_internal_error
| ws_unnamed (v : Z).

#[export] Instance WireStatus_eq_dec : EqDecision WireStatus.
Proof. solve_decision. Defined.

Definition status_value (s : WireStatus) : Z :=
  match s with
  | ws_ok => 0 | ws_not_found => 1 | ws_invalid_key => 2 | ws_key_too_large => 3
  | ws_value_too_large => 4 | ws_item_too_large => 5 | ws_invalid_ttl => 6
  | ws_protocol_error => 7 | ws_internal_error => 8 | ws_unnamed v => v
  end.

(** [static_cast<WireStatus>]. *)
Definition status_of (v : Z) : WireStatus :=
  match v with
  | 0 => ws_ok | 1 => ws_not_found | 2 => ws_invalid_key | 3 => ws_key_too_large
  | 4 => ws_value_too_large | 5 => ws_item_too_large | 6 => ws_invalid_ttl
  | 7 => ws_protocol_error | 8 => ws_internal_error | _ => ws_unnamed v
  end.

Record Request := MkRequest {
  opcode : Opcode;
  request_id : Z;
  key : bytes;
  value : bytes;
  ttl_ms : Z
}.

Record Response := MkResponse {
  r_request_id : Z;
  status : WireStatus;
  r_value : bytes
}.

Record ProtocolError := MkProtocolError {
  has_request_id : bool;
  e_request_id : Z;
  message : bytes
}.

(** [DecodeResult], with the output parameter that each case sets. *)
Inductive DecodeResult (R : Type) :=
| incomplete
| complete (r : R)
| error (e : ProtocolError).
Arguments incomplete {R}.
Arguments complete {R} r.
Arguments error {R} e.

(** ** Integers on the wire *)

(** [static_cast<char>] of a [std::uint8_t], and back. *)
Definition byte_of_Z (v : Z) : byte := default Byte.x00 (Byte.of_N (Z.to_N (u8 v))).
Definition Z_of_byte (b : byte) : Z := Z.of_N (Byte.to_N b).

Definition append_u8 (v : Z) : bytes := [byte_of_Z v].
Definition append_u16 (v : Z) : bytes := append_u8 (Z.shiftr v 8) ++ append_u8 v.
Definition append_u32 (v : Z) : bytes :=
  append_u8 (Z.shiftr v 24) ++ append_u8 (Z.shiftr v 16) ++ append_u8 (Z.shiftr v 8) ++ append_u8 v.
Definition append_u64 (v : Z) : bytes := append_u32 (u32 (Z.shiftr v 32)) ++ append_u32 (u32 v).

(** Reading at an offset from a pointer; [None] is out of bounds. *)
Definition read_u8 (data : bytes) (off : nat) : option Z := Z_of_byte <$> data !! off.

Definition read_u16 (data : bytes) (off : nat) : option Z :=
  (a ← read_u8 data off; b ← read_u8 data (off + 1);
   Some (u16 (Z.lor (Z.shiftl a 8) b)))%stdpp.

Definition read_u32 (data : bytes) (off : nat) : option Z :=
  (a ← read_u8 data off; b ← read_u8 data (off + 1);
   c ← read_u8 data (off + 2); d ← read_u8 data (off + 3);
   Some (Z.lor (Z.lor (Z.lor (Z.shiftl a 24) (Z.shiftl b 16)) (Z.shiftl c 8)) d))%stdpp.

Definition read_u64 (data : bytes) (off : nat) : option Z :=
  (a ← read_u32 data off; b ← read_u32 data (off + 4); Some (Z.lor (Z.shiftl a 32) b))%stdpp.

(** ** Encoding *)

Definition is_valid_opcode (o : Opcode) : bool :=
  bool_decide (o = op_get) || bool_decide (o = op_set) || bool_decide (o = op_erase).

Definition is_valid_status (v : Z) : bool := v <=? status_value ws_internal_error.

(** The opcodes that carry neither value nor TTL. *)
Definition is_bare (o : Opcode) : bool := bool_decide (o = op_get) || bool_decide (o = op_erase).

(** What [encode_request] refuses. *)
Definition request_refusal (r : Request) : option bytes :=
  if negb (is_valid_opcode (opcode r)) then Some (lit "request has unknown opcode")
  else if (zlen (key r) >? Cache.max_key_length) || (zlen (value r) >? Cache.max_value_length)
  then Some (lit "request exceeds protocol length limit")
  else if is_bare (opcode r) && (negb (bool_decide (value r = [])) || negb (ttl_ms r =? 0))
  then Some (lit "GET and DELETE cannot carry value or TTL")
  else if ttl_ms r >? i64_max then Some (lit "request TTL exceeds signed millisecond range")
  else None.

(** The frame it builds otherwise. *)
Definition request_frame (r : Request) : bytes :=
  append_u32 magic ++ append_u8 version ++ append_u8 (opcode_value (opcode r)) ++ append_u16 0 ++
  append_u64 (request_id r) ++ append_u32 (u32 (zlen (key r))) ++ append_u32 (u32 (zlen (value r))) ++
  append_u64 (ttl_ms r) ++ key r ++ value r.

Definition encode_request (r : Request) : M env bytes :=
  match request_refusal r with
  | Some what => throw (std_invalid_argument what)
  | None => may_alloc ;; ret (request_frame r)
  end.

Definition response_refusal (r : Response) : option bytes :=
  if negb (is_valid_status (status_value (status r))) then Some (lit "response has unknown status")
  else if zlen (r_value r) >? Cache.max_value_length
  then Some (lit "response exceeds protocol length limit")
  else None.

Definition response_frame (r : Response) : bytes :=
  append_u32 magic ++ append_u8 version ++ append_u8 (status_value (status r)) ++ append_u16 0 ++
  append_u64 (r_request_id r) ++ append_u32 (u32 (zlen (r_value r))) ++ r_value r.

Definition encode_response (r : Response) : M env bytes :=
  match response_refusal r with
  | Some what => throw (std_invalid_argument what)
  | None => may_alloc ;; ret (response_frame r)
  end.

(** ** Decoding *)

(** The fields of a request header. *)
Record RequestHeader := MkRequestHeader {
  h_magic : Z; h_version : Z; h_opcode : Z; h_reserved : Z; h_request_id : Z;
  h_key_length : Z; h_value_length : Z; h_ttl_ms : Z
}.

Definition read_request_header (data : bytes) : option RequestHeader :=
  (h_magic ← read_u32 data 0;
   h_version ← read_u8 data 4;
   h_opcode ← read_u8 data 5;
   h_reserved ← read_u16 data 6;
   h_request_id ← read_u64 data 8;
   h_key_length ← read_u32 data 16;
   h_value_length ← read_u32 data 20;
   h_ttl_ms ← read_u64 data 24;
   Some (MkRequestHeader h_magic h_version h_opcode h_reserved h_request_id
           h_key_length h_value_length h_ttl_ms))%stdpp.

(** The checks of [decode_request] on the header, in order: the message of the
    first that fails. *)
Definition request_header_error (h : RequestHeader) : option bytes :=
  if negb (h_magic h =? magic) then Some (lit "invalid request magic")
  else if negb (h_version h =? version) then Some (lit "unsupported protocol version")
  else if negb (h_reserved h =? 0) then Some (lit "request reserved field must be zero")
  else if (h_opcode h <? opcode_value op_get) || (h_opcode h >? opcode_value op_erase)
  then Some (lit "unknown request opcode")
  else if h_key_length h >? Cache.max_key_length
  then Some (lit "request key length exceeds maximum")
  else if h_value_length h >? Cache.max_value_length
  then Some (lit "request value length exceeds maximum")
  else if (h_key_length h >? max_request_frame_size - request_header_size) ||
          (h_value_length h >? u64 (max_request_frame_size - request_header_size - h_key_length h))
  then Some (lit "request frame length overflow")
  else if is_bare (opcode_of (h_opcode h)) && negb (h_value_length h =? 0)
  then Some (lit "GET and DELETE cannot carry a value")
  else if is_bare (opcode_of (h_opcode h)) && negb (h_ttl_ms h =? 0)
  then Some (lit "GET and DELETE cannot carry a TTL")
  else if h_ttl_ms h >? i64_max then Some (lit "request TTL exceeds supported range")
  else None.

(** [fail]. *)
Definition fail {R} (id : Z) (what : bytes) : M (Buffer.t * env) (DecodeResult R) :=
  on_snd may_alloc ;;
  ret (error (MkProtocolError true id what)).

(** [std::string::assign(header + off, length)]; undefined past the readable bytes. *)
Definition assign (data : bytes) (off length : Z) : M (Buffer.t * env) bytes :=
  on_snd may_alloc ;;
  if off + length <=? zlen data
  then ret (take (Z.to_nat length) (drop (Z.to_nat off) data)) else undefined.

Definition decode_request : M (Buffer.t * env) (DecodeResult Request) :=
  input <- on_fst read ;;
  if Buffer.readable_bytes input <? request_header_size then ret incomplete
  else
    let header := Buffer.readable_view input in
    match read_request_header header with
    | None => undefined
    | Some h =>
        match request_header_error h with
        | Some what => fail (h_request_id h) what
        | None =>
            let frame_length := u64 (request_header_size + h_key_length h + h_value_length h) in
            if Buffer.readable_bytes input <? frame_length then ret incomplete
            else
              key <- assign header request_header_size (h_key_length h) ;;
              value <- assign header (request_header_size + h_key_length h) (h_value_length h) ;;
              on_fst (modify_opt (Buffer.retrieve frame_length)) ;;
              ret (complete (MkRequest (opcode_of (h_opcode h)) (h_request_id h) key value (h_ttl_ms h)))
        end
    end.

Record ResponseHeader := MkResponseHeader {
  rh_magic : Z; rh_version : Z; rh_status : Z; rh_reserved : Z; rh_request_id : Z;
  rh_value_length : Z
}.

Definition read_response_header (data : bytes) : option ResponseHeader :=
  (rh_magic ← read_u32 data 0;
   rh_version ← read_u8 data 4;
   rh_status ← read_u8 data 5;
   rh_reserved ← read_u16 data 6;
   rh_request_id ← read_u64 data 8;
   rh_value_length ← read_u32 data 16;
   Some (MkResponseHeader rh_magic rh_version rh_status rh_reserved rh_request_id
           rh_value_length))%stdpp.

Definition response_header_error (h : ResponseHeader) : option bytes :=
  if negb (rh_magic h =? magic) then Some (lit "invalid response magic")
  else if negb (rh_version h =? version) then Some (lit "unsupported response version")
  else if negb (rh_reserved h =? 0) then Some (lit "response reserved field must be zero")
  else if negb (is_valid_status (rh_status h)) then Some (lit "unknown response status")
  else if rh_value_length h >? Cache.max_value_length
  then Some (lit "response value length exceeds maximum")
  else None.

Definition decode_response : M (Buffer.t * env) (DecodeResult Response) :=
  input <- on_fst read ;;
  if Buffer.readable_bytes input <? response_header_size then ret incomplete
  else
    let header := Buffer.readable_view input in
    match read_response_header header with
    | None => undefined
    | Some h =>
        match response_header_error h with
        | Some what => fail (rh_request_id h) what
        | None =>
            let frame_length := u64 (response_header_size + rh_value_length h) in
            if Buffer.readable_bytes input <? frame_length then ret incomplete
            else
              value <- assign header response_header_size (rh_value_length h) ;;
              on_fst (modify_opt (Buffer.retrieve frame_length)) ;;
              ret (complete (MkResponse (rh_request_id h) (status_of (rh_status h)) value))
        end
    end.

(** ** Statuses *)

Definition to_wire_status (s : CacheStatus) : WireStatus :=
  match s with
  | ok => ws_ok
  | not_found => ws_not_found
  | invalid_key => ws_invalid_key
  | key_too_large => ws_key_too_large
  | value_too_large => ws_value_too_large
  | item_too_large => ws_item_too_large
  | invalid_ttl => ws_invalid_ttl
  end.

Definition wire_status_to_string (s : WireStatus) : bytes :=
  match s with
  | ws_ok => lit "ok"
  | ws_not_found => lit "not_found"
  | ws_invalid_key => lit "invalid_key"
  | ws_key_too_large => lit "key_too_large"
  | ws_value_too_large => lit "value_too_large"
  | ws_item_too_large => lit "item_too_large"
  | ws_invalid_ttl => lit "invalid_ttl"
  | ws_protocol_error => lit "protocol_error"
  | ws_internal_error => lit "internal_error"
  | ws_unnamed _ => lit "unknown"
  end.

#[global] Arguments request_frame : simpl never.
#[global] Arguments response_frame : simpl never.

End Protocol.
