(* ===== verification/ProtocolFacts.v ===== *)
(** * The protocol is a prefix-free, canonical encoding

    Integers, frames and the verdict of the decoder on a sequence of bytes. *)
From S2P Require Import Prelude ErrorModel Effects MemoryModel BufferModel CacheModel ProtocolModel.
Import Memory.
Import Protocol.

(** ** Bytes and integers *)

Lemma Z_of_byte_range b : 0 <= Z_of_byte b < 256.
Proof. unfold Z_of_byte. pose proof (Byte.to_N_bounded b). lia. Qed.

Lemma Z_of_byte_of_Z v : Z_of_byte (byte_of_Z v) = u8 v.
Proof.
  unfold Z_of_byte, byte_of_Z. pose proof (Z.mod_pos_bound v 256 ltac:(lia)) as Hv.
  change (v mod 256) with (u8 v) in Hv.
  destruct (Byte.of_N (Z.to_N (u8 v))) as [b|] eqn:Hb; simpl.
  - apply Byte.to_of_N in Hb. rewrite Hb. lia.
  - apply Byte.of_N_None_iff in Hb. lia.
Qed.

Lemma byte_of_Z_of_byte b : byte_of_Z (Z_of_byte b) = b.
Proof.
  unfold byte_of_Z. pose proof (Z_of_byte_range b). unfold u8. rewrite Z.mod_small by (simpl; lia).
  unfold Z_of_byte. by rewrite N2Z.id, Byte.of_to_N.
Qed.

(** Bytes are determined by their value modulo 256. *)
Lemma byte_of_Z_eq v b : u8 v = Z_of_byte b -> byte_of_Z v = b.
Proof.
  intros Hv. rewrite <- (byte_of_Z_of_byte b), <- Hv. unfold byte_of_Z, u8. by rewrite Z.mod_mod.
Qed.

(** A shifted field and a lower one do not overlap. *)
Lemma lor_shiftl a b n : 0 <= n -> 0 <= b < 2 ^ n -> Z.lor (Z.shiftl a n) b = a * 2 ^ n + b.
Proof.
  intros Hn Hb. assert (Z.land (Z.shiftl a n) b = 0) as Hl.
  { apply Z.bits_inj'. intros i Hi. rewrite Z.land_spec, Z.bits_0.
    destruct (Z.lt_ge_cases i n); [by rewrite Z.shiftl_spec_low|].
    rewrite <- (Z.mod_small b (2 ^ n)) by done. rewrite Z.mod_pow2_bits_high by lia. apply andb_false_r. }
  rewrite <- Z.lxor_lor, <- Z.add_nocarry_lxor by done. by rewrite Z.shiftl_mul_pow2.
Qed.

Lemma join16 a b :
  0 <= a < 256 -> 0 <= b < 256 -> u16 (Z.lor (Z.shiftl a 8) b) = a * 256 + b.
Proof.
  intros Ha Hb. rewrite lor_shiftl by (simpl; lia). unfold u16. apply Z.mod_small.
  change (2 ^ 8) with 256. change (2 ^ 16) with 65536. lia.
Qed.

Lemma join32 a b c d :
  0 <= a < 256 -> 0 <= b < 256 -> 0 <= c < 256 -> 0 <= d < 256 ->
  Z.lor (Z.lor (Z.lor (Z.shiftl a 24) (Z.shiftl b 16)) (Z.shiftl c 8)) d =
    ((a * 256 + b) * 256 + c) * 256 + d.
Proof.
  intros Ha Hb Hc Hd. rewrite <- !Z.lor_assoc.
  rewrite (lor_shiftl c d 8) by (simpl; lia). change (2 ^ 8) with 256.
  rewrite (lor_shiftl b _ 16) by (change (2 ^ 16) with 65536; lia). change (2 ^ 16) with 65536.
  rewrite (lor_shiftl a _ 24) by (change (2 ^ 24) with 16777216; lia). change (2 ^ 24) with 16777216. lia.
Qed.

Lemma join64 a b : 0 <= b < 2 ^ 32 -> Z.lor (Z.shiftl a 32) b = a * 2 ^ 32 + b.
Proof. intros Hb. by apply lor_shiftl. Qed.

(** The bytes of a 32-bit value. *)
Lemma u8_shiftr v n : 0 <= n -> u8 (Z.shiftr v n) = (v / 2 ^ n) mod 256.
Proof. intros Hn. unfold u8. by rewrite Z.shiftr_div_pow2. Qed.

Lemma value32 v :
  0 <= v < 2 ^ 32 ->
  (((v / 2 ^ 24) mod 256 * 256 + (v / 2 ^ 16) mod 256) * 256 + (v / 2 ^ 8) mod 256) * 256 + v mod 256 = v.
Proof.
  change (2 ^ 32) with 4294967296. change (2 ^ 24) with 16777216. change (2 ^ 16) with 65536. change (2 ^ 8) with 256.
  intros Hv. Z.div_mod_to_equations. lia.
Qed.

(** ** Reading what was appended *)

Lemma read_u8_some l o b : l !! (o + 0)%nat = Some b -> read_u8 l o = Some (Z_of_byte b).
Proof. unfold read_u8. rewrite Nat.add_0_r. by intros ->. Qed.

Lemma read_u16_bytes l o a b :
  l !! (o + 0)%nat = Some a -> l !! (o + 1)%nat = Some b ->
  read_u16 l o = Some (Z_of_byte a * 256 + Z_of_byte b).
Proof.
  intros Ha Hb. unfold read_u16. rewrite (read_u8_some _ _ _ Ha).
  rewrite (read_u8_some l (o + 1) b) by (rewrite Nat.add_0_r; exact Hb). simpl.
  by rewrite join16 by apply Z_of_byte_range.
Qed.

Lemma read_u32_bytes l o a b c d :
  l !! (o + 0)%nat = Some a -> l !! (o + 1)%nat = Some b -> l !! (o + 2)%nat = Some c -> l !! (o + 3)%nat = Some d ->
  read_u32 l o = Some (((Z_of_byte a * 256 + Z_of_byte b) * 256 + Z_of_byte c) * 256 + Z_of_byte d).
Proof.
  intros Ha Hb Hc Hd. unfold read_u32.
  rewrite (read_u8_some _ _ _ Ha), (read_u8_some l (o + 1) b), (read_u8_some l (o + 2) c),
    (read_u8_some l (o + 3) d) by (by rewrite Nat.add_0_r).
  simpl. by rewrite join32 by apply Z_of_byte_range.
Qed.

(** [l] has the bytes [bs] at offset [o]. *)
Definition bytes_at (l : bytes) (o : nat) (bs : bytes) : Prop := take (length bs) (drop o l) = bs.

Lemma bytes_at_lookup l o bs i b : bytes_at l o bs -> bs !! i = Some b -> l !! (o + i)%nat = Some b.
Proof.
  intros Hat Hi. rewrite <- Hat in Hi. apply lookup_take_Some in Hi as [Hi _]. by rewrite lookup_drop in Hi.
Qed.

Lemma read_append_u32 l o v : 0 <= v < 2 ^ 32 -> bytes_at l o (append_u32 v) -> read_u32 l o = Some v.
Proof.
  intros Hv Hat. pose proof (fun i b => bytes_at_lookup l o _ i b Hat) as Hl.
  rewrite (read_u32_bytes l o _ _ _ _ (Hl 0%nat _ eq_refl) (Hl 1%nat _ eq_refl)
    (Hl 2%nat _ eq_refl) (Hl 3%nat _ eq_refl)).
  rewrite !Z_of_byte_of_Z, !u8_shiftr by lia. f_equal. by apply value32.
Qed.

Lemma bytes_at_app l o bs1 bs2 :
  bytes_at l o (bs1 ++ bs2) -> bytes_at l o bs1 /\ bytes_at l (o + length bs1) bs2.
Proof.
  unfold bytes_at. rewrite length_app, <- drop_drop. set (d := drop o l). intros H. split.
  - rewrite <- (take_app_length bs1 bs2) at 2. rewrite <- H, take_take. f_equal. lia.
  - rewrite <- (drop_app_length bs1 bs2) at 2. rewrite <- H, skipn_firstn_comm. f_equal. lia.
Qed.

Lemma u32_range v : 0 <= u32 v < 2 ^ 32.
Proof. unfold u32. apply Z.mod_pos_bound. lia. Qed.

Lemma read_append_u64 l o v : 0 <= v < 2 ^ 64 -> bytes_at l o (append_u64 v) -> read_u64 l o = Some v.
Proof.
  intros Hv Hat. apply bytes_at_app in Hat as [H1 H2].
  change (length (append_u32 _)) with 4%nat in H2. unfold read_u64.
  rewrite (read_append_u32 _ _ _ (u32_range _) H1). simpl.
  rewrite (read_append_u32 _ _ _ (u32_range _) H2). simpl.
  rewrite join64 by apply u32_range. f_equal. rewrite Z.shiftr_div_pow2 by lia. unfold u32.
  rewrite (Z.mod_small (v / 2 ^ 32)); [|split; [apply Z.div_pos; lia|apply Z.div_lt_upper_bound; lia]].
  rewrite (Z.div_mod v (2 ^ 32)) at 3 by lia. lia.
Qed.

Lemma read_append_u8 l o v : 0 <= v < 256 -> bytes_at l o (append_u8 v) -> read_u8 l o = Some v.
Proof.
  intros Hv Hat. rewrite (read_u8_some l o _ (bytes_at_lookup l o _ 0%nat _ Hat eq_refl)).
  rewrite Z_of_byte_of_Z. unfold u8. by rewrite Z.mod_small by (simpl; lia).
Qed.

Lemma read_append_u16_0 l o : bytes_at l o (append_u16 0) -> read_u16 l o = Some 0.
Proof.
  intros Hat. pose proof (fun i b => bytes_at_lookup l o _ i b Hat) as Hl.
  by rewrite (read_u16_bytes l o _ _ (Hl 0%nat _ eq_refl) (Hl 1%nat _ eq_refl)).
Qed.

(** ** The bytes that were read *)

Lemma bytes_at_join l o bs1 bs2 :
  bytes_at l o bs1 -> bytes_at l (o + length bs1) bs2 -> bytes_at l o (bs1 ++ bs2).
Proof.
  unfold bytes_at. rewrite length_app, <- drop_drop. set (d := drop o l). intros H1 H2.
  rewrite <- H1 at 2. rewrite <- H2 at 2. rewrite <- (firstn_skipn (length bs1) d) at 1.
  assert (length (take (length bs1) d) = length bs1) as Hl by (by rewrite H1).
  rewrite firstn_app, Hl, take_ge by (rewrite Hl; lia). f_equal. f_equal. lia.
Qed.

Lemma read_u8_inv l o v :
  read_u8 l o = Some v -> 0 <= v < 256 /\ bytes_at l o (append_u8 v) /\ exists b, l !! o = Some b /\ v = Z_of_byte b.
Proof.
  unfold read_u8. intros (b & Hb & ->)%fmap_Some. split_and!; [apply Z_of_byte_range..| |by eauto].
  unfold bytes_at, append_u8. rewrite byte_of_Z_of_byte, (drop_S _ _ _ Hb). done.
Qed.

Lemma bytes_at_4 l o a b c d :
  l !! o = Some a -> l !! (o + 1)%nat = Some b -> l !! (o + 2)%nat = Some c -> l !! (o + 3)%nat = Some d ->
  bytes_at l o [a; b; c; d].
Proof.
  intros Ha Hb Hc Hd. unfold bytes_at. rewrite (drop_S _ _ _ Ha).
  rewrite (drop_S l b (S o)) by (by rewrite Nat.add_1_r in Hb).
  rewrite (drop_S l c (S (S o))) by (by rewrite <- Hc; f_equal; lia).
  rewrite (drop_S l d (S (S (S o)))) by (by rewrite <- Hd; f_equal; lia). done.
Qed.

(** The bytes of a value put together from four bytes. *)
Lemma split32 a b c d :
  let v := ((Z_of_byte a * 256 + Z_of_byte b) * 256 + Z_of_byte c) * 256 + Z_of_byte d in
  0 <= v < 2 ^ 32 /\ append_u32 v = [a; b; c; d].
Proof.
  intros v. pose proof (Z_of_byte_range a). pose proof (Z_of_byte_range b).
  pose proof (Z_of_byte_range c). pose proof (Z_of_byte_range d).
  split; [unfold v; change (2 ^ 32) with 4294967296; lia|]. unfold append_u32, append_u8. simpl.
  assert (forall n x, 0 <= n -> (v / 2 ^ n) mod 256 = Z_of_byte x -> byte_of_Z (Z.shiftr v n) = x) as Hs.
  { intros n x Hn Hx. apply byte_of_Z_eq. by rewrite u8_shiftr. }
  rewrite (Hs 24 a), (Hs 16 b), (Hs 8 c), (byte_of_Z_eq v d); [done|..]; try lia;
    unfold u8, v; change (2 ^ 24) with 16777216; change (2 ^ 16) with 65536; change (2 ^ 8) with 256;
    clear Hs v; Z.div_mod_to_equations; lia.
Qed.

Lemma read_u32_inv l o v : read_u32 l o = Some v -> 0 <= v < 2 ^ 32 /\ bytes_at l o (append_u32 v).
Proof.
  unfold read_u32. intros H.
  destruct (read_u8 l o) as [za|] eqn:Ha; [|done]. destruct (read_u8 l (o + 1)) as [zb|] eqn:Hb; [|done].
  destruct (read_u8 l (o + 2)) as [zc|] eqn:Hc; [|done]. destruct (read_u8 l (o + 3)) as [zd|] eqn:Hd; [|done].
  apply read_u8_inv in Ha as (_ & _ & a & La & ->), Hb as (_ & _ & b & Lb & ->),
    Hc as (_ & _ & c & Lc & ->), Hd as (_ & _ & d & Ld & ->). simpl in H.
  rewrite join32 in H by apply Z_of_byte_range. injection H as <-.
  destruct (split32 a b c d) as [Hr Hs]. split; [done|]. rewrite Hs. by apply bytes_at_4.
Qed.

Lemma read_u16_inv l o : read_u16 l o = Some 0 -> bytes_at l o (append_u16 0).
Proof.
  unfold read_u16. intros H.
  destruct (read_u8 l o) as [za|] eqn:Ha; [|done]. destruct (read_u8 l (o + 1)) as [zb|] eqn:Hb; [|done].
  apply read_u8_inv in Ha as (Ra & Ba & _), Hb as (Rb & Bb & _). simpl in H.
  rewrite join16 in H by done. injection H as H0. assert (za = 0 /\ zb = 0) as [-> ->] by lia.
  by apply (bytes_at_join l o (append_u8 0) (append_u8 0)).
Qed.

Lemma read_u64_inv l o v : read_u64 l o = Some v -> 0 <= v < 2 ^ 64 /\ bytes_at l o (append_u64 v).
Proof.
  unfold read_u64. intros H.
  destruct (read_u32 l o) as [a|] eqn:Ha; [|done]. destruct (read_u32 l (o + 4)) as [b|] eqn:Hb; [|done].
  apply read_u32_inv in Ha as (Ra & Ba), Hb as (Rb & Bb). simpl in H.
  rewrite join64 in H by done. injection H as <-. split; [nia|]. unfold append_u64.
  rewrite Z.shiftr_div_pow2, Z.div_add_l, Z.div_small, Z.add_0_r by lia. unfold u32.
  rewrite (Z.mod_small a) by lia. rewrite Z.add_comm, Z.mod_add, Z.mod_small by lia.
  by apply bytes_at_join.
Qed.

(** ** Requests *)

Definition request_header_bytes (r : Request) : bytes :=
  append_u32 magic ++ append_u8 version ++ append_u8 (opcode_value (opcode r)) ++ append_u16 0 ++
  append_u64 (request_id r) ++ append_u32 (u32 (zlen (key r))) ++ append_u32 (u32 (zlen (value r))) ++
  append_u64 (ttl_ms r).

Lemma request_frame_split r : request_frame r = request_header_bytes r ++ key r ++ value r.
Proof. done. Qed.

Lemma length_request_frame r : zlen (request_frame r) = request_header_size + zlen (key r) + zlen (value r).
Proof. rewrite request_frame_split, !length_app. change (length (request_header_bytes r)) with 32%nat. unfold request_header_size. lia. Qed.

(** A request the protocol can carry; the integers are in their range. *)
Definition request_ok (r : Request) : Prop :=
  request_refusal r = None /\ 0 <= request_id r < 2 ^ 64 /\ 0 <= ttl_ms r.

Lemma request_refusal_none r :
  request_refusal r = None <->
  (opcode r = op_get \/ opcode r = op_set \/ opcode r = op_erase) /\
  zlen (key r) <= Cache.max_key_length /\ zlen (value r) <= Cache.max_value_length /\
  (is_bare (opcode r) = true -> value r = [] /\ ttl_ms r = 0) /\ ttl_ms r <= i64_max.
Proof.
  unfold request_refusal. rewrite !Z.gtb_ltb.
  assert (((Cache.max_key_length <? zlen (key r)) || (Cache.max_value_length <? zlen (value r)))%bool = false <->
    zlen (key r) <= Cache.max_key_length /\ zlen (value r) <= Cache.max_value_length) as HL.
  { rewrite orb_false_iff, !Z.ltb_ge. done. }
  assert ((negb (bool_decide (value r = [])) || negb (ttl_ms r =? 0))%bool = false <->
    value r = [] /\ ttl_ms r = 0) as HB.
  { rewrite orb_false_iff, !negb_false_iff, bool_decide_eq_true, Z.eqb_eq. done. }
  pose proof (Z.ltb_ge i64_max (ttl_ms r)) as HT.
  destruct (opcode r); simpl; repeat case_match; naive_solver.
Qed.

Definition header_of (r : Request) : RequestHeader :=
  MkRequestHeader magic version (opcode_value (opcode r)) 0 (request_id r)
    (zlen (key r)) (zlen (value r)) (ttl_ms r).

Lemma u32_small v : 0 <= v < 2 ^ 32 -> u32 v = v.
Proof. unfold u32. apply Z.mod_small. Qed.

(** The header of a frame reads back as its fields. *)
Lemma read_header_frame l r :
  request_ok r -> bytes_at l 0 (request_header_bytes r) -> read_request_header l = Some (header_of r).
Proof.
  intros (Hr & Hid & Ht) Hat. apply request_refusal_none in Hr as (Ho & Hk & Hv & _ & Ht').
  unfold Cache.max_key_length, Cache.max_value_length, i64_max in *.
  unfold request_header_bytes in Hat.
  rewrite (u32_small (zlen (key r))), (u32_small (zlen (value r))) in Hat by lia.
  apply bytes_at_app in Hat as [B0 Hat]. apply bytes_at_app in Hat as [B1 Hat].
  apply bytes_at_app in Hat as [B2 Hat]. apply bytes_at_app in Hat as [B3 Hat].
  apply bytes_at_app in Hat as [B4 Hat]. apply bytes_at_app in Hat as [B5 Hat].
  apply bytes_at_app in Hat as [B6 B7].
  assert (0 <= opcode_value (opcode r) < 256) as Hov by (destruct Ho as [-> |[-> | ->]]; simpl; lia).
  assert (0 <= magic < 2 ^ 32) as Hmg by (unfold magic; lia).
  assert (0 <= version < 256) as Hvr by (unfold version; lia).
  assert (0 <= zlen (key r) < 2 ^ 32) as Hkr by lia. assert (0 <= zlen (value r) < 2 ^ 32) as Hvr' by lia.
  assert (0 <= ttl_ms r < 2 ^ 64) as Htr by lia.
  unfold read_request_header.
  rewrite (read_append_u32 _ _ _ Hmg B0 : read_u32 l 0 = _). simpl.
  rewrite (read_append_u8 _ _ _ Hvr B1 : read_u8 l 4 = _). simpl.
  rewrite (read_append_u8 _ _ _ Hov B2 : read_u8 l 5 = _). simpl.
  rewrite (read_append_u16_0 _ _ B3 : read_u16 l 6 = _). simpl.
  rewrite (read_append_u64 _ _ _ Hid B4 : read_u64 l 8 = _). simpl.
  rewrite (read_append_u32 _ _ _ Hkr B5 : read_u32 l 16 = _). simpl.
  rewrite (read_append_u32 _ _ _ Hvr' B6 : read_u32 l 20 = _). simpl.
  rewrite (read_append_u64 _ _ _ Htr B7 : read_u64 l 24 = _). done.
Qed.

Lemma opcode_of_value o : o = op_get \/ o = op_set \/ o = op_erase -> opcode_of (opcode_value o) = o.
Proof. by intros [-> |[-> | ->]]. Qed.

(** The header checks accept exactly the headers of valid requests. *)
Lemma header_error_none h :
  0 <= h_key_length h -> 0 <= h_value_length h ->
  request_header_error h = None <->
  h_magic h = magic /\ h_version h = version /\ h_reserved h = 0 /\ 1 <= h_opcode h <= 3 /\
  h_key_length h <= Cache.max_key_length /\ h_value_length h <= Cache.max_value_length /\
  (is_bare (opcode_of (h_opcode h)) = true -> h_value_length h = 0 /\ h_ttl_ms h = 0) /\
  h_ttl_ms h <= i64_max.
Proof.
  intros Hk0 Hv0. unfold request_header_error. simpl. rewrite !Z.gtb_ltb.
  destruct (Z.eqb_spec (h_magic h) magic); simpl; [|naive_solver].
  destruct (Z.eqb_spec (h_version h) version); simpl; [|naive_solver].
  destruct (Z.eqb_spec (h_reserved h) 0); simpl; [|naive_solver].
  destruct (Z.ltb_spec (h_opcode h) 1); simpl; [split; [done|intuition lia]|].
  destruct (Z.ltb_spec 3 (h_opcode h)); simpl; [split; [done|intuition lia]|].
  destruct (Z.ltb_spec Cache.max_key_length (h_key_length h)); [split; [done|intuition lia]|].
  destruct (Z.ltb_spec Cache.max_value_length (h_value_length h)); [split; [done|intuition lia]|].
  unfold max_request_frame_size, request_header_size, Cache.max_key_length, Cache.max_value_length in *.
  rewrite u64_small by lia.
  destruct (Z.ltb_spec (32 + 250 + 1024 * 1024 - 32) (h_key_length h)); simpl; [lia|].
  destruct (Z.ltb_spec (32 + 250 + 1024 * 1024 - 32 - h_key_length h) (h_value_length h)); [lia|].
  destruct (is_bare _); simpl.
  - destruct (Z.eqb_spec (h_value_length h) 0); simpl; [|split; [done|intuition lia]].
    destruct (Z.eqb_spec (h_ttl_ms h) 0); simpl; [|split; [done|intuition lia]].
    destruct (Z.ltb_spec i64_max (h_ttl_ms h)); [split; [done|intuition lia]|]. split; [intuition lia|done].
  - destruct (Z.ltb_spec i64_max (h_ttl_ms h)); [split; [done|intuition lia]|].
    split; [|done]. intros _. split_and!; try done; lia.
Qed.

(** The verdict of the decoder on the readable bytes. *)
Definition view_request (data : bytes) : DecodeResult Request :=
  if zlen data <? request_header_size then incomplete
  else match read_request_header data with
       | None => incomplete
       | Some h =>
           match request_header_error h with
           | Some what => error (MkProtocolError true (h_request_id h) what)
           | None =>
               if zlen data <? request_header_size + h_key_length h + h_value_length h then incomplete
               else complete (MkRequest (opcode_of (h_opcode h)) (h_request_id h)
                      (take (Z.to_nat (h_key_length h)) (drop 32 data))
                      (take (Z.to_nat (h_value_length h)) (drop (Z.to_nat (32 + h_key_length h)) data))
                      (h_ttl_ms h))
           end
       end.

(** A header is always readable from 32 bytes, and its lengths are not negative. *)
Lemma read_header_some l :
  32 <= zlen l -> exists h, read_request_header l = Some h /\ 0 <= h_key_length h /\ 0 <= h_value_length h /\
    h_key_length h < 2 ^ 32 /\ h_value_length h < 2 ^ 32 /\ 0 <= h_request_id h < 2 ^ 64 /\ 0 <= h_ttl_ms h.
Proof.
  intros Hl. unfold read_request_header.
  assert (forall o, (o < 32)%nat -> exists v, read_u8 l o = Some v) as H8.
  { intros o Ho. destruct (lookup_lt_is_Some_2 l o) as [b Hb]; [lia|]. unfold read_u8. rewrite Hb. by eexists. }
  assert (forall o, (o < 29)%nat -> exists v, read_u32 l o = Some v /\ 0 <= v < 2 ^ 32) as H32.
  { intros o Ho. destruct (H8 o), (H8 (o + 1)%nat), (H8 (o + 2)%nat), (H8 (o + 3)%nat); try lia.
    assert (exists v, read_u32 l o = Some v) as [v Hv] by (unfold read_u32; simplify_option_eq; by eexists).
    exists v. split; [done|]. by apply read_u32_inv in Hv as [? _]. }
  assert (forall o, (o < 25)%nat -> exists v, read_u64 l o = Some v /\ 0 <= v < 2 ^ 64) as H64.
  { intros o Ho. destruct (H32 o) as (a & Ha & _), (H32 (o + 4)%nat) as (b & Hb & _); try lia.
    assert (exists v, read_u64 l o = Some v) as [v Hv] by (unfold read_u64; simplify_option_eq; by eexists).
    exists v. split; [done|]. by apply read_u64_inv in Hv as [? _]. }
  destruct (H32 0%nat) as (m & -> & _); [lia|]. destruct (H8 4%nat) as [v ->]; [lia|].
  destruct (H8 5%nat) as [o ->]; [lia|].
  assert (exists z, read_u16 l 6 = Some z) as [z ->].
  { destruct (H8 6%nat), (H8 7%nat); try lia. unfold read_u16. simplify_option_eq. by eexists. }
  destruct (H64 8%nat) as (i & -> & Hi); [lia|]. destruct (H32 16%nat) as (k & -> & Hk); [lia|].
  destruct (H32 20%nat) as (w & -> & Hw); [lia|]. destruct (H64 24%nat) as (t & -> & Ht); [lia|].
  simpl. eexists. split; [done|]. simpl. lia.
Qed.

(** Reading only looks at the bytes it covers. *)
Lemma read_u8_app l m o : (o < length l)%nat -> read_u8 (l ++ m) o = read_u8 l o.
Proof. intros Ho. unfold read_u8. by rewrite lookup_app_l. Qed.

Lemma read_u16_app l m o : (o + 1 < length l)%nat -> read_u16 (l ++ m) o = read_u16 l o.
Proof. intros Ho. unfold read_u16. by rewrite !read_u8_app by lia. Qed.

Lemma read_u32_app l m o : (o + 3 < length l)%nat -> read_u32 (l ++ m) o = read_u32 l o.
Proof. intros Ho. unfold read_u32. by rewrite !read_u8_app by lia. Qed.

Lemma read_u64_app l m o : (o + 7 < length l)%nat -> read_u64 (l ++ m) o = read_u64 l o.
Proof. intros Ho. unfold read_u64. by rewrite !read_u32_app by lia. Qed.

Lemma read_header_app l m : 32 <= zlen l -> read_request_header (l ++ m) = read_request_header l.
Proof.
  intros Hl. unfold read_request_header.
  by rewrite !read_u32_app, !read_u8_app, !read_u64_app, !read_u16_app by (simpl; lia).
Qed.

(** Project the fields of a header built by [header_of]. *)
Ltac hproj :=
  unfold header_of;
  cbn [h_magic h_version h_opcode h_reserved h_request_id h_key_length h_value_length h_ttl_ms].

Lemma header_of_ok r : request_ok r -> request_header_error (header_of r) = None.
Proof.
  intros (Hr & Hid & Ht). apply request_refusal_none in Hr as (Ho & Hk & Hv & Hb & Ht').
  apply header_error_none; simpl; [lia|lia|]. rewrite opcode_of_value by done.
  split_and!; try done; try lia; try (destruct Ho as [-> |[-> | ->]]; simpl; lia).
  intros Hbare. destruct (Hb Hbare) as [-> ?]. done.
Qed.

Lemma view_roundtrip r rest : request_ok r -> view_request (request_frame r ++ rest) = complete r.
Proof.
  intros Hok. pose proof Hok as (Hr & Hid & Ht). apply request_refusal_none in Hr as (Ho & _).
  unfold view_request. pose proof (length_request_frame r) as Hlen. unfold request_header_size in *.
  rewrite length_app, (proj2 (Z.ltb_ge _ _)) by lia.
  rewrite (read_header_frame _ r Hok).
  2: { unfold bytes_at. rewrite request_frame_split, drop_0, <- app_assoc. apply take_app_length. }
  rewrite header_of_ok by done. hproj. rewrite (proj2 (Z.ltb_ge _ _)) by lia.
  rewrite opcode_of_value by done. rewrite request_frame_split, <- !app_assoc.
  rewrite (drop_app_length' (request_header_bytes r)) by done.
  rewrite Nat2Z.id, take_app_length.
  rewrite (app_assoc (request_header_bytes r)), drop_app_length'.
  2: { rewrite length_app. change (length (request_header_bytes r)) with 32%nat. lia. }
  rewrite Nat2Z.id, take_app_length. by destruct r.
Qed.

Lemma view_canonical data r :
  view_request data = complete r -> request_ok r /\ exists rest, data = request_frame r ++ rest.
Proof.
  unfold view_request, request_header_size. destruct (Z.ltb_spec (zlen data) 32) as [|Hl]; [done|].
  destruct (read_header_some data Hl) as (h & Hh & Hk0 & Hv0 & _ & _ & Hid & Ht0). rewrite Hh.
  destruct (request_header_error h) eqn:He; [done|].
  apply header_error_none in He as (H1 & H2 & H3 & H4 & H5 & H6 & H7 & H8); [|done..].
  destruct (Z.ltb_spec (zlen data) (32 + h_key_length h + h_value_length h)) as [|Hf]; [done|].
  intros [= <-]. set (k := take _ (drop 32 data)). set (v := take _ (drop (Z.to_nat (32 + _)) data)).
  assert (zlen k = h_key_length h) as Hk by (unfold k; rewrite length_take, length_drop; lia).
  assert (zlen v = h_value_length h) as Hv by (unfold v; rewrite length_take, length_drop; lia).
  assert (opcode_value (opcode_of (h_opcode h)) = h_opcode h /\ (opcode_of (h_opcode h) = op_get \/
    opcode_of (h_opcode h) = op_set \/ opcode_of (h_opcode h) = op_erase)) as [Hop Ho].
  { assert (h_opcode h = 1 \/ h_opcode h = 2 \/ h_opcode h = 3) as [E|[E|E]] by lia; rewrite E; simpl; auto. }
  set (r := MkRequest _ _ _ _ _).
  assert (request_refusal r = None) as Href.
  { apply request_refusal_none. simpl. split_and!; [done|lia|lia| |done].
    intros Hb. destruct (H7 Hb) as [Hvl ->]. split; [|done]. destruct v; [done|simpl in Hv; lia]. }
  split; [split_and!; [done|apply Hid|apply Hid|done]|]. exists (drop (length (request_frame r)) data).
  rewrite <- (firstn_skipn (length (request_frame r)) data) at 1. f_equal.
  change (bytes_at data 0 (request_frame r)). rewrite request_frame_split.
  assert (bytes_at data 0 (request_header_bytes r)) as Hhd.
  { unfold read_request_header in Hh.
    destruct (read_u32 data 0) as [m|] eqn:R0; [|done]. destruct (read_u8 data 4) as [w|] eqn:R1; [|done].
    destruct (read_u8 data 5) as [o|] eqn:R2; [|done]. destruct (read_u16 data 6) as [z|] eqn:R3; [|done].
    destruct (read_u64 data 8) as [i|] eqn:R4; [|done]. destruct (read_u32 data 16) as [kl|] eqn:R5; [|done].
    destruct (read_u32 data 20) as [vl|] eqn:R6; [|done]. destruct (read_u64 data 24) as [tt'|] eqn:R7; [|done].
    injection Hh as <-. simpl in *. subst m w z. rewrite <- Hop in R2.
    apply read_u32_inv in R0 as [_ R0], R5 as [Rk R5], R6 as [Rv R6]. apply read_u8_inv in R1 as (_ & R1 & _), R2 as (_ & R2 & _).
    apply read_u16_inv in R3. apply read_u64_inv in R4 as [_ R4], R7 as [_ R7].
    unfold request_header_bytes, r. cbn [opcode request_id key value ttl_ms].
    rewrite (u32_small (zlen k)), (u32_small (zlen v)) by lia. rewrite Hk, Hv.
    repeat (apply bytes_at_join; [assumption|]). assumption. }
  apply bytes_at_join; [done|]. change (0 + length (request_header_bytes r))%nat with 32%nat.
  apply bytes_at_join; unfold bytes_at, r; cbn [key value].
  - replace (length k) with (Z.to_nat (h_key_length h)) by lia. done.
  - replace (length v) with (Z.to_nat (h_value_length h)) by lia.
    replace (32 + length k)%nat with (Z.to_nat (32 + h_key_length h)) by lia. done.
Qed.

Lemma view_prefix r p :
  request_ok r -> p `prefix_of` request_frame r -> p <> request_frame r -> view_request p = incomplete.
Proof.
  intros Hok [q Hq] Hne. unfold view_request, request_header_size.
  destruct (Z.ltb_spec (zlen p) 32) as [|Hl]; [done|].
  assert (read_request_header p = Some (header_of r)) as ->.
  { rewrite <- (read_header_app p q) by done. rewrite <- Hq. apply read_header_frame; [done|].
    unfold bytes_at. rewrite request_frame_split, drop_0. apply take_app_length. }
  rewrite header_of_ok by done. hproj. pose proof (length_request_frame r) as Hlen.
  rewrite Hq, length_app in Hlen. unfold request_header_size in Hlen.
  rewrite (proj2 (Z.ltb_lt _ _)); [done|]. destruct q; [by rewrite app_nil_r in Hq|]. simpl in Hlen. lia.
Qed.

Lemma view_error_app data more e : view_request data = error e -> view_request (data ++ more) = error e.
Proof.
  unfold view_request, request_header_size. rewrite length_app.
  destruct (Z.ltb_spec (zlen data) 32) as [|Hl]; [done|]. rewrite (proj2 (Z.ltb_ge _ _)) by lia.
  rewrite read_header_app by done. destruct (read_request_header data); [|done].
  destruct (request_header_error _); [done|]. by destruct (zlen data <? _).
Qed.

(** An incomplete request never needs more than one frame of buffer. *)
Lemma view_incomplete_bound data : view_request data = incomplete -> zlen data < max_request_frame_size.
Proof.
  unfold view_request, max_request_frame_size, request_header_size, Cache.max_key_length, Cache.max_value_length.
  destruct (Z.ltb_spec (zlen data) 32) as [|Hl]; [intros; lia|].
  destruct (read_header_some data Hl) as (h & -> & Hk & Hv & _).
  destruct (request_header_error h) eqn:He; [done|].
  apply header_error_none in He as (_ & _ & _ & _ & H5 & H6 & _); [|done..].
  unfold Cache.max_key_length, Cache.max_value_length in *.
  destruct (Z.ltb_spec (zlen data) (32 + h_key_length h + h_value_length h)); [intros; lia|done].
Qed.

Lemma assign_wp l off n b e Q :
  0 <= off -> 0 <= n -> off + n <= zlen l ->
  (forall fs, Q (Ret (take (Z.to_nat n) (drop (Z.to_nat off) l))) (b, MkEnv (mem e) fs)) ->
  (forall fs, Q (Throw bad_alloc) (b, MkEnv (mem e) fs)) ->
  wp (assign l off n) (b, e) Q.
Proof.
  intros H0 Hn Hl HR HT. unfold assign. apply wp_bind, wp_on_snd, wp_may_alloc; intros fs; [|apply HT].
  rewrite (proj2 (Z.leb_le _ _)) by done. by apply wp_ret.
Qed.

(** The bytes a result consumes. *)
Definition consumed (r : DecodeResult Request) : nat :=
  match r with complete q => length (request_frame q) | _ => 0%nat end.

Lemma decode_request_wp b e :
  Buffer.buffer_ok b ->
  wp decode_request (b, e) (post
    (fun r s => r = view_request (Buffer.readable_view b) /\ Buffer.buffer_ok s.1 /\ mem s.2 = mem e /\
       Buffer.readable_view s.1 = drop (consumed r) (Buffer.readable_view b))
    (fun x s => x = bad_alloc /\ s.1 = b /\ mem s.2 = mem e)).
Proof.
  intros Hb. unfold decode_request. apply wp_bind, wp_on_fst, wp_read. cbn beta iota zeta.
  rewrite (Buffer.readable_bytes_view b Hb). set (l := Buffer.readable_view b).
  unfold view_request. destruct (zlen l <? request_header_size) eqn:Hl; [by apply wp_ret|]. zsimp.
  unfold request_header_size in Hl. destruct (read_header_some l Hl) as (h & Hh & Hk & Hv & Hk' & Hv' & _). rewrite Hh.
  destruct (request_header_error h) as [what|] eqn:He.
  { unfold fail. apply wp_bind, wp_on_snd, wp_may_alloc; intros fs; [by apply wp_ret|done]. }
  unfold request_header_size. rewrite u64_small by lia.
  destruct (zlen l <? 32 + h_key_length h + h_value_length h) eqn:Hf; [by apply wp_ret|]. zsimp.
  apply wp_bind, assign_wp; [lia|done|lia| |done]. intros fs1. cbn beta iota.
  apply wp_bind, assign_wp; [lia|done|lia| |done]. intros fs2. cbn beta iota.
  destruct (Buffer.retrieve_spec b (32 + h_key_length h + h_value_length h) Hb) as (b' & Hr & Hb' & Hd); [fold l; lia|].
  apply wp_bind, wp_on_fst. eapply wp_modify_opt; [exact Hr|]. apply wp_ret. simpl. split_and!; [done|done|done|].
  rewrite Hd. fold l. f_equal. unfold consumed. pose proof (length_request_frame (MkRequest (opcode_of (h_opcode h))
    (h_request_id h) (take (Z.to_nat (h_key_length h)) (drop (Z.to_nat 32) l))
    (take (Z.to_nat (h_value_length h)) (drop (Z.to_nat (32 + h_key_length h)) l)) (h_ttl_ms h))) as Hlen.
  simpl in Hlen. rewrite !length_take, !length_drop in Hlen. unfold request_header_size in Hlen. lia.
Qed.
