(* ===== verification/ResponseFacts.v ===== *)
(** * Responses: encoding and decoding *)
From S2P Require Import Prelude ErrorModel Effects MemoryModel BufferModel CacheModel ProtocolModel.
From S2P Require Import ProtocolFacts.
Import Memory.
Import Protocol.

Definition response_header_bytes (r : Response) : bytes :=
  append_u32 magic ++ append_u8 version ++ append_u8 (status_value (status r)) ++ append_u16 0 ++
  append_u64 (r_request_id r) ++ append_u32 (u32 (zlen (r_value r))).

Lemma response_frame_split r : response_frame r = response_header_bytes r ++ r_value r.
Proof. done. Qed.

Lemma length_response_frame r : zlen (response_frame r) = response_header_size + zlen (r_value r).
Proof.
  rewrite response_frame_split, length_app. change (length (response_header_bytes r)) with 20%nat.
  unfold response_header_size. lia.
Qed.

(** A response the protocol can carry. *)
Definition response_ok (r : Response) : Prop :=
  (exists v, 0 <= v <= 8 /\ status r = status_of v) /\ zlen (r_value r) <= Cache.max_value_length /\
  0 <= r_request_id r < 2 ^ 64.

Lemma status_of_value v : 0 <= v <= 8 -> status_value (status_of v) = v.
Proof.
  intros Hv. assert (v = 0 \/ v = 1 \/ v = 2 \/ v = 3 \/ v = 4 \/ v = 5 \/ v = 6 \/ v = 7 \/ v = 8)
    as Hc by lia. naive_solver.
Qed.

Lemma response_ok_refusal r : response_ok r -> response_refusal r = None.
Proof.
  intros ((v & Hv & Hs) & Hl & _). unfold response_refusal, is_valid_status. rewrite Hs, status_of_value by done.
  simpl. rewrite (proj2 (Z.leb_le _ _)) by lia. simpl. by rewrite Z.gtb_ltb, (proj2 (Z.ltb_ge _ _)).
Qed.

Definition response_header_of (r : Response) : ResponseHeader :=
  MkResponseHeader magic version (status_value (status r)) 0 (r_request_id r) (zlen (r_value r)).

Lemma read_response_frame l r :
  response_ok r -> bytes_at l 0 (response_header_bytes r) ->
  read_response_header l = Some (response_header_of r).
Proof.
  intros ((v & Hv & Hs) & Hl & Hid) Hat. unfold response_header_bytes in Hat. unfold Cache.max_value_length in Hl.
  rewrite (u32_small (zlen (r_value r))) in Hat by lia.
  apply bytes_at_app in Hat as [B0 Hat]. apply bytes_at_app in Hat as [B1 Hat].
  apply bytes_at_app in Hat as [B2 Hat]. apply bytes_at_app in Hat as [B3 Hat].
  apply bytes_at_app in Hat as [B4 B5].
  assert (0 <= status_value (status r) < 256) as Hst by (rewrite Hs, status_of_value by done; lia).
  assert (0 <= magic < 2 ^ 32) as Hmg by (unfold magic; lia).
  assert (0 <= version < 256) as Hvr by (unfold version; lia).
  assert (0 <= zlen (r_value r) < 2 ^ 32) as Hlr by lia.
  unfold read_response_header.
  rewrite (read_append_u32 _ _ _ Hmg B0 : read_u32 l 0 = _). simpl.
  rewrite (read_append_u8 _ _ _ Hvr B1 : read_u8 l 4 = _). simpl.
  rewrite (read_append_u8 _ _ _ Hst B2 : read_u8 l 5 = _). simpl.
  rewrite (read_append_u16_0 _ _ B3 : read_u16 l 6 = _). simpl.
  rewrite (read_append_u64 _ _ _ Hid B4 : read_u64 l 8 = _). simpl.
  rewrite (read_append_u32 _ _ _ Hlr B5 : read_u32 l 16 = _). done.
Qed.

Lemma response_header_error_none h :
  response_header_error h = None <->
  rh_magic h = magic /\ rh_version h = version /\ rh_reserved h = 0 /\ rh_status h <= 8 /\
  rh_value_length h <= Cache.max_value_length.
Proof.
  unfold response_header_error, is_valid_status. rewrite Z.gtb_ltb. simpl.
  destruct (Z.eqb_spec (rh_magic h) magic); simpl; [|naive_solver].
  destruct (Z.eqb_spec (rh_version h) version); simpl; [|naive_solver].
  destruct (Z.eqb_spec (rh_reserved h) 0); simpl; [|naive_solver].
  destruct (Z.leb_spec (rh_status h) 8); simpl; [|split; [done|intuition lia]].
  destruct (Z.ltb_spec Cache.max_value_length (rh_value_length h)); [split; [done|intuition lia]|done].
Qed.

(** The verdict of the decoder on the readable bytes. *)
Definition view_response (data : bytes) : DecodeResult Response :=
  if zlen data <? response_header_size then incomplete
  else match read_response_header data with
       | None => incomplete
       | Some h =>
           match response_header_error h with
           | Some what => error (MkProtocolError true (rh_request_id h) what)
           | None =>
               if zlen data <? response_header_size + rh_value_length h then incomplete
               else complete (MkResponse (rh_request_id h) (status_of (rh_status h))
                      (take (Z.to_nat (rh_value_length h)) (drop 20 data)))
           end
       end.

Lemma response_roundtrip r rest : response_ok r -> view_response (response_frame r ++ rest) = complete r.
Proof.
  intros Hok. pose proof Hok as ((v & Hv & Hs) & Hl & Hid). unfold view_response.
  pose proof (length_response_frame r) as Hlen. unfold response_header_size in *.
  rewrite length_app, (proj2 (Z.ltb_ge _ _)) by lia.
  rewrite (read_response_frame _ r Hok).
  2: { unfold bytes_at. rewrite response_frame_split, drop_0, <- app_assoc. apply take_app_length. }
  rewrite (proj2 (response_header_error_none _)).
  2: { unfold response_header_of. cbn [rh_magic rh_version rh_reserved rh_status rh_value_length].
       rewrite Hs, status_of_value by done. split_and!; [done|done|done|lia|done]. }
  unfold response_header_of. cbn [rh_request_id rh_status rh_value_length].
  rewrite (proj2 (Z.ltb_ge _ _)) by lia. rewrite Hs, status_of_value, <- Hs by done.
  rewrite response_frame_split, <- !app_assoc, (drop_app_length' (response_header_bytes r)) by done.
  rewrite Nat2Z.id, take_app_length. by destruct r.
Qed.

Lemma read_response_some l :
  20 <= zlen l -> exists h, read_response_header l = Some h /\ 0 <= rh_status h /\
    0 <= rh_value_length h < 2 ^ 32 /\ 0 <= rh_request_id h < 2 ^ 64.
Proof.
  intros Hl. unfold read_response_header.
  assert (forall o, (o < 20)%nat -> exists v, read_u8 l o = Some v /\ 0 <= v) as H8.
  { intros o Ho. destruct (lookup_lt_is_Some_2 l o) as [b Hb]; [lia|]. unfold read_u8. rewrite Hb.
    eexists. split; [done|]. apply Z_of_byte_range. }
  assert (forall o, (o < 17)%nat -> exists v, read_u32 l o = Some v /\ 0 <= v < 2 ^ 32) as H32.
  { intros o Ho. destruct (H8 o) as (?&?&?), (H8 (o + 1)%nat) as (?&?&?), (H8 (o + 2)%nat) as (?&?&?),
      (H8 (o + 3)%nat) as (?&?&?); try lia.
    assert (exists v, read_u32 l o = Some v) as [v Hv] by (unfold read_u32; simplify_option_eq; by eexists).
    exists v. split; [done|]. by apply read_u32_inv in Hv as [? _]. }
  destruct (H32 0%nat) as (m & -> & _); [lia|]. destruct (H8 4%nat) as (v & -> & _); [lia|].
  destruct (H8 5%nat) as (o & -> & Ho); [lia|].
  assert (exists z, read_u16 l 6 = Some z) as [z ->].
  { destruct (H8 6%nat) as (?&?&?), (H8 7%nat) as (?&?&?); try lia. unfold read_u16. simplify_option_eq. by eexists. }
  assert (exists i, read_u64 l 8 = Some i /\ 0 <= i < 2 ^ 64) as (i & -> & Hi).
  { destruct (H32 8%nat) as (?&?&?), (H32 12%nat) as (?&?&?); try lia.
    assert (exists v, read_u64 l 8 = Some v) as [w Hw] by (unfold read_u64; simplify_option_eq; by eexists).
    exists w. split; [done|]. by apply read_u64_inv in Hw as [? _]. }
  destruct (H32 16%nat) as (k & -> & Hk); [lia|]. simpl. eexists. split; [done|]. simpl. lia.
Qed.

Definition consumed_response (r : DecodeResult Response) : nat :=
  match r with complete q => length (response_frame q) | _ => 0%nat end.

Lemma decode_response_wp b e :
  Buffer.buffer_ok b ->
  wp decode_response (b, e) (post
    (fun r s => r = view_response (Buffer.readable_view b) /\ Buffer.buffer_ok s.1 /\ mem s.2 = mem e /\
       Buffer.readable_view s.1 = drop (consumed_response r) (Buffer.readable_view b))
    (fun x s => x = bad_alloc /\ s.1 = b /\ mem s.2 = mem e)).
Proof.
  intros Hb. unfold decode_response. apply wp_bind, wp_on_fst, wp_read. cbn beta iota zeta.
  rewrite (Buffer.readable_bytes_view b Hb). set (l := Buffer.readable_view b).
  unfold view_response. destruct (zlen l <? response_header_size) eqn:Hl; [by apply wp_ret|]. zsimp.
  unfold response_header_size in Hl. destruct (read_response_some l Hl) as (h & Hh & _ & Hv & _). rewrite Hh.
  destruct (response_header_error h) as [what|] eqn:He.
  { unfold fail. apply wp_bind, wp_on_snd, wp_may_alloc; intros fs; [by apply wp_ret|done]. }
  unfold response_header_size. rewrite u64_small by lia.
  destruct (zlen l <? 20 + rh_value_length h) eqn:Hf; [by apply wp_ret|]. zsimp.
  apply wp_bind, assign_wp; [lia|lia|lia| |done]. intros fs1. cbn beta iota.
  destruct (Buffer.retrieve_spec b (20 + rh_value_length h) Hb) as (b' & Hr & Hb' & Hd); [fold l; lia|].
  apply wp_bind, wp_on_fst. eapply wp_modify_opt; [exact Hr|]. apply wp_ret. unfold post. cbn [fst snd].
  split_and!; [done|done|done|].
  rewrite Hd. fold l. f_equal. unfold consumed_response.
  match goal with |- _ = length (response_frame ?q) => pose proof (length_response_frame q) as Hlen end.
  cbn [r_value] in Hlen. rewrite length_take, length_drop in Hlen. unfold response_header_size in Hlen. lia.
Qed.

(** Encoding succeeds on what the protocol can carry, or runs out of memory. *)
Lemma encode_response_wp r e Q :
  response_refusal r = None ->
  (forall fs, Q (Ret (response_frame r)) (MkEnv (mem e) fs)) ->
  (forall fs, Q (Throw bad_alloc) (MkEnv (mem e) fs)) ->
  wp (encode_response r) e Q.
Proof.
  intros Hr HR HT. unfold encode_response. rewrite Hr.
  apply wp_bind, wp_may_alloc; intros fs; [apply wp_ret, HR|apply HT].
Qed.

Lemma encode_request_wp r e Q :
  request_refusal r = None ->
  (forall fs, Q (Ret (request_frame r)) (MkEnv (mem e) fs)) ->
  (forall fs, Q (Throw bad_alloc) (MkEnv (mem e) fs)) ->
  wp (encode_request r) e Q.
Proof.
  intros Hr HR HT. unfold encode_request. rewrite Hr.
  apply wp_bind, wp_may_alloc; intros fs; [apply wp_ret, HR|apply HT].
Qed.
