(* ===== verification/ConnectionModel.v ===== *)
(** * Connections ([net/connection.h], [net/connection.cpp])

    A connection reads requests from its socket, runs them on the engine, and
    queues the responses. The socket is what the kernel will do with the calls
    to [recv] and [send]: the bytes that have arrived, the end of the stream, and
    errors, in order. *)
From S2P Require Import Prelude ErrorModel Effects MemoryModel BufferModel CacheModel.
From S2P Require Import CacheEngineModel ProtocolModel.
Import Memory.

(** ** Non-blocking stream sockets *)
Module Socket.

Inductive Errno := EINTR | EAGAIN | EWOULDBLOCK | EOTHER (n : Z).

#[global] Instance Errno_eq_dec : EqDecision Errno.
Proof. solve_decision. Defined.

(** What [recv] finds: at least one byte, the end of the stream, or an error. *)
Inductive arrival :=
| chunk (b : byte) (bs : bytes)
| closed
| failed (e : Errno).

(** What [send] does: it takes at most so many bytes, or fails. *)
Inductive departure :=
| room (n : Z)
| refused (e : Errno).

Record t := MkSocket {
  arrivals : list arrival;     (** exhausted: [EAGAIN] *)
  departures : list departure; (** exhausted: [EAGAIN] *)
  sent : bytes                 (** what the peer gets *)
}.

Inductive recv_result := got (bs : bytes) | eof | recv_error (e : Errno).

(** [recv(fd, bytes, n, 0)]: at most [n] bytes of the next chunk. *)
Definition recv (n : Z) : M t recv_result := fun s =>
  match arrivals s with
  | [] => (Ret (recv_error EAGAIN), s)
  | chunk b bs :: rest =>
      match drop (Z.to_nat n) (b :: bs) with
      | [] => (Ret (got (b :: bs)), MkSocket rest (departures s) (sent s))
      | b' :: bs' => (Ret (got (take (Z.to_nat n) (b :: bs))),
                      MkSocket (chunk b' bs' :: rest) (departures s) (sent s))
      end
  | closed :: _ => (Ret eof, s)
  | failed e :: rest => (Ret (recv_error e), MkSocket rest (departures s) (sent s))
  end.

Inductive send_result := taken (n : Z) | send_error (e : Errno).

(** [send(fd, data, length, MSG_NOSIGNAL)]: a prefix of the data is taken. *)
Definition send (data : bytes) : M t send_result := fun s =>
  match departures s with
  | [] => (Ret (send_error EAGAIN), s)
  | room n :: rest =>
      let k := Z.max 0 (Z.min n (zlen data)) in
      (Ret (taken k), MkSocket (arrivals s) rest (sent s ++ take (Z.to_nat k) data))
  | refused e :: rest => (Ret (send_error e), MkSocket (arrivals s) rest (sent s))
  end.

(** A bound on the calls to [recv] before it would block. *)
Definition arrival_weight (x : arrival) : nat :=
  match x with chunk b bs => length (b :: bs) | _ => 1%nat end.

Definition recv_calls (s : t) : nat := sum_list_with arrival_weight (arrivals s).

End Socket.

Module Connection.
Import Socket(EINTR, EAGAIN, EWOULDBLOCK).

Definition default_output_limit : Z := 4 * 1024 * 1024.
Definition read_chunk_size : Z := 64 * 1024.
Definition max_input_buffer_size : Z := Protocol.max_request_frame_size + read_chunk_size.

Record t := MkConnection {
  input_ : Buffer.t;
  output_ : Buffer.t;
  output_limit_ : Z;
  peer_closed_ : bool;
  close_after_write_ : bool;
  close_immediately_ : bool
}.

(** [Connection(socket, engine, output_limit)] with its two buffers. *)
Definition create (output_limit : Z) : M env t :=
  input <- Buffer.create 4096 ;;
  output <- Buffer.create 4096 ;;
  ret (MkConnection input output output_limit false false false).

Definition set_input (b : Buffer.t) (c : t) : t :=
  MkConnection b (output_ c) (output_limit_ c) (peer_closed_ c) (close_after_write_ c) (close_immediately_ c).
Definition set_output (b : Buffer.t) (c : t) : t :=
  MkConnection (input_ c) b (output_limit_ c) (peer_closed_ c) (close_after_write_ c) (close_immediately_ c).
Definition set_peer_closed (c : t) : t :=
  MkConnection (input_ c) (output_ c) (output_limit_ c) true (close_after_write_ c) (close_immediately_ c).
Definition set_close_after_write (c : t) : t :=
  MkConnection (input_ c) (output_ c) (output_limit_ c) (peer_closed_ c) true (close_immediately_ c).

(** [close_immediately]. *)
Definition close_immediately (c : t) : t :=
  MkConnection (input_ c) (output_ c) (output_limit_ c) (peer_closed_ c) (close_after_write_ c) true.

Definition should_close (c : t) : bool := close_immediately_ c.
Definition wants_write (c : t) : bool := negb (Buffer.empty (output_ c)).
Definition pending_output_bytes (c : t) : Z := Buffer.readable_bytes (output_ c).

(** [note_peer_closed]. *)
Definition note_peer_closed (c : t) : t :=
  let c := set_peer_closed c in
  if Buffer.empty (output_ c) then close_immediately c else c.

(** [desired_events]. *)
Definition EPOLLIN : Z := 0x001.
Definition EPOLLOUT : Z := 0x004.
Definition EPOLLRDHUP : Z := 0x2000.

Definition desired_events (c : t) : Z :=
  if should_close c then 0
  else
    let events := EPOLLRDHUP in
    let events := if negb (close_after_write_ c) && negb (peer_closed_ c)
                  then Z.lor events EPOLLIN else events in
    if wants_write c then Z.lor events EPOLLOUT else events.

(** The connection, the engine it refers to, its socket, and the memory of the
    thread that runs it. *)
Definition state : Type := t * (CacheEngine.t * (Socket.t * env)).

Definition on_connection {A} (f : M t A) : M state A := on_fst f.
Definition on_engine {A} (f : M CacheEngine.t A) : M state A := on_snd (on_fst f).
Definition on_socket {A} (f : M Socket.t A) : M state A := on_snd (on_snd (on_fst f)).
Definition on_env {A} (f : M env A) : M state A := on_snd (on_snd (on_snd f)).

Definition on_input {A} (f : M (Buffer.t * env) A) : M state A := fun s =>
  let '(o, (b, e)) := f (input_ s.1, s.2.2.2) in
  (o, (set_input b s.1, (s.2.1, (s.2.2.1, e)))).

Definition on_output {A} (f : M (Buffer.t * env) A) : M state A := fun s =>
  let '(o, (b, e)) := f (output_ s.1, s.2.2.2) in
  (o, (set_output b s.1, (s.2.1, (s.2.2.1, e)))).

(** [queue_response]. *)
Definition queue_response (response : Protocol.Response) : M state bool :=
  frame <- on_env (Protocol.encode_response response) ;;
  c <- on_connection read ;;
  let pending := Buffer.readable_bytes (output_ c) in
  if (pending >? output_limit_ c) || (zlen frame >? u64 (output_limit_ c - pending))
  then on_connection (modify close_immediately) ;; ret false
  else on_output (Buffer.append frame) ;; ret true.

(** [queue_protocol_error]. *)
Definition queue_protocol_error (e : Protocol.ProtocolError) : M state bool :=
  b <- queue_response (Protocol.MkResponse
         (if Protocol.has_request_id e then Protocol.e_request_id e else 0)
         Protocol.ws_protocol_error (Protocol.message e)) ;;
  if negb b then ret false
  else on_connection (modify set_close_after_write) ;; ret true.

(** [static_cast<std::int64_t>]. *)
Definition to_i64 (v : Z) : Z := if v <=? i64_max then v else v - 2 ^ 64.

Section connection.
Variable hash : bytes -> Z.

(** The [switch] of [execute]: the status and value of the response. *)
Definition dispatch (request : Protocol.Request) : M CacheEngine.t (Protocol.WireStatus * bytes) :=
  match Protocol.opcode request with
  | Protocol.op_get =>
      r <- CacheEngine.get hash (Protocol.key request) [] ;;
      ret (Protocol.to_wire_status r.1, if decide (r.1 <> ok) then [] else r.2)
  | Protocol.op_set =>
      status <- CacheEngine.set hash (Protocol.key request) (Protocol.value request)
                  (to_i64 (Protocol.ttl_ms request)) ;;
      ret (Protocol.to_wire_status status, [])
  | Protocol.op_erase =>
      status <- CacheEngine.erase hash (Protocol.key request) ;;
      ret (Protocol.to_wire_status status, [])
  | Protocol.op_unnamed _ => ret (Protocol.to_wire_status not_found, [])
  end.

(** [execute]. *)
Definition execute (request : Protocol.Request) : M state bool :=
  r <- on_engine (try_catch (dispatch request) (fun _ => ret (Protocol.ws_internal_error, []))) ;;
  queue_response (Protocol.MkResponse (Protocol.request_id request) r.1 r.2).

(** The loop of [process_input]; each round but the last removes a frame. *)
Fixpoint process_rounds (n : nat) : M state bool :=
  match n with
  | O => undefined
  | S n =>
      c <- on_connection read ;;
      if Buffer.empty (input_ c) then ret true
      else
        result <- on_input Protocol.decode_request ;;
        match result with
        | Protocol.incomplete => ret true
        | Protocol.error e =>
            on_connection (modify (fun c => set_input (Buffer.retrieve_all (input_ c)) c)) ;;
            queue_protocol_error e
        | Protocol.complete request =>
            b <- execute request ;;
            if negb b then ret false else process_rounds n
        end
  end.

Definition process_input : M state bool :=
  c <- on_connection read ;;
  process_rounds (S (length (Buffer.readable_view (input_ c)))).

(** The loop of [handle_readable]; each round uses up some of what arrived. *)
Fixpoint read_rounds (n : nat) : M state unit :=
  match n with
  | O => undefined
  | S n =>
      c <- on_connection read ;;
      if close_after_write_ c || close_immediately_ c then ret tt
      else
        result <- on_socket (Socket.recv read_chunk_size) ;;
        match result with
        | Socket.got bs =>
            c <- on_connection read ;;
            if zlen bs >? u64 (max_input_buffer_size - Buffer.readable_bytes (input_ c))
            then on_connection (modify close_immediately)
            else
              on_input (Buffer.append bs) ;;
              b <- process_input ;;
              if negb b then ret tt else read_rounds n
        | Socket.eof => on_connection (modify note_peer_closed)
        | Socket.recv_error e =>
            if decide (e = EINTR) then read_rounds n
            else if decide (e = EAGAIN \/ e = EWOULDBLOCK) then ret tt
            else on_connection (modify close_immediately)
        end
  end.

Definition handle_readable : M state bool :=
  s <- read ;;
  read_rounds (S (Socket.recv_calls s.2.2.1)) ;;
  c <- on_connection read ;;
  ret (negb (should_close c)).

End connection.

(** The loop of [handle_writable]; the result is what an early [return] gives. *)
Fixpoint write_rounds (n : nat) : M state (option bool) :=
  match n with
  | O => undefined
  | S n =>
      c <- on_connection read ;;
      if Buffer.empty (output_ c) || close_immediately_ c then ret None
      else
        result <- on_socket (Socket.send (Buffer.readable_view (output_ c))) ;;
        match result with
        | Socket.taken k =>
            if 0 <? k
            then
              on_connection (modify_opt (fun c =>
                match Buffer.retrieve k (output_ c) with
                | Some b => Some (set_output b c)
                | None => None
                end)) ;;
              write_rounds n
            else on_connection (modify close_immediately) ;; ret (Some false)
        | Socket.send_error e =>
            if decide (e = EINTR) then write_rounds n
            else if decide (e = EAGAIN \/ e = EWOULDBLOCK) then ret (Some true)
            else on_connection (modify close_immediately) ;; ret (Some false)
        end
  end.

Definition handle_writable : M state bool :=
  s <- read ;;
  r <- write_rounds (S (length (Socket.departures s.2.2.1))) ;;
  match r with
  | Some b => ret b
  | None =>
      on_connection (modify (fun c =>
        if Buffer.empty (output_ c) && (close_after_write_ c || peer_closed_ c)
        then close_immediately c else c)) ;;
      c <- on_connection read ;;
      ret (negb (should_close c))
  end.

End Connection.
