(* ===== verification/ConnectionFacts.v ===== *)
(** * A connection serves the byte stream it receives

    The responses queued are those of the requests in the stream, in order,
    however the stream was cut into chunks; the buffers stay within their bounds. *)
From S2P Require Import Prelude ErrorModel Effects MemoryModel AllocatorModel BufferModel CacheModel.
From S2P Require Import LruSpec CacheEntryFacts CacheRep CacheFacts CacheTickFacts CacheShardModel.
From S2P Require Import CacheEngineModel CacheEngineFacts ProtocolModel ProtocolFacts ResponseFacts.
From S2P Require Import ConnectionModel.
Import Memory.
Import Connection.
Import Protocol(MkResponse, complete, incomplete, error, opcode, request_id, response_frame).

Section serving.
Variable hash : bytes -> Z.

(** The engine's answer to a request. *)
Definition serve (q : Protocol.Request) (e : CacheEngine.t) : Protocol.Response * CacheEngine.t :=
  match try_catch (dispatch hash q) (fun _ => ret (Protocol.ws_internal_error, [])) e with
  | (Ret r, e') => (MkResponse (request_id q) r.1 r.2, e')
  | (_, e') => (MkResponse (request_id q) Protocol.ws_internal_error [], e')
  end.

(** The response to a malformed header. *)
Definition error_response (x : Protocol.ProtocolError) : Protocol.Response :=
  MkResponse (if Protocol.has_request_id x then Protocol.e_request_id x else 0)
    Protocol.ws_protocol_error (Protocol.message x).

(** [served e data e' rs rest bad]: the requests in [data], answered in order from
    engine [e], give the responses [rs] and engine [e']; [rest] is the incomplete
    request at the end, or a malformed header ended the conversation. *)
Inductive served : CacheEngine.t -> bytes -> CacheEngine.t -> list Protocol.Response -> bytes -> bool -> Prop :=
| served_rest e data :
    view_request data = incomplete -> served e data e [] data false
| served_bad e data x :
    view_request data = error x -> served e data e [error_response x] [] true
| served_request e data q e' rs rest bad :
    view_request data = complete q ->
    served (serve q e).2 (drop (length (Protocol.request_frame q)) data) e' rs rest bad ->
    served e data e' ((serve q e).1 :: rs) rest bad.

(** Frames are found again whatever follows them. *)
Lemma view_complete_app data more q :
  view_request data = complete q ->
  view_request (data ++ more) = complete q /\
  drop (length (Protocol.request_frame q)) (data ++ more) =
    drop (length (Protocol.request_frame q)) data ++ more.
Proof.
  intros Hv. apply view_canonical in Hv as (Hok & rest & ->). rewrite <- !app_assoc.
  split; [by apply view_roundtrip|]. by rewrite !drop_app_length.
Qed.

(** Serving what came first and then the rest is serving the whole. *)
Lemma served_app e data e1 rs1 rest1 more e2 rs2 rest2 bad :
  served e data e1 rs1 rest1 false -> served e1 (rest1 ++ more) e2 rs2 rest2 bad ->
  served e (data ++ more) e2 (rs1 ++ rs2) rest2 bad.
Proof.
  intros H1. remember false as b eqn:Hb. revert more e2 rs2 rest2 bad.
  induction H1 as [e data Hv|e data x Hv|e data q e' rs rest bad Hv H1 IH]; intros more e2 rs2 rest2 bad2 H2;
    [done|done|]. subst. destruct (view_complete_app data more q Hv) as [Hv' Hd].
  simpl. eapply served_request; [exact Hv'|]. rewrite Hd. by apply IH.
Qed.

Lemma served_bad_app e data e1 rs rest more :
  served e data e1 rs rest true -> served e (data ++ more) e1 rs rest true.
Proof.
  intros H1. remember true as b eqn:Hb. revert Hb.
  induction H1 as [e data Hv|e data x Hv|e data q e' rs rest bad Hv H1 IH]; intros Hb; [done| |].
  - apply served_bad. by apply view_error_app.
  - destruct (view_complete_app data more q Hv) as [Hv' Hd]. eapply served_request; [exact Hv'|].
    rewrite Hd. by apply IH.
Qed.

(** The outcome is determined by the engine and the bytes. *)
Lemma served_det e data e1 rs1 rest1 bad1 :
  served e data e1 rs1 rest1 bad1 -> forall e2 rs2 rest2 bad2, served e data e2 rs2 rest2 bad2 ->
  e2 = e1 /\ rs2 = rs1 /\ rest2 = rest1 /\ bad2 = bad1.
Proof.
  induction 1 as [e data Hv|e data x Hv|e data q e' rs rest bad Hv H IH];
    intros e3 rs3 rest3 bad3 H3; inversion H3; subst; try congruence; try (by split_and!).
  - assert (x0 = x) as -> by congruence. done.
  - assert (q0 = q) as -> by congruence. match goal with
    | Hs : served (serve q e).2 _ e3 _ rest3 bad3 |- _ =>
        destruct (IH _ _ _ _ Hs) as (-> & -> & -> & ->); done
    end.
Qed.

Lemma served_rest_bound e data e' rs rest bad :
  served e data e' rs rest bad -> zlen rest < Protocol.max_request_frame_size.
Proof. induction 1; [by apply view_incomplete_bound|done|done]. Qed.

(** ** The engine's answers can be sent *)

Definition answer_ok (a : Protocol.WireStatus * bytes) : Prop :=
  (exists v, 0 <= v <= 8 /\ a.1 = Protocol.status_of v) /\ zlen a.2 <= Cache.max_value_length.

Lemma wire_status_ok s : exists v, 0 <= v <= 8 /\ Protocol.to_wire_status s = Protocol.status_of v.
Proof.
  exists (match s with ok => 0 | not_found => 1 | invalid_key => 2 | key_too_large => 3
     | value_too_large => 4 | item_too_large => 5 | invalid_ttl => 6 end).
  destruct s; simpl; (split; [lia|done]).
Qed.

Lemma answer_ok_status s : answer_ok (Protocol.to_wire_status s, []).
Proof. split; [apply wire_status_ok|]. simpl. unfold Cache.max_value_length. lia. Qed.

(** A value found in the engine is within the limit. *)
Lemma engine_value_bound cap e ls i items x :
  engine_holds hash cap e ls -> ls !! i = Some items -> x ∈ items ->
  zlen (Lru.i_value x) <= Cache.max_value_length.
Proof.
  intros He Hi Hx. destruct (engine_lookup _ _ _ _ _ _ He Hi) as (sh & _ & _ & Hh & _).
  apply cache_holds_items in Hh as [_ Hok]. rewrite Forall_forall in Hok. by apply Hok.
Qed.

Lemma get_answer_ok cap e ls k items st ov items' :
  engine_holds hash cap e ls -> ls !! CacheEngine.shard_index hash (zlen ls) k = Some items ->
  Lru.get k items = (st, ov, items') ->
  answer_ok (Protocol.to_wire_status st, if decide (st <> ok) then [] else default [] ov).
Proof.
  intros He Hi Hg. split; [apply wire_status_ok|]. simpl. unfold Lru.get in Hg.
  assert (zlen (@nil byte) <= Cache.max_value_length) as H0 by (unfold Cache.max_value_length; simpl; lia).
  destruct (decide (st <> ok)) as [|Hst]; [done|]. apply dec_stable in Hst as ->.
  destruct (decide (Lru.key_status k <> ok)); [naive_solver|].
  destruct (Lru.lookup k items) as [x|] eqn:Hl; [|done]. injection Hg as <- <-. simpl.
  eapply engine_value_bound; [done|done|]. by apply lookup_elem in Hl as [? _].
Qed.

Lemma request_dispatch_wp cap e ls q :
  engine_holds hash cap e ls -> request_ok q ->
  wp (dispatch hash q) e (post
    (fun a e' => answer_ok a /\ exists ls', engine_holds hash cap e' ls')
    (fun _ e' => exists ls', engine_holds hash cap e' ls')).
Proof.
  intros He (Hr & _ & Ht). apply request_refusal_none in Hr as (_ & _ & _ & _ & Ht').
  unfold dispatch. destruct (opcode q).
  - eapply wp_bind_post; [apply (engine_get_wp hash cap e ls _ [] He)|..].
    + intros r e' (items & items' & sh & sh' & Hi & _ & _ & ((ov & Hg & ->) & _) & He' & _).
      apply wp_ret. simpl. split; [exact (get_answer_ok cap e ls _ items r.1 ov items' He Hi Hg)|by eauto].
    + intros x e' (items & items' & sh & sh' & _ & _ & _ & _ & He' & _). simpl. by eauto.
  - eapply wp_bind_post; [apply (engine_set_wp hash cap e ls _ _ (to_i64 (Protocol.ttl_ms q)) He)|..].
    + unfold to_i64. destruct (Z.leb_spec (Protocol.ttl_ms q) i64_max); lia.
    + intros st e' (items & items' & sh & sh' & _ & _ & _ & _ & He' & _). apply wp_ret. simpl.
      split; [apply answer_ok_status|by eauto].
    + intros x e' (items & items' & sh & sh' & _ & _ & _ & _ & He' & _). simpl. by eauto.
  - eapply wp_bind_post; [apply (engine_erase_wp hash cap e ls _ He)|..].
    + intros st e' (items & items' & sh & sh' & _ & _ & _ & _ & He' & _). apply wp_ret. simpl.
      split; [apply answer_ok_status|by eauto].
    + intros x e' (items & items' & sh & sh' & _ & _ & _ & _ & He' & _). simpl. by eauto.
  - apply wp_ret. split; [apply answer_ok_status|by eauto].
Qed.

(** Every request gets an answer that can be encoded. *)
Lemma serve_ok cap e ls q :
  engine_holds hash cap e ls -> request_ok q ->
  exists a, try_catch (dispatch hash q) (fun _ => ret (Protocol.ws_internal_error, [])) e = (Ret a, (serve q e).2) /\
    (serve q e).1 = MkResponse (request_id q) a.1 a.2 /\ response_ok (serve q e).1 /\
    exists ls', engine_holds hash cap (serve q e).2 ls'.
Proof.
  intros He Hq. pose proof (request_dispatch_wp cap e ls q He Hq) as Hd. unfold serve.
  assert (answer_ok (Protocol.ws_internal_error, [])) as Hi.
  { split; [exists 8; split; [lia|done]|]. simpl. unfold Cache.max_value_length. lia. }
  unfold wp in Hd. unfold try_catch.
  destruct (dispatch hash q e) as [[a|x|] e'] eqn:E; simpl in *; [|..|done].
  - destruct Hd as [[Hs Hl] Hls]. exists a. split_and!; [done|done| |done].
    destruct Hq as (_ & Hid & _). split_and!; simpl; [done|done|lia|lia].
  - exists (Protocol.ws_internal_error, []). split_and!; [done|done| |done].
    destruct Hi as [Hs Hl]. destruct Hq as (_ & Hid & _). split_and!; simpl in *; [done|done|lia|lia].
Qed.

(** The malformed-header response can be encoded too. *)
Lemma error_response_ok data x : view_request data = error x -> response_ok (error_response x).
Proof.
  unfold view_request. destruct (Z.ltb_spec (zlen data) Protocol.request_header_size) as [|Hl]; [done|].
  destruct (read_header_some data Hl) as (h & -> & _ & _ & _ & _ & Hid & _).
  destruct (Protocol.request_header_error h) as [what|] eqn:He; [|by destruct (_ <? _)].
  intros [= <-]. split_and!; simpl; [by exists 7| |lia|lia].
  unfold Protocol.request_header_error in He. unfold Cache.max_value_length.
  repeat (case_match; [injection He as <-; vm_compute; done|]). done.
Qed.

(** ** Buffers and queueing *)

Definition input_view (c : Connection.t) : bytes := Buffer.readable_view (input_ c).
Definition output_view (c : Connection.t) : bytes := Buffer.readable_view (output_ c).

Record conn_ok (c : Connection.t) : Prop := {
  conn_input : Buffer.buffer_ok (input_ c);
  conn_output : Buffer.buffer_ok (output_ c);
  conn_limit : 0 <= output_limit_ c < 2 ^ 64;
  conn_bound : zlen (output_view c) <= output_limit_ c
}.

(** The flags and the limit are the same. *)
Definition same_flags (c c' : Connection.t) : Prop :=
  output_limit_ c' = output_limit_ c /\ peer_closed_ c' = peer_closed_ c /\
  close_after_write_ c' = close_after_write_ c /\ close_immediately_ c' = close_immediately_ c.

(** The exceptions of buffers and strings. *)
Definition io_exn (x : exn) : Prop := x = bad_alloc \/ exists w, x = std_length_error w.

Lemma wp_on_env {A} (f : M env A) c e k m Q :
  wp f m (fun o m' => Q o (c, (e, (k, m')))) -> wp (on_env f) (c, (e, (k, m))) Q.
Proof. intros H. by apply wp_on_snd, wp_on_snd, wp_on_snd. Qed.

Lemma wp_on_engine {A} (f : M CacheEngine.t A) (c : Connection.t) e (km : Socket.t * env) Q :
  wp f e (fun o e' => Q o (c, (e', km))) -> wp (on_engine f) (c, (e, km)) Q.
Proof. intros H. by apply wp_on_snd, wp_on_fst. Qed.

Lemma wp_on_socket {A} (f : M Socket.t A) (c : Connection.t) (e : CacheEngine.t) k (m : env) Q :
  wp f k (fun o k' => Q o (c, (e, (k', m)))) -> wp (on_socket f) (c, (e, (k, m))) Q.
Proof. intros H. by apply wp_on_snd, wp_on_snd, wp_on_fst. Qed.

Lemma wp_on_input {A} (f : M (Buffer.t * env) A) c e k m Q :
  wp f (input_ c, m) (fun o s => Q o (set_input s.1 c, (e, (k, s.2)))) ->
  wp (on_input f) (c, (e, (k, m))) Q.
Proof. unfold wp, on_input. simpl. by destruct (f _) as [o [b m']]. Qed.

Lemma wp_on_output {A} (f : M (Buffer.t * env) A) c e k m Q :
  wp f (output_ c, m) (fun o s => Q o (set_output s.1 c, (e, (k, s.2)))) ->
  wp (on_output f) (c, (e, (k, m))) Q.
Proof. unfold wp, on_output. simpl. by destruct (f _) as [o [b m']]. Qed.

Lemma queue_response_wp c e k m r :
  conn_ok c -> response_ok r ->
  wp (queue_response r) (c, (e, (k, m))) (post
    (fun (b : bool) (s : Connection.state) => s.2.1 = e /\ s.2.2.1 = k /\ conn_ok s.1 /\ input_ s.1 = input_ c /\
       if b then output_view s.1 = output_view c ++ response_frame r /\ same_flags c s.1
       else output_limit_ c < zlen (output_view c) + zlen (response_frame r) /\ s.1 = close_immediately c)
    (fun x (s : Connection.state) => s.2.1 = e /\ s.2.2.1 = k /\ s.1 = c /\ io_exn x)).
Proof.
  intros Hc Hr. pose proof Hc as [C1 C2 C3 C4]. unfold queue_response.
  apply wp_bind, wp_on_env, encode_response_wp; [by apply response_ok_refusal|..]; intros fs.
  2: { split_and!; [done|done|done|by left]. }
  apply wp_bind, wp_on_fst, wp_read. cbn beta iota zeta.
  rewrite (Buffer.readable_bytes_view _ C2). fold (output_view c). rewrite !Z.gtb_ltb.
  rewrite (proj2 (Z.ltb_ge _ _)) by done. rewrite orb_false_l, u64_small by lia.
  destruct (Z.ltb_spec (output_limit_ c - zlen (output_view c)) (zlen (response_frame r))) as [Hov|Hov].
  - apply wp_bind, wp_on_fst, wp_modify. cbn beta iota. apply wp_ret. unfold post. cbn [fst snd].
    split_and!; [done|done|by constructor|done|lia|done].
  - apply wp_bind, wp_on_output. eapply wp_mono; [apply (Buffer.append_wp _ _ _ C2)|].
    intros [[]|x|] [b m']; unfold post; cbn [fst snd]; [|..|done].
    + intros (Hb & Hv & _). apply wp_ret. unfold post. cbn [fst snd]. fold (output_view c) in Hv.
      split_and!; [done|done| |done|done|by split_and!].
      constructor; [done|done|done|]. unfold output_view at 1. simpl. rewrite Hv, length_app. lia.
    + intros (-> & _ & Hx). split_and!; [done|done|by destruct c|done].
Qed.

(** ** [process_input] *)

(** What [process_input] ends in when it does not throw. *)
Definition processed (cap : Z) (c : Connection.t) (e : CacheEngine.t) (data : bytes) (b : bool)
    (c' : Connection.t) (e' : CacheEngine.t) : Prop :=
  conn_ok c' /\ (exists ls', engine_holds hash cap e' ls') /\
  output_limit_ c' = output_limit_ c /\ peer_closed_ c' = peer_closed_ c /\
  (length (input_view c') <= length data)%nat /\
  if b then
    exists rs rest bad, served e data e' rs rest bad /\ input_view c' = rest /\
      output_view c' = output_view c ++ concat (response_frame <$> rs) /\
      close_after_write_ c' = bad /\ close_immediately_ c' = false
  else close_immediately_ c' = true.

Definition process_threw (cap : Z) (c : Connection.t) (data : bytes) (x : exn)
    (c' : Connection.t) (e' : CacheEngine.t) : Prop :=
  io_exn x /\ conn_ok c' /\ (exists ls', engine_holds hash cap e' ls') /\
  output_limit_ c' = output_limit_ c /\ peer_closed_ c' = peer_closed_ c /\
  (length (input_view c') <= length data)%nat.

Lemma process_error_wp cap c e k m ls x data :
  conn_ok c -> engine_holds hash cap e ls -> view_request data = error x ->
  close_after_write_ c = false -> close_immediately_ c = false -> input_view c = [] ->
  wp (queue_protocol_error x) (c, (e, (k, m))) (post
    (fun (b : bool) (s : Connection.state) => processed cap c e data b s.1 s.2.1 /\ s.2.2.1 = k)
    (fun x (s : Connection.state) => process_threw cap c data x s.1 s.2.1 /\ s.2.2.1 = k)).
Proof.
  intros Hc He Hv F1 F2 Hi. unfold queue_protocol_error.
  eapply wp_bind_post; [apply (queue_response_wp c e k m _ Hc (error_response_ok _ _ Hv))|..].
  - intros [|] [c' [e' [k' m']]]; cbn [fst snd negb]; intros (-> & -> & Hc' & Hin & H).
    + destruct H as [Ho (L & P & F1' & F2')]. apply wp_bind, wp_on_fst, wp_modify. cbn beta iota.
      apply wp_ret. unfold post. cbn [fst snd]. split; [|done]. destruct Hc'.
      assert (input_view (set_close_after_write c') = []) as Hin' by (unfold input_view in *; simpl; by rewrite Hin).
      split_and!; [by constructor|by eauto|done|done|rewrite Hin'; simpl; lia|].
      exists [error_response x], [], true. split_and!; [by apply served_bad|done|by simpl; rewrite app_nil_r|done|by rewrite <- F2].
    + apply wp_ret. destruct H as [_ ->]. split; [|done].
      split_and!; [done|by eauto|done|done| |done].
      etransitivity; [apply (Nat.eq_le_incl _ (length (input_view c))); done|]. rewrite Hi. simpl. lia.
  - intros y [c' [e' [k' m']]]; cbn [fst snd]; intros (-> & -> & -> & Hy).
    split; [|done]. split_and!; [done|done|by eauto|done|done|]. cbn [fst]. rewrite Hi. simpl. lia.
Qed.

(** A served request before the others. *)
Lemma processed_step cap c e q data b c1 c' e' :
  view_request data = complete q -> same_flags c c1 ->
  output_view c1 = output_view c ++ response_frame (serve q e).1 ->
  processed cap c1 (serve q e).2 (drop (length (Protocol.request_frame q)) data) b c' e' ->
  processed cap c e data b c' e'.
Proof.
  intros Hv (L & P & F1 & F2) Ho (Hc & Hl & L' & P' & Hle & H).
  split_and!; [done|done|congruence|congruence|rewrite length_drop in Hle; lia|].
  destruct b; [|done]. destruct H as (rs & rest & bad & Hs & Hi & Ho' & F1' & F2').
  exists ((serve q e).1 :: rs), rest, bad. split_and!; [by eapply served_request|done| |done|done].
  rewrite Ho', Ho, <- app_assoc. done.
Qed.

Lemma process_rounds_wp cap n c e k m ls :
  conn_ok c -> engine_holds hash cap e ls -> (length (input_view c) < n)%nat ->
  close_after_write_ c = false -> close_immediately_ c = false ->
  wp (process_rounds hash n) (c, (e, (k, m))) (post
    (fun (b : bool) (s : Connection.state) => processed cap c e (input_view c) b s.1 s.2.1 /\ s.2.2.1 = k)
    (fun x (s : Connection.state) => process_threw cap c (input_view c) x s.1 s.2.1 /\ s.2.2.1 = k)).
Proof.
  revert c e m ls. induction n as [|n IH]; intros c e m ls Hc He Hn F1 F2; [lia|]. cbn [process_rounds].
  pose proof Hc as [C1 C2 C3 C4]. apply wp_bind, wp_on_fst, wp_read. cbn beta iota.
  assert (forall rest, input_view c = rest -> view_request rest = incomplete ->
    processed cap c e rest true c e) as Hwait.
  { intros rest Hi Hv. split_and!; [done|by eauto|done|done|by rewrite Hi|]. exists [], rest, false.
    split_and!; [by apply served_rest|done|by rewrite app_nil_r|done|done]. }
  rewrite (Buffer.empty_view _ C1). fold (input_view c). destruct (bool_decide _) eqn:Hem; zsimp.
  { apply wp_ret. split; [|done]. rewrite Hem. by apply Hwait. }
  apply wp_bind, wp_on_input. eapply wp_mono; [apply (decode_request_wp _ m C1)|].
  intros [r|x|] [b m']; unfold post; cbn [fst snd]; [|..|done].
  2: { intros (-> & -> & _). split; [|done]. split_and!; [by left|by destruct c|by eauto|done|done|by destruct c]. }
  fold (input_view c). intros (-> & Hb & _ & Hd).
  assert (conn_ok (set_input b c)) as Hc1 by (by constructor).
  destruct (view_request (input_view c)) as [|q|x] eqn:Hv.
  - apply wp_ret. split; [|done]. specialize (Hwait _ eq_refl Hv).
    destruct Hwait as (_ & W2 & W3 & W4 & _ & rs & rest & bad & W5 & W6 & W7 & W8 & W9).
    assert (input_view (set_input b c) = input_view c) as Hsame by (unfold input_view; simpl; by rewrite Hd).
    split_and!; [done|done|done|done|cbn [fst]; by rewrite Hsame|]. exists rs, rest, bad. split_and!; [done| |done|done|done].
    cbn [fst]. by rewrite Hsame.
  - apply view_canonical in Hv as Hq. destruct Hq as (Hq & rest & Hdata).
    destruct (serve_ok cap e ls q He Hq) as (a & Ha & Hr & Hrok & ls1 & He1).
    unfold execute. apply wp_bind, wp_bind, wp_on_engine. unfold wp at 1. rewrite Ha. cbn beta iota.
    cbn [fst snd]. rewrite <- Hr.
    eapply wp_mono; [apply (queue_response_wp (set_input b c) (serve q e).2 k m' _ Hc1 Hrok)|].
    intros [[|]|x|] [c' [e' [k' m'']]]; unfold post; cbn [fst snd negb]; [|..|done].
    + intros (-> & -> & Hc' & Hin & Ho & Hfl).
      assert (input_view c' = drop (length (Protocol.request_frame q)) (input_view c)) as Hin'.
      { unfold input_view at 1. rewrite Hin. simpl. by rewrite Hd. }
      assert (length (Protocol.request_frame q) <> 0%nat) as Hpos.
      { pose proof (length_request_frame q). unfold Protocol.request_header_size in *. lia. }
      eapply wp_post_mono; [apply (IH c' (serve q e).2 m'' ls1 Hc' He1)|..].
      * assert (length (input_view c) <> 0%nat) by (by destruct (input_view c)).
        rewrite Hin', length_drop. lia.
      * destruct Hfl as (_ & _ & -> & _). done.
      * destruct Hfl as (_ & _ & _ & ->). done.
      * intros b' s' [Hp Hk]. split; [|done]. rewrite Hin' in Hp. by eapply processed_step.
      * intros x s' [(Hx & Hc'' & Hl & L & P & Hle) Hk]. split; [|done]. destruct Hfl as (L' & P' & _).
        split_and!; [done|done|done|by rewrite L|by rewrite P|].
        rewrite Hin', length_drop in Hle. lia.
    + intros (-> & -> & Hc' & Hin & _ & ->). apply wp_ret. split; [|done].
      split_and!; [done|by eauto|done|done| |done]. change (input_view _) with (Buffer.readable_view b) at 1.
      rewrite Hd, length_drop. lia.
    + intros (-> & -> & -> & Hx). split; [|done]. split_and!; [done|done|by eauto|done|done|].
      change (input_view (set_input b c)) with (Buffer.readable_view b). rewrite Hd, length_drop. lia.
  - apply wp_bind, wp_on_fst, wp_modify. cbn beta iota.
    destruct (Buffer.retrieve_all_spec b Hb) as [Hb' Hvw].
    set (c1 := set_input _ _). assert (conn_ok c1) as Hc2 by (by constructor).
    eapply wp_post_mono; [by apply (process_error_wp cap c1 e k m' ls x (input_view c))|..]; done.
Qed.

Lemma process_input_wp cap c e k m ls :
  conn_ok c -> engine_holds hash cap e ls ->
  close_after_write_ c = false -> close_immediately_ c = false ->
  wp (process_input hash) (c, (e, (k, m))) (post
    (fun (b : bool) (s : Connection.state) => processed cap c e (input_view c) b s.1 s.2.1 /\ s.2.2.1 = k)
    (fun x (s : Connection.state) => process_threw cap c (input_view c) x s.1 s.2.1 /\ s.2.2.1 = k)).
Proof.
  intros Hc He F1 F2. unfold process_input. apply wp_bind, wp_on_fst, wp_read. cbn beta iota.
  eapply process_rounds_wp; [done|done| |done|done]. unfold input_view. lia.
Qed.

End serving.
