(* ===== verification/ConnectionIOFacts.v ===== *)
(** * Reading from and writing to the socket *)
From S2P Require Import Prelude ErrorModel Effects MemoryModel ProgressFacts AllocatorModel BufferModel CacheModel.
From S2P Require Import CacheEngineModel CacheEngineFacts ProtocolModel ProtocolFacts ResponseFacts.
From S2P Require Import ConnectionModel ConnectionFacts.
Import Memory.
Import Connection.
Import Protocol(response_frame).

(** The bytes that have arrived and were not received yet. *)
Definition incoming (k : Socket.t) : bytes :=
  Socket.arrivals k ≫= fun x => match x with Socket.chunk b bs => b :: bs | _ => [] end.

Lemma recv_wp n k Q :
  0 < n ->
  (forall bs k', bs <> [] -> zlen bs <= n -> incoming k = bs ++ incoming k' ->
     (Socket.recv_calls k' < Socket.recv_calls k)%nat ->
     Socket.departures k' = Socket.departures k -> Socket.sent k' = Socket.sent k ->
     Q (Ret (Socket.got bs)) k') ->
  Q (Ret Socket.eof) k ->
  (forall e k', incoming k = incoming k' ->
     (e = Socket.EAGAIN /\ k' = k \/ (Socket.recv_calls k' < Socket.recv_calls k)%nat) ->
     Socket.departures k' = Socket.departures k -> Socket.sent k' = Socket.sent k ->
     Q (Ret (Socket.recv_error e)) k') ->
  wp (Socket.recv n) k Q.
Proof.
  intros Hn Hg He Hr. unfold wp, Socket.recv. destruct k as [[|[b bs| |e] rest] ds st]; simpl.
  - apply Hr; [done|by left|done|done].
  - destruct (drop (Z.to_nat n) (b :: bs)) as [|b' bs'] eqn:Hd; simpl.
    + apply Hg; simpl; try done.
      * apply (f_equal length) in Hd. rewrite length_drop in Hd. simpl in Hd. lia.
      * unfold Socket.recv_calls. simpl. lia.
    + pose proof (f_equal length Hd) as Hl. rewrite length_drop in Hl. simpl in Hl.
      apply Hg; simpl; try done.
      * destruct (Z.to_nat n) eqn:E; [lia|done].
      * rewrite length_take. lia.
      * unfold incoming. simpl. rewrite (app_comm_cons bs' _ b'), app_assoc, <- Hd, take_drop. done.
      * unfold Socket.recv_calls. simpl. lia.
  - done.
  - apply Hr; simpl; try done. right. unfold Socket.recv_calls. simpl. lia.
Qed.

Section reading.
Variable hash : bytes -> Z.

(** What a call of [handle_readable] ends in: part [stream] of the bytes arrived
    was received; unless the connection is closing, it and the bytes held before
    were served. *)
Definition read_done (cap : Z) (c : Connection.t) (e : CacheEngine.t) (k : Socket.t)
    (c' : Connection.t) (e' : CacheEngine.t) (k' : Socket.t) : Prop :=
  conn_ok c' /\ (exists ls', engine_holds hash cap e' ls') /\ output_limit_ c' = output_limit_ c /\
  zlen (input_view c') <= max_input_buffer_size /\
  Socket.departures k' = Socket.departures k /\ Socket.sent k' = Socket.sent k /\
  exists stream, incoming k = stream ++ incoming k' /\
    (close_immediately_ c' = true \/
     zlen (input_view c') < Protocol.max_request_frame_size /\ close_immediately_ c' = false /\
     exists rs rest bad, served hash e (input_view c ++ stream) e' rs rest bad /\ input_view c' = rest /\
       output_view c' = output_view c ++ concat (response_frame <$> rs) /\ close_after_write_ c' = bad /\
       (peer_closed_ c' = peer_closed_ c \/ output_view c' <> [])).

Definition read_threw (cap : Z) (c : Connection.t) (x : exn)
    (c' : Connection.t) (e' : CacheEngine.t) : Prop :=
  io_exn x /\ conn_ok c' /\ (exists ls', engine_holds hash cap e' ls') /\
  output_limit_ c' = output_limit_ c /\ zlen (input_view c') <= max_input_buffer_size.

(** Reading on after a chunk that was served. *)
Lemma read_done_step cap c e k c1 e1 k1 c' e' k' bs rs rest bad :
  served hash e (input_view c ++ bs) e1 rs rest bad -> input_view c1 = rest ->
  output_view c1 = output_view c ++ concat (response_frame <$> rs) ->
  output_limit_ c1 = output_limit_ c -> peer_closed_ c1 = peer_closed_ c ->
  close_after_write_ c1 = bad -> close_immediately_ c1 = false ->
  incoming k = bs ++ incoming k1 -> Socket.departures k1 = Socket.departures k -> Socket.sent k1 = Socket.sent k ->
  bad = false ->
  read_done cap c1 e1 k1 c' e' k' -> read_done cap c e k c' e' k'.
Proof.
  intros Hs Hi Ho Hl Hp F1 F2 Hk Hd Ht -> (Hc & Hls & L & B & D & S & stream & Hst & H).
  split_and!; [done|done|congruence|done|congruence|congruence|].
  exists (bs ++ stream). split; [by rewrite Hk, Hst, app_assoc|].
  destruct H as [H|(Hb & F & rs' & rest' & bad' & Hs' & Hi' & Ho' & F' & P')]; [by left|right].
  split_and!; [done|done|]. exists (rs ++ rs'), rest', bad'. split_and!; [|done| |done|by rewrite <- Hp].
  - rewrite app_assoc. eapply served_app; [exact Hs|]. by rewrite <- Hi.
  - by rewrite Ho', Ho, fmap_app, concat_app, app_assoc.
Qed.

(** A call that reads nothing more. *)
Lemma read_done_stop cap c e k k' ls :
  conn_ok c -> engine_holds hash cap e ls -> incoming k = incoming k' ->
  Socket.departures k' = Socket.departures k -> Socket.sent k' = Socket.sent k ->
  view_request (input_view c) = Protocol.incomplete -> close_after_write_ c = false -> close_immediately_ c = false ->
  read_done cap c e k c e k'.
Proof.
  intros Hc He Hk Hd Ht Hv F1 F2. pose proof (view_incomplete_bound _ Hv) as Hb.
  assert (Protocol.max_request_frame_size <= max_input_buffer_size)
    by (unfold max_input_buffer_size, read_chunk_size; lia).
  split_and!; [done|by eauto|done|lia|done|done|]. exists []. split; [done|]. right. split_and!; [done|done|].
  exists [], (input_view c), false. rewrite !app_nil_r. split_and!; [by apply served_rest|done|done|done|by left].
Qed.

(** A connection that closes, whatever it has read. *)
Lemma read_done_closing cap c e k c' e' k' bs ls' :
  conn_ok c' -> engine_holds hash cap e' ls' -> output_limit_ c' = output_limit_ c ->
  zlen (input_view c') <= max_input_buffer_size -> close_immediately_ c' = true ->
  incoming k = bs ++ incoming k' -> Socket.departures k' = Socket.departures k -> Socket.sent k' = Socket.sent k ->
  read_done cap c e k c' e' k'.
Proof. intros. split_and!; try done; [by eauto|]. exists bs. split; [done|by left]. Qed.

Lemma close_immediately_ok c : conn_ok c -> conn_ok (close_immediately c).
Proof. intros []. by constructor. Qed.

(** The end of the stream: what was served stays served; with nothing left to
    send, the connection closes. *)
Lemma read_done_eof cap c e k ls :
  conn_ok c -> engine_holds hash cap e ls ->
  view_request (input_view c) = Protocol.incomplete -> close_after_write_ c = false -> close_immediately_ c = false ->
  read_done cap c e k (note_peer_closed c) e k.
Proof.
  intros Hc He Hv F1 F2. pose proof Hc as [C1 C2 C3 C4].
  destruct (read_done_stop cap c e k k ls Hc He eq_refl eq_refl eq_refl Hv F1 F2)
    as (_ & Hl & _ & B & _ & _ & stream & Hst & [H|H]); [congruence|].
  unfold note_peer_closed. cbn zeta. change (output_ (set_peer_closed c)) with (output_ c).
  rewrite (Buffer.empty_view _ C2). change (Buffer.readable_view _) with (output_view c).
  destruct (bool_decide (output_view c = [])) eqn:Ho; zsimp.
  - apply (read_done_closing cap c e k _ _ _ [] ls); done || by constructor.
  - split_and!; [by constructor|done|done|done|done|done|]. exists stream. split; [done|]. right.
    destruct H as (B' & F2' & rs & rest & bad & H1 & H2 & H3 & H4 & _). split_and!; [done|done|].
    exists rs, rest, bad. split_and!; [done|done|done|done|by right].
Qed.

Lemma read_rounds_wp cap n c e k m ls :
  conn_ok c -> engine_holds hash cap e ls -> (Socket.recv_calls k < n)%nat ->
  view_request (input_view c) = Protocol.incomplete -> close_after_write_ c = false -> close_immediately_ c = false ->
  wp (read_rounds hash n) (c, (e, (k, m))) (post
    (fun _ (s : Connection.state) => read_done cap c e k s.1 s.2.1 s.2.2.1)
    (fun x (s : Connection.state) => read_threw cap c x s.1 s.2.1)).
Proof.
  revert c e k m ls. induction n as [|n IH]; intros c e k m ls Hc He Hn Hv F1 F2; [lia|].
  cbn [read_rounds]. apply wp_bind, wp_on_fst, wp_read. cbn beta iota. rewrite F1, F2. cbn [orb].
  pose proof (view_incomplete_bound _ Hv) as Hb. pose proof Hc as [C1 C2 C3 C4].
  apply wp_bind, wp_on_socket, recv_wp; [by unfold read_chunk_size| |apply wp_on_fst, wp_modify; by eapply read_done_eof|].
  2: { intros err k' Hk Hcalls Hd Ht. cbn beta iota.
       assert (read_done cap c e k c e k') as Hstop by (by eapply read_done_stop).
       destruct (decide (err = Socket.EINTR)) as [->|Hne].
       - destruct Hcalls as [[? _]|Hcalls]; [done|].
         eapply wp_post_mono; [apply (IH c e k' m ls); (done || lia)|..]; [|by intros].
         intros _ s (R1 & R2 & R3 & R4 & R5 & R6 & stream & R7 & R8).
         split_and!; [done|done|done|done|congruence|congruence|]. exists stream. by rewrite Hk.
       - destruct (decide _); [by apply wp_ret|]. apply wp_on_fst, wp_modify.
         apply (read_done_closing cap c e k _ _ _ [] ls); try done; try by apply close_immediately_ok.
         unfold max_input_buffer_size, read_chunk_size. cbn [fst]. change (input_view (close_immediately c)) with (input_view c). lia. }
  intros bs k' Hbs Hlen Hk Hcalls Hd Ht. cbn beta iota. apply wp_bind, wp_on_fst, wp_read. cbn beta iota.
  rewrite (Buffer.readable_bytes_view _ C1). fold (input_view c).
  unfold max_input_buffer_size, read_chunk_size in *.
  assert (Protocol.max_request_frame_size = 1048858) as Hmax by reflexivity.
  rewrite u64_small, Z.gtb_ltb, (proj2 (Z.ltb_ge _ _)) by lia.
  apply wp_bind, wp_on_input. eapply wp_mono; [apply (Buffer.append_wp bs _ m C1)|].
  intros [[]|x|] [b m']; unfold post; cbn [fst snd]; [|..|done].
  2: { intros (-> & _ & Hx). split_and!; [done|by destruct c|by eauto|done|].
       unfold max_input_buffer_size, read_chunk_size. cbn [fst]. change (input_view (set_input (input_ c) c)) with (input_view c). lia. }
  intros (Hb' & Hvw & _). set (c1 := set_input b c).
  assert (input_view c1 = input_view c ++ bs) as Hin by done.
  assert (conn_ok c1) as Hc1 by (by constructor).
  eapply wp_bind_post; [apply (process_input_wp hash cap c1 e k' m' ls Hc1 He); done|..].
  2: { intros x [c' [e' [k'' m'']]]; cbn [fst snd]; intros [(Hx & Hc' & Hl & L & P & Hle) _].
       split_and!; [done|done|done|done|]. unfold max_input_buffer_size, read_chunk_size.
       rewrite Hin, length_app in Hle. cbn [fst]. lia. }
  intros [|] [c' [e' [k'' m'']]]; cbn [fst snd negb]; intros [(Hc' & (ls' & Hl) & L & P & Hle & H) ->].
  - destruct H as (rs & rest & bad & Hs & Hi & Ho & F1' & F2'). rewrite Hin in Hs.
    destruct bad.
    + destruct n as [|n]; [lia|]. cbn [read_rounds]. apply wp_bind, wp_on_fst, wp_read. cbn beta iota.
      rewrite F1'. cbn [orb]. apply wp_ret. unfold post. cbn [fst snd].
      pose proof (served_rest_bound _ _ _ _ _ _ _ Hs) as Hrb.
      split_and!; [done|by eauto|done|unfold max_input_buffer_size, read_chunk_size; rewrite Hi; lia|done|done|].
      exists bs. split; [done|]. right. rewrite Hi. split_and!; [done|done|].
      exists rs, rest, true. split_and!; [done|done|done|done|by left].
    + assert (view_request (input_view c') = Protocol.incomplete) as Hv'.
      { rewrite Hi. clear -Hs. remember false as f. induction Hs; [done|done|auto]. }
      eapply wp_post_mono; [apply (IH c' e' k' m'' ls'); (done || lia)|..].
      * intros [] s. by apply (read_done_step cap c e k c' e' k' _ _ _ bs rs rest false).
      * intros x s (R1 & R2 & R3 & R4 & R5). split_and!; [done|done|done|by rewrite R4|done].
  - apply wp_ret. apply (read_done_closing cap c e k _ _ _ bs ls'); try done.
    rewrite Hin, length_app in Hle. unfold max_input_buffer_size, read_chunk_size. cbn [fst]. lia.
Qed.

Lemma handle_readable_wp cap c e k m ls :
  conn_ok c -> engine_holds hash cap e ls ->
  view_request (input_view c) = Protocol.incomplete -> close_after_write_ c = false -> close_immediately_ c = false ->
  wp (handle_readable hash) (c, (e, (k, m))) (post
    (fun b (s : Connection.state) => read_done cap c e k s.1 s.2.1 s.2.2.1 /\ b = negb (close_immediately_ s.1))
    (fun x (s : Connection.state) => read_threw cap c x s.1 s.2.1)).
Proof.
  intros Hc He Hv F1 F2. unfold handle_readable. apply wp_bind, wp_read. cbn [fst snd].
  eapply wp_bind_post; [eapply (read_rounds_wp cap); (done || lia)|..]; [|done].
  intros _ [c' s'] H. apply wp_bind, wp_on_fst, wp_read. cbn beta iota. by apply wp_ret.
Qed.

End reading.

(** ** Writing *)

(** What [handle_writable] keeps: the bytes sent and still queued are, in order,
    those that were. *)
Definition write_frame (c : Connection.t) (k : Socket.t) (c' : Connection.t) (k' : Socket.t) : Prop :=
  conn_ok c' /\ input_ c' = input_ c /\ output_limit_ c' = output_limit_ c /\
  peer_closed_ c' = peer_closed_ c /\ close_after_write_ c' = close_after_write_ c /\
  Socket.arrivals k' = Socket.arrivals k /\
  Socket.sent k' ++ output_view c' = Socket.sent k ++ output_view c.

Lemma write_frame_trans c1 k1 c2 k2 c3 k3 :
  write_frame c1 k1 c2 k2 -> write_frame c2 k2 c3 k3 -> write_frame c1 k1 c3 k3.
Proof.
  intros (A1 & A2 & A3 & A4 & A5 & A6 & A7) (B1 & B2 & B3 & B4 & B5 & B6 & B7).
  unfold write_frame. split_and!; congruence || done.
Qed.

Lemma write_frame_close c k k' :
  conn_ok c -> Socket.arrivals k' = Socket.arrivals k -> Socket.sent k' = Socket.sent k ->
  write_frame c k (close_immediately c) k'.
Proof. intros Hc Ha Hs. split_and!; try done; [by apply close_immediately_ok|by rewrite Hs]. Qed.

(** The socket took [n] bytes of the output. *)
Lemma write_frame_send c k k' n :
  conn_ok c -> 0 < n <= zlen (output_view c) -> Socket.arrivals k' = Socket.arrivals k ->
  Socket.sent k' = Socket.sent k ++ take (Z.to_nat n) (output_view c) ->
  exists b, Buffer.retrieve n (output_ c) = Some b /\ write_frame c k (set_output b c) k'.
Proof.
  intros [C1 C2 C3 C4] Hn Ha Hs. destruct (Buffer.retrieve_spec (output_ c) n C2) as (b & Hr & Hb & Hd);
    [unfold output_view in *; lia|].
  exists b. split; [done|]. split_and!; try done.
  - constructor; try done. unfold output_view at 1. simpl. rewrite Hd, length_drop. unfold output_view in *. lia.
  - rewrite Hs. unfold output_view. simpl. by rewrite Hd, <- app_assoc, take_drop.
Qed.

(** The bytes that a list of answers of [send] has room for. *)
Fixpoint total_room (ds : list Socket.departure) : Z :=
  match ds with
  | [] => 0
  | Socket.room r :: ds => Z.max 0 r + total_room ds
  | Socket.refused _ :: ds => total_room ds
  end.

(** An answer that says the socket would block, and one that ends the
    connection: no byte taken, or an error other than an interruption. *)
Definition would_block (d : Socket.departure) : Prop :=
  d = Socket.refused Socket.EAGAIN \/ d = Socket.refused Socket.EWOULDBLOCK.
Definition breaks (d : Socket.departure) : Prop :=
  match d with
  | Socket.room r => r <= 0
  | Socket.refused err => err <> Socket.EINTR /\ ~ would_block d
  end.

(** How writing ended, given the answers [used]: nothing is queued any more; or
    the socket would block (it did, or has no answer left); or it failed. *)
Definition write_end (r : option bool) (used : list Socket.departure) (c' : Connection.t) (k' : Socket.t) : Prop :=
  match r with
  | None => output_view c' = []
  | Some true => output_view c' <> [] /\
      (Socket.departures k' = [] \/ exists d, last used = Some d /\ would_block d)
  | Some false => output_view c' <> [] /\ exists d, last used = Some d /\ breaks d
  end.

(** The bytes sent are as many of the queued ones, from the first, as the answers
    met have room for. *)
Definition wrote (c : Connection.t) (k : Socket.t) (r : option bool) (c' : Connection.t) (k' : Socket.t) : Prop :=
  exists used, Socket.departures k = used ++ Socket.departures k' /\
    Socket.sent k' = Socket.sent k ++ take (Z.to_nat (total_room used)) (output_view c) /\
    write_end r used c' k'.

Lemma total_room_nonneg ds : 0 <= total_room ds.
Proof. induction ds as [|[]]; simpl; lia. Qed.

Lemma write_end_cons r d used c' k' :
  used <> [] \/ r = None \/ (r = Some true /\ Socket.departures k' = []) ->
  write_end r used c' k' -> write_end r (d :: used) c' k'.
Proof.
  intros Hu. destruct r as [[]|]; simpl; [| |done].
  - intros [Ho [He|(d' & Hl & Hd)]]; (split; [done|]); [by left|right]. exists d'. split; [|done].
    by destruct used.
  - intros [Ho (d' & Hl & Hd)]. split; [done|]. exists d'. split; [|done]. by destruct used.
Qed.

(** One more answer in front: an interruption, or room for [z] bytes, [j] of them used. *)
Lemma wrote_cons c k r c' k' d c1 k1 j z :
  Socket.departures k = d :: Socket.departures k1 -> (forall ds, total_room (d :: ds) = z + total_room ds) ->
  j = Z.min z (zlen (output_view c)) -> 0 <= z ->
  Socket.sent k1 = Socket.sent k ++ take (Z.to_nat j) (output_view c) ->
  output_view c1 = drop (Z.to_nat j) (output_view c) ->
  wrote c1 k1 r c' k' -> wrote c k r c' k'.
Proof.
  intros Hd Hz Hj Hz0 Hs Ho (used & U1 & U2 & U3). exists (d :: used). split_and!.
  - by rewrite Hd, U1.
  - rewrite U2, Hs, Ho, <- app_assoc, take_take_drop, Hz. f_equal. pose proof (total_room_nonneg used).
    destruct (Z.le_gt_cases z (zlen (output_view c))).
    + f_equal. lia.
    + rewrite !take_ge by lia. done.
  - apply write_end_cons; [|done]. destruct used as [|]; [|by left]. right.
    destruct r as [[]|]; [right|exfalso|by left].
    + split; [done|]. destruct U3 as [_ [?|(? & ? & _)]]; done.
    + by destruct U3 as [_ (? & ? & _)].
Qed.

Lemma write_rounds_wp n c e k m :
  conn_ok c -> (length (Socket.departures k) < n)%nat -> close_immediately_ c = false ->
  wp (write_rounds n) (c, (e, (k, m))) (post
    (fun r (s : Connection.state) => s.2.1 = e /\ write_frame c k s.1 s.2.2.1 /\
       close_immediately_ s.1 = bool_decide (r = Some false) /\ wrote c k r s.1 s.2.2.1)
    (fun _ _ => False)).
Proof.
  revert c k. induction n as [|n IH]; intros c k Hc Hn F; [lia|]. cbn [write_rounds].
  apply wp_bind, wp_on_fst, wp_read. cbn beta iota. pose proof Hc as [C1 C2 C3 C4].
  rewrite (Buffer.empty_view _ C2), F, orb_false_r. fold (output_view c).
  destruct (bool_decide (output_view c = [])) eqn:Hem; zsimp.
  { apply wp_ret. unfold post. cbn [fst snd]. split_and!; try done. exists []. by rewrite app_nil_r. }
  assert (forall d k', Socket.arrivals k' = Socket.arrivals k -> Socket.sent k' = Socket.sent k ->
    Socket.departures k = d :: Socket.departures k' -> breaks d -> total_room [d] = 0 ->
    wp (on_connection (modify close_immediately) ;; ret (Some false)) (c, (e, (k', m))) (post
    (fun r (s : Connection.state) => s.2.1 = e /\ write_frame c k s.1 s.2.2.1 /\
       close_immediately_ s.1 = bool_decide (r = Some false) /\ wrote c k r s.1 s.2.2.1)
    (fun _ _ => False))) as Hclose.
  { intros d k' Ha Hs Hd Hb Hr. apply wp_bind, wp_on_fst, wp_modify. cbn beta iota. apply wp_ret. unfold post. cbn [fst snd].
    split_and!; [done|by apply write_frame_close|done|]. exists [d]. rewrite Hr, Hs, app_nil_r.
    split_and!; [done|done|split; [done|by exists d]]. }
  apply wp_bind, wp_on_socket. unfold wp at 1, Socket.send. destruct k as [ar ds st]. cbn [Socket.departures Socket.arrivals Socket.sent] in *.
  destruct ds as [|[r|err] ds]; cbn [fst snd].
  - rewrite decide_False by done. rewrite decide_True by auto. apply wp_ret. unfold post. cbn [fst snd].
    split_and!; try done. exists []. split_and!; [done|by rewrite app_nil_r|split; [done|by left]].
  - set (j := Z.max 0 (Z.min r (zlen (output_view c)))). fold (output_view c).
    destruct (Z.ltb_spec 0 j) as [Hj|Hj].
    + destruct (write_frame_send c (Socket.MkSocket ar (Socket.room r :: ds) st)
        (Socket.MkSocket ar ds (st ++ take (Z.to_nat j) (output_view c))) j Hc) as (b & Hr & Hw); [lia|done|done|].
      destruct (Buffer.retrieve_spec (output_ c) j C2) as (b' & Hr' & _ & Hd); [unfold output_view in *; lia|].
      rewrite Hr in Hr'. injection Hr' as <-.
      apply wp_bind, wp_on_fst. eapply wp_modify_opt; [by rewrite Hr|]. cbn beta iota.
      eapply wp_post_mono; [apply (IH (set_output b c))|..]; [apply Hw|simpl in *; lia|done| |done].
      intros r' s (-> & Hw' & H1 & H2). split_and!; [done|by eapply write_frame_trans|done|].
      eapply (wrote_cons c _ _ _ _ (Socket.room r) _ _ j (Z.max 0 r)); [..|exact H2]; try done; lia.
    + apply (Hclose (Socket.room r)); cbn [Socket.arrivals Socket.sent Socket.departures]; [done| |done|simpl; unfold output_view in *|simpl].
      * assert (j = 0) as -> by lia. by rewrite app_nil_r.
      * destruct (Buffer.readable_view (output_ c)); [done|]. simpl in j. lia.
      * assert (output_view c <> []) by done. destruct (output_view c); [done|]. simpl in j. lia.
  - destruct (decide (err = Socket.EINTR)) as [->|].
    + eapply wp_post_mono; [apply (IH c); [done|simpl in *; lia|done]|..]; [|done].
      intros r' s (-> & Hw' & H1 & H2). split_and!; [done| |done|].
      * by eapply (write_frame_trans c _ c (Socket.MkSocket ar ds st)).
      * eapply (wrote_cons c _ _ _ _ (Socket.refused Socket.EINTR) _ _ 0 0); [..|exact H2]; try done; [lia|].
        cbn [Socket.sent]. by rewrite app_nil_r.
    + destruct (decide _) as [Hblk|Hblk].
      * apply wp_ret. unfold post. cbn [fst snd]. split_and!; try done. exists [Socket.refused err].
        split_and!; [done|by rewrite app_nil_r|split; [done|]].
        right. exists (Socket.refused err). split; [done|]. destruct Hblk as [->| ->]; [by left|by right].
      * apply (Hclose (Socket.refused err)); try done. split; [done|]. intros [[= ->]|[= ->]]; tauto.
Qed.

(** What [handle_writable] does: it sends what the answers of [send] have room
    for, until nothing is queued, the socket would block or it fails; it gives
    [false], and the connection is to close, when the socket failed or nothing is
    queued on a connection that was to close. *)
Definition writable_done (c : Connection.t) (k : Socket.t) (b : bool) (c' : Connection.t) (k' : Socket.t) : Prop :=
  exists r, wrote c k r c' k' /\
    match r with
    | None => b = negb (close_after_write_ c || peer_closed_ c)
    | Some b' => b = b'
    end.

Lemma handle_writable_wp c e k m :
  conn_ok c -> close_immediately_ c = false ->
  wp handle_writable (c, (e, (k, m))) (post
    (fun b (s : Connection.state) => s.2.1 = e /\ write_frame c k s.1 s.2.2.1 /\
       b = negb (close_immediately_ s.1) /\ writable_done c k b s.1 s.2.2.1)
    (fun _ _ => False)).
Proof.
  intros Hc F. unfold handle_writable. apply wp_bind, wp_read. cbn [fst snd].
  eapply wp_bind_post; [eapply write_rounds_wp; (done || lia)|..]; [|done].
  intros [b|] [c' [e' [k' m']]]; cbn [fst snd]; intros (-> & Hw & Hb & Hwr).
  - apply wp_ret. unfold post. cbn [fst snd]. split_and!; [done|done|by rewrite Hb; destruct b|by exists (Some b)].
  - apply wp_bind, wp_on_fst, wp_modify. cbn beta iota. apply wp_bind, wp_on_fst, wp_read. cbn beta iota.
    apply wp_ret. unfold post. cbn [fst snd]. pose proof Hwr as (used & _ & _ & Ho). simpl in Ho.
    pose proof Hw as (Hc' & W2 & W3 & W4 & W5 & W6 & W7).
    rewrite (Buffer.empty_view _ (conn_output _ Hc')). fold (output_view c'). rewrite bool_decide_eq_true_2 by done.
    simpl andb. rewrite W5, W4. destruct (close_after_write_ c || peer_closed_ c)%bool eqn:Hor.
    + split_and!; [done| |done|].
      * eapply write_frame_trans; [exact Hw|]. by apply write_frame_close.
      * exists None. rewrite Hor. split; [exact Hwr|done].
    + split_and!; [done|done|by unfold should_close; rewrite Hb|]. exists None. rewrite Hor.
      split; [done|]. unfold should_close. by rewrite Hb.
Qed.

(** A connection that was to close and has nothing queued is closed. *)
Lemma writable_closes c k b c' k' :
  writable_done c k b c' k' -> output_view c' = [] ->
  close_after_write_ c = true \/ peer_closed_ c = true -> b = false.
Proof.
  intros (r & (used & _ & _ & Hend) & Hb) Ho Hcl. destruct r as [[]|]; [by destruct Hend|done|].
  rewrite Hb. destruct Hcl as [H|H]; by rewrite H, ?orb_true_r.
Qed.

(** What the socket took is off the queue. *)
Lemma wrote_rest c k r c' k' :
  write_frame c k c' k' -> wrote c k r c' k' ->
  exists used, Socket.departures k = used ++ Socket.departures k' /\
    Socket.sent k' = Socket.sent k ++ take (Z.to_nat (total_room used)) (output_view c) /\
    output_view c' = drop (Z.to_nat (total_room used)) (output_view c) /\ write_end r used c' k'.
Proof.
  intros (_ & _ & _ & _ & _ & _ & H) (used & U1 & U2 & U3). exists used. split_and!; try done.
  rewrite U2, <- app_assoc in H. apply app_inv_head in H.
  rewrite <- (take_drop (Z.to_nat (total_room used)) (output_view c)) in H at 2. by apply app_inv_head in H.
Qed.

(** ** No allocation failure

    While none is scheduled for the thread, none becomes scheduled. *)
Definition conn_quiet (s : Connection.state) : Prop := quiet s.2.2.2.

Lemma on_storage_lasting {A} (f : M (CharVector.t * env) A) :
  lasting (at_snd quiet) f -> lasting (at_snd quiet) (Buffer.on_storage f).
Proof.
  intros Hf [b e] He. specialize (Hf (Buffer.storage_ b, e) He). unfold Buffer.on_storage. cbn [fst snd].
  by destruct (f _) as [o [v e']].
Qed.

Lemma resize_lasting n : lasting (at_snd quiet) (CharVector.resize n).
Proof. unfold CharVector.resize. lasting_step. Qed.

Lemma reserve_lasting n : lasting (at_snd quiet) (CharVector.reserve n).
Proof. unfold CharVector.reserve. lasting_step. Qed.

#[local] Hint Resolve on_storage_lasting resize_lasting reserve_lasting : lasting.

Lemma append_lasting bs : lasting (at_snd quiet) (Buffer.append bs).
Proof.
  unfold Buffer.append, Buffer.append_raw, Buffer.prepare_append. lasting_step.
  intros [b e] He. cbn [fst snd]. match goal with |- context [CharVector.reserve ?n ?s] =>
    pose proof (reserve_lasting n s He); destruct (CharVector.reserve n s) as [o [v e']] end. by destruct o.
Qed.

Lemma decode_request_lasting : lasting (at_snd quiet) Protocol.decode_request.
Proof. unfold Protocol.decode_request, Protocol.fail, Protocol.assign. lasting_step. Qed.

Lemma encode_response_lasting r : lasting quiet (Protocol.encode_response r).
Proof. unfold Protocol.encode_response. lasting_step. Qed.

#[local] Hint Resolve append_lasting decode_request_lasting encode_response_lasting : lasting.

Lemma on_connection_lasting {A} (f : M Connection.t A) : lasting conn_quiet (on_connection f).
Proof. exact (lasting_on_fst (at_snd (at_snd quiet)) f). Qed.

Lemma on_engine_lasting {A} (f : M CacheEngine.t A) : lasting conn_quiet (on_engine f).
Proof. exact (lasting_on_snd _ _ (lasting_on_fst (at_snd quiet) f)). Qed.

Lemma on_stream_lasting {A} (f : M Socket.t A) : lasting conn_quiet (on_socket f).
Proof. exact (lasting_on_snd _ _ (lasting_on_snd _ _ (lasting_on_fst quiet f))). Qed.

Lemma on_memory_lasting {A} (f : M env A) : lasting quiet f -> lasting conn_quiet (on_env f).
Proof. intros Hf. exact (lasting_on_snd _ _ (lasting_on_snd _ _ (lasting_on_snd _ _ Hf))). Qed.

Lemma on_input_lasting {A} (f : M (Buffer.t * env) A) : lasting (at_snd quiet) f -> lasting conn_quiet (on_input f).
Proof.
  intros Hf s Hs. specialize (Hf (input_ s.1, s.2.2.2) Hs). unfold on_input. by destruct (f _) as [o [b e]].
Qed.

Lemma on_output_lasting {A} (f : M (Buffer.t * env) A) : lasting (at_snd quiet) f -> lasting conn_quiet (on_output f).
Proof.
  intros Hf s Hs. specialize (Hf (output_ s.1, s.2.2.2) Hs). unfold on_output. by destruct (f _) as [o [b e]].
Qed.

#[local] Hint Resolve on_connection_lasting on_engine_lasting on_stream_lasting on_memory_lasting
  on_input_lasting on_output_lasting : lasting.

Lemma queue_response_lasting r : lasting conn_quiet (queue_response r).
Proof. unfold queue_response. lasting_step. Qed.

#[local] Hint Resolve queue_response_lasting : lasting.

Lemma process_rounds_lasting hash n : lasting conn_quiet (process_rounds hash n).
Proof. induction n as [|n IH]; cbn [process_rounds]; unfold queue_protocol_error, execute; lasting_step. Qed.

Lemma handle_readable_lasting hash : lasting conn_quiet (handle_readable hash).
Proof.
  unfold handle_readable. apply lasting_bind; [apply lasting_read|]. intros s0. generalize (S (Socket.recv_calls s0.2.2.1)) as n.
  intros n. apply lasting_bind; [|intros []; lasting_step]. induction n as [|n IH]; cbn [read_rounds]; [lasting_step|].
  unfold process_input. pose proof (process_rounds_lasting hash) as Hp. lasting_step.
Qed.

Lemma handle_writable_lasting : lasting conn_quiet handle_writable.
Proof.
  unfold handle_writable. apply lasting_bind; [apply lasting_read|]. intros s0. generalize (S (length (Socket.departures s0.2.2.1))) as n.
  intros n. apply lasting_bind; [|intros []; lasting_step]. induction n as [|n IH]; cbn [write_rounds]; lasting_step.
Qed.
