(* ===== verification/TextModel.v ===== *)
(** * Text: the parts of [<string_view>], [<string>] and [<charconv>] the
    program uses to read and print its inputs

    Indices of [find] are [option nat], [None] being [npos]. *)
From S2P Require Import Prelude.

(** ** Searching *)

Definition find_char (c : byte) (s : bytes) : option nat := fst <$> list_find (fun b => b = c) s.

Definition find_first_not_of (set s : bytes) : option nat := fst <$> list_find (fun b => b ∉ set) s.

Definition find_last_not_of (set s : bytes) : option nat :=
  (fun i => (length s - 1 - i)%nat) <$> find_first_not_of set (reverse s).

(** [substr(pos, count)] with [pos] in range. *)
Definition substr (pos count : nat) (s : bytes) : bytes := take count (drop pos s).

(** ** Decimal numbers *)

Definition digit_value (b : byte) : option Z :=
  let v := Z.of_N (Byte.to_N b) in
  if (48 <=? v) && (v <=? 57) then Some (v - 48) else None.

Definition digit (d : Z) : byte := default Byte.x00 (Byte.of_N (Z.to_N (48 + d))).

(** The digits of [n] before [acc]; a [std::uint64_t] has at most twenty. *)
Fixpoint digits (fuel : nat) (n : Z) (acc : bytes) : bytes :=
  match fuel with
  | O => acc
  | S fuel =>
      if n <? 10 then digit n :: acc else digits fuel (n / 10) (digit (n mod 10) :: acc)
  end.

(** [std::to_string] of a [std::size_t] or [std::uint64_t]. *)
Definition to_decimal (n : Z) : bytes := digits 20 n [].

(** The longest run of digits, and what follows it. *)
Fixpoint scan_digits (acc : Z) (s : bytes) : Z * bytes :=
  match s with
  | [] => (acc, [])
  | b :: rest =>
      match digit_value b with
      | Some d => scan_digits (acc * 10 + d) rest
      | None => (acc, s)
      end
  end.

Inductive FromChars :=
| fc_invalid                        (** [errc::invalid_argument] *)
| fc_range (rest : bytes)           (** [errc::result_out_of_range] *)
| fc_ok (v : Z) (rest : bytes).     (** the value, and the characters from [end] on *)

(** [std::from_chars(first, last, value)] for an unsigned type of maximum [max]:
    no sign, no white space, and all the digits there are. *)
Definition from_chars (max : Z) (s : bytes) : FromChars :=
  match s with
  | b :: _ =>
      match digit_value b with
      | Some _ =>
          let '(v, rest) := scan_digits 0 s in
          if v >? max then fc_range rest else fc_ok v rest
      | None => fc_invalid
      end
  | [] => fc_invalid
  end.

(** The usual test after it: no error, and everything consumed. *)
Definition whole_number (max : Z) (s : bytes) : option Z :=
  match from_chars max s with
  | fc_ok v [] => Some v
  | _ => None
  end.

(** ** Facts *)

Lemma digit_value_range b d : digit_value b = Some d -> 0 <= d <= 9.
Proof. unfold digit_value. destruct (_ && _) eqn:H; [|done]. intros [= <-]. zsimp. lia. Qed.

Lemma digit_value_digit d : 0 <= d <= 9 -> digit_value (digit d) = Some d.
Proof.
  intros Hd. assert (d = 0 \/ d = 1 \/ d = 2 \/ d = 3 \/ d = 4 \/ d = 5 \/ d = 6 \/ d = 7 \/ d = 8 \/ d = 9) as H by lia.
  repeat destruct H as [->|H]; try reflexivity. by subst.
Qed.

(** Reading the digits of a number that was printed. *)
Lemma scan_digits_print fuel n tl :
  0 <= n < 10 ^ Z.of_nat fuel ->
  exists k, 0 <= k /\ forall a, scan_digits a (digits fuel n tl) = scan_digits (a * k + n) tl.
Proof.
  revert n tl. induction fuel as [|fuel IH]; intros n tl Hn.
  { exists 1. simpl in *. split; [lia|]. intros a. f_equal. lia. }
  cbn [digits]. destruct (Z.ltb_spec n 10) as [Hs|Hs].
  - exists 10. split; [lia|]. intros a. cbn [scan_digits]. by rewrite digit_value_digit by lia.
  - rewrite Nat2Z.inj_succ, Z.pow_succ_r in Hn by lia.
    pose proof (Z.div_mod n 10 ltac:(lia)) as Hd. pose proof (Z.mod_pos_bound n 10 ltac:(lia)) as Hm.
    destruct (IH (n / 10) (digit (n mod 10) :: tl)) as (k & Hk & H).
    { split; [apply Z.div_pos; lia|]. apply Z.div_lt_upper_bound; lia. }
    exists (k * 10). split; [lia|]. intros a. rewrite H. cbn [scan_digits].
    rewrite digit_value_digit by lia. f_equal. lia.
Qed.

Lemma digits_head fuel n tl :
  0 <= n -> (fuel <> 0)%nat -> exists b rest, digits fuel n tl = b :: rest /\ is_Some (digit_value b).
Proof.
  revert n tl. induction fuel as [|fuel IH]; intros n tl Hn Hf; [done|]. cbn [digits].
  destruct (Z.ltb_spec n 10) as [Hs|Hs].
  - eexists _, tl. split; [done|]. rewrite digit_value_digit by lia. by eexists.
  - destruct fuel as [|fuel]; [|by apply IH; [apply Z.div_pos; lia|]].
    cbn [digits]. pose proof (Z.mod_pos_bound n 10 ltac:(lia)).
    eexists _, tl. split; [done|]. rewrite digit_value_digit by lia. by eexists.
Qed.

(** What is printed reads back. *)
Lemma whole_number_print max n : 0 <= n <= max -> max <= u64_max -> whole_number max (to_decimal n) = Some n.
Proof.
  intros Hn Hm. unfold whole_number, from_chars, to_decimal.
  destruct (digits_head 20 n [] ltac:(lia) ltac:(done)) as (b & rest & Hb & [d Hd]).
  destruct (scan_digits_print 20 n []) as (k & _ & Hk).
  { unfold u64_max in Hm. change (10 ^ Z.of_nat 20) with 100000000000000000000. lia. }
  specialize (Hk 0). rewrite Hb in *. rewrite Hd, Hk. cbn [scan_digits].
  rewrite Z.gtb_ltb, (proj2 (Z.ltb_ge _ _)) by lia. done.
Qed.

Lemma scan_digits_nonneg a s : 0 <= a -> a <= (scan_digits a s).1.
Proof.
  revert a. induction s as [|b s IH]; intros a Ha; simpl; [lia|].
  destruct (digit_value b) as [d|] eqn:Hd; [|simpl; lia].
  apply digit_value_range in Hd. specialize (IH (a * 10 + d)). lia.
Qed.

Lemma whole_number_range max s v : whole_number max s = Some v -> 0 <= v <= max.
Proof.
  unfold whole_number, from_chars. destruct s as [|b s]; [done|]. destruct (digit_value b); [|done].
  pose proof (scan_digits_nonneg 0 (b :: s)) as H. destruct (scan_digits 0 (b :: s)) as [w rest].
  destruct (w >? max) eqn:Hw; [done|]. destruct rest; [|done]. intros [= <-]. zsimp. simpl in H. lia.
Qed.
