(* ===== verification/NumberModel.v ===== *)
(** * Doubles and random numbers

    The values of type [double] and what the program does with them, on the Standard
    Library's specification of IEEE-754 arithmetic: conversions from integers and from
    decimal text, products and quotients rounded to nearest, comparison, rounding to
    integers, and printing with a fixed number of digits.

    [std::mt19937_64], by the transition of the standard: the state is the last 312 words
    of the sequence, oldest first. [std::shuffle] and [std::uniform_int_distribution] are
    specified only up to what the class [RandomLaws] states: a permutation, and a number
    within the bounds. *)
From Stdlib Require Import SpecFloat.
From S2P Require Import Prelude TextModel.

Module Double.

Definition prec : Z := 53.
Definition emax : Z := 1024.

Definition t : Type := spec_float.

(** [static_cast<double>(n)]. *)
Definition of_Z (n : Z) : t := binary_normalize prec emax n 0 false.

Definition mul (x y : t) : t := SFmul prec emax x y.
Definition div (x y : t) : t := SFdiv prec emax x y.
Definition lt (x y : t) : bool := SFltb x y.
Definition zero : t := S754_zero false.

(** [std::isfinite]. *)
Definition is_finite (x : t) : bool :=
  match x with S754_zero _ | S754_finite _ _ _ => true | S754_infinity _ | S754_nan => false end.

(** The double nearest to [m * 10 ^ e], with a sign. *)
Definition of_decimal (s : bool) (m e : Z) : t :=
  match m with
  | Zpos p =>
      if 0 <=? e then binary_round prec emax s (Z.to_pos (m * 10 ^ e)) 0
      else
        let '(q, e', l) := SFdiv_core_binary prec emax m 0 (10 ^ (- e)) 0 in
        binary_round_aux prec emax s q e' l
  | _ => S754_zero s
  end.

(** The smallest integer that is not less. *)
Definition ceil_div (a b : Z) : Z := - ((- a) / b).

(** [static_cast<std::size_t>(std::ceil(x))]; the cast of a value that does not fit is
    undefined. *)
Definition ceil (x : t) : option Z :=
  match x with
  | S754_zero _ => Some 0
  | S754_finite false m e =>
      let c := if 0 <=? e then Zpos m * 2 ^ e else ceil_div (Zpos m) (2 ^ (- e)) in
      if c <=? u64_max then Some c else None
  | S754_finite true m e =>
      let c := if 0 <=? e then - (Zpos m * 2 ^ e) else - (Zpos m / 2 ^ (- e)) in
      if 0 <=? c then Some c else None
  | S754_infinity _ | S754_nan => None
  end.

(** [std::llround]: to nearest, halves away from zero; unspecified out of range. *)
Definition round_half_up (a b : Z) : Z := (2 * a + b) / (2 * b).

Definition llround (x : t) : option Z :=
  match x with
  | S754_zero _ => Some 0
  | S754_finite s m e =>
      let c := if 0 <=? e then Zpos m * 2 ^ e else round_half_up (Zpos m) (2 ^ (- e)) in
      let c := if s then - c else c in
      if (- 2 ^ 63 <=? c) && (c <=? i64_max) then Some c else None
  | S754_infinity _ | S754_nan => None
  end.

(** To nearest, halves to even. *)
Definition round_half_even (a b : Z) : Z :=
  let q := a / b in
  match 2 * (a mod b) ?= b with
  | Lt => q
  | Gt => q + 1
  | Eq => if Z.even q then q else q + 1
  end.

(** [output << std::fixed << std::setprecision(3) << x]. *)
Definition pad3 (n : Z) : bytes := [digit (n / 100); digit (n / 10 mod 10); digit (n mod 10)].

Definition to_fixed3 (x : t) : bytes :=
  let sign (s : bool) := if s then lit "-" else [] in
  match x with
  | S754_zero s => sign s ++ lit "0.000"
  | S754_infinity s => sign s ++ lit "inf"
  | S754_nan => lit "nan"
  | S754_finite s m e =>
      let v := if 0 <=? e then Zpos m * 2 ^ e * 1000 else round_half_even (Zpos m * 1000) (2 ^ (- e)) in
      sign s ++ digits 309 (v / 1000) [] ++ lit "." ++ pad3 (v mod 1000)
  end.

(** ** [std::from_chars(first, last, double)] *)

(** The longest run of digits: the number read so far extended by it, how many digits it
    has, and what follows. *)
Fixpoint scan_number (acc : Z) (count : Z) (s : bytes) : Z * Z * bytes :=
  match s with
  | [] => (acc, count, [])
  | b :: rest =>
      match digit_value b with
      | Some d => scan_number (acc * 10 + d) (count + 1) rest
      | None => (acc, count, s)
      end
  end.

Definition starts_with (c : byte) (s : bytes) : option bytes :=
  match s with b :: rest => if decide (b = c) then Some rest else None | [] => None end.

(** The exponent part, taken only when it has digits. *)
Definition scan_exponent (s : bytes) : Z * bytes :=
  match s with
  | b :: rest =>
      if decide (b = Byte.x65 \/ b = Byte.x45)
      then
        let '(negative, rest') :=
          match starts_with Byte.x2d rest with
          | Some rest' => (true, rest')
          | None => (false, default rest (starts_with Byte.x2b rest))
          end in
        match scan_number 0 0 rest' with
        | (_, 0, _) => (0, s)
        | (e, _, rest'') => (if negative : bool then - e else e, rest'')
        end
      else (0, s)
  | [] => (0, s)
  end.

(** A decimal number that fills the text, in the general format, and the nearest double.
    Nothing for a text that has another form or is followed by something, for the names of
    infinities and not-a-numbers, and for a number out of the range of finite doubles
    (too large, or not zero and too small): the program treats all alike. *)
Definition from_chars_finite (s : bytes) : option t :=
  let '(negative, s1) :=
    match starts_with Byte.x2d s with Some rest => (true, rest) | None => (false, s) end in
  let '(whole, n1, s2) := scan_number 0 0 s1 in
  let '(mantissa, n2, s3) :=
    match starts_with Byte.x2e s2 with
    | Some rest => scan_number whole 0 rest
    | None => (whole, 0, s2)
    end in
  if n1 + n2 =? 0 then None
  else
    let '(e, s4) := scan_exponent s3 in
    match s4 with
    | [] =>
        let x := of_decimal negative mantissa (e - n2) in
        match x with
        | S754_zero _ => if mantissa =? 0 then Some x else None
        | _ => if is_finite x then Some x else None
        end
    | _ => None
    end.

End Double.

(** The doubles of some numbers, with their significand and exponent. *)
Example double_095 : Double.of_decimal false 95 (-2) = S754_finite false 8556839292003942 (-53).
Proof. by vm_compute. Qed.

(** ** Random numbers *)

Module Mt19937.

Definition n : nat := 312.
Definition m : nat := 156.
Definition multiplier : Z := 6364136223846793005.

Definition t : Type := list Z.

(** [std::mt19937_64(seed)]. *)
Fixpoint seed_from (k : nat) (i x : Z) : list Z :=
  match k with
  | O => []
  | S k => x :: seed_from k (i + 1) (u64 (multiplier * Z.lxor x (Z.shiftr x 62) + (i + 1)))
  end.

Definition create (seed : Z) : t := seed_from n 0 (u64 seed).

Definition twist (x y z : Z) : Z :=
  let w := Z.lor (Z.land x 0xffffffff80000000) (Z.land y 0x7fffffff) in
  Z.lxor z (Z.lxor (Z.shiftr w 1) (if Z.testbit w 0 then 0xb5026f5aa96619e9 else 0)).

Definition temper (x : Z) : Z :=
  let x := Z.lxor x (Z.land (Z.shiftr x 29) 0x5555555555555555) in
  let x := Z.lxor x (Z.land (u64 (Z.shiftl x 17)) 0x71d67fffeda60000) in
  let x := Z.lxor x (Z.land (u64 (Z.shiftl x 37)) 0xfff7eee000000000) in
  Z.lxor x (Z.shiftr x 43).

(** [generator()]. *)
Definition next (g : t) : Z * t :=
  match g with
  | x :: ((y :: _) as rest) =>
      let v := twist x y (nth m g 0) in (temper v, rest ++ [v])
  | _ => (0, g)
  end.

Fixpoint skip (k : nat) (g : t) : t :=
  match k with O => g | S k => skip k (next g).2 end.

End Mt19937.

(** What the program asks of a generator besides. *)
Class Random := {
  shuffle : forall {A}, Mt19937.t -> list A -> list A * Mt19937.t;
  uniform_int : Z -> Mt19937.t -> Z * Mt19937.t   (** from 0 to a bound, inclusive *)
}.

Class RandomLaws (R : Random) := {
  shuffle_perm A g (l : list A) : (shuffle g l).1 ≡ₚ l;
  uniform_int_range bound g : 0 <= bound -> 0 <= (uniform_int bound g).1 <= bound
}.

(** The standard fixes the ten thousandth number of a default-seeded generator. *)
Example mt19937_64_10000 : (Mt19937.next (Mt19937.skip (Z.to_nat 9999) (Mt19937.create 5489))).1 = 9981545732273789042.
Proof. by vm_compute. Qed.
