(* ===== verification/FloatFacts.v ===== *)
(** * Rounding of doubles

    What rounding to 53 bits does to a positive number: it moves it by at most half a
    unit in the last place and never past a number of the same grid; and what the
    products and conversions of the program make of it. *)
From Stdlib Require Import SpecFloat.
From S2P Require Import Prelude TextModel NumberModel.
Import Double.

(** ** Digits *)

Lemma digits2_spec p : 2 ^ (Zpos (digits2_pos p) - 1) <= Zpos p < 2 ^ Zpos (digits2_pos p).
Proof.
  induction p as [p IH|p IH|]; cbn [digits2_pos]; [..|done].
  - rewrite Pos2Z.inj_succ. replace (Z.succ (Zpos (digits2_pos p)) - 1) with (Zpos (digits2_pos p)) by lia.
    rewrite Z.pow_succ_r by lia.
    replace (2 ^ Zpos (digits2_pos p)) with (2 * 2 ^ (Zpos (digits2_pos p) - 1)) in *
      by (rewrite <- Z.pow_succ_r by lia; f_equal; lia). lia.
  - rewrite Pos2Z.inj_succ. replace (Z.succ (Zpos (digits2_pos p)) - 1) with (Zpos (digits2_pos p)) by lia.
    rewrite Z.pow_succ_r by lia.
    replace (2 ^ Zpos (digits2_pos p)) with (2 * 2 ^ (Zpos (digits2_pos p) - 1)) in *
      by (rewrite <- Z.pow_succ_r by lia; f_equal; lia). lia.
Qed.

Lemma Zdigits2_spec n : 0 < n -> 0 < Zdigits2 n /\ 2 ^ (Zdigits2 n - 1) <= n < 2 ^ Zdigits2 n.
Proof. destruct n as [|p|p]; [lia| |lia]. intros _. split; [simpl; lia|apply digits2_spec]. Qed.

(** The number of digits is determined by the bounds. *)
Lemma Zdigits2_le n d : 0 <= n < 2 ^ d -> 0 <= d -> Zdigits2 n <= d.
Proof.
  intros Hn Hd. destruct (Z.eq_dec n 0) as [->|H0]; [done|].
  destruct (Zdigits2_spec n ltac:(lia)) as [H1 H2]. destruct (Z.le_gt_cases (Zdigits2 n) d); [done|].
  pose proof (Z.pow_le_mono_r 2 d (Zdigits2 n - 1) ltac:(lia) ltac:(lia)). lia.
Qed.

Lemma Zdigits2_unique n d : 2 ^ (d - 1) <= n < 2 ^ d -> 0 < d -> Zdigits2 n = d.
Proof.
  intros Hn Hd. assert (0 < 2 ^ (d - 1)) by (apply Z.pow_pos_nonneg; lia).
  destruct (Zdigits2_spec n ltac:(lia)) as [H1 H2]. pose proof (Zdigits2_le n d ltac:(lia) ltac:(lia)).
  destruct (Z.le_gt_cases d (Zdigits2 n)); [lia|].
  pose proof (Z.pow_le_mono_r 2 (Zdigits2 n) (d - 1) ltac:(lia) ltac:(lia)). lia.
Qed.

(** ** Shifting right *)

Lemma iter_pos_nat {A} (f : A -> A) n x : SpecFloat.iter_pos f n x = Nat.iter (Pos.to_nat n) f x.
Proof.
  revert x. induction n as [n IH|n IH|]; intros x; cbn [SpecFloat.iter_pos].
  - rewrite !IH, Pos2Nat.inj_xI, <- Nat.iter_add. rewrite <- Nat.iter_succ_r. f_equal. lia.
  - rewrite !IH, Pos2Nat.inj_xO, <- Nat.iter_add. f_equal. lia.
  - done.
Qed.

(** What is left of [n] after [k] steps: the quotient, the bit below it, and whether
    anything was lost below that. *)
Definition shifted (n : Z) (k : nat) : shr_record :=
  match k with
  | O => Build_shr_record n false false
  | S k => Build_shr_record (n / 2 ^ Z.of_nat (S k)) (Z.odd (n / 2 ^ Z.of_nat k)) (negb (n mod 2 ^ Z.of_nat k =? 0))
  end.

Lemma shr_1_nonneg m r s : 0 <= m -> shr_1 (Build_shr_record m r s) = Build_shr_record (m / 2) (Z.odd m) (r || s).
Proof.
  intros Hm. destruct m as [|[p|p|]|p]; try lia; simpl; f_equal; try done.
  - rewrite Pos2Z.inj_xI. apply (Z.div_unique _ _ _ 1); lia.
  - rewrite Pos2Z.inj_xO. apply (Z.div_unique _ _ _ 0); lia.
Qed.

Lemma shr_1_shifted n k : 0 <= n -> shr_1 (shifted n k) = shifted n (S k).
Proof.
  intros Hn. destruct k as [|k]; cbn [shifted].
  - rewrite shr_1_nonneg by done. change (Z.of_nat 1) with 1. change (Z.of_nat 0) with 0. rewrite Z.pow_1_r, Z.pow_0_r, Z.div_1_r, Z.mod_1_r. done.
  - assert (0 < 2 ^ Z.of_nat k) as Hk by (apply Z.pow_pos_nonneg; lia).
    rewrite shr_1_nonneg by (apply Z.div_pos; lia). rewrite !Nat2Z.inj_succ, !Z.pow_succ_r by lia. f_equal.
    + rewrite Z.div_div by lia. f_equal. lia.
    + rewrite (Z.mul_comm 2), Z.rem_mul_r, Zmod_odd by lia. pose proof (Z.mod_pos_bound n (2 ^ Z.of_nat k) Hk).
      destruct (Z.odd _); [|by rewrite Z.mul_0_r, Z.add_0_r]. cbn [orb]. symmetry. apply negb_true_iff, Z.eqb_neq. lia.
Qed.

Lemma shr_shifted n e k :
  0 <= n -> shr (Build_shr_record n false false) e k = (shifted n (Z.to_nat k), e + Z.max 0 k).
Proof.
  intros Hn. destruct k as [|p|p]; [by rewrite Z.add_0_r| |by rewrite Z.add_0_r]. cbn [shr].
  replace (Z.max 0 (Zpos p)) with (Zpos p) by lia. f_equal. rewrite iter_pos_nat, <- Z2Nat.inj_pos.
  generalize (Z.to_nat (Zpos p)). intros k. induction k as [|k IH]; [done|]. rewrite Nat.iter_succ, IH. by apply shr_1_shifted.
Qed.

Lemma shifted_zero k : shr_m (shifted 0 k) = 0.
Proof. destruct k as [|k]; [done|]. cbn [shifted shr_m]. apply Z.div_0_l. apply Z.pow_nonzero; lia. Qed.

(** ** Rounding to nearest *)

Definition nearest (n : Z) (k : nat) : Z := round_nearest_even (shr_m (shifted n k)) (loc_of_shr_record (shifted n k)).

Lemma nearest_spec n k :
  0 <= n ->
  n / 2 ^ Z.of_nat k <= nearest n k <= n / 2 ^ Z.of_nat k + 1 /\
  (n mod 2 ^ Z.of_nat k = 0 -> nearest n k = n / 2 ^ Z.of_nat k) /\
  2 * Z.abs (nearest n k * 2 ^ Z.of_nat k - n) <= 2 ^ Z.of_nat k.
Proof.
  intros Hn. destruct k as [|k].
  { unfold nearest. cbn [shifted shr_m loc_of_shr_record round_nearest_even]. change (Z.of_nat 0) with 0. rewrite Z.pow_0_r, Z.div_1_r. lia. }
  assert (0 < 2 ^ Z.of_nat k) as Hk by (apply Z.pow_pos_nonneg; lia).
  unfold nearest. cbn [shifted shr_m]. rewrite !Nat2Z.inj_succ, !Z.pow_succ_r by lia.
  set (h := 2 ^ Z.of_nat k) in *. set (q := n / (2 * h)).
  pose proof (Z.div_mod n h ltac:(lia)) as D1. pose proof (Z.mod_pos_bound n h Hk) as B1.
  pose proof (Zdiv2_odd_eqn (n / h)) as D2. rewrite Z.div2_div, Z.div_div, Z.mul_comm in D2 by lia. rewrite (Z.mul_comm h 2) in D2. fold q in D2.
  assert (n mod (2 * h) = (if Z.odd (n / h) then h else 0) + n mod h) as Hm.
  { pose proof (Z.div_mod n (2 * h) ltac:(lia)) as D3. fold q in D3. destruct (Z.odd (n / h)); nia. }
  rewrite Hm. destruct (Z.odd (n / h)), (Z.eqb_spec (n mod h) 0); cbn [negb loc_of_shr_record round_nearest_even];
    try destruct (Z.even q); (split; [lia|]); (split; [lia|]); nia.
Qed.

(** Rounding does not go past a number of the grid. *)
Lemma nearest_le n k c : 0 <= n -> n <= c * 2 ^ Z.of_nat k -> nearest n k <= c.
Proof.
  intros Hn Hc. assert (0 < 2 ^ Z.of_nat k) as Hk by (apply Z.pow_pos_nonneg; lia).
  destruct (nearest_spec n k Hn) as (H1 & H2 & _). pose proof (Z.div_mod n (2 ^ Z.of_nat k) ltac:(lia)) as D.
  pose proof (Z.mod_pos_bound n (2 ^ Z.of_nat k) Hk) as B.
  destruct (Z.eq_dec (n mod 2 ^ Z.of_nat k) 0) as [E|E]; [specialize (H2 E)|]; nia.
Qed.

Lemma nearest_ge n k c : 0 <= n -> c * 2 ^ Z.of_nat k <= n -> c <= nearest n k.
Proof.
  intros Hn Hc. assert (0 < 2 ^ Z.of_nat k) as Hk by (apply Z.pow_pos_nonneg; lia).
  destruct (nearest_spec n k Hn) as (H1 & _). pose proof (Z.div_le_lower_bound n (2 ^ Z.of_nat k) c Hk ltac:(lia)). lia.
Qed.

(** ** [binary_round_aux] *)

Definition excess (d ex : Z) : Z := Z.max 0 (fexp prec emax (d + ex) - ex).

Lemma fexp_value e : fexp prec emax e = Z.max (e - 53) (-1074).
Proof. done. Qed.

(** The second normalisation: only a carry to [2 ^ 53] changes the significand. *)
Lemma renormalise s n e :
  0 < n <= 2 ^ 53 -> -1074 <= e <= 900 ->
  exists m j, 0 <= j /\ Zpos m * 2 ^ j = n /\ Zpos m < 2 ^ 53 /\ (n < 2 ^ 53 -> j = 0) /\
    (let '(mrs, e') := shr_fexp prec emax n e loc_Exact in
     match shr_m mrs with
     | Z0 => S754_zero s
     | Zpos m => if e' <=? emax - prec then S754_finite s m e' else S754_infinity s
     | Zneg _ => S754_nan
     end) = S754_finite s m (e + j).
Proof.
  intros Hn He. unfold shr_fexp. cbn [shr_record_of_loc]. rewrite shr_shifted, fexp_value by lia.
  destruct (Z.eq_dec n (2 ^ 53)) as [->|Hne].
  - exists (Z.to_pos (2 ^ 52)), 1. split_and!; [lia|done|done|lia|].
    replace (Z.max (Zdigits2 (2 ^ 53) + e - 53) (-1074) - e) with 1 by (change (Zdigits2 (2 ^ 53)) with 54; lia).
    change (shr_m (shifted (2 ^ 53) (Z.to_nat 1))) with (Zpos (Z.to_pos (2 ^ 52))). cbv iota beta.
    change (Z.max 0 1) with 1. change (emax - prec) with 971. by rewrite (proj2 (Z.leb_le _ _)) by lia.
  - pose proof (Zdigits2_le n 53 ltac:(lia) ltac:(lia)). destruct n as [|p|p]; [lia| |lia].
    exists p, 0. split_and!; [lia|lia|lia|done|].
    replace (Z.to_nat (Z.max (Zdigits2 (Zpos p) + e - 53) (-1074) - e)) with 0%nat by lia. cbn [shifted shr_m].
    replace (Z.max 0 (Z.max (Zdigits2 (Zpos p) + e - 53) (-1074) - e)) with 0 by lia.
    change (emax - prec) with 971. by rewrite (proj2 (Z.leb_le _ _)) by lia.
Qed.

Lemma nearest_bound n ex : 0 < n -> nearest n (Z.to_nat (excess (Zdigits2 n) ex)) <= 2 ^ 53.
Proof.
  intros Hn. destruct (Zdigits2_spec n Hn) as [H1 H2]. apply nearest_le; [lia|]. unfold excess. rewrite fexp_value.
  rewrite <- Z.pow_add_r by lia. pose proof (Z.pow_le_mono_r 2 (Zdigits2 n) (53 + Z.of_nat (Z.to_nat (Z.max 0 (Z.max (Zdigits2 n + ex - 53) (-1074) - ex))))). lia.
Qed.

(** An exact positive number [n * 2 ^ ex] is rounded to a multiple of [2 ^ (ex + excess)]. *)
Lemma round_exact s n ex :
  0 < n -> ex + excess (Zdigits2 n) ex <= 900 -> 0 < nearest n (Z.to_nat (excess (Zdigits2 n) ex)) ->
  exists m j, 0 <= j /\ Zpos m * 2 ^ j = nearest n (Z.to_nat (excess (Zdigits2 n) ex)) /\ Zpos m < 2 ^ 53 /\
    (nearest n (Z.to_nat (excess (Zdigits2 n) ex)) < 2 ^ 53 -> j = 0) /\
    binary_round_aux prec emax s n ex loc_Exact = S754_finite s m (ex + excess (Zdigits2 n) ex + j).
Proof.
  intros Hn He Hm. pose proof (nearest_bound n ex Hn) as Hb.
  destruct (renormalise s (nearest n (Z.to_nat (excess (Zdigits2 n) ex))) (ex + excess (Zdigits2 n) ex)) as (m & j & Hj & H1 & H2 & H2' & H3).
  { lia. }
  { unfold excess in *. rewrite fexp_value in *. lia. }
  exists m, j. split_and!; [done|done|done|done|]. rewrite <- H3. unfold binary_round_aux, shr_fexp at 1.
  cbn [shr_record_of_loc]. rewrite shr_shifted by lia. unfold nearest, excess.
  replace (Z.to_nat (Z.max 0 (fexp prec emax (Zdigits2 n + ex) - ex))) with (Z.to_nat (fexp prec emax (Zdigits2 n + ex) - ex)) by lia.
  done.
Qed.

(** ** Conversion of integers *)

Lemma iter_xO p d : Zpos (Pos.iter xO p d) = Zpos p * 2 ^ Zpos d.
Proof.
  revert p. induction d as [|d IH] using Pos.peano_ind; intros p; [by rewrite Pos2Z.inj_xO, Z.pow_1_r, Z.mul_comm|].
  rewrite Pos.iter_succ, Pos2Z.inj_xO, IH, Pos2Z.inj_succ, Z.pow_succ_r by lia. lia.
Qed.

Lemma of_Z_spec n :
  0 < n < 2 ^ 53 -> exists m e, of_Z n = S754_finite false m e /\ -52 <= e <= 0 /\ Zpos m = n * 2 ^ (- e).
Proof.
  intros Hn. destruct n as [|p|p]; [lia| |lia]. destruct (digits2_spec p) as [D1 D2].
  assert (Zpos (digits2_pos p) <= 53) as Hd by (apply (Zdigits2_le (Zpos p)); lia).
  set (d := Zpos (digits2_pos p)) in *. assert (0 < d) by lia.
  assert (of_Z (Zpos p) = binary_round_aux prec emax false (Zpos p * 2 ^ (53 - d)) (d - 53) loc_Exact) as ->.
  { unfold of_Z, binary_normalize, binary_round, shl_align. fold d. rewrite fexp_value.
    replace (Z.max (d + 0 - 53) (-1074) - 0) with (d - 53) by lia. replace (Z.max (d + 0 - 53) (-1074)) with (d - 53) by lia.
    destruct (d - 53) as [|q|q] eqn:E; [|lia|].
    - replace (53 - d) with 0 by lia. by rewrite Z.mul_1_r.
    - rewrite iter_xO. by replace (53 - d) with (Zpos q) by lia. }
  assert (Zdigits2 (Zpos p * 2 ^ (53 - d)) = 53) as Hdig.
  { assert (2 ^ (53 - 1) = 2 ^ (d - 1) * 2 ^ (53 - d)) as E1 by (rewrite <- Z.pow_add_r by lia; f_equal; lia).
    assert (2 ^ 53 = 2 ^ d * 2 ^ (53 - d)) as E2 by (rewrite <- Z.pow_add_r by lia; f_equal; lia).
    apply Zdigits2_unique; [|lia]. rewrite E1, E2. assert (0 < 2 ^ (53 - d)) by (apply Z.pow_pos_nonneg; lia). nia. }
  assert (excess (Zdigits2 (Zpos p * 2 ^ (53 - d))) (d - 53) = 0) as Hex by (rewrite Hdig; unfold excess; rewrite fexp_value; lia).
  destruct (Zdigits2_spec (Zpos p * 2 ^ (53 - d))) as [_ HN]; [assert (0 < 2 ^ (53 - d)) by (apply Z.pow_pos_nonneg; lia); lia|].
  rewrite Hdig in HN. change (53 - 1) with 52 in HN.
  assert (nearest (Zpos p * 2 ^ (53 - d)) (Z.to_nat 0) = Zpos p * 2 ^ (53 - d)) as Hne by done.
  destruct (round_exact false (Zpos p * 2 ^ (53 - d)) (d - 53)) as (m & j & Hj & H1 & H2 & H3 & H4);
    rewrite ?Hex, ?Hne in *; [lia|lia|lia|].
  rewrite H3 in * by lia. exists m, (d - 53). split_and!; [rewrite H4; f_equal; lia|lia|lia|].
  replace (- (d - 53)) with (53 - d) by lia. change (2 ^ 0) with 1 in H1. lia.
Qed.

(** ** Rounding to integers *)

Lemma pow2_split e u : 0 <= e + u -> e < 0 -> 2 ^ u = 2 ^ (e + u) * 2 ^ (- e).
Proof. intros. rewrite <- Z.pow_add_r by lia. f_equal. lia. Qed.

(** For a number given as a fraction of [2 ^ u]. *)
Lemma ceil_spec m e u c :
  0 <= u -> 0 <= e + u -> (c - 1) * 2 ^ u < Zpos m * 2 ^ (e + u) <= c * 2 ^ u -> 0 <= c <= u64_max ->
  ceil (S754_finite false m e) = Some c.
Proof.
  intros Hu Heu Hc Hr. cbn [ceil]. assert ((if 0 <=? e then Zpos m * 2 ^ e else ceil_div (Zpos m) (2 ^ (- e))) = c) as ->.
  { assert (0 < 2 ^ u) by (apply Z.pow_pos_nonneg; lia). destruct (Z.leb_spec 0 e) as [He|He].
    - rewrite Z.pow_add_r in Hc by lia. nia.
    - rewrite (pow2_split e u) in Hc by lia. assert (0 < 2 ^ (e + u)) by (apply Z.pow_pos_nonneg; lia).
      assert (0 < 2 ^ (- e)) as Hb by (apply Z.pow_pos_nonneg; lia). set (b := 2 ^ (- e)) in *.
      assert ((c - 1) * b < Zpos m <= c * b) as Hm by nia. unfold ceil_div.
      assert (- Zpos m / b = - c); [|lia]. symmetry. apply (Z.div_unique _ _ _ (c * b - Zpos m)); nia. }
  by rewrite (proj2 (Z.leb_le _ _)) by lia.
Qed.

Lemma llround_spec m e u c :
  0 <= u -> 0 <= e + u -> (2 * c - 1) * 2 ^ u <= 2 * Zpos m * 2 ^ (e + u) < (2 * c + 1) * 2 ^ u -> 0 <= c <= i64_max ->
  llround (S754_finite false m e) = Some c.
Proof.
  intros Hu Heu Hc Hr. cbn [llround]. assert ((if 0 <=? e then Zpos m * 2 ^ e else round_half_up (Zpos m) (2 ^ (- e))) = c) as ->.
  { assert (0 < 2 ^ u) by (apply Z.pow_pos_nonneg; lia). destruct (Z.leb_spec 0 e) as [He|He].
    - rewrite Z.pow_add_r in Hc by lia. nia.
    - rewrite (pow2_split e u) in Hc by lia. assert (0 < 2 ^ (e + u)) by (apply Z.pow_pos_nonneg; lia).
      assert (0 < 2 ^ (- e)) as Hb by (apply Z.pow_pos_nonneg; lia). set (b := 2 ^ (- e)) in *.
      assert ((2 * c - 1) * b <= 2 * Zpos m < (2 * c + 1) * b) as Hm by nia. unfold round_half_up.
      symmetry. apply (Z.div_unique _ _ _ (2 * Zpos m + b - c * (2 * b))); nia. }
  unfold i64_max in *. by rewrite !(proj2 (Z.leb_le _ _)) by lia.
Qed.

(** ** Products with an integer *)

Lemma pow2_pos k : 0 <= k -> 0 < 2 ^ k.
Proof. intros. by apply Z.pow_pos_nonneg. Qed.

(** The product of [mq * 2 ^ eq] and [n] is rounded from [N / 2 ^ u] to [R / 2 ^ u], where
    [N] is the exact product on a common denominator. *)
Record product (mq : positive) (eq n : Z) (x : t) (en k R : Z) : Prop := {
  pr_en : -52 <= en <= 0;
  pr_k : 0 <= k;
  pr_size : k = 0 \/ 2 ^ (k + 52) <= n * Zpos mq * 2 ^ (- en) \/ k <= - en;
  pr_near : 2 * Z.abs (R - n * Zpos mq * 2 ^ (- en)) <= 2 ^ k;
  pr_below : forall c, n * Zpos mq * 2 ^ (- en) <= c * 2 ^ k -> R <= c * 2 ^ k;
  pr_value : R = 0 /\ x = S754_zero false \/
    exists m e, x = S754_finite false m e /\ 0 <= e - (eq + en) /\ Zpos m * 2 ^ (e - (eq + en)) = R
}.

Lemma round_product mq eq n mn en :
  0 < n < 2 ^ 53 -> Zpos mq < 2 ^ 53 -> -1074 <= eq <= 0 -> -52 <= en <= 0 -> Zpos mn = n * 2 ^ (- en) ->
  exists k R, product mq eq n (binary_round_aux prec emax false (Zpos (mq * mn)) (eq + en) loc_Exact) en k R.
Proof.
  intros Hn Hq Heq Hen Hmn. assert (Zpos (mq * mn) = n * Zpos mq * 2 ^ (- en)) as HN by (rewrite Pos2Z.inj_mul, Hmn; lia).
  rewrite HN. set (N := n * Zpos mq * 2 ^ (- en)) in *. assert (0 < N) as HNpos by lia.
  destruct (Zdigits2_spec N HNpos) as [D1 D2]. set (d := Zdigits2 N) in *. set (k := excess d (eq + en)).
  assert (0 <= k) as Hk by (unfold k, excess; lia).
  assert (eq + en + k <= 900) as Hov.
  { assert (d <= 158) as Hd.
    { apply Zdigits2_le; [|lia]. split; [lia|]. unfold N. pose proof (Z.pow_le_mono_r 2 (- en) 52 ltac:(lia) ltac:(lia)).
      pose proof (pow2_pos (- en) ltac:(lia)). assert (n * Zpos mq < 2 ^ 106) by (change (2 ^ 106) with (2 ^ 53 * 2 ^ 53); nia).
      change (2 ^ 158) with (2 ^ 106 * 2 ^ 52). nia. }
    unfold k, excess. rewrite fexp_value. lia. }
  exists k, (nearest N (Z.to_nat k) * 2 ^ k). pose proof (nearest_spec N (Z.to_nat k) ltac:(lia)) as (S1 & _ & S3).
  rewrite Z2Nat.id in S1, S3 by done. constructor; [done|done| |done|..].
  - destruct (Z.le_gt_cases k (d - 53)) as [H|H].
    + right. left. etrans; [|exact (proj1 D2)]. apply Z.pow_le_mono_r; lia.
    + unfold k, excess in *. rewrite fexp_value in *. lia.
  - intros c Hc. apply Z.mul_le_mono_nonneg_r; [apply Z.lt_le_incl, pow2_pos, Hk|]. apply nearest_le; [lia|].
    by rewrite Z2Nat.id by done.
  - destruct (Z.eq_dec (nearest N (Z.to_nat k)) 0) as [E0|E0].
    + left. split; [by rewrite E0|]. unfold binary_round_aux, shr_fexp at 1. cbn [shr_record_of_loc].
      rewrite shr_shifted by lia. fold d.
      replace (Z.to_nat (fexp prec emax (d + (eq + en)) - (eq + en))) with (Z.to_nat k) by (unfold k, excess; lia).
      fold (nearest N (Z.to_nat k)). rewrite E0. unfold shr_fexp. cbn [shr_record_of_loc]. rewrite shr_shifted by lia.
      by rewrite shifted_zero.
    + right. destruct (round_exact false N (eq + en) HNpos Hov) as (m & j & Hj & H1 & _ & _ & H4).
      { assert (0 <= N / 2 ^ k) by (apply Z.div_pos; [lia|by apply pow2_pos]). fold d k. lia. }
      fold d k in H1, H4. exists m, (eq + en + k + j). split_and!; [done|lia|].
      rewrite <- H1. replace (eq + en + k + j - (eq + en)) with (j + k) by lia. rewrite Z.pow_add_r by lia. lia.
Qed.

Lemma mul_of_Z mq eq n :
  0 < n < 2 ^ 53 -> Zpos mq < 2 ^ 53 -> -1074 <= eq <= 0 ->
  mul (S754_finite false mq eq) (of_Z n) = mul (of_Z n) (S754_finite false mq eq) /\
  exists en k R, product mq eq n (mul (S754_finite false mq eq) (of_Z n)) en k R.
Proof.
  intros Hn Hq Heq. destruct (of_Z_spec n Hn) as (mn & en & -> & Hen & Hmn). unfold mul. cbn [SFmul xorb]. split.
  - by rewrite Pos.mul_comm, Z.add_comm.
  - exists en. by apply round_product.
Qed.

(** ** Ranks *)

(** A quantile just below [p] per cent gives the rank of [p] per cent: the error of the
    quantile and of the product are too small to matter. *)
Lemma quantile_rank mq p n :
  0 < p < 100 -> 0 <= p * 2 ^ 53 - 100 * Zpos mq <= 100 -> 0 < n <= 2 ^ 40 ->
  ceil (mul (S754_finite false mq (-53)) (of_Z n)) = Some (ceil_div (p * n) 100).
Proof.
  intros Hp Hq Hn. destruct (mul_of_Z mq (-53) n) as [_ (en & k & R & [P1 P2 P3 P4 P5 P6])]; [lia|lia|lia|].
  set (c := ceil_div (p * n) 100). assert (100 * (c - 1) < p * n <= 100 * c) as Hc.
  { unfold c, ceil_div. pose proof (Z.div_mod (- (p * n)) 100 ltac:(lia)). pose proof (Z.mod_pos_bound (- (p * n)) 100 ltac:(lia)). lia. }
  assert (1 <= c <= 2 ^ 40) as Hc1 by nia. set (T := 2 ^ (- en)) in *. assert (0 < T) as HT by (apply pow2_pos; lia).
  set (u := 53 - en). assert (2 ^ u = 2 ^ 53 * T) as Hu by (unfold u, T; rewrite <- Z.pow_add_r by lia; f_equal; lia).
  set (N := n * Zpos mq * T) in *.
  assert (n * T * (100 * Zpos mq) <= n * T * (p * 2 ^ 53)) as U1 by (apply Z.mul_le_mono_nonneg_l; nia).
  assert (n * T * (p * 2 ^ 53 - 100) <= n * T * (100 * Zpos mq)) as U2 by (apply Z.mul_le_mono_nonneg_l; nia).
  assert (p * n * (2 ^ 53 * T) <= 100 * c * (2 ^ 53 * T)) as U3 by (apply Z.mul_le_mono_nonneg_r; lia).
  assert ((100 * (c - 1) + 1) * (2 ^ 53 * T) <= p * n * (2 ^ 53 * T)) as U4 by (apply Z.mul_le_mono_nonneg_r; lia).
  assert (N <= c * 2 ^ u) as HN by (rewrite Hu; unfold N; lia).
  assert ((100 * (c - 1) + 1) * 2 ^ u - 100 * n * T <= 100 * N) as HN' by (rewrite Hu; unfold N; lia).
  assert (k <= u /\ 2 ^ 12 * 2 ^ k <= 2 ^ u) as [Hku Hkb].
  { assert (12 + k <= u) as Hle.
    { destruct P3 as [->|[H|H]]; [unfold u; lia| |unfold u; lia].
      assert (2 ^ (k + 52) <= 2 ^ (40 + u)) as H1 by (rewrite (Z.pow_add_r 2 40) by lia; nia).
      apply Z.pow_le_mono_r_iff in H1; lia. }
    split; [lia|]. rewrite <- Z.pow_add_r by lia. apply Z.pow_le_mono_r; lia. }
  assert (R <= c * 2 ^ u) as HR1.
  { replace (c * 2 ^ u) with (c * 2 ^ (u - k) * 2 ^ k) in * by (rewrite <- Z.mul_assoc, <- Z.pow_add_r by lia; do 2 f_equal; lia).
    by apply P5. }
  assert (n * T <= 2 ^ 40 * T) by (apply Z.mul_le_mono_nonneg_r; lia).
  assert ((c - 1) * 2 ^ u < R) as HR2 by lia.
  destruct P6 as [[-> _]|(m & e & -> & He & Hm)]; [pose proof (pow2_pos u ltac:(lia)); nia|].
  replace (e - (-53 + en)) with (e + u) in * by lia.
  apply (ceil_spec m e u c); [lia|done|lia|unfold u64_max; lia].
Qed.

(** A share [mq * 2 ^ eq], at most one, of [n] things: the number of things is at most [n]
    and differs from the exact share by half a thing and the rounding of the product. *)
Lemma share_count mq eq n :
  0 < n < 2 ^ 53 -> Zpos mq < 2 ^ 53 -> -1074 <= eq <= 0 -> Zpos mq <= 2 ^ (- eq) ->
  exists c, llround (mul (of_Z n) (S754_finite false mq eq)) = Some c /\ 0 <= c <= n /\
    2 ^ 53 * Z.abs (c * 2 ^ (- eq) - n * Zpos mq) <= 2 ^ 52 * 2 ^ (- eq) + n * Zpos mq + 2 ^ 52.
Proof.
  intros Hn Hq Heq Hone. destruct (mul_of_Z mq eq n) as [<- (en & k & R & [P1 P2 P3 P4 P5 P6])]; [done..|].
  set (T := 2 ^ (- en)) in *. set (D := 2 ^ (- eq)) in *. set (u := - (eq + en)).
  assert (0 < T) as HT by (apply pow2_pos; lia). assert (0 < D) as HD by (apply pow2_pos; lia).
  assert (2 ^ u = D * T) as Hu by (unfold u, T, D; rewrite <- Z.pow_add_r by lia; f_equal; lia).
  assert (0 < 2 ^ u) as Hupos by (apply pow2_pos; lia). set (N := n * Zpos mq * T) in *.
  assert (n * T * Zpos mq <= n * T * D) as U1 by (apply Z.mul_le_mono_nonneg_l; nia).
  assert (N <= n * 2 ^ u) as HN by (rewrite Hu; unfold N; lia).
  assert (k <= u) as Hku.
  { destruct P3 as [->|[H|H]]; [lia| |lia]. assert (2 ^ (k + 52) < 2 ^ (53 + u)) as H1.
    { rewrite (Z.pow_add_r 2 53) by lia. assert (n * 2 ^ u < 2 ^ 53 * 2 ^ u) by (apply Z.mul_lt_mono_pos_r; lia). lia. }
    apply Z.pow_lt_mono_r_iff in H1; lia. }
  assert (2 ^ 52 * 2 ^ k <= 2 ^ 52 * T + N) as Hkb.
  { assert (0 <= N) as HN0 by (unfold N; lia). destruct P3 as [->|[H|H]]; [lia| |].
    - rewrite Z.pow_add_r in H by lia. lia.
    - assert (2 ^ k <= T) by (apply Z.pow_le_mono_r; lia). lia. }
  assert (R <= n * 2 ^ u) as HR1.
  { replace (n * 2 ^ u) with (n * 2 ^ (u - k) * 2 ^ k) in * by (rewrite <- Z.mul_assoc, <- Z.pow_add_r by lia; do 2 f_equal; lia).
    by apply P5. }
  assert (0 <= R) as HR0 by (destruct P6 as [[-> _]|(m & e & _ & He & <-)]; [lia|pose proof (pow2_pos _ He); lia]).
  set (c := (2 * R + 2 ^ u) / (2 * 2 ^ u)).
  assert ((2 * c - 1) * 2 ^ u <= 2 * R < (2 * c + 1) * 2 ^ u) as Hc.
  { unfold c. pose proof (Z.div_mod (2 * R + 2 ^ u) (2 * 2 ^ u) ltac:(lia)).
    pose proof (Z.mod_pos_bound (2 * R + 2 ^ u) (2 * 2 ^ u) ltac:(lia)). lia. }
  assert (0 <= c <= n) as Hcn by nia.
  exists c. split_and!; [|lia|lia|].
  - destruct P6 as [[-> ->]|(m & e & -> & He & Hm)].
    + replace c with 0; [done|]. nia.
    + replace (e - (eq + en)) with (e + u) in * by lia. apply (llround_spec m e u c); [lia|done|lia|unfold i64_max; lia].
  - assert (2 ^ 53 * Z.abs (c * 2 ^ u - N) <= 2 ^ 52 * 2 ^ u + N + 2 ^ 52 * T) as H by lia.
    replace (c * 2 ^ u - N) with ((c * D - n * Zpos mq) * T) in H by (rewrite Hu; unfold N; ring).
    rewrite Z.abs_mul, (Z.abs_eq T), Hu in H by lia. unfold N in H. nia.
Qed.

(** ** Every rounded number is a double *)

Definition is_double (x : t) : Prop :=
  match x with S754_finite _ m e => Zpos m < 2 ^ 53 /\ -1074 <= e | _ => True end.

Lemma shr_quotient n r s k : 0 <= n -> shr_m (Nat.iter k shr_1 (Build_shr_record n r s)) = n / 2 ^ Z.of_nat k.
Proof.
  intros Hn. revert r s. induction k as [|k IH]; intros r s; [by rewrite Z.div_1_r|].
  assert (0 < 2 ^ Z.of_nat k) as Hk by (apply pow2_pos; lia).
  rewrite Nat.iter_succ. specialize (IH r s). destruct (Nat.iter k shr_1 _) as [m r' s']. cbn [shr_m] in IH. subst m.
  rewrite shr_1_nonneg by (apply Z.div_pos; lia). cbn [shr_m]. rewrite Z.div_div by lia. f_equal.
  rewrite Nat2Z.inj_succ, Z.pow_succ_r by lia. lia.
Qed.

Lemma shr_general n r s e k :
  0 <= n -> exists mrs, shr (Build_shr_record n r s) e k = (mrs, e + Z.max 0 k) /\ shr_m mrs = n / 2 ^ Z.max 0 k.
Proof.
  intros Hn. destruct k as [|p|p].
  - eexists. split; [simpl; by rewrite Z.add_0_r|]. by rewrite Z.div_1_r.
  - eexists. split; [done|]. rewrite iter_pos_nat, shr_quotient by done. by rewrite positive_nat_Z.
  - eexists. split; [simpl; by rewrite Z.add_0_r|]. by rewrite Z.div_1_r.
Qed.

Lemma shr_fexp_general n ex l :
  0 <= n -> exists mrs, shr_fexp prec emax n ex l = (mrs, ex + excess (Zdigits2 n) ex) /\
    shr_m mrs = n / 2 ^ excess (Zdigits2 n) ex.
Proof.
  intros Hn. unfold shr_fexp, excess. destruct l as [|[]]; cbn [shr_record_of_loc]; by apply shr_general.
Qed.

Lemma excess_digits n ex : 0 <= n -> n / 2 ^ excess (Zdigits2 n) ex < 2 ^ 53 /\ -1074 <= ex + excess (Zdigits2 n) ex.
Proof.
  intros Hn. assert (Zdigits2 n - 53 <= excess (Zdigits2 n) ex) as Hk by (unfold excess; rewrite fexp_value; lia).
  assert (0 <= excess (Zdigits2 n) ex) as Hk0 by (unfold excess; lia).
  split; [|unfold excess; rewrite fexp_value; lia].
  apply Z.div_lt_upper_bound; [by apply pow2_pos|]. rewrite <- Z.pow_add_r by lia.
  destruct (Z.eq_dec n 0) as [->|H0]; [apply pow2_pos; lia|]. destruct (Zdigits2_spec n ltac:(lia)) as [_ H].
  pose proof (Z.pow_le_mono_r 2 (Zdigits2 n) (excess (Zdigits2 n) ex + 53)). lia.
Qed.

Lemma round_valid s n ex l : 0 <= n -> is_double (binary_round_aux prec emax s n ex l).
Proof.
  intros Hn. unfold binary_round_aux. destruct (shr_fexp_general n ex l Hn) as (mrs & -> & Hq).
  destruct (excess_digits n ex Hn) as [Hlt He].
  assert (0 <= shr_m mrs < 2 ^ 53) as Hm by (rewrite Hq; split; [apply Z.div_pos; [done|]; apply pow2_pos; unfold excess; lia|done]).
  assert (0 <= round_nearest_even (shr_m mrs) (loc_of_shr_record mrs)) as Hr.
  { destruct (loc_of_shr_record mrs) as [|[]]; cbn [round_nearest_even]; try destruct (Z.even _); lia. }
  destruct (shr_fexp_general _ (ex + excess (Zdigits2 n) ex) loc_Exact Hr) as (mrs' & -> & Hq').
  destruct (excess_digits _ (ex + excess (Zdigits2 n) ex) Hr) as [Hlt' He']. rewrite <- Hq' in Hlt'.
  destruct (shr_m mrs') as [|p|p]; [done| |done]. destruct (_ <=? _); [by split|done].
Qed.

Lemma of_decimal_valid s m e : is_double (of_decimal s m e).
Proof.
  unfold of_decimal. destruct m as [|p|p]; [done| |done]. destruct (Z.leb_spec 0 e).
  - unfold binary_round. destruct (shl_align _ _ _). by apply round_valid.
  - unfold SFdiv_core_binary. destruct (Z.div_eucl _ _) as [q r] eqn:E. apply round_valid.
    match type of E with Z.div_eucl ?a ?b = _ => assert (q = a / b) as -> by (unfold Z.div; by rewrite E) end.
    apply Z.div_pos; [|apply Z.pow_pos_nonneg; lia]. destruct (_ - _) as [|d|d]; [lia| |lia].
    rewrite Z.shiftl_mul_pow2 by lia. pose proof (pow2_pos (Zpos d) ltac:(lia)). lia.
Qed.

Lemma from_chars_valid s x : from_chars_finite s = Some x -> is_double x /\ is_finite x = true.
Proof.
  unfold from_chars_finite. intros H. repeat (case_match; try done); simplify_eq; (split; [|done]); try done.
  all: match goal with E : of_decimal ?a ?b ?c = _ |- _ => pose proof (of_decimal_valid a b c) as V; by rewrite E in V end.
Qed.
