(* ===== verification/LoggerModel.v ===== *)
(** * The logger ([logging/logger.h], [logging/logger.cpp]) *)
From S2P Require Import Prelude ErrorModel Effects.

Module Logger.

Inductive LogLevel := debug | info | warning | error.

#[global] Instance LogLevel_eq_dec : EqDecision LogLevel.
Proof. solve_decision. Defined.

(** The value of the enumerator, which [<] compares. *)
Definition level_value (l : LogLevel) : Z :=
  match l with debug => 0 | info => 1 | warning => 2 | error => 3 end.

(** [to_string(LogLevel)]. *)
Definition level_to_string (l : LogLevel) : bytes :=
  match l with
  | debug => lit "DEBUG"
  | info => lit "INFO"
  | warning => lit "WARNING"
  | error => lit "ERROR"
  end.

(** [parse_log_level]. *)
Definition parse_log_level (value : bytes) : outcome LogLevel :=
  if bool_decide (value = lit "debug") then Ret debug
  else if bool_decide (value = lit "info") then Ret info
  else if bool_decide (value = lit "warning") then Ret warning
  else if bool_decide (value = lit "error") then Ret error
  else Throw (highcache_error (MkHighCacheError invalid_argument (lit "unknown log level: " ++ value))).

(** The stream the logger writes to is the bytes written so far. *)
Record t := MkLogger {
  output_ : bytes;
  minimum_level_ : LogLevel;
  mutex_ : bool
}.

Definition create (output : bytes) (minimum_level : LogLevel) : t := MkLogger output minimum_level false.

(** [const std::lock_guard lock(mutex_);] around the rest of a method. *)
Definition with_lock {A} (m : M t A) : M t A := fun s =>
  if mutex_ s then (Undefined, s)
  else
    let '(o, s') := m (MkLogger (output_ s) (minimum_level_ s) true) in
    (o, MkLogger (output_ s') (minimum_level_ s') false).

Definition set_minimum_level (level : LogLevel) : M t unit :=
  with_lock (modify (fun s => MkLogger (output_ s) level (mutex_ s))).

Definition minimum_level : M t LogLevel := with_lock (s <- read ;; ret (minimum_level_ s)).

(** The line [log] writes. *)
Definition log_line (level : LogLevel) (message : bytes) : bytes :=
  lit "[" ++ level_to_string level ++ lit "] " ++ message ++ [Byte.x0a].

Definition log (level : LogLevel) (message : bytes) : M t unit :=
  with_lock
    (s <- read ;;
     if level_value level <? level_value (minimum_level_ s) then ret tt
     else modify (fun s => MkLogger (output_ s ++ log_line level message) (minimum_level_ s) (mutex_ s))).

Definition log_debug (message : bytes) : M t unit := log debug message.
Definition log_info (message : bytes) : M t unit := log info message.
Definition log_warning (message : bytes) : M t unit := log warning message.
Definition log_error (message : bytes) : M t unit := log error message.

(** ** Facts *)

(** The name of a level in a configuration file. *)
Definition level_name (l : LogLevel) : bytes :=
  match l with debug => lit "debug" | info => lit "info" | warning => lit "warning" | error => lit "error" end.

Lemma parse_log_level_iff value l : parse_log_level value = Ret l <-> value = level_name l.
Proof.
  unfold parse_log_level. split.
  - repeat (case_bool_decide; [by intros [= <-]|]). done.
  - intros ->. by destruct l.
Qed.

(** What a call leaves in the stream. *)
Lemma log_run level message s :
  mutex_ s = false ->
  log level message s = (Ret tt, MkLogger
    (output_ s ++ if level_value level <? level_value (minimum_level_ s) then [] else log_line level message)
    (minimum_level_ s) false).
Proof.
  intros Hm. unfold log, with_lock. rewrite Hm. unfold bind, read. simpl.
  destruct (_ <? _); simpl; by rewrite ?app_nil_r.
Qed.

End Logger.
