(* ===== verification/ConfigModel.v ===== *)
(** * The configuration ([config/config.h], [config/config.cpp])

    A text of [key=value] lines read with [std::getline]. The stream is the bytes
    still to read and whether the device fails after them. *)
From S2P Require Import Prelude ErrorModel Effects AllocatorModel ValueAllocatorModel TextModel LoggerModel.

(** ** [std::istream] *)
Module Istream.

Record t := MkIstream {
  rest : bytes;
  broken : bool;    (** reading past [rest] is an error, not the end of the file *)
  bad : bool        (** [bad()] *)
}.

Definition newline : byte := Byte.x0a.

(** [std::getline(input, line)]: [None] when the stream converts to [false]; a line
    that an error cuts short is not delivered. *)
Definition getline (s : t) : option bytes * t :=
  match find_char newline (rest s) with
  | Some i => (Some (take i (rest s)), MkIstream (drop (S i) (rest s)) (broken s) (bad s))
  | None =>
      if broken s then (None, MkIstream [] true true)
      else if decide (rest s = []) then (None, s)
      else (Some (rest s), MkIstream [] false (bad s))
  end.

End Istream.

Module Config.

Record t := MkConfig {
  log_level_ : Logger.LogLevel;
  host_ : bytes;
  port_ : Z;
  worker_threads_ : Z;
  cache_capacity_bytes_ : Z;
  shard_count_ : Z;
  allocator_backend_ : AllocatorBackend
}.

(** The default member initialisers. *)
Definition init : t := MkConfig Logger.info (lit "127.0.0.1") 11211 4 (64 * 1024 * 1024) 64 slab.

(** [Config(log_level)]. *)
Definition with_log_level (l : Logger.LogLevel) : t :=
  MkConfig l (host_ init) (port_ init) (worker_threads_ init) (cache_capacity_bytes_ init)
    (shard_count_ init) (allocator_backend_ init).

Definition whitespace : bytes := [Byte.x20; Byte.x09; Byte.x0d; Byte.x0a].

(** [trim]. *)
Definition trim (value : bytes) : bytes :=
  match find_first_not_of whitespace value with
  | None => []
  | Some first =>
      match find_last_not_of whitespace value with
      | Some last => substr first (last - first + 1) value
      | None => drop first value
      end
  end.

(** What [throw_parse_error] throws. *)
Definition parse_error (source_name : bytes) (line_number : Z) (detail : bytes) : exn :=
  highcache_error (MkHighCacheError config_parse
    (source_name ++ lit ":" ++ to_decimal line_number ++ lit ": " ++ detail)).

Definition throw_invalid {A} (what : bytes) : outcome A :=
  Throw (highcache_error (MkHighCacheError invalid_argument what)).

(** [parse_unsigned]. *)
Definition parse_unsigned (value : bytes) : outcome Z :=
  match whole_number u64_max value with
  | Some parsed => Ret parsed
  | None => throw_invalid (lit "expected an unsigned decimal integer")
  end.

(** [parse_unsigned] and the check of the range around it. *)
Definition parse_within (low high : Z) (what value : bytes) : outcome Z :=
  match parse_unsigned value with
  | Ret parsed => if (parsed <? low) || (parsed >? high) then throw_invalid what else Ret parsed
  | o => o
  end.

(** [try { o } catch (const HighCacheError &) { throw x; }]. *)
Definition rethrow {A} (o : outcome A) (x : exn) : outcome A :=
  match o with
  | Throw (highcache_error _) => Throw x
  | _ => o
  end.

(** The local variables of the loop of [from_stream]. *)
Record progress := MkProgress {
  config : t;
  has_log_level : bool;
  has_host : bool;
  has_port : bool;
  has_worker_threads : bool;
  has_cache_capacity_bytes : bool;
  has_shard_count : bool;
  has_allocator_backend : bool
}.

Definition start : progress := MkProgress init false false false false false false false.

(** Assigning one member of [config] and its flag. *)
Definition put_log_level (l : Logger.LogLevel) (p : progress) : progress :=
  let c := config p in
  MkProgress (MkConfig l (host_ c) (port_ c) (worker_threads_ c) (cache_capacity_bytes_ c)
      (shard_count_ c) (allocator_backend_ c))
    true (has_host p) (has_port p) (has_worker_threads p) (has_cache_capacity_bytes p)
    (has_shard_count p) (has_allocator_backend p).

Definition put_host (h : bytes) (p : progress) : progress :=
  let c := config p in
  MkProgress (MkConfig (log_level_ c) h (port_ c) (worker_threads_ c) (cache_capacity_bytes_ c)
      (shard_count_ c) (allocator_backend_ c))
    (has_log_level p) true (has_port p) (has_worker_threads p) (has_cache_capacity_bytes p)
    (has_shard_count p) (has_allocator_backend p).

Definition put_port (n : Z) (p : progress) : progress :=
  let c := config p in
  MkProgress (MkConfig (log_level_ c) (host_ c) n (worker_threads_ c) (cache_capacity_bytes_ c)
      (shard_count_ c) (allocator_backend_ c))
    (has_log_level p) (has_host p) true (has_worker_threads p) (has_cache_capacity_bytes p)
    (has_shard_count p) (has_allocator_backend p).

Definition put_worker_threads (n : Z) (p : progress) : progress :=
  let c := config p in
  MkProgress (MkConfig (log_level_ c) (host_ c) (port_ c) n (cache_capacity_bytes_ c)
      (shard_count_ c) (allocator_backend_ c))
    (has_log_level p) (has_host p) (has_port p) true (has_cache_capacity_bytes p)
    (has_shard_count p) (has_allocator_backend p).

Definition put_cache_capacity_bytes (n : Z) (p : progress) : progress :=
  let c := config p in
  MkProgress (MkConfig (log_level_ c) (host_ c) (port_ c) (worker_threads_ c) n
      (shard_count_ c) (allocator_backend_ c))
    (has_log_level p) (has_host p) (has_port p) (has_worker_threads p) true
    (has_shard_count p) (has_allocator_backend p).

Definition put_shard_count (n : Z) (p : progress) : progress :=
  let c := config p in
  MkProgress (MkConfig (log_level_ c) (host_ c) (port_ c) (worker_threads_ c)
      (cache_capacity_bytes_ c) n (allocator_backend_ c))
    (has_log_level p) (has_host p) (has_port p) (has_worker_threads p)
    (has_cache_capacity_bytes p) true (has_allocator_backend p).

Definition put_allocator_backend (b : AllocatorBackend) (p : progress) : progress :=
  let c := config p in
  MkProgress (MkConfig (log_level_ c) (host_ c) (port_ c) (worker_threads_ c)
      (cache_capacity_bytes_ c) (shard_count_ c) b)
    (has_log_level p) (has_host p) (has_port p) (has_worker_threads p)
    (has_cache_capacity_bytes p) (has_shard_count p) true.

Section source.
Variable source_name : bytes.

(** One of the [if (key == name) { ... continue; }] of the loop: refuse a
    duplicate, convert the value, reporting a failure, and assign it. *)
Definition setting {A} (line_number : Z) (name value : bytes) (has : bool) (parsed : outcome A)
    (put : A -> progress -> progress) (p : progress) : outcome progress :=
  if has then Throw (parse_error source_name line_number (lit "duplicate configuration key: " ++ name))
  else
    match rethrow parsed (parse_error source_name line_number
                            (lit "invalid " ++ name ++ lit ": " ++ value)) with
    | Ret a => Ret (put a p)
    | Throw x => Throw x
    | Undefined => Undefined
    end.

(** The chain of comparisons of [key]. *)
Definition apply_setting (line_number : Z) (key value : bytes) (p : progress) : outcome progress :=
  if decide (key = lit "log_level") then
    setting line_number key value (has_log_level p) (Logger.parse_log_level value) put_log_level p
  else if decide (key = lit "host") then
    setting line_number key value (has_host p) (Ret value) put_host p
  else if decide (key = lit "port") then
    setting line_number key value (has_port p)
      (parse_within 0 65535 (lit "port exceeds uint16 range") value) put_port p
  else if decide (key = lit "worker_threads") then
    setting line_number key value (has_worker_threads p)
      (parse_within 1 1024 (lit "worker count outside supported range") value) put_worker_threads p
  else if decide (key = lit "cache_capacity_bytes") then
    setting line_number key value (has_cache_capacity_bytes p)
      (parse_within 1 u64_max (lit "cache capacity outside supported range") value)
      put_cache_capacity_bytes p
  else if decide (key = lit "shard_count") then
    setting line_number key value (has_shard_count p)
      (parse_within 1 1024 (lit "shard count outside supported range") value) put_shard_count p
  else if decide (key = lit "allocator") then
    setting line_number key value (has_allocator_backend p) (parse_allocator_backend value)
      put_allocator_backend p
  else Throw (parse_error source_name line_number (lit "unknown configuration key: " ++ key)).

(** The body of the loop. *)
Definition process_line (line_number : Z) (line : bytes) (p : progress) : outcome progress :=
  let content := trim line in
  if bool_decide (content = []) || bool_decide (head content = Some Byte.x23) then Ret p
  else
    match find_char Byte.x3d content with
    | None => Throw (parse_error source_name line_number (lit "expected key=value"))
    | Some delimiter =>
        let key := trim (take delimiter content) in
        let value := trim (drop (S delimiter) content) in
        if bool_decide (key = []) || bool_decide (value = [])
        then Throw (parse_error source_name line_number (lit "key and value must not be empty"))
        else apply_setting line_number key value p
    end.

(** [while (std::getline(input, line))]; each line but the last takes a byte of
    the stream. *)
Fixpoint read_lines (n : nat) (input : Istream.t) (line_number : Z) (p : progress) :
    outcome progress * Istream.t :=
  match n with
  | O => (Undefined, input)
  | S n =>
      let '(line, input') := Istream.getline input in
      match line with
      | None => (Ret p, input')
      | Some line =>
          let line_number := u64 (line_number + 1) in
          match process_line line_number line p with
          | Ret p' => read_lines n input' line_number p'
          | Throw x => (Throw x, input')
          | Undefined => (Undefined, input')
          end
      end
  end.

(** After the loop. *)
Definition after_lines (input : Istream.t) (p : progress) : outcome t :=
  if Istream.bad input
  then Throw (highcache_error (MkHighCacheError config_io
         (lit "failed while reading configuration: " ++ source_name)))
  else Ret (config p).

(** [Config::from_stream]. *)
Definition from_stream (input : Istream.t) : outcome t :=
  match read_lines (S (S (length (Istream.rest input)))) input 0 start with
  | (Ret p, input') => after_lines input' p
  | (Throw x, _) => Throw x
  | (Undefined, _) => Undefined
  end.

End source.

(** [Config::from_file], of a path and what opening it gives. *)
Definition from_file (path : bytes) (opened : option Istream.t) : outcome t :=
  match opened with
  | None => Throw (highcache_error (MkHighCacheError config_io
              (lit "unable to open configuration file: " ++ path)))
  | Some input => from_stream path input
  end.

(** The observers. *)
Definition log_level (c : t) : Logger.LogLevel := log_level_ c.
Definition host (c : t) : bytes := host_ c.
Definition port (c : t) : Z := port_ c.
Definition worker_threads (c : t) : Z := worker_threads_ c.
Definition cache_capacity_bytes (c : t) : Z := cache_capacity_bytes_ c.
Definition shard_count (c : t) : Z := shard_count_ c.
Definition allocator_backend (c : t) : AllocatorBackend := allocator_backend_ c.

End Config.
