(* ===== verification/ConfigFacts.v ===== *)
(** * What a configuration text means, and that [Config::from_stream] computes it

    The reference reading of a text: its lines, the setting of each line, and the
    configuration the settings denote. *)
From S2P Require Import Prelude ErrorModel Effects AllocatorModel ValueAllocatorModel.
From S2P Require Import TextModel LoggerModel ConfigModel.
Import Config.

(** ** The lines of a text *)

(** The lines of [text] after the part [cur] of the current one; a last line
    without a newline counts unless it is empty. *)
Fixpoint lines_from (cur text : bytes) : list bytes :=
  match text with
  | [] => if decide (cur = []) then [] else [cur]
  | b :: text => if decide (b = Istream.newline) then cur :: lines_from [] text else lines_from (cur ++ [b]) text
  end.

Definition text_lines (text : bytes) : list bytes := lines_from [] text.

Lemma lines_from_find cur text :
  lines_from cur text =
    match find_char Istream.newline text with
    | Some i => (cur ++ take i text) :: text_lines (drop (S i) text)
    | None => if decide (cur ++ text = []) then [] else [cur ++ text]
    end.
Proof.
  revert cur. induction text as [|b text IH]; intros cur; cbn [lines_from].
  { unfold find_char. simpl. by rewrite app_nil_r. }
  unfold find_char in *. cbn [list_find]. destruct (decide (b = Istream.newline)) as [->|Hb].
  - simpl. by rewrite app_nil_r.
  - rewrite IH. destruct (list_find _ text) as [[i x]|]; simpl.
    + by rewrite <- app_assoc.
    + by rewrite <- app_assoc.
Qed.

Lemma text_lines_find text :
  text_lines text =
    match find_char Istream.newline text with
    | Some i => take i text :: text_lines (drop (S i) text)
    | None => if decide (text = []) then [] else [text]
    end.
Proof. apply lines_from_find. Qed.

Lemma find_char_lt c s i : find_char c s = Some i -> (i < length s)%nat.
Proof.
  unfold find_char. intros H. apply fmap_Some in H as ([j b] & Hf & ->).
  apply list_find_Some in Hf as (Hj & _). by apply lookup_lt_Some in Hj.
Qed.

(** ** The loop over lines *)

Section source.
Variable source_name : bytes.

Fixpoint process_lines (lines : list bytes) (line_number : Z) (p : progress) : outcome progress :=
  match lines with
  | [] => Ret p
  | line :: lines =>
      match process_line source_name (u64 (line_number + 1)) line p with
      | Ret p' => process_lines lines (u64 (line_number + 1)) p'
      | o => o
      end
  end.

(** [std::getline] delivers the lines of the text. *)
Lemma read_lines_sound n text line p :
  (length text < n)%nat ->
  exists input', read_lines source_name n (Istream.MkIstream text false false) line p =
      (process_lines (text_lines text) line p, input') /\ Istream.bad input' = false.
Proof.
  revert text line p. induction n as [|n IH]; intros text line p Hn; [lia|].
  rewrite text_lines_find. cbn [read_lines]. unfold Istream.getline. cbn [Istream.rest Istream.broken Istream.bad].
  destruct (find_char Istream.newline text) as [i|] eqn:Hi.
  - apply find_char_lt in Hi. cbn [process_lines].
    destruct (process_line _ _ _ _) as [p'|x|]; [|by eexists..].
    apply IH. rewrite length_drop. lia.
  - destruct (decide (text = [])) as [->|Hne]; [by eexists|]. cbn [process_lines].
    destruct (process_line _ _ _ _) as [p'|x|]; [|by eexists..].
    apply (IH []). destruct text; [done|]. simpl in *. lia.
Qed.

Lemma from_stream_lines text :
  from_stream source_name (Istream.MkIstream text false false) =
    match process_lines (text_lines text) 0 start with
    | Ret p => Ret (config p)
    | Throw x => Throw x
    | Undefined => Undefined
    end.
Proof.
  unfold from_stream, after_lines. cbn [Istream.rest]. destruct (read_lines_sound (S (S (length text))) text 0 start) as (input' & -> & Hb); [lia|].
  destruct (process_lines _ _ _); [by rewrite Hb|done|done].
Qed.

(** ** The setting of a line *)

Inductive line_kind := Blank | Setting (key value : bytes) | Malformed (detail : bytes).

Definition classify (line : bytes) : line_kind :=
  let content := trim line in
  if decide (content = [] \/ head content = Some Byte.x23) then Blank
  else
    match find_char Byte.x3d content with
    | None => Malformed (lit "expected key=value")
    | Some i =>
        let key := trim (take i content) in
        let value := trim (drop (S i) content) in
        if decide (key = [] \/ value = []) then Malformed (lit "key and value must not be empty")
        else Setting key value
    end.

Lemma process_line_classify n line p :
  process_line source_name n line p =
    match classify line with
    | Blank => Ret p
    | Setting k v => apply_setting source_name n k v p
    | Malformed d => Throw (parse_error source_name n d)
    end.
Proof.
  unfold process_line, classify. cbn zeta. repeat case_bool_decide; case_decide; try tauto; try reflexivity; simpl.
  all: destruct (find_char _ _) as [i|]; [|reflexivity].
  all: repeat case_bool_decide; case_decide; tauto || reflexivity.
Qed.

(** ** The settings of a text and the configuration they denote *)

Definition settings (lines : list bytes) : list (bytes * bytes) :=
  omap (fun line => match classify line with Setting k v => Some (k, v) | _ => None end) lines.

Definition lookup_setting (k : bytes) (ss : list (bytes * bytes)) : option bytes :=
  (fun x => x.2.2) <$> list_find (fun x => x.1 = k) ss.

Definition returned {A} (o : outcome A) : option A := match o with Ret a => Some a | _ => None end.

Definition number_within (low high : Z) (v : bytes) : option Z := returned (parse_within low high [] v).

(** The value of a known key converts; any other key is refused. *)
Definition value_ok (k v : bytes) : Prop :=
  if decide (k = lit "log_level") then is_Some (returned (Logger.parse_log_level v))
  else if decide (k = lit "host") then True
  else if decide (k = lit "port") then is_Some (number_within 0 65535 v)
  else if decide (k = lit "worker_threads") then is_Some (number_within 1 1024 v)
  else if decide (k = lit "cache_capacity_bytes") then is_Some (number_within 1 u64_max v)
  else if decide (k = lit "shard_count") then is_Some (number_within 1 1024 v)
  else if decide (k = lit "allocator") then is_Some (returned (parse_allocator_backend v))
  else False.

Definition config_of (ss : list (bytes * bytes)) : Config.t :=
  let get {A} (k : bytes) (parse : bytes -> option A) (d : A) : A :=
    default d (lookup_setting k ss ≫= parse) in
  MkConfig
    (get (lit "log_level") (fun v => returned (Logger.parse_log_level v)) (log_level_ init))
    (get (lit "host") Some (host_ init))
    (get (lit "port") (number_within 0 65535) (port_ init))
    (get (lit "worker_threads") (number_within 1 1024) (worker_threads_ init))
    (get (lit "cache_capacity_bytes") (number_within 1 u64_max) (cache_capacity_bytes_ init))
    (get (lit "shard_count") (number_within 1 1024) (shard_count_ init))
    (get (lit "allocator") (fun v => returned (parse_allocator_backend v)) (allocator_backend_ init)).

(** The variables of the loop after the settings [ss]. *)
Definition progress_of (ss : list (bytes * bytes)) : progress :=
  let has k := bool_decide (k ∈ ss.*1) in
  MkProgress (config_of ss) (has (lit "log_level")) (has (lit "host")) (has (lit "port"))
    (has (lit "worker_threads")) (has (lit "cache_capacity_bytes")) (has (lit "shard_count"))
    (has (lit "allocator")).

Lemma lookup_setting_snoc k v ss k' :
  k ∉ ss.*1 -> lookup_setting k' (ss ++ [(k, v)]) = if decide (k = k') then Some v else lookup_setting k' ss.
Proof.
  intros Hk. unfold lookup_setting. induction ss as [|[k1 v1] ss IH]; simpl.
  - by destruct (decide (k = k')).
  - csimpl in Hk. rewrite not_elem_of_cons in Hk. destruct Hk as [Hne Hk]. specialize (IH Hk).
    destruct (decide (k1 = k')) as [->|H1].
    + rewrite decide_False by done. done.
    + revert IH.
      destruct (list_find _ (ss ++ _)) as [[i x]|], (list_find _ ss) as [[j y]|]; simpl; intros <-; done.
Qed.

Lemma has_snoc (k v : bytes) ss k' :
  bool_decide (k' ∈ (ss ++ [(k, v)]).*1) = bool_decide (k = k') || bool_decide (k' ∈ ss.*1).
Proof.
  rewrite fmap_app. csimpl. rewrite (bool_decide_ext _ (k = k' \/ k' ∈ ss.*1)).
  - by rewrite bool_decide_or.
  - rewrite elem_of_app, list_elem_of_singleton. naive_solver.
Qed.

Lemma returned_Ret {A} (o : outcome A) a : returned o = Some a <-> o = Ret a.
Proof. destruct o; simpl; naive_solver. Qed.

Lemma number_within_Ret low high what v n :
  parse_within low high what v = Ret n <-> number_within low high v = Some n.
Proof.
  unfold number_within. rewrite returned_Ret. unfold parse_within, throw_invalid.
  destruct (parse_unsigned v); [|done|done]. by destruct (_ || _).
Qed.

(** The conversions fail with a [HighCacheError] or not at all. *)
Definition tame {A} (o : outcome A) : Prop := (exists a, o = Ret a) \/ exists e, o = Throw (highcache_error e).

Lemma tame_within low high what v : tame (parse_within low high what v).
Proof.
  unfold parse_within, parse_unsigned, throw_invalid, tame. destruct (whole_number _ _); [|by eauto].
  destruct (_ || _); by eauto.
Qed.

Lemma tame_level v : tame (Logger.parse_log_level v).
Proof. unfold tame, Logger.parse_log_level. repeat (case_bool_decide; [by eauto|]). by eauto. Qed.

Lemma tame_backend v : tame (parse_allocator_backend v).
Proof. unfold tame, parse_allocator_backend. repeat (case_bool_decide; [by eauto|]). by eauto. Qed.

Lemma tame_ret {A} (a : A) : tame (Ret a).
Proof. left. by eexists. Qed.

#[local] Hint Resolve tame_within tame_level tame_backend tame_ret : hc.

Lemma setting_cases {A} n name value has (parsed : outcome A) put p :
  tame parsed ->
  (exists a, has = false /\ parsed = Ret a /\ setting source_name n name value has parsed put p = Ret (put a p)) \/
  ((has = true \/ forall a, parsed <> Ret a) /\
   exists d, setting source_name n name value has parsed put p = Throw (parse_error source_name n d)).
Proof.
  intros Ht. unfold setting. destruct has; [right; by eauto|].
  destruct Ht as [[a ->]|[e ->]]; [left; by eauto|right]. split; [by right|by eexists].
Qed.

(** One setting more, in the variables of the loop. *)
Ltac put_eq Hk Hp :=
  unfold progress_of, config_of; rewrite !has_snoc, !(lookup_setting_snoc _ _ _ _ Hk);
  repeat first
    [ rewrite decide_True by reflexivity
    | rewrite decide_False by (vm_compute; discriminate)
    | rewrite bool_decide_eq_true_2 by reflexivity
    | rewrite (bool_decide_eq_false_2 (_ = _)) by (vm_compute; discriminate) ];
  cbn [option_bind mbind default from_option id]; rewrite ?Hp; reflexivity.

(** A key [k] whose values are converted by [o]. *)
Lemma setting_step {A} n k v ss (o : outcome A) put has (V : Prop) :
  tame o -> has = bool_decide (k ∈ ss.*1) -> (V <-> is_Some (returned o)) ->
  (forall a, (k ∉ ss.*1) -> o = Ret a -> put a (progress_of ss) = progress_of (ss ++ [(k, v)])) ->
  ((k ∉ ss.*1) /\ V /\
     setting source_name n k v has o put (progress_of ss) = Ret (progress_of (ss ++ [(k, v)]))) \/
  (~ ((k ∉ ss.*1) /\ V) /\
     exists d, setting source_name n k v has o put (progress_of ss) = Throw (parse_error source_name n d)).
Proof.
  intros Ht -> Hv Hput.
  destruct (setting_cases n k v (bool_decide (k ∈ ss.*1)) o put (progress_of ss) Ht) as [(a & Hh & Ho & Hs)|[Hbad Hs]].
  - left. apply bool_decide_eq_false in Hh. rewrite Hs, Hput by done. split_and!; [done| |done].
    apply Hv. rewrite Ho. by eexists.
  - right. split; [|done]. intros [Hk Hok]. destruct Hbad as [Hb|Hb]; [by apply bool_decide_eq_true in Hb|].
    apply Hv in Hok as [a Ha]. apply returned_Ret in Ha. by apply (Hb a).
Qed.

Lemma is_Some_within low high what v :
  is_Some (number_within low high v) <-> is_Some (returned (parse_within low high what v)).
Proof.
  split; intros [x Hx]; exists x.
  - by apply returned_Ret, number_within_Ret.
  - by eapply number_within_Ret, returned_Ret.
Qed.

(** A key that occurs for the first time with a value it accepts extends the
    settings; everything else is an error of the line. *)
Lemma apply_setting_cases n k v ss :
  ((k ∉ ss.*1) /\ value_ok k v /\
     apply_setting source_name n k v (progress_of ss) = Ret (progress_of (ss ++ [(k, v)]))) \/
  (~ ((k ∉ ss.*1) /\ value_ok k v) /\
     exists d, apply_setting source_name n k v (progress_of ss) = Throw (parse_error source_name n d)).
Proof.
  unfold apply_setting, value_ok.
  destruct (decide (k = lit "log_level")) as [->|_].
  { apply setting_step; [auto with hc|done|done|]. intros a Hk Ha. apply returned_Ret in Ha. put_eq Hk Ha. }
  destruct (decide (k = lit "host")) as [->|_].
  { apply setting_step; [auto with hc|done|by split; [eexists|]|]. intros a Hk [= <-]. put_eq Hk (@eq_refl unit tt). }
  destruct (decide (k = lit "port")) as [->|_].
  { apply setting_step; [auto with hc|done|apply is_Some_within|].
    intros a Hk Ha. apply number_within_Ret in Ha. put_eq Hk Ha. }
  destruct (decide (k = lit "worker_threads")) as [->|_].
  { apply setting_step; [auto with hc|done|apply is_Some_within|].
    intros a Hk Ha. apply number_within_Ret in Ha. put_eq Hk Ha. }
  destruct (decide (k = lit "cache_capacity_bytes")) as [->|_].
  { apply setting_step; [auto with hc|done|apply is_Some_within|].
    intros a Hk Ha. apply number_within_Ret in Ha. put_eq Hk Ha. }
  destruct (decide (k = lit "shard_count")) as [->|_].
  { apply setting_step; [auto with hc|done|apply is_Some_within|].
    intros a Hk Ha. apply number_within_Ret in Ha. put_eq Hk Ha. }
  destruct (decide (k = lit "allocator")) as [->|_].
  { apply setting_step; [auto with hc|done|done|]. intros a Hk Ha. apply returned_Ret in Ha. put_eq Hk Ha. }
  right. split; [tauto|by eexists].
Qed.

(** ** All lines *)

(** The lines go on from the settings [ss] without an error. *)
Definition lines_ok (ss : list (bytes * bytes)) (lines : list bytes) : Prop :=
  (forall line d, line ∈ lines -> classify line <> Malformed d) /\
  NoDup (ss ++ settings lines).*1 /\ Forall (fun kv => value_ok kv.1 kv.2) (settings lines).

(** Every line is blank, a comment or a setting; no key occurs twice; every value
    is one its key accepts. *)
Definition well_formed (lines : list bytes) : Prop := lines_ok [] lines.

Lemma lines_ok_setting ss line lines k v :
  classify line = Setting k v ->
  lines_ok ss (line :: lines) <-> value_ok k v /\ lines_ok (ss ++ [(k, v)]) lines.
Proof.
  intros Hl. unfold lines_ok, settings. cbn [omap list_omap]. rewrite Hl, <- app_assoc, Forall_cons. simpl.
  split.
  - intros (H1 & H2 & H3 & H4). split_and!; [done| |done|done]. intros l d Hin. apply H1. by right.
  - intros (H3 & H1 & H2 & H4). split_and!; [|done|done|done]. intros l d Hin.
    apply elem_of_cons in Hin as [->|Hin]; [by rewrite Hl|by apply H1].
Qed.

Lemma lines_ok_blank ss line lines :
  classify line = Blank -> lines_ok ss (line :: lines) <-> lines_ok ss lines.
Proof.
  intros Hl. unfold lines_ok, settings. cbn [omap list_omap]. rewrite Hl. split.
  - intros (H1 & H2). split; [|done]. intros l d Hin. apply H1. by right.
  - intros (H1 & H2). split; [|done]. intros l d Hin.
    apply elem_of_cons in Hin as [->|Hin]; [by rewrite Hl|by apply H1].
Qed.

Lemma lines_ok_fresh ss k v lines : lines_ok (ss ++ [(k, v)]) lines -> (k ∉ ss.*1) /\ NoDup ss.*1.
Proof.
  intros (_ & H & _). rewrite !fmap_app, !NoDup_app in H. destruct H as ((H1 & H2 & _) & _).
  split; [|done]. intros Hin. apply (H2 _ Hin). csimpl. by left.
Qed.

(** The number the loop gives to the line at index [i] when [m] were read before. *)
Definition line_at (m : Z) (i : nat) : Z := u64 (m + Z.of_nat i + 1).

Lemma line_at_S m i : line_at (u64 (m + 1)) i = line_at m (S i).
Proof.
  unfold line_at. rewrite <- Z.add_assoc, u64_add_l. f_equal. lia.
Qed.

(** Either all lines are good and the loop has read their settings, or it stops at
    the first that is not. *)
Lemma process_lines_cases lines m ss :
  NoDup ss.*1 ->
  (lines_ok ss lines /\ process_lines lines m (progress_of ss) = Ret (progress_of (ss ++ settings lines))) \/
  (exists i d, (i < length lines)%nat /\ lines_ok ss (take i lines) /\ ~ lines_ok ss (take (S i) lines) /\
     process_lines lines m (progress_of ss) = Throw (parse_error source_name (line_at m i) d)).
Proof.
  revert m ss. induction lines as [|line lines IH]; intros m ss Hss.
  { left. simpl. rewrite app_nil_r. split; [|done]. unfold lines_ok, settings. simpl. rewrite app_nil_r.
    split_and!; [|done|done]. intros l d Hin. by apply elem_of_nil in Hin. }
  cbn [process_lines]. rewrite process_line_classify.
  assert (lines_ok ss []) as Hnil.
  { unfold lines_ok, settings. simpl. rewrite app_nil_r. split_and!; [|done|done]. intros l d Hin. by apply elem_of_nil in Hin. }
  assert (u64 (m + 1) = line_at m 0) as H0 by (unfold line_at; f_equal; lia).
  destruct (classify line) as [|k v|d] eqn:Hl.
  - destruct (IH (u64 (m + 1)) ss Hss) as [[Hok Hp]|(i & d & Hi & Hok & Hbad & Hp)].
    + left. split; [by apply lines_ok_blank|]. unfold settings in *. cbn [omap list_omap]. by rewrite Hl.
    + right. exists (S i), d. cbn [take length] in *. rewrite !lines_ok_blank, Hp, line_at_S by done.
      split_and!; [lia|done|done|done].
  - destruct (apply_setting_cases (u64 (m + 1)) k v ss) as [(Hk & Hv & ->)|[Hbad (d & ->)]].
    + destruct (IH (u64 (m + 1)) (ss ++ [(k, v)])) as [[Hok Hp]|(i & d & Hi & Hok & Hbad & Hp)].
      { rewrite fmap_app. csimpl. apply NoDup_app. split_and!; [done| |apply NoDup_singleton].
        intros x Hx Hin. apply list_elem_of_singleton in Hin. by subst. }
      * left. split; [by apply (lines_ok_setting ss line lines k v)|].
        rewrite Hp. unfold settings. cbn [omap list_omap]. rewrite Hl, <- app_assoc. done.
      * right. exists (S i), d. cbn [take length] in *. rewrite !(lines_ok_setting ss line _ k v), Hp, line_at_S by done.
        split_and!; [lia|done|done|tauto|done].
    + right. exists 0%nat, d. rewrite <- H0. cbn [take length]. split_and!; [lia|done| |done].
      rewrite (lines_ok_setting ss line [] k v) by done. intros [Hv Hok].
      apply Hbad. split; [by eapply lines_ok_fresh|done].
  - right. exists 0%nat, d. rewrite <- H0. cbn [take length]. split_and!; [lia|done| |done].
    intros (H1 & _). apply (H1 line d); [by left|done].
Qed.

Lemma settings_take_app i lines : settings lines = settings (take i lines) ++ settings (drop i lines).
Proof. unfold settings. by rewrite <- omap_app, take_drop. Qed.

Lemma lines_ok_take ss lines i : lines_ok ss lines -> lines_ok ss (take i lines).
Proof.
  unfold lines_ok. rewrite (settings_take_app i lines), app_assoc, fmap_app, NoDup_app, Forall_app.
  intros (H1 & (H2 & _) & H3 & _). split_and!; [|done|done]. intros line d Hin.
  apply H1. rewrite <- (take_drop i lines). apply elem_of_app. by left.
Qed.

(** A device that fails: the lines before are read, then the failure is reported. *)
Lemma read_lines_broken n text line ss :
  (length text < n)%nat -> NoDup ss.*1 ->
  match read_lines source_name n (Istream.MkIstream text true false) line (progress_of ss) with
  | (Ret _, input') => Istream.bad input' = true
  | (Throw x, _) => exists m d, x = parse_error source_name m d
  | (Undefined, _) => False
  end.
Proof.
  revert text line ss. induction n as [|n IH]; intros text line ss Hn Hss; [lia|].
  cbn [read_lines]. unfold Istream.getline. cbn [Istream.rest Istream.broken Istream.bad].
  destruct (find_char Istream.newline text) as [i|] eqn:Hi; [|done].
  apply find_char_lt in Hi.
  destruct (process_lines_cases [take i text] line ss Hss) as [[(_ & Hd & _) Hp]|(j & d & _ & _ & _ & Hp)];
    cbn [process_lines] in Hp; destruct (process_line _ _ _ _) as [p'|x|]; try done.
  - injection Hp as ->. apply IH; [rewrite length_drop; lia|done].
  - injection Hp as ->. by eauto.
Qed.

Lemma broken_stream_total text :
  match from_stream source_name (Istream.MkIstream text true false) with
  | Ret _ => true = false
  | Throw (highcache_error e) => code e = config_parse \/ code e = config_io /\ true = true
  | _ => False
  end.
Proof.
  unfold from_stream, after_lines. cbn [Istream.rest].
  pose proof (read_lines_broken (S (S (length text))) text 0 [] ltac:(lia) (NoDup_nil_2)) as H.
  change (progress_of []) with start in H.
  destruct (read_lines _ _ _ _ _) as [[p|x|] input']; [rewrite H; by right| |done].
  destruct H as (m & d & ->). by left.
Qed.

End source.

(** The numbers of a configuration are in range, whatever the settings. *)
Lemma number_within_range low high v n : number_within low high v = Some n -> low <= n <= high.
Proof.
  intros H. apply returned_Ret in H. unfold parse_within in H. destruct (parse_unsigned v) as [m| |]; [|done|done].
  destruct (_ || _) eqn:Hb; [done|]. injection H as <-. zsimp. lia.
Qed.

Lemma number_default low high (o : option bytes) d :
  low <= d <= high -> low <= default d (o ≫= number_within low high) <= high.
Proof.
  intros Hd. destruct o as [v|]; [|done]. simpl. destruct (number_within low high v) eqn:E; [|done].
  by apply number_within_range in E.
Qed.

Lemma config_of_ranges ss :
  0 <= port_ (config_of ss) <= 65535 /\ 1 <= worker_threads_ (config_of ss) <= 1024 /\
  1 <= shard_count_ (config_of ss) <= 1024 /\ 1 <= cache_capacity_bytes_ (config_of ss) <= u64_max.
Proof. unfold config_of. cbn [port_ worker_threads_ shard_count_ cache_capacity_bytes_]. split_and!; apply number_default; unfold u64_max; simpl; lia. Qed.

(** ** [trim] *)

Definition blank (s : bytes) : Prop := Forall (fun b => b ∈ whitespace) s.

(** Text that starts and ends with something other than white space. *)
Definition tight (s : bytes) : Prop :=
  exists x y, head s = Some x /\ last s = Some y /\ (x ∉ whitespace) /\ (y ∉ whitespace).

Lemma find_first_blank a x r :
  blank a -> (x ∉ whitespace) -> find_first_not_of whitespace (a ++ x :: r) = Some (length a).
Proof.
  intros Ha Hx. unfold find_first_not_of. induction Ha as [|b a Hb Ha IH]; cbn [app list_find].
  - by rewrite decide_True by done.
  - rewrite decide_False by (intros H; by apply H). destruct (list_find _ (a ++ x :: r)) as [[i z]|]; [|done].
    simpl in *. by injection IH as ->.
Qed.

Lemma trim_around a s b : blank a -> tight s -> blank b -> trim (a ++ s ++ b) = s.
Proof.
  intros Ha (x & y & Hh & Hl & Hx & Hy) Hb. unfold trim.
  apply last_Some in Hl as [s' ->]. assert (exists r, s' ++ [y] = x :: r) as [r Hr].
  { destruct s' as [|z s']; injection Hh as ->; by eexists. }
  assert (find_first_not_of whitespace (a ++ (s' ++ [y]) ++ b) = Some (length a)) as ->.
  { rewrite Hr. simpl. by apply find_first_blank. }
  assert (find_last_not_of whitespace (a ++ (s' ++ [y]) ++ b) = Some (length a + length s')%nat) as ->.
  { unfold find_last_not_of. rewrite !reverse_app, <- !app_assoc. simpl.
    rewrite (find_first_blank (reverse b) y (reverse s' ++ reverse a)); [|by apply Forall_reverse|done].
    simpl. rewrite !length_app, length_reverse. simpl. f_equal. lia. }
  unfold substr. rewrite drop_app_length. apply take_app_length'. rewrite length_app. simpl. lia.
Qed.

Lemma tight_head s x : tight s -> head s = Some x -> (x ∉ whitespace).
Proof. intros (y & z & Hy & _ & H & _) Hx. by simplify_eq. Qed.

Lemma tight_nonempty s : tight s -> s <> [].
Proof. by intros (x & y & H & _) ->. Qed.

(** Text between tight text is tight. *)
Lemma tight_around s t u : tight s -> tight u -> tight (s ++ t ++ u).
Proof.
  intros (x & _ & Hx & _ & Hx' & _) (_ & y & _ & Hy & _ & Hy'). exists x, y. split_and!; [|..|done|done].
  - destruct s; [done|]. exact Hx.
  - rewrite app_assoc, last_app, Hy. done.
Qed.

Lemma find_char_app c s r : (c ∉ s) -> find_char c (s ++ c :: r) = Some (length s).
Proof.
  intros Hs. unfold find_char. induction s as [|b s IH]; cbn [app list_find].
  - by rewrite decide_True by done.
  - rewrite not_elem_of_cons in Hs. destruct Hs as [Hb Hs]. rewrite decide_False by done.
    specialize (IH Hs). destruct (list_find _ (s ++ c :: r)) as [[i z]|]; [|done]. simpl in *. by injection IH as ->.
Qed.

Lemma classify_setting a k b c v d :
  blank a -> tight k -> blank b -> blank c -> tight v -> blank d ->
  (Byte.x3d ∉ k) -> head k <> Some Byte.x23 ->
  classify (a ++ k ++ b ++ Byte.x3d :: c ++ v ++ d) = Setting k v.
Proof.
  intros Ha Hk Hb Hc Hv Hd Heq Hhash. unfold classify. cbn zeta.
  assert (trim (a ++ k ++ b ++ Byte.x3d :: c ++ v ++ d) = k ++ (b ++ Byte.x3d :: c) ++ v) as ->.
  { rewrite <- (trim_around a (k ++ (b ++ Byte.x3d :: c) ++ v) d); [|done|by apply tight_around|done].
    f_equal. by rewrite <- !app_assoc. }
  rewrite decide_False.
  2: { destruct k as [|x k]; [by apply tight_nonempty in Hk|]. intros [?|H]; [done|]. by apply Hhash. }
  assert (k ++ (b ++ Byte.x3d :: c) ++ v = (k ++ b) ++ Byte.x3d :: c ++ v) as -> by (by rewrite <- !app_assoc).
  rewrite find_char_app.
  2: { rewrite elem_of_app. intros [H|H]; [done|]. unfold blank in Hb. rewrite Forall_forall in Hb.
       specialize (Hb _ H). unfold whitespace in Hb. rewrite !elem_of_cons, elem_of_nil in Hb. naive_solver. }
  rewrite take_app_length. replace (drop (S (length (k ++ b))) ((k ++ b) ++ Byte.x3d :: c ++ v)) with (c ++ v).
  2: { rewrite (cons_middle Byte.x3d), app_assoc. symmetry. apply drop_app_length'. rewrite !length_app. simpl. lia. }
  assert (blank []) as Hnil by constructor.
  pose proof (trim_around [] k b Hnil Hk Hb) as Htk. simpl in Htk. rewrite Htk.
  pose proof (trim_around c v [] Hc Hv Hnil) as Htv. rewrite app_nil_r in Htv. rewrite Htv.
  rewrite decide_False; [done|]. intros [->| ->]; [by apply tight_nonempty in Hk|by apply tight_nonempty in Hv].
Qed.
