(* ===== verification/WorkerModel.v ===== *)
(** * Descriptors and workers ([net/unique_fd.h], [net/cache_server.cpp])

    A worker owns sockets: those handed to it and not yet installed, and those of
    its connections, which it has registered with its epoll instance. The kernel
    side is the set of open sockets, the interest list, and a schedule of
    [epoll_ctl] failures. Closing a descriptor that is not open is undefined. *)
From S2P Require Import Prelude ErrorModel Effects MemoryModel BufferModel ProtocolModel.
From S2P Require Import CacheEngineModel ConnectionModel.
Import Memory.

(** ** The kernel *)
Module Kernel.

Record t := MkKernel {
  sockets : gmap Z Socket.t;        (** open *)
  gone : list (Z * Socket.t);       (** closed, with what had been sent *)
  interest : gmap Z Z;              (** the interest list of the epoll instance *)
  counter : Z;                      (** the event counter of the worker *)
  ctl : list bool;                  (** coming [epoll_ctl] failures; exhausted: none *)
  error_text : bytes                (** [std::system_category().message(errno)] of a failure *)
}.

Definition set_sockets (m : gmap Z Socket.t) (k : t) : t :=
  MkKernel m (gone k) (interest k) (counter k) (ctl k) (error_text k).
Definition set_interest (i : gmap Z Z) (k : t) : t :=
  MkKernel (sockets k) (gone k) i (counter k) (ctl k) (error_text k).
Definition set_counter (n : Z) (k : t) : t :=
  MkKernel (sockets k) (gone k) (interest k) n (ctl k) (error_text k).

(** [::close(fd)]: a closed descriptor leaves the interest list. *)
Definition close (fd : Z) : M t unit :=
  modify_opt (fun k =>
    match sockets k !! fd with
    | Some s => Some (MkKernel (delete fd (sockets k)) (gone k ++ [(fd, s)]) (delete fd (interest k))
                       (counter k) (ctl k) (error_text k))
    | None => None
    end).

(** Whether the next [epoll_ctl] is made to fail. *)
Definition ctl_fails : M t bool := fun k =>
  match ctl k with
  | [] => (Ret false, k)
  | b :: bs => (Ret b, MkKernel (sockets k) (gone k) (interest k) (counter k) bs (error_text k))
  end.

(** [epoll_ctl] with [EPOLL_CTL_ADD] and [EPOLL_CTL_MOD]: whether it succeeded. *)
Definition epoll_add (fd events : Z) : M t bool :=
  f <- ctl_fails ;;
  k <- read ;;
  if f || bool_decide (is_Some (interest k !! fd)) then ret false
  else modify (set_interest (<[fd := events]> (interest k))) ;; ret true.

Definition epoll_mod (fd events : Z) : M t bool :=
  f <- ctl_fails ;;
  k <- read ;;
  if f || bool_decide (interest k !! fd = None) then ret false
  else modify (set_interest (<[fd := events]> (interest k))) ;; ret true.

Definition epoll_del (fd : Z) : M t unit :=
  modify (fun k => set_interest (delete fd (interest k)) k).

(** Writing 1 to an event counter, which fails when it is at its maximum, and
    reading it. *)
Definition counter_max : Z := 2 ^ 64 - 2.

Definition event_write : M t unit :=
  modify (fun k => if counter k <? counter_max then set_counter (counter k + 1) k else k).

Definition event_read : M t unit := modify (set_counter 0).

End Kernel.

(** ** [UniqueFd] *)
Module UniqueFd.

Record t := MkUniqueFd { fd_ : Z }.

Definition none : t := MkUniqueFd (-1).
Definition get (u : t) : Z := fd_ u.
Definition valid (u : t) : bool := 0 <=? fd_ u.

(** [release]: the descriptor, and what is left. *)
Definition release (u : t) : Z * t := (fd_ u, none).

(** [reset(replacement)]. *)
Definition reset (replacement : Z) (u : t) : M Kernel.t t :=
  (if 0 <=? fd_ u then Kernel.close (fd_ u) else ret tt) ;;
  ret (MkUniqueFd replacement).

(** [~UniqueFd]. *)
Definition destroy (u : t) : M Kernel.t unit := reset (-1) u ;; ret tt.

(** [UniqueFd(UniqueFd &&other)]: the new object and what is left of [other]. *)
Definition move (other : t) : t * t := let '(fd, rest) := release other in (MkUniqueFd fd, rest).

(** [operator=(UniqueFd &&other)]. *)
Definition move_assign (same : bool) (self other : t) : M Kernel.t (t * t) :=
  if same then ret (self, self)
  else
    let '(fd, rest) := release other in
    self' <- reset fd self ;;
    ret (self', rest).

End UniqueFd.

(** ** [Worker] *)
Module Worker.

(** The connection at [fd] in [connections_] is the owner of descriptor [fd]. *)
Record t := MkWorker {
  output_limit_ : Z;
  wakeup_ : Z;                          (** the descriptor of the event counter *)
  stop_requested_ : bool;
  pending_ : list UniqueFd.t;
  connections_ : gmap Z Connection.t
}.

Definition set_stop (w : t) : t :=
  MkWorker (output_limit_ w) (wakeup_ w) true (pending_ w) (connections_ w).
Definition set_pending (l : list UniqueFd.t) (w : t) : t :=
  MkWorker (output_limit_ w) (wakeup_ w) (stop_requested_ w) l (connections_ w).
Definition set_connections (m : gmap Z Connection.t) (w : t) : t :=
  MkWorker (output_limit_ w) (wakeup_ w) (stop_requested_ w) (pending_ w) m.

(** What the constructor leaves: nothing waits, and the interest list of the new
    epoll instance is the wake-up event. *)
Definition init (output_limit wakeup : Z) : t := MkWorker output_limit wakeup false [] ∅.
Definition init_kernel (wakeup : Z) (ctl : list bool) (error_text : bytes) : Kernel.t :=
  Kernel.MkKernel ∅ [] {[wakeup := Connection.EPOLLIN]} 0 ctl error_text.

(** The worker, the engine, the kernel, and the memory of its thread. *)
Definition state : Type := t * (CacheEngine.t * (Kernel.t * env)).

Definition on_worker {A} (f : M t A) : M state A := on_fst f.
Definition on_kernel {A} (f : M Kernel.t A) : M state A := on_snd (on_snd (on_fst f)).
Definition on_env {A} (f : M env A) : M state A := on_snd (on_snd (on_snd f)).

(** A call on [*connections_[fd]], which uses its socket. *)
Definition on_connection {A} (fd : Z) (f : M Connection.state A) : M state A := fun s =>
  let '(w, (e, (k, m))) := s in
  match connections_ w !! fd, Kernel.sockets k !! fd with
  | Some c, Some sock =>
      let '(o, (c', (e', (sock', m')))) := f (c, (e, (sock, m))) in
      (o, (set_connections (<[fd := c']> (connections_ w)) w,
           (e', (Kernel.set_sockets (<[fd := sock']> (Kernel.sockets k)) k, m'))))
  | _, _ => (Undefined, s)
  end.

(** [connections_.erase(entry)]: the connection's socket closes. *)
Definition erase_connection (fd : Z) : M state unit :=
  on_worker (modify (fun w => set_connections (delete fd (connections_ w)) w)) ;;
  on_kernel (UniqueFd.destroy (UniqueFd.MkUniqueFd fd)).

Definition EPOLLIN : Z := Connection.EPOLLIN.
Definition EPOLLOUT : Z := Connection.EPOLLOUT.
Definition EPOLLRDHUP : Z := Connection.EPOLLRDHUP.
Definition EPOLLERR : Z := 0x008.
Definition EPOLLHUP : Z := 0x010.

(** [(events & mask) != 0]. *)
Definition has (events mask : Z) : bool := negb (Z.land events mask =? 0).

(** [throw_network_error(operation)]: building the message allocates. *)
Definition throw_network_error {A} (operation : bytes) : M state A :=
  k <- on_kernel read ;;
  on_env may_alloc ;;
  throw (highcache_error (MkHighCacheError network (operation ++ lit ": " ++ Kernel.error_text k))).

(** [add_to_epoll]. *)
Definition add_to_epoll (fd events : Z) : M state unit :=
  b <- on_kernel (Kernel.epoll_add fd events) ;;
  if b then ret tt else throw_network_error (lit "epoll_ctl add failed").

(** [modify_epoll] and [remove_from_epoll]. *)
Definition modify_epoll (fd events : Z) : M state bool := on_kernel (Kernel.epoll_mod fd events).
Definition remove_from_epoll (fd : Z) : M state unit := on_kernel (Kernel.epoll_del fd).

(** [wake_event] and [drain_counter] on the worker's counter. *)
Definition wake_event : M state unit := on_kernel Kernel.event_write.
Definition drain_counter : M state unit := on_kernel Kernel.event_read.

(** [enqueue]; on every way out that does not queue it, the socket closes. *)
Definition enqueue (socket : UniqueFd.t) : M state unit :=
  w <- on_worker read ;;
  if stop_requested_ w then on_kernel (UniqueFd.destroy socket)
  else
    on_throw (on_env may_alloc) (on_kernel (UniqueFd.destroy socket)) ;;
    on_worker (modify (fun w => set_pending (pending_ w ++ [socket]) w)) ;;
    wake_event.

(** [request_stop]. *)
Definition request_stop : M state unit := on_worker (modify set_stop) ;; wake_event.

Section worker.
Variable hash : bytes -> Z.

(** The [try] block of [handle_connection_event]: whether to keep the connection. *)
Definition serve_events (fd events : Z) : M state bool :=
  let keep := negb (has events EPOLLERR) in
  keep <- (if keep && has events (Z.lor (Z.lor EPOLLIN EPOLLRDHUP) EPOLLHUP)
           then on_connection fd (Connection.handle_readable hash) else ret keep) ;;
  keep <- (if keep && has events EPOLLOUT
           then on_connection fd Connection.handle_writable else ret keep) ;;
  if keep && has events (Z.lor EPOLLRDHUP EPOLLHUP)
  then on_connection fd
         (Connection.on_connection (modify Connection.note_peer_closed) ;;
          c <- Connection.on_connection read ;;
          ret (negb (Connection.should_close c)))
  else ret keep.

(** [handle_connection_event]. *)
Definition handle_connection_event (fd events : Z) : M state unit :=
  w <- on_worker read ;;
  match connections_ w !! fd with
  | None => ret tt
  | Some _ =>
      keep <- try_catch (serve_events fd events) (fun _ => ret false) ;;
      connection <- on_connection fd (Connection.on_connection read) ;;
      keep <- (if keep && negb (Connection.should_close connection)
               then modify_epoll fd (Connection.desired_events connection)
               else ret keep) ;;
      if negb keep || Connection.should_close connection
      then remove_from_epoll fd ;; erase_connection fd
      else ret tt
  end.

(** The connection of [install_pending]: the object, its buffers, its node in
    [connections_]; when one of the latter two fails, the socket moved into it
    closes. *)
Definition make_connection (moved : UniqueFd.t) : M state Connection.t :=
  on_throw
    (w <- on_worker read ;;
     connection <- on_env (Connection.create (output_limit_ w)) ;;
     on_env may_alloc ;;
     ret connection)
    (on_kernel (UniqueFd.destroy moved)).

(** From the insertion on: a failure of [add_to_epoll] with a [HighCacheError]
    removes the connection again. *)
Definition register_connection (fd : Z) (moved : UniqueFd.t) (connection : Connection.t) : M state unit :=
  w <- on_worker read ;;
  if decide (connections_ w !! fd = None)
  then
    on_worker (modify (fun w => set_connections (<[fd := connection]> (connections_ w)) w)) ;;
    try_catch (add_to_epoll fd (Connection.desired_events connection))
      (fun x =>
         match x with
         | highcache_error _ => erase_connection fd
         | _ => throw x
         end)
  else on_kernel (UniqueFd.destroy moved).

(** The body of the loop of [install_pending]: what the vector still owns of
    [socket] afterwards. *)
Definition install (socket : UniqueFd.t) : M state UniqueFd.t :=
  let fd := UniqueFd.get socket in
  let '(moved, rest) := UniqueFd.move socket in
  allocated <- try_catch (on_env may_alloc ;; ret true) (fun _ => ret false) ;;
  if negb allocated then ret socket
  else
    try_catch
      (connection <- make_connection moved ;;
       register_connection fd moved connection)
      (fun _ => ret tt) ;;
    ret rest.

Fixpoint install_all (sockets : list UniqueFd.t) : M state (list UniqueFd.t) :=
  match sockets with
  | [] => ret []
  | socket :: sockets =>
      rest <- install socket ;;
      rests <- install_all sockets ;;
      ret (rest :: rests)
  end.

(** The destructor of a vector of sockets. *)
Fixpoint destroy_all (sockets : list UniqueFd.t) : M state unit :=
  match sockets with
  | [] => ret tt
  | socket :: sockets => on_kernel (UniqueFd.destroy socket) ;; destroy_all sockets
  end.

(** [install_pending]. *)
Definition install_pending : M state unit :=
  w <- on_worker read ;;
  on_worker (modify (set_pending [])) ;;
  rests <- install_all (pending_ w) ;;
  destroy_all rests.

(** The loop over the events of one [epoll_wait]: whether the wake-up was seen. *)
Fixpoint handle_events (events : list (Z * Z)) (wakeup_seen : bool) : M state bool :=
  match events with
  | [] => ret wakeup_seen
  | (fd, mask) :: events =>
      w <- on_worker read ;;
      if fd =? wakeup_ w then drain_counter ;; handle_events events true
      else handle_connection_event fd mask ;; handle_events events wakeup_seen
  end.

(** An iteration of [run] after [epoll_wait] returned [events]. *)
Definition run_once (events : list (Z * Z)) : M state unit :=
  wakeup_seen <- handle_events events false ;;
  w <- on_worker read ;;
  if wakeup_seen && negb (stop_requested_ w) then install_pending else ret tt.

(** [connections_.clear()]. *)
Fixpoint clear_connections (fds : list Z) : M state unit :=
  match fds with
  | [] => ret tt
  | fd :: fds => erase_connection fd ;; clear_connections fds
  end.

(** The end of [run]. *)
Definition run_end : M state unit :=
  w <- on_worker read ;;
  clear_connections (map_to_list (connections_ w)).*1 ;;
  w <- on_worker read ;;
  on_worker (modify (set_pending [])) ;;
  destroy_all (pending_ w).

End worker.

End Worker.
