(* ===== verification/WorkerFacts.v ===== *)
(** * A worker owns its sockets

    The invariant of a worker between its steps - every descriptor has one owner,
    connections are registered for the events they wait for, nothing waits in vain
    - and that handling events, installing and stopping keep it. *)
From S2P Require Import Prelude ErrorModel Effects MemoryModel ProgressFacts BufferModel ProtocolModel ProtocolFacts ResponseFacts.
From S2P Require Import CacheEngineModel CacheEngineFacts ConnectionModel ConnectionFacts ConnectionIOFacts WorkerModel.
Import Memory.
Import Worker.
Import Connection(close_immediately_, close_after_write_, peer_closed_).

(** ** Connections between calls *)

(** A connection that is kept is not closing; what it holds of the input is an
    incomplete request; and if it only waits to close, there is output to write
    first. *)
Definition conn_ready (c : Connection.t) : Prop :=
  conn_ok c /\ close_immediately_ c = false /\
  (close_after_write_ c = false -> view_request (input_view c) = Protocol.incomplete) /\
  (close_after_write_ c = true \/ peer_closed_ c = true -> output_view c <> []).

Section serving.
Variable hash : bytes -> Z.

(** What a call on a connection leaves behind, whatever its result. *)
Definition call_left (cap : Z) (c : Connection.t) (s : Connection.state) : Prop :=
  conn_ok s.1 /\ Connection.output_limit_ s.1 = Connection.output_limit_ c /\
  exists ls, engine_holds hash cap s.2.1 ls.

Definition call_kept (cap : Z) (c : Connection.t) (b : bool) (s : Connection.state) : Prop :=
  call_left cap c s /\ (b = true -> conn_ready s.1).

Lemma served_end e data e' rs rest bad :
  served hash e data e' rs rest bad ->
  if bad then rs <> [] else view_request rest = Protocol.incomplete.
Proof. induction 1 as [| |e data q e' rs rest [] Hv Hs IH]; done. Qed.

Lemma concat_frames_nonempty (rs : list Protocol.Response) :
  rs <> [] -> concat (Protocol.response_frame <$> rs) <> [].
Proof.
  destruct rs as [|r rs]; [done|]. intros _ H. by csimpl in H.
Qed.

Lemma readable_kept cap c e k m ls :
  conn_ready c -> engine_holds hash cap e ls ->
  wp (Connection.handle_readable hash) (c, (e, (k, m)))
    (post (call_kept cap c) (fun _ => call_left cap c)).
Proof.
  intros (Hc & F & Hv & Hout) He. destruct (close_after_write_ c) eqn:F1.
  - unfold Connection.handle_readable. apply wp_bind, wp_read. cbn [Connection.read_rounds fst snd].
    apply wp_bind, wp_bind, wp_on_fst, wp_read. cbn beta iota. rewrite F1. cbn [orb].
    apply wp_ret. apply wp_bind, wp_on_fst, wp_read. cbn beta iota. apply wp_ret.
    split; [split_and!; [done|done|by eauto]|]. intros _. cbn [fst].
    split_and!; [done|done|by rewrite F1|intros _; apply Hout; by left].
  - eapply wp_post_mono; [apply (handle_readable_wp hash cap c e k m ls); auto|..].
    + intros b s [(H1 & H2 & H3 & _ & _ & _ & stream & _ & H) ->]. split; [by split_and!|].
      intros Hb. destruct H as [H|(_ & H & rs & rest & bad & V & Hi & Ho & Hbad & Hp)]; [by rewrite H in Hb|].
      pose proof (served_end _ _ _ _ _ _ V) as Hend. split_and!; [done|done|..].
      * rewrite Hbad. intros ->. by rewrite Hi.
      * rewrite Ho. intros Hclose Hnil. apply app_eq_nil in Hnil as [Hn1 Hn2]. destruct Hclose as [Hclose|Hclose].
        -- rewrite <- Hbad, Hclose in Hend. by apply (concat_frames_nonempty rs).
        -- destruct Hp as [Hp|Hp]; [|by rewrite Ho, Hn1, Hn2 in Hp]. apply Hout; [|done]. right. congruence.
    + intros x s (_ & H1 & H2 & H3 & _). by split_and!.
Qed.

Lemma writable_kept cap c e k m ls :
  conn_ready c -> engine_holds hash cap e ls ->
  wp Connection.handle_writable (c, (e, (k, m))) (post (call_kept cap c) (fun _ _ => False)).
Proof.
  intros (Hc & F & Hv & Hout) He. eapply wp_post_mono; [by apply handle_writable_wp|..]; [|done].
  intros b s (Heq & (W1 & W2 & W3 & W4 & W5 & _) & Hb & Hcl). split; [split_and!; [done|done|exists ls; by rewrite Heq]|].
  intros ->. split_and!; [done| |..].
  - by destruct (close_immediately_ s.1).
  - intros Hf. unfold input_view. rewrite W2. apply Hv. congruence.
  - intros Hclose Hnil. assert (true = false); [|done].
    apply (writable_closes _ _ _ _ _ Hcl Hnil). by rewrite <- W5, <- W4.
Qed.

Lemma peer_closed_kept cap c e k m ls :
  conn_ready c -> engine_holds hash cap e ls ->
  wp (Connection.on_connection (modify Connection.note_peer_closed) ;;
      c <- Connection.on_connection read ;; ret (negb (Connection.should_close c))) (c, (e, (k, m)))
    (post (call_kept cap c) (fun _ _ => False)).
Proof.
  intros (Hc & F & Hv & Hout) He. apply wp_bind, wp_on_fst, wp_modify. cbn beta iota.
  apply wp_bind, wp_on_fst, wp_read. cbn beta iota. apply wp_ret. unfold Connection.note_peer_closed. cbn zeta.
  change (Connection.output_ (Connection.set_peer_closed c)) with (Connection.output_ c). pose proof Hc as [C1 C2 C3 C4].
  rewrite (Buffer.empty_view _ C2). fold (output_view c).
  destruct (bool_decide (output_view c = [])) eqn:Ho; zsimp; (split; [split_and!; [by constructor|done|by eauto]|]).
  - done.
  - intros _. split_and!; [by constructor|done|done|done].
Qed.

End serving.

(** ** One connection of a worker *)

(** The state in which the connection at [fd] is [c] and its socket [sock]. *)
Definition put (fd : Z) (c : Connection.t) (sock : Socket.t) (e : CacheEngine.t) (m : env)
    (w : Worker.t) (k : Kernel.t) : Worker.state :=
  (set_connections (<[fd := c]> (connections_ w)) w,
   (e, (Kernel.set_sockets (<[fd := sock]> (Kernel.sockets k)) k, m))).

Lemma put_same fd c sock e m w k :
  connections_ w !! fd = Some c -> Kernel.sockets k !! fd = Some sock -> put fd c sock e m w k = (w, (e, (k, m))).
Proof.
  intros Hc Hs. unfold put, set_connections, Kernel.set_sockets. rewrite !insert_id by done. by destruct w, k.
Qed.

Lemma wp_on_put {A} fd (f : M Connection.state A) c sock e m w k Q :
  wp f (c, (e, (sock, m))) (fun o s => Q o (put fd s.1 s.2.2.1 s.2.1 s.2.2.2 w k)) ->
  wp (on_connection fd f) (put fd c sock e m w k) Q.
Proof.
  unfold wp, on_connection, put. simpl. rewrite !lookup_insert_eq.
  destruct (f _) as [o [c' [e' [sock' m']]]]. simpl. unfold set_connections, Kernel.set_sockets. simpl.
  by rewrite !insert_insert_eq.
Qed.

Section worker.
Variable hash : bytes -> Z.

(** What serving the events of a connection leaves behind. *)
Definition events_left (cap fd : Z) (c : Connection.t) (w : Worker.t) (k : Kernel.t) (keep : bool)
    (s : Worker.state) : Prop :=
  exists c' sock' e' m' ls', s = put fd c' sock' e' m' w k /\ conn_ok c' /\
    Connection.output_limit_ c' = Connection.output_limit_ c /\ engine_holds hash cap e' ls' /\
    (keep = true -> conn_ready c').

(** A call on the connection, as a step of the worker. *)
Lemma call_wp cap fd (f : M Connection.state bool) c0 c sock e m w k ls keep (go : bool) :
  conn_ok c -> Connection.output_limit_ c = Connection.output_limit_ c0 -> engine_holds hash cap e ls ->
  (keep = true -> conn_ready c) -> (go = true -> keep = true) ->
  (conn_ready c -> wp f (c, (e, (sock, m))) (post (call_kept hash cap c) (fun _ => call_left hash cap c))) ->
  wp (if go then on_connection fd f else ret keep) (put fd c sock e m w k)
    (post (events_left cap fd c0 w k) (fun _ => events_left cap fd c0 w k false)).
Proof.
  intros Hc Hl He Hk Hgo Hf. destruct go.
  - apply wp_on_put. eapply wp_mono; [apply Hf; auto|]. intros [b|x|] s; simpl; [|..|done].
    + intros [(H1 & H2 & ls' & H3) H4]. eexists _, _, _, _, ls'. split_and!; [done|done|congruence|done|done].
    + intros (H1 & H2 & ls' & H3). eexists _, _, _, _, ls'. split_and!; [done|done|congruence|done|done].
  - apply wp_ret. eexists _, _, _, _, ls. split_and!; [done|done|done|done|done].
Qed.

Lemma serve_events_wp cap fd events c sock e m w k ls :
  conn_ready c -> engine_holds hash cap e ls ->
  wp (serve_events hash fd events) (put fd c sock e m w k)
    (post (events_left cap fd c w k) (fun _ => events_left cap fd c w k false)).
Proof.
  intros Hc He. unfold serve_events. cbn zeta.
  eapply wp_bind_post; [eapply (call_wp cap fd _ c c); [by apply Hc|done|exact He|done| |]|..].
  { intros H. by apply andb_true_iff in H as [? _]. }
  { intros _. by eapply readable_kept. }
  2: done.
  intros keep s (c1 & sock1 & e1 & m1 & ls1 & -> & H1 & H2 & H3 & H4).
  eapply wp_bind_post; [eapply (call_wp cap fd _ c c1); [done|done|exact H3|exact H4| |]|..].
  { intros H. by apply andb_true_iff in H as [? _]. }
  { intros Hr. eapply wp_post_mono; [by eapply writable_kept|done|done]. }
  2: done.
  intros keep' s (c2 & sock2 & e2 & m2 & ls2 & -> & G1 & G2 & G3 & G4).
  eapply (call_wp cap fd _ c c2); [done|done|exact G3|exact G4| |].
  { intros H. by apply andb_true_iff in H as [? _]. }
  intros Hr. eapply wp_post_mono; [by eapply peer_closed_kept|done|done].
Qed.


(** ** The invariant *)

(** The descriptors that wait to be installed. *)
Definition waiting (w : Worker.t) : list Z := UniqueFd.fd_ <$> pending_ w.

(** A connection is registered for the events it wants; or for none, which
    [all_registered] excludes and which happens only when an [epoll_ctl] and an
    allocation both fail (see [undoubled]). *)
Definition registered (k : Kernel.t) (fd : Z) (c : Connection.t) : Prop :=
  Kernel.interest k !! fd = Some (Connection.desired_events c) \/ Kernel.interest k !! fd = None.

(** [X] are descriptors owned by someone else in the thread: the vector that
    [install_pending] works through. *)
Record worker_holds (cap : Z) (X : list Z) (w : Worker.t) (e : CacheEngine.t) (k : Kernel.t) : Prop := {
  wk_engine : exists ls, engine_holds hash cap e ls;
  wk_limit : 0 <= output_limit_ w < 2 ^ 64;
  wk_conn : forall fd c, connections_ w !! fd = Some c ->
    0 <= fd /\ conn_ready c /\ Connection.output_limit_ c = output_limit_ w /\ registered k fd c;
  wk_nodup : NoDup (X ++ waiting w);
  wk_waiting : forall fd, fd ∈ X ++ waiting w -> 0 <= fd /\ connections_ w !! fd = None;
  wk_sockets : forall fd, is_Some (Kernel.sockets k !! fd) <-> fd ∈ X ++ waiting w \/ is_Some (connections_ w !! fd);
  wk_interest : forall fd, is_Some (Kernel.interest k !! fd) ->
    fd = wakeup_ w \/ is_Some (connections_ w !! fd);
  wk_wakeup : Kernel.interest k !! wakeup_ w = Some EPOLLIN /\ Kernel.sockets k !! wakeup_ w = None
}.

(** Every connection is registered for the events it wants. *)
Definition all_registered (w : Worker.t) (k : Kernel.t) : Prop :=
  forall fd c, connections_ w !! fd = Some c -> Kernel.interest k !! fd = Some (Connection.desired_events c).

(** Sockets that wait and a stop request have been announced: the counter of the
    wake-up event is set, so [epoll_wait] reports it. *)
Definition announced (w : Worker.t) (k : Kernel.t) : Prop :=
  0 <= Kernel.counter k /\ (pending_ w <> [] \/ stop_requested_ w = true -> 0 < Kernel.counter k).

(** A worker anywhere, and one that waits in [epoll_wait]. *)
Definition worker_sound (cap : Z) (w : Worker.t) (e : CacheEngine.t) (k : Kernel.t) : Prop :=
  worker_holds cap [] w e k /\ 0 <= Kernel.counter k.
Definition worker_ok (cap : Z) (w : Worker.t) (e : CacheEngine.t) (k : Kernel.t) : Prop :=
  worker_holds cap [] w e k /\ announced w k.

Lemma worker_ok_sound cap w e k : worker_ok cap w e k -> worker_sound cap w e k.
Proof. intros [H1 [H2 _]]. by split. Qed.

Lemma wk_owned cap X w e k fd c :
  worker_holds cap X w e k -> connections_ w !! fd = Some c ->
  0 <= fd /\ conn_ready c /\ (exists sock, Kernel.sockets k !! fd = Some sock) /\ fd <> wakeup_ w /\
  (fd ∉ X ++ waiting w).
Proof.
  intros Ho Hc. destruct (wk_conn _ _ _ _ _ Ho fd c Hc) as (H1 & H2 & _).
  assert (is_Some (Kernel.sockets k !! fd)) as Hs by (apply (wk_sockets _ _ _ _ _ Ho); right; by eexists).
  split_and!; [done|done|exact Hs| |].
  - intros ->. rewrite (proj2 (wk_wakeup _ _ _ _ _ Ho)) in Hs. by destruct Hs.
  - intros Hin. apply (wk_waiting _ _ _ _ _ Ho) in Hin as [_ Hin]. congruence.
Qed.

(** Replacing a connection by one that is ready, registered for its events. *)
Lemma worker_holds_keep cap X w e k fd c c' sock' e' ls' :
  worker_holds cap X w e k -> connections_ w !! fd = Some c -> conn_ready c' ->
  Connection.output_limit_ c' = Connection.output_limit_ c -> engine_holds hash cap e' ls' ->
  worker_holds cap X (set_connections (<[fd := c']> (connections_ w)) w) e'
    (Kernel.set_interest (<[fd := Connection.desired_events c']> (Kernel.interest k))
      (Kernel.set_sockets (<[fd := sock']> (Kernel.sockets k)) k)).
Proof.
  intros Ho Hc Hr Hl He. pose proof (wk_owned _ _ _ _ _ _ _ Ho Hc) as (Hfd & _ & [sock Hs] & Hw & Hnw).
  pose proof Ho as [O1 O2 O3 O4 O5 O6 O7 [O8 O8']]. destruct (O3 fd c Hc) as (_ & _ & Hlim & _).
  constructor; simpl; [by eauto|done| |done|..].
  - intros fd1 c1. destruct (decide (fd1 = fd)) as [->|Hne].
    + rewrite lookup_insert_eq. intros [= <-]. split_and!; [done|done|congruence|]. left. simpl. by rewrite lookup_insert_eq.
    + rewrite lookup_insert_ne by done. intros H1. destruct (O3 fd1 c1 H1) as (G1 & G2 & G3 & G4).
      split_and!; [done|done|done|]. unfold registered in *. simpl. by rewrite lookup_insert_ne.
  - intros fd1 Hin. destruct (decide (fd1 = fd)) as [->|Hne]; [done|]. rewrite lookup_insert_ne by done. by apply O5.
  - intros fd1. change (waiting _) with (waiting w). destruct (decide (fd1 = fd)) as [->|Hne].
    + rewrite !lookup_insert_eq. split; [by right|by eexists].
    + rewrite !lookup_insert_ne by done. apply O6.
  - intros fd1. destruct (decide (fd1 = fd)) as [->|Hne].
    + rewrite !lookup_insert_eq. by right.
    + rewrite !lookup_insert_ne by done. apply O7.
  - by rewrite !lookup_insert_ne by done.
Qed.

(** Removing a connection: its descriptor closes. *)
Definition without_connection (fd : Z) (sock : Socket.t) (w : Worker.t) (k : Kernel.t) : Worker.t * Kernel.t :=
  (set_connections (delete fd (connections_ w)) w,
   Kernel.MkKernel (delete fd (Kernel.sockets k)) (Kernel.gone k ++ [(fd, sock)]) (delete fd (Kernel.interest k))
     (Kernel.counter k) (Kernel.ctl k) (Kernel.error_text k)).

Lemma worker_holds_erase cap X w e k fd c sock e' ls' :
  worker_holds cap X w e k -> connections_ w !! fd = Some c -> engine_holds hash cap e' ls' ->
  worker_holds cap X (without_connection fd sock w k).1 e' (without_connection fd sock w k).2.
Proof.
  intros Ho Hc He. pose proof (wk_owned _ _ _ _ _ _ _ Ho Hc) as (Hfd & _ & _ & Hw & Hnw).
  pose proof Ho as [O1 O2 O3 O4 O5 O6 O7 [O8 O8']].
  constructor; simpl; [by eauto|done| |done|..].
  - intros fd1 c1 H1. apply lookup_delete_Some in H1 as [Hne H1]. destruct (O3 fd1 c1 H1) as (G1 & G2 & G3 & G4).
    split_and!; [done|done|done|]. unfold registered in *. simpl. by rewrite lookup_delete_ne.
  - intros fd1 Hin. apply O5 in Hin as [? Hin]. split; [done|]. apply lookup_delete_None. by right.
  - intros fd1. change (waiting _) with (waiting w). destruct (decide (fd1 = fd)) as [->|Hne].
    + rewrite !lookup_delete_eq. split; [by intros [? ?]|]. intros [?|[? ?]]; done.
    + rewrite !lookup_delete_ne by done. apply O6.
  - intros fd1. destruct (decide (fd1 = fd)) as [->|Hne].
    + rewrite lookup_delete_eq. by intros [? ?].
    + rewrite !lookup_delete_ne by done. apply O7.
  - by rewrite !lookup_delete_ne by done.
Qed.

Lemma wp_on_kernel {A} (f : M Kernel.t A) (w : Worker.t) (e : CacheEngine.t) k (m : env) Q :
  wp f k (fun o k' => Q o (w, (e, (k', m)))) -> wp (on_kernel f) (w, (e, (k, m))) Q.
Proof. intros H. by apply wp_on_snd, wp_on_snd, wp_on_fst. Qed.

Lemma wp_on_thread_env {A} (f : M env A) (w : Worker.t) (e : CacheEngine.t) (k : Kernel.t) m Q :
  wp f m (fun o m' => Q o (w, (e, (k, m')))) -> wp (on_env f) (w, (e, (k, m))) Q.
Proof. intros H. by apply wp_on_snd, wp_on_snd, wp_on_snd. Qed.

(** Closing an open descriptor. *)
Lemma destroy_fd_wp fd k sock Q :
  0 <= fd -> Kernel.sockets k !! fd = Some sock ->
  Q (Ret tt) (Kernel.MkKernel (delete fd (Kernel.sockets k)) (Kernel.gone k ++ [(fd, sock)])
    (delete fd (Kernel.interest k)) (Kernel.counter k) (Kernel.ctl k) (Kernel.error_text k)) ->
  wp (UniqueFd.destroy (UniqueFd.MkUniqueFd fd)) k Q.
Proof.
  intros Hfd Hs HQ. unfold UniqueFd.destroy, UniqueFd.reset, Kernel.close. simpl.
  rewrite (proj2 (Z.leb_le 0 fd)) by done. apply wp_bind, wp_bind. eapply wp_modify_opt; [by rewrite Hs|].
  apply wp_ret. by apply wp_ret.
Qed.

Lemma erase_connection_wp fd c sock e m w k Q :
  0 <= fd ->
  Q (Ret tt) ((without_connection fd sock w k).1, (e, ((without_connection fd sock w k).2, m))) ->
  wp (erase_connection fd) (put fd c sock e m w k) Q.
Proof.
  intros Hfd HQ. unfold erase_connection. apply wp_bind, wp_on_fst, wp_modify. cbn beta iota.
  apply wp_on_kernel. eapply (destroy_fd_wp fd _ sock); [done|by simpl; rewrite lookup_insert_eq|].
  revert HQ. unfold without_connection, set_connections. simpl. by rewrite !delete_insert_eq.
Qed.

(** What an event of one connection leaves alone. *)
Definition others_same (fd : Z) (s s' : Worker.state) : Prop :=
  pending_ s'.1 = pending_ s.1 /\ stop_requested_ s'.1 = stop_requested_ s.1 /\ wakeup_ s'.1 = wakeup_ s.1 /\
  output_limit_ s'.1 = output_limit_ s.1 /\ Kernel.counter s'.2.2.1 = Kernel.counter s.2.2.1 /\
  forall fd1, fd1 <> fd -> connections_ s'.1 !! fd1 = connections_ s.1 !! fd1 /\
    Kernel.sockets s'.2.2.1 !! fd1 = Kernel.sockets s.2.2.1 !! fd1 /\
    Kernel.interest s'.2.2.1 !! fd1 = Kernel.interest s.2.2.1 !! fd1.

(** The event was dealt with: the invariant holds, the other connections are as
    they were, and this one is gone or registered for what it now waits for. *)
Definition event_done (cap fd : Z) (s s' : Worker.state) : Prop :=
  worker_holds cap [] s'.1 s'.2.1 s'.2.2.1 /\ others_same fd s s' /\
  (connections_ s'.1 !! fd = None \/
   exists c, connections_ s'.1 !! fd = Some c /\
     Kernel.interest s'.2.2.1 !! fd = Some (Connection.desired_events c)).

Lemma others_same_put fd c sock e m w k e' m' ctl :
  others_same fd (w, (e, (k, m)))
    (set_connections (<[fd := c]> (connections_ w)) w,
     (e', (Kernel.MkKernel (<[fd := sock]> (Kernel.sockets k)) (Kernel.gone k)
        (<[fd := Connection.desired_events c]> (Kernel.interest k)) (Kernel.counter k) ctl (Kernel.error_text k), m'))).
Proof. split_and!; try done. intros fd1 Hne. simpl. by rewrite !lookup_insert_ne. Qed.

Lemma others_same_without fd e m w k k' e' m' :
  Kernel.sockets k' = delete fd (Kernel.sockets k) -> Kernel.interest k' = delete fd (Kernel.interest k) ->
  Kernel.counter k' = Kernel.counter k ->
  others_same fd (w, (e, (k, m))) (set_connections (delete fd (connections_ w)) w, (e', (k', m'))).
Proof.
  intros H1 H2 H3. split_and!; try done. intros fd1 Hne. simpl. by rewrite H1, H2, !lookup_delete_ne.
Qed.

(** The kernel with another schedule of failures. *)
Definition with_ctl (ctl : list bool) (k : Kernel.t) : Kernel.t :=
  Kernel.MkKernel (Kernel.sockets k) (Kernel.gone k) (Kernel.interest k) (Kernel.counter k) ctl (Kernel.error_text k).

Lemma with_ctl_same k : with_ctl (Kernel.ctl k) k = k.
Proof. by destruct k. Qed.

Lemma with_ctl_holds cap X w e k ctl : worker_holds cap X w e k -> worker_holds cap X w e (with_ctl ctl k).
Proof. intros Ho. destruct Ho. by constructor. Qed.

(** [handle_connection_event] drops the connection. *)
Lemma drop_wp cap fd c c' sock' e m w k ctl e' m' ls' :
  worker_holds cap [] w e k -> connections_ w !! fd = Some c -> engine_holds hash cap e' ls' ->
  wp (remove_from_epoll fd ;; erase_connection fd) (put fd c' sock' e' m' w (with_ctl ctl k))
    (post (fun _ s' => event_done cap fd (w, (e, (k, m))) s' /\ s'.2.1 = e' /\ connections_ s'.1 !! fd = None)
      (fun _ _ => False)).
Proof.
  intros Ho Hc He. pose proof (wk_owned _ _ _ _ _ _ _ Ho Hc) as (Hfd & _).
  unfold remove_from_epoll. apply wp_bind, wp_on_kernel. unfold Kernel.epoll_del. apply wp_modify. cbn beta iota.
  set (k1 := Kernel.set_interest (delete fd (Kernel.interest k)) (with_ctl ctl k)).
  apply (erase_connection_wp fd c' sock' e' m' w k1); [done|].
  assert (without_connection fd sock' w k1 = without_connection fd sock' w (with_ctl ctl k)) as ->.
  { unfold without_connection. simpl. by rewrite delete_delete_eq. }
  assert (connections_ (without_connection fd sock' w (with_ctl ctl k)).1 !! fd = None) as Hnone
    by (simpl; apply lookup_delete_eq).
  split; [|split; [done|exact Hnone]]. split_and!; [|by apply others_same_without|by left].
  eapply worker_holds_erase; [by apply with_ctl_holds|exact Hc|exact He].
Qed.

Lemma epoll_mod_wp fd events k :
  wp (Kernel.epoll_mod fd events) k (post
    (fun (b : bool) k' => exists ctl, k' = Kernel.set_interest (if b then <[fd := events]> (Kernel.interest k) else Kernel.interest k)
       (with_ctl ctl k))
    (fun _ _ => False)).
Proof.
  unfold Kernel.epoll_mod, wp, Kernel.ctl_fails, bind, read, modify. destruct k as [? ? i ? [|[] ctl] ?]; simpl.
  all: try (by eexists). all: destruct (bool_decide _); simpl; by eexists.
Qed.

(** The end of [handle_connection_event]: register for the new events, or drop the
    connection. *)
Lemma settle_wp cap fd c c' sock' e m w k e' m' ls' keep :
  worker_holds cap [] w e k -> connections_ w !! fd = Some c -> conn_ok c' ->
  Connection.output_limit_ c' = Connection.output_limit_ c -> engine_holds hash cap e' ls' ->
  (keep = true -> conn_ready c') ->
  wp (connection <- on_connection fd (Connection.on_connection read) ;;
      keep <- (if keep && negb (Connection.should_close connection)
               then modify_epoll fd (Connection.desired_events connection) else ret keep) ;;
      if negb keep || Connection.should_close connection
      then remove_from_epoll fd ;; erase_connection fd else ret tt)
    (put fd c' sock' e' m' w k) (post (fun _ s' => event_done cap fd (w, (e, (k, m))) s' /\ s'.2.1 = e' /\
      (connections_ s'.1 !! fd = None \/
       keep = true /\ connections_ s'.1 !! fd = Some c' /\ Kernel.sockets s'.2.2.1 !! fd = Some sock')) (fun _ _ => False)).
Proof.
  intros Ho Hc Hc' Hl He Hk. apply wp_bind, wp_on_put, wp_on_fst, wp_read. cbn [fst snd].
  destruct keep; simpl andb.
  2: { apply wp_bind, wp_ret. cbn [negb orb]. rewrite <- (with_ctl_same k).
       eapply wp_post_mono; [by eapply (drop_wp cap fd c c' sock' e m)| |done]. rewrite with_ctl_same. intros _ s' (? & ? & ?). by auto. }
  specialize (Hk eq_refl). pose proof Hk as (_ & Hcl & _). unfold Connection.should_close. rewrite Hcl. cbn [negb].
  apply wp_bind. unfold modify_epoll. apply wp_on_kernel. eapply wp_mono; [apply epoll_mod_wp|].
  intros [[]|x|] k'; [..|done|done]; intros (ctl & ->); cbn [negb orb].
  - apply wp_ret. split; [|split; [done|right; simpl; by rewrite !lookup_insert_eq]]. split_and!.
    + exact (worker_holds_keep cap [] w e (with_ctl ctl k) fd c c' sock' e' ls' (with_ctl_holds _ _ _ _ _ _ Ho) Hc Hk Hl He).
    + exact (others_same_put fd c' sock' e m w k e' m' ctl).
    + right. exists c'. simpl. by rewrite !lookup_insert_eq.
  - eapply wp_post_mono; [by eapply (drop_wp cap fd c c' sock' e m w k ctl)| |done]. intros _ s' (? & ? & ?). by auto.
Qed.

(** Without [EPOLLERR] the connection may be kept; with it, it is not served. *)
Lemma serve_events_error fd events s : has events EPOLLERR = true -> serve_events hash fd events s = (Ret false, s).
Proof. intros He. unfold serve_events. rewrite He. done. Qed.

Lemma handle_connection_event_wp cap fd events w e k m :
  worker_holds cap [] w e k ->
  wp (handle_connection_event hash fd events) (w, (e, (k, m)))
    (post (fun _ s' => event_done cap fd (w, (e, (k, m))) s' /\
      (has events EPOLLERR = true -> connections_ s'.1 !! fd = None)) (fun _ _ => False)).
Proof.
  intros Ho. unfold handle_connection_event. apply wp_bind, wp_on_fst, wp_read. cbn beta iota.
  destruct (connections_ w !! fd) as [c|] eqn:Hc; [|by apply wp_ret; split; [split_and!; try left|]].
  pose proof (wk_owned _ _ _ _ _ _ _ Ho Hc) as (Hfd & Hr & [sock Hs] & _).
  destruct (wk_engine _ _ _ _ _ Ho) as [ls He].
  rewrite <- (put_same fd c sock e m w k Hc Hs) at 1. destruct (has events EPOLLERR) eqn:Herr.
  - apply wp_bind. unfold try_catch, wp. rewrite serve_events_error by done. cbn [fst snd].
    eapply wp_post_mono; [eapply (settle_wp cap fd c c sock e m w k e m ls false); [done|done|apply Hr|done|done|done]| |done].
    intros _ s' (H1 & _ & [H2|(? & _)]); [by auto|done].
  - apply wp_bind. eapply wp_try_catch; [by eapply (serve_events_wp cap fd events c sock e m w k ls)|..].
    + intros keep s (c' & sock' & e' & m' & ls' & -> & H1 & H2 & H3 & H4).
      eapply wp_post_mono; [by eapply (settle_wp cap fd c c' sock' e m w k e' m' ls' keep)| |done]. by intros _ s' [? _].
    + intros x s (c' & sock' & e' & m' & ls' & -> & H1 & H2 & H3 & H4). apply wp_ret.
      eapply wp_post_mono; [by eapply (settle_wp cap fd c c' sock' e m w k e' m' ls' false)| |done]. by intros _ s' [? _].
Qed.

(** ** Two kinds of failures *)

(** Of the calls of the thread, not both allocations and [epoll_ctl] are scheduled
    to fail. *)
Definition undoubled (s : Worker.state) : Prop := quiet s.2.2.2 \/ Kernel.ctl s.2.2.1 = [].

Lemma on_connection_quiet {A} fd (f : M Connection.state A) :
  lasting conn_quiet f -> lasting (fun s => quiet s.2.2.2) (on_connection fd f).
Proof.
  intros Hf [w [e [k m]]] Hs. unfold on_connection. destruct (connections_ w !! fd) as [c|], (Kernel.sockets k !! fd) as [sock|]; try done.
  specialize (Hf (c, (e, (sock, m))) Hs). by destruct (f _) as [o [c' [e' [sock' m']]]].
Qed.

Lemma on_connection_ctl {A} fd (f : M Connection.state A) : lasting (fun s => Kernel.ctl s.2.2.1 = []) (on_connection fd f).
Proof.
  intros [w [e [k m]]] Hs. unfold on_connection. destruct (connections_ w !! fd) as [c|], (Kernel.sockets k !! fd) as [sock|]; try done.
  by destruct (f _) as [o [c' [e' [sock' m']]]].
Qed.

Lemma on_worker_lasting {A} (P : CacheEngine.t * (Kernel.t * env) -> Prop) (f : M Worker.t A) :
  lasting (fun s => P s.2) (on_worker f).
Proof. exact (lasting_on_fst P f). Qed.

Lemma on_kernel_quiet {A} (f : M Kernel.t A) : lasting (fun s => quiet s.2.2.2) (on_kernel f).
Proof. exact (lasting_on_snd _ _ (lasting_on_snd _ _ (lasting_on_fst quiet f))). Qed.

Lemma on_kernel_ctl {A} (f : M Kernel.t A) :
  lasting (fun k => Kernel.ctl k = []) f -> lasting (fun s => Kernel.ctl s.2.2.1 = []) (on_kernel f).
Proof.
  intros Hf [w [e [k m]]] Hs. specialize (Hf k Hs). unfold on_kernel, on_snd, on_fst. cbn [fst snd] in *.
  by destruct (f k).
Qed.

Lemma epoll_mod_ctl fd events : lasting (fun k => Kernel.ctl k = []) (Kernel.epoll_mod fd events).
Proof.
  intros k Hk. unfold Kernel.epoll_mod, Kernel.ctl_fails, bind, read, modify. rewrite Hk. cbn [orb].
  by destruct (bool_decide _).
Qed.

Lemma epoll_del_ctl fd : lasting (fun k => Kernel.ctl k = []) (Kernel.epoll_del fd).
Proof. by intros k Hk. Qed.

Lemma destroy_ctl u : lasting (fun k => Kernel.ctl k = []) (UniqueFd.destroy u).
Proof.
  unfold UniqueFd.destroy, UniqueFd.reset, Kernel.close. lasting_step.
  intros k Hk. unfold modify_opt. by destruct (Kernel.sockets k !! _).
Qed.

Lemma note_peer_lasting :
  lasting conn_quiet (Connection.on_connection (modify Connection.note_peer_closed) ;;
    c <- Connection.on_connection read ;; ret (negb (Connection.should_close c))).
Proof. pose proof @on_connection_lasting as H. lasting_step. Qed.

Lemma event_lasting fd events P :
  (forall B (f : M Connection.state B), lasting conn_quiet f -> lasting P (on_connection fd f)) ->
  (forall B (f : M Worker.t B), lasting P (on_worker f)) ->
  (forall ev, lasting P (modify_epoll fd ev)) -> lasting P (remove_from_epoll fd) ->
  (forall u, lasting P (on_kernel (UniqueFd.destroy u))) -> lasting P (handle_connection_event hash fd events).
Proof.
  intros H1 H2 H3 H4 H5. pose proof (H1 _ _ (handle_readable_lasting hash)). pose proof (H1 _ _ handle_writable_lasting).
  pose proof (H1 _ _ note_peer_lasting). pose proof (H1 _ _ (on_connection_lasting read)).
  unfold handle_connection_event, serve_events, erase_connection. lasting_step.
Qed.

Lemma event_undoubled fd events : lasting undoubled (handle_connection_event hash fd events).
Proof.
  intros s [Hq|Hc]; [left; apply (event_lasting fd events (fun s => quiet s.2.2.2))|
    right; apply (event_lasting fd events (fun s => Kernel.ctl s.2.2.1 = []))]; try done.
  - intros B f. apply on_connection_quiet.
  - intros B f. exact (on_worker_lasting (fun r => quiet r.2.2) f).
  - intros ev. apply on_kernel_quiet.
  - apply on_kernel_quiet.
  - intros u. apply on_kernel_quiet.
  - intros B f _. apply on_connection_ctl.
  - intros B f. exact (on_worker_lasting (fun r => Kernel.ctl r.2.1 = []) f).
  - intros ev. apply on_kernel_ctl, epoll_mod_ctl.
  - apply on_kernel_ctl, epoll_del_ctl.
  - intros u. apply on_kernel_ctl, destroy_ctl.
Qed.

(** An event of a connection keeps the others registered and registers its own. *)
Lemma event_registered cap fd s s' :
  event_done cap fd s s' -> all_registered s.1 s.2.2.1 -> all_registered s'.1 s'.2.2.1.
Proof.
  intros (_ & (_ & _ & _ & _ & _ & Ho) & Hfd) Hr fd1 c1 Hc1. destruct (decide (fd1 = fd)) as [->|Hne].
  - destruct Hfd as [Hn|(c & Hc & Hi)]; congruence.
  - destruct (Ho fd1 Hne) as (E1 & _ & E3). rewrite E1 in Hc1. rewrite E3. by apply Hr.
Qed.

End worker.
