(* ===== verification/WorkerInstallFacts.v ===== *)
(** * Installing, stopping, and the run of a worker

    The steps of a worker that move descriptors: [install_pending] turns waiting
    sockets into registered connections, [enqueue] hands one over, the end of
    [run] closes them all. *)
From S2P Require Import Prelude ErrorModel Effects MemoryModel ProgressFacts BufferModel ProtocolModel ProtocolFacts.
From S2P Require Import CacheEngineModel CacheEngineFacts ConnectionModel ConnectionFacts WorkerModel WorkerFacts.
Import Memory.
Import Worker.

(** ** A fresh connection *)

Definition fresh_connection (limit : Z) (c : Connection.t) : Prop :=
  conn_ready c /\ Connection.output_limit_ c = limit /\
  Connection.desired_events c = Z.lor Connection.EPOLLRDHUP Connection.EPOLLIN.

(** An allocation, and what the schedule says of it. *)
Lemma wp_may_alloc_steady e Q :
  (forall e', mem e' = mem e -> (quiet e -> quiet e') -> Q (Ret tt) e') ->
  (forall e', mem e' = mem e -> ~ quiet e -> Q (Throw bad_alloc) e') ->
  wp may_alloc e Q.
Proof.
  intros HR HT. unfold wp, may_alloc, quiet in *. destruct e as [m [|[] fs]]; simpl in *; [by auto|by apply HT|by apply HR].
Qed.

Lemma create_buffer_steady n e :
  0 <= n <= CharVector.max_size ->
  wp (Buffer.create n) e (post
    (fun b e' => Buffer.buffer_ok b /\ Buffer.readable_view b = [] /\ mem e' = mem e /\ (quiet e -> quiet e'))
    (fun x e' => mem e' = mem e /\ ~ quiet e)).
Proof.
  intros Hn. pose proof (Buffer.create_buffer_wp n e Hn) as H.
  assert (quiet e -> exists b, Buffer.create n e = (Ret b, e)) as Hq.
  { intros Hq. unfold Buffer.create, CharVector.reserve. rewrite Z.gtb_ltb, (proj2 (Z.ltb_ge _ _)) by lia.
    unfold bind, on_fst at 1, read. simpl. rewrite Z.gtb_ltb. destruct (_ <? _); simpl; [|by eexists].
    unfold on_snd. simpl. unfold may_alloc. rewrite Hq. simpl. by eexists. }
  unfold wp in *. destruct (Buffer.create n e) as [[b|x|] e'] eqn:E; simpl in *; [..|done].
  - destruct H as (H1 & H2 & H3). split_and!; [done|done|done|]. intros Hqe. destruct (Hq Hqe) as [b' Hb']. by simplify_eq.
  - split; [apply H|]. intros Hqe. by destruct (Hq Hqe).
Qed.

Lemma create_connection_wp limit m :
  0 <= limit < 2 ^ 64 ->
  wp (Connection.create limit) m (post
    (fun c m' => fresh_connection limit c /\ (quiet m -> quiet m'))
    (fun x m' => ~ quiet m)).
Proof.
  intros Hl. unfold Connection.create.
  eapply wp_bind_post; [apply create_buffer_steady; unfold CharVector.max_size; lia| |intros x m1 [_ H]; exact H].
  intros i m1 (I1 & I2 & _ & I3).
  eapply wp_bind_post; [apply create_buffer_steady; unfold CharVector.max_size; lia| |intros x m2 [_ H] Hq; by apply H, I3].
  intros o m2 (O1 & O2 & _ & O3). apply wp_ret. split; [|by auto]. split_and!; [|done|].
  - split_and!; [constructor; simpl; [done|done|done|unfold output_view; simpl; rewrite O2; zsimp; simpl; lia]|done|..].
    + intros _. unfold input_view. simpl. rewrite I2. done.
    + by intros [|].
  - unfold Connection.desired_events, Connection.wants_write, Connection.should_close. simpl.
    by rewrite (Buffer.empty_view _ O1), O2.
Qed.

Section worker.
Variable hash : bytes -> Z.

(** ** Owners *)

(** The kernel after closing [fd]. *)
Definition kernel_closed (fd : Z) (sock : Socket.t) (k : Kernel.t) : Kernel.t :=
  Kernel.MkKernel (delete fd (Kernel.sockets k)) (Kernel.gone k ++ [(fd, sock)]) (delete fd (Kernel.interest k))
    (Kernel.counter k) (Kernel.ctl k) (Kernel.error_text k).

(** A descriptor of the vector: open, and nobody else's. *)
Lemma wk_handed cap fd X w e k :
  worker_holds hash cap (fd :: X) w e k ->
  0 <= fd /\ connections_ w !! fd = None /\ (exists sock, Kernel.sockets k !! fd = Some sock) /\
  Kernel.interest k !! fd = None /\ (fd ∉ X ++ waiting w) /\ fd <> wakeup_ w.
Proof.
  intros [O1 O2 O3 O4 O5 O6 O7 [O8 O9]]. assert (fd ∈ (fd :: X) ++ waiting w) as Hin by (left).
  destruct (O5 fd Hin) as [H1 H2]. assert (is_Some (Kernel.sockets k !! fd)) as [sock Hs] by (apply O6; by left).
  assert (fd <> wakeup_ w) as Hw by (intros ->; congruence).
  split_and!; [done|done|by exists sock| |by apply NoDup_cons in O4 as [? _]|done].
  destruct (Kernel.interest k !! fd) eqn:E; [|done]. destruct (O7 fd) as [H|[c Hc]]; [by eexists|done|congruence].
Qed.

Lemma worker_holds_drop cap fd X w e k sock :
  worker_holds hash cap (fd :: X) w e k -> worker_holds hash cap X w e (kernel_closed fd sock k).
Proof.
  intros Ho. pose proof (wk_handed _ _ _ _ _ _ Ho) as (H1 & H2 & _ & H3 & H4 & H5).
  destruct Ho as [O1 O2 O3 O4 O5 O6 O7 [O8 O9]]. constructor; simpl; [done|done|..].
  - intros fd1 c1 Hc. destruct (O3 fd1 c1 Hc) as (G1 & G2 & G3 & G4). split_and!; [done|done|done|].
    unfold registered. simpl. rewrite lookup_delete_ne; [done|]. intros ->. congruence.
  - by apply NoDup_cons in O4 as [_ ?].
  - intros fd1 Hin. apply O5. by right.
  - intros fd1. destruct (decide (fd1 = fd)) as [->|Hne].
    + rewrite lookup_delete_eq. split; [by intros [? ?]|]. intros [?|Hs]; [done|]. rewrite H2 in Hs. by destruct Hs.
    + rewrite lookup_delete_ne by done. rewrite O6. simpl. rewrite elem_of_cons. naive_solver.
  - intros fd1 [v Hv]. apply lookup_delete_Some in Hv as [_ Hv]. apply O7. by eexists.
  - by rewrite !lookup_delete_ne by done.
Qed.

(** A connection over the descriptor, registered or not. *)
Lemma worker_holds_connect cap fd X w e k k' c :
  worker_holds hash cap (fd :: X) w e k -> fresh_connection (output_limit_ w) c ->
  Kernel.sockets k' = Kernel.sockets k ->
  Kernel.interest k' = Kernel.interest k \/
    Kernel.interest k' = <[fd := Connection.desired_events c]> (Kernel.interest k) ->
  worker_holds hash cap X (set_connections (<[fd := c]> (connections_ w)) w) e k'.
Proof.
  intros Ho (F1 & F2 & _) Hs Hi. pose proof (wk_handed _ _ _ _ _ _ Ho) as (H1 & H2 & [sock H0] & H3 & H4 & H5).
  assert (forall fd1, fd1 <> fd -> Kernel.interest k' !! fd1 = Kernel.interest k !! fd1) as Hne.
  { intros fd1 ?. destruct Hi as [-> | ->]; [done|by rewrite lookup_insert_ne]. }
  destruct Ho as [O1 O2 O3 O4 O5 O6 O7 [O8 O9]]. constructor; simpl; [done|done|..].
  - intros fd1 c1. destruct (decide (fd1 = fd)) as [->|Hd].
    + rewrite lookup_insert_eq. intros [= <-]. split_and!; [done|done|done|]. unfold registered.
      destruct Hi as [-> | ->]; [by right|left; by rewrite lookup_insert_eq].
    + rewrite lookup_insert_ne by done. intros Hc. destruct (O3 fd1 c1 Hc) as (G1 & G2 & G3 & G4).
      unfold registered. by rewrite Hne.
  - by apply NoDup_cons in O4 as [_ ?].
  - intros fd1 Hin. change (waiting _) with (waiting w) in Hin. destruct (decide (fd1 = fd)) as [->|]; [done|].
    rewrite lookup_insert_ne by done. apply O5. by right.
  - intros fd1. rewrite Hs. change (waiting (set_connections _ w)) with (waiting w). destruct (decide (fd1 = fd)) as [->|].
    + rewrite lookup_insert_eq, H0. split; [by right|by eexists].
    + rewrite lookup_insert_ne by done. rewrite O6. simpl. rewrite elem_of_cons. naive_solver.
  - intros fd1. destruct (decide (fd1 = fd)) as [->|]; [rewrite lookup_insert_eq; by right|].
    rewrite Hne, lookup_insert_ne by done. apply O7.
  - rewrite Hs, Hne by done. done.
Qed.

(** ** Installing one socket *)

(** Nothing is scheduled to fail. *)
Definition steady (s : Worker.state) : Prop := quiet s.2.2.2 /\ Kernel.ctl s.2.2.1 = [].

(** Every open socket was open before. *)
Definition no_new_socket (s s' : Worker.state) : Prop :=
  forall fd, is_Some (Kernel.sockets s'.2.2.1 !! fd) -> is_Some (Kernel.sockets s.2.2.1 !! fd).

(** The queue, the counter and the engine are as before, and so are the
    connections there were. *)
Definition install_frame (s s' : Worker.state) : Prop :=
  pending_ s'.1 = pending_ s.1 /\ stop_requested_ s'.1 = stop_requested_ s.1 /\ wakeup_ s'.1 = wakeup_ s.1 /\
  output_limit_ s'.1 = output_limit_ s.1 /\ Kernel.counter s'.2.2.1 = Kernel.counter s.2.2.1 /\
  s'.2.1 = s.2.1 /\ no_new_socket s s' /\
  forall fd c, connections_ s.1 !! fd = Some c ->
    connections_ s'.1 !! fd = Some c /\ Kernel.interest s'.2.2.1 !! fd = Kernel.interest s.2.2.1 !! fd /\
    Kernel.sockets s'.2.2.1 !! fd = Kernel.sockets s.2.2.1 !! fd.

(** The parts of a frame that are the same on both sides. *)
Ltac same_frame := split_and!; first [done | by intros ? ?].

Lemma install_frame_refl s : install_frame s s.
Proof. same_frame. Qed.

Lemma install_frame_trans s1 s2 s3 : install_frame s1 s2 -> install_frame s2 s3 -> install_frame s1 s3.
Proof.
  intros (A1 & A2 & A3 & A4 & A5 & A6 & A8 & A7) (B1 & B2 & B3 & B4 & B5 & B6 & B8 & B7).
  split_and!; [congruence..|by intros fd ?; auto|]. intros fd c Hc. destruct (A7 fd c Hc) as (H1 & H2 & H3).
  destruct (B7 fd c H1) as (G1 & G2 & G3). split_and!; congruence.
Qed.

(** The connection of [fd] is there, and its events are waited for. *)
Definition connected (fd : Z) (s s' : Worker.state) : Prop :=
  exists c, fresh_connection (output_limit_ s.1) c /\
    connections_ s'.1 = <[fd := c]> (connections_ s.1) /\
    Kernel.interest s'.2.2.1 = <[fd := Connection.desired_events c]> (Kernel.interest s.2.2.1) /\
    Kernel.sockets s'.2.2.1 = Kernel.sockets s.2.2.1.

(** Unless both kinds of failures are scheduled, connections stay registered. *)
Definition keeps_registered (s s' : Worker.state) : Prop :=
  undoubled s -> undoubled s' /\ (all_registered s.1 s.2.2.1 -> all_registered s'.1 s'.2.2.1).

Lemma keeps_registered_trans s1 s2 s3 : keeps_registered s1 s2 -> keeps_registered s2 s3 -> keeps_registered s1 s3.
Proof. intros H1 H2 Hu. destruct (H1 Hu) as [Hu2 H1']. destruct (H2 Hu2) as [Hu3 H2']. auto. Qed.

(** No connection was added. *)
Lemma keeps_registered_same s s' :
  connections_ s'.1 = connections_ s.1 -> install_frame s s' ->
  (quiet s.2.2.2 -> quiet s'.2.2.2) -> (Kernel.ctl s.2.2.1 = [] -> Kernel.ctl s'.2.2.1 = []) -> keeps_registered s s'.
Proof.
  intros Hc (_ & _ & _ & _ & _ & _ & _ & Hf) Hq Hk [Hu|Hu]; (split; [unfold undoubled; auto|]);
    intros Hr fd c Hfd; rewrite Hc in Hfd; destruct (Hf fd c Hfd) as (_ & -> & _); by apply Hr.
Qed.

Lemma keeps_registered_mem w e k m m' :
  (quiet m -> quiet m') -> keeps_registered (w, (e, (k, m))) (w, (e, (k, m'))).
Proof. intros Hq. apply keeps_registered_same; [done|same_frame|exact Hq|done]. Qed.

Definition install_done (cap fd : Z) (X : list Z) (s s' : Worker.state) : Prop :=
  worker_holds hash cap X s'.1 s'.2.1 s'.2.2.1 /\ install_frame s s' /\ keeps_registered s s' /\
  (steady s -> steady s' /\ connected fd s s').

Lemma epoll_add_wp fd events k :
  Kernel.interest k !! fd = None ->
  wp (Kernel.epoll_add fd events) k (post
    (fun b k' => exists ctl, (Kernel.ctl k = [] -> ctl = [] /\ b = true) /\
       k' = Kernel.MkKernel (Kernel.sockets k) (Kernel.gone k)
              (if b then <[fd := events]> (Kernel.interest k) else Kernel.interest k)
              (Kernel.counter k) ctl (Kernel.error_text k))
    (fun _ _ => False)).
Proof.
  intros Hi. unfold Kernel.epoll_add, wp, Kernel.ctl_fails, bind, read, modify.
  destruct k as [? ? i ? [|[] ctl] ?]; simpl in *; rewrite ?Hi; simpl; by eexists.
Qed.

Lemma kernel_of k :
  Kernel.MkKernel (Kernel.sockets k) (Kernel.gone k) (Kernel.interest k) (Kernel.counter k) (Kernel.ctl k)
    (Kernel.error_text k) = k.
Proof. by destruct k. Qed.

(** Closing a handed descriptor, in whatever state the memory is. *)
Lemma drop_frame cap fd X w e k m m' sock :
  worker_holds hash cap (fd :: X) w e k ->
  install_frame (w, (e, (k, m))) (w, (e, (kernel_closed fd sock k, m'))).
Proof.
  intros Ho. pose proof (wk_handed _ _ _ _ _ _ Ho) as (_ & H2 & _). split_and!; [done|done|done|done|done|done| |].
  { intros fd1 [v Hv]. simpl in *. apply lookup_delete_Some in Hv as [_ Hv]. by eexists. }
  intros fd1 c Hc. simpl in *. assert (fd1 <> fd) by (intros ->; congruence). by rewrite !lookup_delete_ne by done.
Qed.

Lemma connect_frame cap fd X w e k m m' c i ctl :
  worker_holds hash cap (fd :: X) w e k ->
  i = Kernel.interest k \/ i = <[fd := Connection.desired_events c]> (Kernel.interest k) ->
  install_frame (w, (e, (k, m))) (set_connections (<[fd := c]> (connections_ w)) w,
    (e, (Kernel.MkKernel (Kernel.sockets k) (Kernel.gone k) i (Kernel.counter k) ctl (Kernel.error_text k), m'))).
Proof.
  intros Ho Hi. pose proof (wk_handed _ _ _ _ _ _ Ho) as (_ & H2 & _). split_and!; [done|done|done|done|done|done|by intros ? ?|].
  intros fd1 c1 Hc. simpl in *. assert (fd1 <> fd) by (intros ->; congruence).
  destruct Hi as [-> | ->]; by rewrite !lookup_insert_ne by done.
Qed.

Lemma register_connection_wp cap fd X w e k m c :
  worker_holds hash cap (fd :: X) w e k -> fresh_connection (output_limit_ w) c ->
  wp (register_connection fd (UniqueFd.MkUniqueFd fd) c) (w, (e, (k, m)))
    (post (fun _ => install_done cap fd X (w, (e, (k, m)))) (fun _ => install_done cap fd X (w, (e, (k, m))))).
Proof.
  intros Ho Hf. pose proof (wk_handed _ _ _ _ _ _ Ho) as (H1 & H2 & [sock H0] & H3 & H4 & H5).
  unfold register_connection. apply wp_bind, wp_on_fst, wp_read. cbn beta iota. rewrite decide_True by done.
  apply wp_bind, wp_on_fst, wp_modify. cbn beta iota.
  set (w' := set_connections (<[fd := c]> (connections_ w)) w).
  eapply (wp_try_catch _ _ _ (fun _ => install_done cap fd X (w, (e, (k, m))))
    (fun x s' => (Kernel.ctl k <> [] /\ (match x with highcache_error _ => True | _ => ~ quiet m end)) /\
      exists ctl m', (quiet m -> quiet m') /\ s' = (w', (e, (Kernel.MkKernel (Kernel.sockets k) (Kernel.gone k)
      (Kernel.interest k) (Kernel.counter k) ctl (Kernel.error_text k), m'))))).
  - unfold add_to_epoll. eapply wp_bind_post; [apply wp_on_kernel; eapply wp_mono; [by apply epoll_add_wp|]| |].
    { intros o k' Hk'. instantiate (2 := fun b s' => exists ctl, (Kernel.ctl k = [] -> ctl = [] /\ b = true) /\
        s' = (w', (e, (Kernel.MkKernel (Kernel.sockets k) (Kernel.gone k)
           (if b then <[fd := Connection.desired_events c]> (Kernel.interest k) else Kernel.interest k)
           (Kernel.counter k) ctl (Kernel.error_text k), m)))).
      instantiate (1 := fun _ _ => False). destruct o as [b|x|]; [|done|done]. simpl in *.
      destruct Hk' as (ctl & ? & ->). by exists ctl. }
    2: done.
    intros b s' (ctl & Hctl & ->). destruct b.
    + apply wp_ret. split_and!.
      * eapply worker_holds_connect; [exact Ho|done|done|by right].
      * eapply connect_frame; [exact Ho|by right].
      * intros Hu. split.
        -- destruct Hu as [Hu|Hu]; [by left|right; simpl; by apply Hctl].
        -- intros Hr fd1 c1. simpl. destruct (decide (fd1 = fd)) as [->|Hne].
           ++ rewrite !lookup_insert_eq. by intros [= ->].
           ++ rewrite !lookup_insert_ne by done. apply Hr.
      * intros [Hq Hc]. destruct (Hctl Hc) as [-> _]. split; [by split|]. by exists c.
    + unfold throw_network_error. apply wp_bind, wp_on_kernel, wp_read. cbn beta iota. apply wp_bind.
      assert (Kernel.ctl k <> []) as Hk by (intros Hc; by destruct (Hctl Hc)).
      apply wp_on_thread_env, wp_may_alloc_steady; intros m' _ Hq; simpl.
      all: (split; [done|]); eexists _, m'; by split.
  - done.
  - intros x s' ([Hst Hx] & ctl & m' & Hq & ->).
    assert (~ steady (w, (e, (k, m)))) as Hns by (by intros [_ ?]).
    assert (worker_holds hash cap X w' e (Kernel.MkKernel (Kernel.sockets k) (Kernel.gone k)
      (Kernel.interest k) (Kernel.counter k) ctl (Kernel.error_text k))) as Hun
      by (eapply worker_holds_connect; [exact Ho|done|done|by left]).
    assert (~ quiet m -> install_done cap fd X (w, (e, (k, m))) (w', (e, (Kernel.MkKernel (Kernel.sockets k) (Kernel.gone k)
      (Kernel.interest k) (Kernel.counter k) ctl (Kernel.error_text k), m')))) as Hthrow.
    { intros Hnq. split_and!; [exact Hun|eapply connect_frame; [exact Ho|by left]|by intros [?|?]|done]. }
    destruct x; try exact (Hthrow Hx).
    unfold erase_connection. apply wp_bind, wp_on_fst, wp_modify. cbn beta iota. apply wp_on_kernel.
    eapply (destroy_fd_wp fd _ sock); [done|done|]. cbn beta iota.
    assert (set_connections (delete fd (connections_ w')) w' = w) as ->.
    { unfold set_connections. simpl. rewrite delete_insert_id by done. by destruct w. }
    set (k1 := Kernel.MkKernel (Kernel.sockets k) (Kernel.gone k) (Kernel.interest k) (Kernel.counter k) ctl (Kernel.error_text k)).
    assert (worker_holds hash cap (fd :: X) w e k1) as Ho1 by (destruct Ho; by constructor).
    assert (install_frame (w, (e, (k, m))) (w, (e, (kernel_closed fd sock k1, m')))) as Hfr.
    { eapply install_frame_trans; [|exact (drop_frame cap fd X w e k1 m' m' sock Ho1)]. same_frame. }
    split_and!; [exact (worker_holds_drop cap fd X w e k1 sock Ho1)|exact Hfr|by apply keeps_registered_same|done].
Qed.

Lemma make_connection_wp cap fd X w e k m :
  worker_holds hash cap (fd :: X) w e k ->
  wp (make_connection (UniqueFd.MkUniqueFd fd)) (w, (e, (k, m))) (post
    (fun c s' => fresh_connection (output_limit_ w) c /\ exists m', s' = (w, (e, (k, m'))) /\ (quiet m -> quiet m'))
    (fun _ => install_done cap fd X (w, (e, (k, m))))).
Proof.
  intros Ho. pose proof (wk_handed _ _ _ _ _ _ Ho) as (H1 & H2 & [sock H0] & _). unfold make_connection.
  eapply (wp_on_throw _ _ _ _ (fun _ s' => (~ quiet m) /\ exists m', s' = (w, (e, (k, m'))))).
  - apply wp_bind, wp_on_fst, wp_read. cbn beta iota. apply wp_bind, wp_on_thread_env.
    eapply wp_mono; [apply create_connection_wp; exact (wk_limit _ _ _ _ _ _ Ho)|]. intros [c|x|] m1; [|intros Hq; split; [exact Hq|by eexists]|done].
    intros [Hf Hq]. apply wp_bind, wp_on_thread_env, wp_may_alloc_steady; intros m2 _ Hq2.
    + apply wp_ret. split; [done|]. exists m2. by auto.
    + split; [by intros Hqm; apply Hq2, Hq|by eexists].
  - intros x s' (Hq & m' & ->). apply wp_on_kernel. eapply (destroy_fd_wp fd k sock); [done|done|].
    cbn beta iota. pose proof (drop_frame cap fd X w e k m m' sock Ho) as Hfr.
    split_and!; [exact (worker_holds_drop cap fd X w e k sock Ho)|exact Hfr| |by intros [? _]].
    apply keeps_registered_same; [done|exact Hfr|by intros ?|done].
Qed.

(** What the vector still owns of a socket. *)
Definition left_over (r : UniqueFd.t) : list Z := if UniqueFd.valid r then [UniqueFd.fd_ r] else [].

Lemma install_wp cap fd X w e k m :
  worker_holds hash cap (fd :: X) w e k ->
  wp (install (UniqueFd.MkUniqueFd fd)) (w, (e, (k, m))) (post
    (fun r s' => install_done cap fd (left_over r ++ X) (w, (e, (k, m))) s' /\
       (steady (w, (e, (k, m))) -> left_over r = []))
    (fun _ _ => False)).
Proof.
  intros Ho. pose proof (wk_handed _ _ _ _ _ _ Ho) as (H1 & _). unfold install. cbn [UniqueFd.move UniqueFd.release UniqueFd.fd_].
  apply wp_bind. eapply (wp_try_catch _ _ _ (fun b s' => b = true /\ exists m', s' = (w, (e, (k, m'))) /\ (quiet m -> quiet m'))
    (fun _ s' => (~ quiet m) /\ exists m', s' = (w, (e, (k, m'))))).
  { apply wp_bind, wp_on_thread_env, wp_may_alloc_steady; intros m' _ Hq; [apply wp_ret; split; [done|by exists m']|split; [exact Hq|by exists m']]. }
  - intros b s' (-> & m' & -> & Hq). cbn [negb].
    assert (forall s', install_done cap fd X (w, (e, (k, m'))) s' -> install_done cap fd X (w, (e, (k, m))) s') as Hback.
    { intros s' (I1 & I2 & I4 & I3). split_and!; [done|exact I2|..].
      - eapply keeps_registered_trans; [by apply keeps_registered_mem|exact I4].
      - intros [Hm Hc]. apply I3. split; [by apply Hq|done]. }
    apply wp_bind. eapply (wp_try_catch _ _ _ (fun _ => install_done cap fd X (w, (e, (k, m))))
      (fun _ => install_done cap fd X (w, (e, (k, m))))).
    + eapply wp_bind_post; [by apply make_connection_wp| |intros x s'; apply Hback].
      intros c s' (Hf & m'' & -> & Hq2). eapply wp_post_mono; [by apply register_connection_wp|..]; cbn beta.
      all: intros _ s' (I1 & I2 & I4 & I3); split_and!; [done|exact I2|..|intros [Hm Hc]; apply I3; split; [by auto|done]].
      all: eapply keeps_registered_trans; [apply (keeps_registered_mem _ _ _ _ m''); by auto|exact I4].
    + intros a s' Hd. by apply wp_ret.
    + intros x s' Hd. apply wp_ret. by apply wp_ret.
  - intros x s' (Hq & m' & ->). apply wp_ret. cbn [negb]. apply wp_ret.
    assert (left_over (UniqueFd.MkUniqueFd fd) = [fd]) as Hl
      by (unfold left_over, UniqueFd.valid; simpl; by rewrite (proj2 (Z.leb_le 0 fd))).
    cbn [post]. rewrite Hl. split; [|by intros [? _]].
    split_and!; [done|same_frame|by apply keeps_registered_mem|by intros [? _]].
Qed.

(** ** Installing all that waits *)

Definition handed (l : list UniqueFd.t) : list Z := concat (left_over <$> l).

(** The connections of [fds] are added. *)
Definition all_connected (fds : list Z) (s s' : Worker.state) : Prop :=
  forall fd, fd ∈ fds -> exists c, connections_ s'.1 !! fd = Some c /\ fresh_connection (output_limit_ s.1) c /\
    Kernel.interest s'.2.2.1 !! fd = Some (Connection.desired_events c).

Lemma install_all_wp cap fds X w e k m :
  worker_holds hash cap (fds ++ X) w e k ->
  wp (install_all (UniqueFd.MkUniqueFd <$> fds)) (w, (e, (k, m))) (post
    (fun rs s' => worker_holds hash cap (handed rs ++ X) s'.1 s'.2.1 s'.2.2.1 /\
       install_frame (w, (e, (k, m))) s' /\ keeps_registered (w, (e, (k, m))) s' /\
       (steady (w, (e, (k, m))) -> steady s' /\ handed rs = [] /\ all_connected fds (w, (e, (k, m))) s'))
    (fun _ _ => False)).
Proof.
  revert X w e k m. induction fds as [|fd fds IH]; intros X w e k m Ho; csimpl.
  { apply wp_ret. split_and!; [done|apply install_frame_refl|done|]. intros Hs. split_and!; [done|done|]. intros fd Hin. by apply elem_of_nil in Hin. }
  eapply wp_bind_post; [by apply (install_wp cap fd (fds ++ X))|intros r s1 [(I1 & I2 & I5 & I3) I4]|done].
  destruct s1 as [w1 [e1 [k1 m1]]]. cbn [fst snd] in *.
  eapply wp_bind_post; [apply (IH (left_over r ++ X))|..|done].
  { destruct I1 as [O1 O2 O3 O4 O5 O6 O7 O8].
    assert (left_over r ++ fds ++ X ≡ₚ fds ++ left_over r ++ X) as Hp by (by rewrite !app_assoc, (Permutation_app_comm fds)).
    constructor; [done|done|done|..|done|done].
    - by rewrite <- Hp.
    - intros fd1 Hin. apply O5. by rewrite Hp.
    - intros fd1. by rewrite O6, Hp. }
  intros rs s2 (J1 & J2 & J5 & J3). apply wp_ret. split_and!.
  - destruct J1 as [O1 O2 O3 O4 O5 O6 O7 O8].
    assert (handed (r :: rs) ++ X ≡ₚ handed rs ++ left_over r ++ X) as Hp.
    { unfold handed. csimpl. rewrite !app_assoc. by rewrite (Permutation_app_comm (left_over r)). }
    constructor; [done|done|done|..|done|done].
    + by rewrite Hp.
    + intros fd1 Hin. apply O5. by rewrite <- Hp.
    + intros fd1. by rewrite O6, Hp.
  - by eapply install_frame_trans.
  - by eapply keeps_registered_trans.
  - intros Hs. destruct (I3 Hs) as (Hs1 & c & C1 & C2 & C3 & C4). destruct (J3 Hs1) as (Hs2 & Hn & Hall).
    split_and!; [done|unfold handed in *; csimpl; by rewrite (I4 Hs), Hn|].
    intros fd1 [->|Hin]%elem_of_cons.
    + destruct I2 as (_ & _ & _ & L & _). destruct J2 as (_ & _ & _ & _ & _ & _ & _ & J). cbn [fst snd] in *.
      destruct (J fd c) as (G1 & G2 & _); [by rewrite C2, lookup_insert_eq|]. exists c. split_and!; [done|done|].
      by rewrite G2, C3, lookup_insert_eq.
    + destruct (Hall fd1 Hin) as (c1 & G1 & G2 & G3). destruct I2 as (_ & _ & _ & L & _). cbn [fst snd] in *.
      exists c1. split_and!; [done|by rewrite <- L|done].
Qed.

(** The destructor of the vector closes what is left. *)
Lemma sockets_destroy_wp cap rs X w e k m :
  worker_holds hash cap (handed rs ++ X) w e k ->
  wp (destroy_all rs) (w, (e, (k, m))) (post
    (fun _ s' => exists k', s' = (w, (e, (k', m))) /\ worker_holds hash cap X w e k' /\
       install_frame (w, (e, (k, m))) s' /\ Kernel.ctl k' = Kernel.ctl k /\ (handed rs = [] -> k' = k))
    (fun _ _ => False)).
Proof.
  revert k. induction rs as [|r rs IH]; intros k Ho; cbn [destroy_all].
  { apply wp_ret. exists k. split_and!; [done|done|apply install_frame_refl|done|done]. }
  apply wp_bind, wp_on_kernel. unfold handed, left_over, UniqueFd.valid in *. csimpl in Ho. destruct r as [fd]. cbn [UniqueFd.fd_] in *.
  destruct (0 <=? fd) eqn:Hfd; zsimp.
  - pose proof (wk_handed _ _ _ _ _ _ Ho) as (_ & _ & [sock H0] & _).
    eapply (destroy_fd_wp fd k sock); [done|done|]. cbn beta iota.
    eapply wp_post_mono; [exact (IH (kernel_closed fd sock k) (worker_holds_drop _ _ _ _ _ _ sock Ho))|..|done].
    intros _ s' (k' & -> & Hk & Hf & Hc & _). exists k'.
    split_and!; [done|done| |done|csimpl; by rewrite (proj2 (Z.leb_le 0 fd))].
    eapply install_frame_trans; [exact (drop_frame cap fd _ w e k m m sock Ho)|exact Hf].
  - unfold UniqueFd.destroy, UniqueFd.reset. cbn [UniqueFd.fd_]. rewrite (proj2 (Z.leb_gt 0 fd)) by done.
    apply wp_bind, wp_bind, wp_ret, wp_ret, wp_ret. eapply wp_post_mono; [by apply IH| |done].
    csimpl. by rewrite (proj2 (Z.leb_gt 0 fd)).
Qed.

(** The queue of a worker, emptied into the vector. *)
Lemma worker_holds_swap cap w e k :
  worker_holds hash cap [] w e k ->
  pending_ w = UniqueFd.MkUniqueFd <$> waiting w /\ handed (pending_ w) = waiting w /\
  worker_holds hash cap (waiting w) (set_pending [] w) e k.
Proof.
  intros [O1 O2 O3 O4 O5 O6 O7 O8]. split_and!.
  - unfold waiting. rewrite <- list_fmap_compose. rewrite <- (list_fmap_id (pending_ w)) at 1.
    apply list_fmap_ext. by intros i [fd].
  - unfold waiting in *. clear -O5. unfold handed. induction (pending_ w) as [|[fd] l IH]; [done|]. csimpl.
    csimpl in O5. unfold left_over at 1, UniqueFd.valid. simpl. destruct (O5 fd) as [H _]; [left|].
    rewrite (proj2 (Z.leb_le 0 fd)) by done. simpl. f_equal. apply IH. intros fd1 Hin. apply O5. by right.
  - constructor; simpl; rewrite ?app_nil_r; try done.
Qed.

Lemma install_pending_wp cap w e k m :
  worker_holds hash cap [] w e k ->
  wp install_pending (w, (e, (k, m))) (post
    (fun _ s' => worker_holds hash cap [] s'.1 s'.2.1 s'.2.2.1 /\ pending_ s'.1 = [] /\
       install_frame (set_pending [] w, (e, (k, m))) s' /\ keeps_registered (w, (e, (k, m))) s' /\
       (steady (w, (e, (k, m))) -> steady s' /\ all_connected (waiting w) (w, (e, (k, m))) s'))
    (fun _ _ => False)).
Proof.
  intros Ho. destruct (worker_holds_swap _ _ _ _ Ho) as (Hp & _ & Hs). unfold install_pending.
  apply wp_bind, wp_on_fst, wp_read. cbn beta iota. apply wp_bind, wp_on_fst, wp_modify. cbn beta iota. rewrite Hp.
  eapply wp_bind_post; [apply (install_all_wp cap (waiting w) []); by rewrite app_nil_r| |done].
  intros rs [w1 [e1 [k1 m1]]] (I1 & I2 & I4 & I3). cbn [fst snd] in *.
  eapply wp_post_mono; [by apply (sockets_destroy_wp cap rs [])| |done].
  intros _ s' (k' & -> & H1 & H2 & H3 & H4). split_and!; [exact H1|apply I2|by eapply install_frame_trans|..].
  { eapply keeps_registered_trans; [exact I4|]. apply keeps_registered_same; [done|done|done|]. intros E. cbn [fst snd] in *. by rewrite H3. }
  intros Hst. destruct (I3 Hst) as (G1 & G2 & G3). rewrite (H4 G2). split; [exact G1|exact G3].
Qed.
End worker.
