(* ===== verification/WorkerRunFacts.v ===== *)
(** * The run of a worker

    Batches of events, sockets handed over, and stop requests in any order keep
    the worker's invariant; when [run] ends, nothing is left open. *)
From S2P Require Import Prelude ErrorModel Effects MemoryModel ProgressFacts BufferModel ProtocolModel.
From S2P Require Import CacheEngineModel CacheEngineFacts ConnectionModel ConnectionFacts.
From S2P Require Import WorkerModel WorkerFacts WorkerInstallFacts.
Import Memory.
Import Worker.

Section worker.
Variable hash : bytes -> Z.

(** ** A batch of events *)

(** What a batch keeps; the wake-up may be consumed when it is then acted upon. *)
Definition batch_ok (cap : Z) (seen : bool) (s s' : Worker.state) : Prop :=
  worker_holds hash cap [] s'.1 s'.2.1 s'.2.2.1 /\ 0 <= Kernel.counter s'.2.2.1 /\
  (seen = false -> Kernel.counter s'.2.2.1 = Kernel.counter s.2.2.1) /\
  pending_ s'.1 = pending_ s.1 /\ stop_requested_ s'.1 = stop_requested_ s.1 /\ wakeup_ s'.1 = wakeup_ s.1 /\ no_new_socket s s' /\ output_limit_ s'.1 = output_limit_ s.1 /\
  keeps_registered s s'.

Lemma drain_holds cap X w e k n :
  worker_holds hash cap X w e k -> worker_holds hash cap X w e (Kernel.set_counter n k).
Proof. intros Ho. destruct Ho. by constructor. Qed.

Lemma connection_event_wp cap fd mask w e k m :
  worker_holds hash cap [] w e k ->
  wp (handle_connection_event hash fd mask) (w, (e, (k, m)))
    (post (fun _ s' => event_done hash cap fd (w, (e, (k, m))) s' /\ no_new_socket (w, (e, (k, m))) s' /\
      keeps_registered (w, (e, (k, m))) s') (fun _ _ => False)).
Proof.
  intros Ho. pose proof (handle_connection_event_wp hash cap fd mask w e k m Ho) as H. unfold wp in *.
  pose proof (event_undoubled hash fd mask (w, (e, (k, m)))) as Hu.
  destruct (connections_ w !! fd) as [c|] eqn:Hc.
  - destruct (handle_connection_event _ _ _ _) as [[[]|x|] s']; cbn [fst snd post] in *; [|done|done].
    destruct H as [He _]. split; [done|]. split; [|intros Hun; split; [by apply Hu|by eapply event_registered]]. intros fd1 Hs. destruct (decide (fd1 = fd)) as [->|Hne].
    + by destruct (wk_owned _ _ _ _ _ _ _ _ Ho Hc) as (_ & _ & [sock ?] & _); eexists.
    + destruct He as (_ & (_ & _ & _ & _ & _ & P) & _). by destruct (P fd1 Hne) as (_ & <- & _).
  - unfold handle_connection_event, bind, on_worker, on_fst, read in *. simpl in *. rewrite Hc in *. simpl in *.
    destruct H as [H _]. split; [exact H|]. by split; [intros fd1 ?|intros ?].
Qed.

Lemma handle_events_wp cap events seen s0 w e k m :
  batch_ok cap seen s0 (w, (e, (k, m))) ->
  wp (handle_events hash events seen) (w, (e, (k, m)))
    (post (fun b s' => batch_ok cap b s0 s' /\ b = seen || bool_decide (wakeup_ s0.1 ∈ events.*1)) (fun _ _ => False)).
Proof.
  revert seen w e k m. induction events as [|[fd mask] events IH]; intros seen w e k m Hb; cbn [handle_events].
  { apply wp_ret. split; [done|]. by rewrite orb_false_r. }
  destruct Hb as (Ho & Hcnt & Han & Hp & Hs & Hw & Hnew & Hlim & Hreg). cbn [fst snd] in *.
  apply wp_bind, wp_on_fst, wp_read. cbn beta iota. destruct (fd =? wakeup_ w) eqn:Hfd; zsimp.
  - unfold drain_counter, Kernel.event_read. apply wp_bind, wp_on_kernel, wp_modify. cbn beta iota.
    eapply wp_post_mono; [apply IH; by split_and!; [apply drain_holds|..]| |done].
    intros b s' [H1 ->]. split; [done|]. cbn [orb]. symmetry. apply orb_true_iff. right. apply bool_decide_eq_true.
    csimpl. rewrite Hfd, Hw. left.
  - eapply wp_bind_post; [exact (connection_event_wp cap fd mask w e k m Ho)| |done].
    intros [] [w1 [e1 [k1 m1]]] [(E1 & (P1 & P2 & P3 & P4 & P5 & P6) & _) [P7 P8]]. cbn [fst snd] in *.
    eapply wp_post_mono; [apply IH|..|done].
    + split_and!; cbn [fst snd]; [done|by rewrite P5|intros H; rewrite P5; by apply Han|congruence|congruence|congruence|
        by intros fd1 ?; auto|congruence|by eapply keeps_registered_trans].
    + intros b s' [H1 ->]. split; [done|]. f_equal. apply bool_decide_ext. csimpl. rewrite elem_of_cons.
      split; [by right|]. intros [H|H]; [congruence|done].
Qed.

Lemma run_once_wp cap events w e k m :
  worker_sound hash cap w e k ->
  wp (run_once hash events) (w, (e, (k, m))) (post
    (fun _ s' => worker_sound hash cap s'.1 s'.2.1 s'.2.2.1 /\
       (announced w k -> stop_requested_ w = false -> announced s'.1 s'.2.2.1) /\
       pending_ s'.1 = (if bool_decide (wakeup_ w ∈ events.*1) && negb (stop_requested_ w) then [] else pending_ w) /\
       stop_requested_ s'.1 = stop_requested_ w /\ no_new_socket (w, (e, (k, m))) s' /\
       wakeup_ s'.1 = wakeup_ w /\ output_limit_ s'.1 = output_limit_ w /\ keeps_registered (w, (e, (k, m))) s')
    (fun _ _ => False)).
Proof.
  intros [Ho Hcnt]. unfold run_once.
  eapply wp_bind_post; [apply (handle_events_wp cap events false (w, (e, (k, m))))| |done].
  { split_and!; [done|done|done|done|done|done|by intros ? ?|done|done]. }
  intros seen [w1 [e1 [k1 m1]]] [(B1 & B2 & B3 & B4 & B5 & B6 & B7 & B8 & B9) Hseen]. cbn [fst snd orb] in *. rewrite <- Hseen, <- B5.
  apply wp_bind, wp_on_fst, wp_read. cbn beta iota. destruct (seen && _) eqn:Hgo.
  - eapply wp_post_mono; [exact (install_pending_wp hash cap w1 e1 k1 m1 B1)| |done].
    intros _ s' (I1 & I2 & (F1 & F2 & F3 & F4 & F5 & _ & F6 & _) & F7 & _). cbn [fst snd] in *.
    split_and!; [split; [done|by rewrite F5]| |done|done|by intros fd ?; auto|by rewrite F3|by rewrite F4|by eapply keeps_registered_trans].
    intros _ Hst. split; [by rewrite F5|]. rewrite I2, F2. cbn. rewrite Hst. by intros [?|?].
  - apply wp_ret. cbn [fst snd]. split_and!; [by split| |done|done|exact B7|done|done|done].
    intros [Hc Han] Hst. rewrite Hst, andb_true_r in Hgo. split; cbn [fst snd]; [done|]. rewrite (B3 Hgo), B4, B5. done.
Qed.

(** A worker with no connections that is to stop only drains its counter. *)
Lemma handle_events_idle events seen w e k m :
  connections_ w = ∅ -> exists b k', handle_events hash events seen (w, (e, (k, m))) = (Ret b, (w, (e, (k', m)))).
Proof.
  intros Hc. revert seen k. induction events as [|[fd mask] events IH]; intros seen k; cbn [handle_events]; [by exists seen, k|].
  unfold bind at 1, on_worker, on_fst, read. cbn [fst snd]. destruct (fd =? wakeup_ w).
  - destruct (IH true (Kernel.event_read k).2) as (b & k' & H). by exists b, k'.
  - destruct (IH seen k) as (b & k' & H). exists b, k'. rewrite <- H. unfold bind at 1. unfold handle_connection_event, bind at 1.
    unfold on_worker, on_fst, read. cbn [fst snd]. by rewrite Hc, lookup_empty.
Qed.

Lemma run_once_idle events w e k m :
  connections_ w = ∅ -> stop_requested_ w = true -> exists k', run_once hash events (w, (e, (k, m))) = (Ret tt, (w, (e, (k', m)))).
Proof.
  intros Hc Hst. destruct (handle_events_idle events false w e k m Hc) as (b & k' & H). exists k'. unfold run_once, bind at 1. rewrite H.
  unfold bind, on_worker, on_fst, read. cbn [fst snd]. rewrite Hst. by rewrite andb_false_r.
Qed.

(** ** Handing over and stopping *)

Lemma event_write_counter k :
  0 <= Kernel.counter k ->
  exists n, Kernel.event_write k = (Ret tt, Kernel.set_counter n k) /\ 0 < n.
Proof.
  intros Hk. unfold Kernel.event_write, modify, Kernel.counter_max. destruct (_ <? _) eqn:E; zsimp.
  - eexists. split; [done|]. lia.
  - exists (Kernel.counter k). split; [|lia]. by destruct k.
Qed.

Lemma wake_event_wp w e k m Q :
  0 <= Kernel.counter k ->
  (forall n, 0 < n -> Q (Ret tt) (w, (e, (Kernel.set_counter n k, m)))) ->
  wp wake_event (w, (e, (k, m))) Q.
Proof.
  intros Hk HQ. unfold wake_event. apply wp_on_kernel. unfold wp.
  destruct (event_write_counter k Hk) as (n & -> & Hn). by apply HQ.
Qed.

(** A socket that was accepted for the worker: it is queued and announced, or it
    is closed. *)
Lemma enqueue_wp cap fd w e k m :
  worker_holds hash cap [fd] w e k -> 0 <= Kernel.counter k ->
  wp (enqueue (UniqueFd.MkUniqueFd fd)) (w, (e, (k, m))) (post
    (fun _ s' => (worker_sound hash cap s'.1 s'.2.1 s'.2.2.1 /\ (announced w k -> announced s'.1 s'.2.2.1) /\
         (all_registered w k -> all_registered s'.1 s'.2.2.1)) /\
       (if stop_requested_ w then s'.1 = w /\ Kernel.sockets s'.2.2.1 !! fd = None
        else s'.1 = set_pending (pending_ w ++ [UniqueFd.MkUniqueFd fd]) w /\ 0 < Kernel.counter s'.2.2.1) /\
       s'.2.1 = e /\ no_new_socket (w, (e, (k, m))) s' /\ (quiet m -> quiet s'.2.2.2))
    (fun x s' => (x = bad_alloc /\ ~ quiet m) /\
       (worker_sound hash cap s'.1 s'.2.1 s'.2.2.1 /\ (announced w k -> announced s'.1 s'.2.2.1) /\
         (all_registered w k -> all_registered s'.1 s'.2.2.1)) /\ (s'.1 = w /\
       Kernel.sockets s'.2.2.1 !! fd = None) /\ s'.2.1 = e /\ no_new_socket (w, (e, (k, m))) s')).
Proof.
  intros Ho Han. pose proof (wk_handed _ _ _ _ _ _ _ Ho) as (H1 & H2 & [sock H0] & H3 & H4 & H5).
  assert ((worker_sound hash cap w e (kernel_closed fd sock k) /\ (announced w k -> announced w (kernel_closed fd sock k)) /\
    (all_registered w k -> all_registered w (kernel_closed fd sock k))) /\ Kernel.sockets (kernel_closed fd sock k) !! fd = None) as [Hd1 Hd2].
  { split; [|apply lookup_delete_eq]. split_and!; [split; [by eapply worker_holds_drop|exact Han]|done|].
    intros Hr fd1 c1 Hc1. simpl. rewrite lookup_delete_ne by congruence. by apply Hr. }
  assert (forall m', no_new_socket (w, (e, (k, m))) (w, (e, (kernel_closed fd sock k, m')))) as Hd3.
  { intros m' fd1 [v Hv]. simpl in *. apply lookup_delete_Some in Hv as [_ Hv]. by eexists. }
  unfold enqueue. apply wp_bind, wp_on_fst, wp_read. cbn beta iota. destruct (stop_requested_ w) eqn:Hstop.
  { apply wp_on_kernel. eapply (destroy_fd_wp fd k sock); [done|done|]. cbn beta iota. cbn [fst snd post]. split_and!; try apply Hd1; done. }
  eapply wp_bind_post; [eapply (wp_on_throw _ _ _ (fun _ s' => exists m', s' = (w, (e, (k, m'))) /\ (quiet m -> quiet m'))
    (fun x s' => (x = bad_alloc /\ ~ quiet m) /\ exists m', s' = (w, (e, (k, m'))))
    (fun x s' => (x = bad_alloc /\ ~ quiet m) /\ exists m', s' = (w, (e, (kernel_closed fd sock k, m')))))|..].
  { apply wp_on_thread_env, wp_may_alloc_steady; intros m' _ Hq; [by eexists|]. split; [done|by eexists]. }
  { intros x s' (Hx & m' & ->). apply wp_on_kernel. eapply (destroy_fd_wp fd k sock); [done|done|]. split; [done|by eexists]. }
  2: { intros x s' (Hx & m' & ->). cbn [fst snd]. split_and!; try apply Hx; try apply Hd1; done. }
  intros _ s' (m' & -> & Hq). apply wp_bind, wp_on_fst, wp_modify. cbn beta iota. apply wake_event_wp; [apply Han|].
  intros n Hn. cbn [post fst snd]. split_and!; [|split; simpl; lia|done|done|done|done|by intros ? ?|done].
  split; [|simpl; lia]. apply drain_holds. destruct Ho as [O1 O2 O3 O4 O5 O6 O7 O8].
  assert ([] ++ waiting (set_pending (pending_ w ++ [UniqueFd.MkUniqueFd fd]) w) ≡ₚ [fd] ++ waiting w) as Hp.
  { unfold waiting. simpl. rewrite fmap_app. simpl. by rewrite (Permutation_app_comm _ [fd]). }
  constructor; [done|done|done|by rewrite Hp|..|done|done].
  - intros fd1 Hin. apply O5. by rewrite <- Hp.
  - intros fd1. by rewrite O6, Hp.
Qed.

Lemma request_stop_wp cap w e k m :
  worker_sound hash cap w e k ->
  wp request_stop (w, (e, (k, m))) (post
    (fun _ s' => worker_ok hash cap s'.1 s'.2.1 s'.2.2.1 /\ s'.1 = set_stop w /\ 0 < Kernel.counter s'.2.2.1 /\
       s'.2.1 = e /\ Kernel.sockets s'.2.2.1 = Kernel.sockets k /\ s'.2.2.2 = m /\
       Kernel.interest s'.2.2.1 = Kernel.interest k)
    (fun _ _ => False)).
Proof.
  intros [Ho Han]. unfold request_stop. apply wp_bind, wp_on_fst, wp_modify. cbn beta iota.
  apply wake_event_wp; [apply Han|]. intros n Hn. cbn [fst snd post]. split_and!; [|done|done|done|done|done|done].
  split; [apply drain_holds; destruct Ho; by constructor|]. split; simpl; lia.
Qed.

(** ** The end of the run *)

Lemma erase_one_wp cap X w e k m fd c Q :
  worker_holds hash cap X w e k -> connections_ w !! fd = Some c ->
  (forall sock, worker_holds hash cap X (without_connection fd sock w k).1 e (without_connection fd sock w k).2 ->
    Q (Ret tt) ((without_connection fd sock w k).1, (e, ((without_connection fd sock w k).2, m)))) ->
  wp (erase_connection fd) (w, (e, (k, m))) Q.
Proof.
  intros Ho Hc HQ. pose proof (wk_owned _ _ _ _ _ _ _ _ Ho Hc) as (Hfd & _ & [sock Hs] & _).
  destruct (wk_engine _ _ _ _ _ _ Ho) as [ls He].
  rewrite <- (put_same fd c sock e m w k Hc Hs). apply erase_connection_wp; [done|]. apply HQ.
  by eapply worker_holds_erase.
Qed.

Lemma clear_connections_wp cap X fds w e k m :
  worker_holds hash cap X w e k -> NoDup fds -> (forall fd, fd ∈ fds -> is_Some (connections_ w !! fd)) ->
  wp (clear_connections fds) (w, (e, (k, m))) (post
    (fun _ s' => exists w' k', s' = (w', (e, (k', m))) /\ worker_holds hash cap X w' e k' /\
       pending_ w' = pending_ w /\ Kernel.counter k' = Kernel.counter k /\
       w' = set_connections (connections_ w') w /\
       forall fd, connections_ w' !! fd = if decide (fd ∈ fds) then None else connections_ w !! fd)
    (fun _ _ => False)).
Proof.
  revert w k. induction fds as [|fd fds IH]; intros w k Ho Hnd Hin; cbn [clear_connections].
  { apply wp_ret. exists w, k. split_and!; [done|done|done|done|by destruct w|done]. }
  apply NoDup_cons in Hnd as [Hfd Hnd]. destruct (Hin fd) as [c Hc]; [left|].
  apply wp_bind. eapply erase_one_wp; [done|done|]. intros sock Ho1. cbn beta iota.
  eapply wp_post_mono; [apply (IH _ _ Ho1 Hnd)| |done].
  { intros fd1 H1. simpl. rewrite lookup_delete_ne by (by intros ->). apply Hin. by right. }
  intros _ s' (w' & k' & -> & H1 & H2 & H3 & H5 & H4). exists w', k'. split_and!; [done|done|done|done|by rewrite H5|].
  intros fd1. rewrite H4. simpl. destruct (decide (fd1 = fd)) as [->|Hne].
  - rewrite lookup_delete_eq. rewrite (decide_True (P := fd ∈ fd :: fds)) by left. by destruct (decide _).
  - rewrite lookup_delete_ne by done. destruct (decide (fd1 ∈ fds)) as [Hi|Hi].
    + rewrite decide_True by (by right). done.
    + rewrite decide_False; [done|]. intros [?|?]%elem_of_cons; done.
Qed.

(** The worker with nothing left. *)
Definition init_stopped (w : Worker.t) : Worker.t := set_pending [] (set_connections ∅ w).

Lemma run_end_wp cap w e k m :
  worker_holds hash cap [] w e k ->
  wp run_end (w, (e, (k, m))) (post
    (fun _ s' => pending_ s'.1 = [] /\ connections_ s'.1 = ∅ /\ Kernel.sockets s'.2.2.1 = ∅ /\
       s'.2.1 = e /\ worker_holds hash cap [] s'.1 s'.2.1 s'.2.2.1 /\ Kernel.counter s'.2.2.1 = Kernel.counter k /\
       s'.1 = init_stopped w /\ s'.2.2.2 = m)
    (fun _ _ => False)).
Proof.
  intros Ho. unfold run_end. apply wp_bind, wp_on_fst, wp_read. cbn beta iota.
  eapply wp_bind_post; [apply (clear_connections_wp cap [] _ w e k m Ho)| |done].
  { apply NoDup_fst_map_to_list. }
  { intros fd. intros Hin. apply list_elem_of_fmap in Hin as ([fd' c] & -> & Hin). apply elem_of_map_to_list in Hin. by eexists. }
  intros _ s' (w1 & k1 & -> & H1 & H2 & H3 & H5 & H4). apply wp_bind, wp_on_fst, wp_read. cbn beta iota.
  apply wp_bind, wp_on_fst, wp_modify. cbn beta iota. destruct (worker_holds_swap _ _ _ _ _ H1) as (_ & Hh & Hs).
  eapply wp_post_mono; [apply (sockets_destroy_wp hash cap (pending_ w1) []); rewrite Hh, app_nil_r; exact Hs| |done].
  intros _ s' (k' & -> & G1 & G2 & _). cbn [fst snd].
  assert (connections_ w1 = ∅) as Hempty.
  { apply map_eq. intros fd. rewrite lookup_empty, H4. destruct (decide _) as [|Hn]; [done|].
    destruct (connections_ w !! fd) as [c|] eqn:Hc; [|done]. destruct Hn. apply list_elem_of_fmap.
    exists (fd, c). split; [done|]. by apply elem_of_map_to_list. }
  split_and!; [done|done| |done|done| |by rewrite H5, Hempty|done].
  - apply map_eq. intros fd. rewrite lookup_empty. destruct (Kernel.sockets k' !! fd) eqn:Hk; [|done].
    destruct (proj1 (wk_sockets _ _ _ _ _ _ G1 fd)) as [Hin|Hc]; [by eexists|by apply elem_of_nil in Hin|].
    simpl in Hc. rewrite Hempty in Hc. by destruct Hc.
  - destruct G2 as (_ & _ & _ & _ & G2 & _). simpl in G2. congruence.
Qed.
End worker.
