(* ===== verification/HandoffModel.v ===== *)
(** * The hand-over between the acceptor and a worker ([net/cache_server.cpp])

    [Worker::enqueue], [Worker::request_stop] and [Worker::run] run in different
    threads and share the queue, its mutex, the stop flag and the wake-up counter.
    Here they are broken into the steps that can interleave; a transition is one
    access to the shared state. The flag is an atomic of one location, taken to be
    read in its current value. *)
From S2P Require Import Prelude ErrorModel Effects MemoryModel WorkerModel.

Module Handoff.

Inductive thread := acceptor | worker.

(** [enqueue(socket)], in the acceptor. *)
Inductive acceptor_pc :=
| a_idle
| a_lock (fd : Z)      (** entering the critical section *)
| a_check (fd : Z)     (** reading [stop_requested_] *)
| a_push (fd : Z)      (** [pending_.push_back] *)
| a_leave (fd : Z)     (** unlocking after [return] or an exception *)
| a_close (fd : Z)     (** destroying the socket that was not queued *)
| a_unlock             (** unlocking after the insertion *)
| a_wake.              (** [wake_event] *)

(** [request_stop()], in the thread that controls the server. *)
Inductive control_pc := c_idle | c_wake.

(** [run()], in the worker. *)
Inductive worker_pc :=
| w_loop                       (** the condition of [while] *)
| w_wait                       (** [epoll_wait] *)
| w_drain                      (** [drain_counter] *)
| w_check                      (** [wakeup_seen && !stop_requested_] *)
| w_lock                       (** [install_pending]: entering *)
| w_swap                       (** [pending.swap(pending_)] *)
| w_unlock (taken : list Z)
| w_install (taken : list Z)
| w_close                      (** after the loop: [connections_.clear()] *)
| w_end_lock
| w_end_clear                  (** [pending_.clear()] *)
| w_end_unlock
| w_done.

Record t := MkHandoff {
  mutex : option thread;       (** [pending_mutex_] *)
  stop : bool;                 (** [stop_requested_] *)
  queue : list Z;              (** [pending_] *)
  counter : Z;                 (** of the wake-up event *)
  apc : acceptor_pc;
  cpc : control_pc;
  wpc : worker_pc;
  broke : bool;                (** the loop was left because [epoll_wait] failed *)
  given : list Z;              (** every socket handed over so far *)
  installed : list Z;
  closed : list Z
}.

Definition init : t := MkHandoff None false [] 0 a_idle c_idle w_loop false [] [] [].

(** [wake_event]: as the kernel does it. *)
Definition bump (n : Z) : Z := if n <? Kernel.counter_max then n + 1 else n.

(** A step of [enqueue]. *)
Inductive acceptor_step : t -> t -> Prop :=
| enqueue_call fd m b q n c w br g i cl :
    acceptor_step (MkHandoff m b q n a_idle c w br g i cl) (MkHandoff m b q n (a_lock fd) c w br (g ++ [fd]) i cl)
| enqueue_lock fd b q n c w br g i cl :
    acceptor_step (MkHandoff None b q n (a_lock fd) c w br g i cl)
      (MkHandoff (Some acceptor) b q n (a_check fd) c w br g i cl)
| enqueue_check fd m (b : bool) q n c w br g i cl :
    acceptor_step (MkHandoff m b q n (a_check fd) c w br g i cl)
      (MkHandoff m b q n (if b then a_leave fd else a_push fd) c w br g i cl)
| enqueue_push fd m b q n c w br g i cl :
    acceptor_step (MkHandoff m b q n (a_push fd) c w br g i cl) (MkHandoff m b (q ++ [fd]) n a_unlock c w br g i cl)
| enqueue_throw fd m b q n c w br g i cl :
    acceptor_step (MkHandoff m b q n (a_push fd) c w br g i cl) (MkHandoff m b q n (a_leave fd) c w br g i cl)
| enqueue_leave fd m b q n c w br g i cl :
    acceptor_step (MkHandoff m b q n (a_leave fd) c w br g i cl) (MkHandoff None b q n (a_close fd) c w br g i cl)
| enqueue_close fd m b q n c w br g i cl :
    acceptor_step (MkHandoff m b q n (a_close fd) c w br g i cl) (MkHandoff m b q n a_idle c w br g i (cl ++ [fd]))
| enqueue_unlock m b q n c w br g i cl :
    acceptor_step (MkHandoff m b q n a_unlock c w br g i cl) (MkHandoff None b q n a_wake c w br g i cl)
| enqueue_wake m b q n c w br g i cl :
    acceptor_step (MkHandoff m b q n a_wake c w br g i cl) (MkHandoff m b q (bump n) a_idle c w br g i cl).

(** A step of [request_stop], which may be called again. *)
Inductive control_step : t -> t -> Prop :=
| stop_store m b q n a w br g i cl :
    control_step (MkHandoff m b q n a c_idle w br g i cl) (MkHandoff m true q n a c_wake w br g i cl)
| stop_wake m b q n a w br g i cl :
    control_step (MkHandoff m b q n a c_wake w br g i cl) (MkHandoff m b q (bump n) a c_idle w br g i cl).

(** A step of [run]. [epoll_wait] returns when the counter is positive; events of
    the same batch may close connections, and installing a socket may fail, which
    closes it. *)
Inductive worker_step : t -> t -> Prop :=
| run_loop m (b : bool) q n a c br g i cl :
    worker_step (MkHandoff m b q n a c w_loop br g i cl)
      (MkHandoff m b q n a c (if b then w_close else w_wait) br g i cl)
| run_wakeup m b q n a c br g i cl :
    0 < n -> worker_step (MkHandoff m b q n a c w_wait br g i cl) (MkHandoff m b q n a c w_drain br g i cl)
| run_drain m b q n a c br g i cl kept gone :
    i ≡ₚ kept ++ gone ->
    worker_step (MkHandoff m b q n a c w_drain br g i cl) (MkHandoff m b q 0 a c w_check br g kept (cl ++ gone))
| run_check m (b : bool) q n a c br g i cl :
    worker_step (MkHandoff m b q n a c w_check br g i cl)
      (MkHandoff m b q n a c (if b then w_loop else w_lock) br g i cl)
| run_lock b q n a c br g i cl :
    worker_step (MkHandoff None b q n a c w_lock br g i cl) (MkHandoff (Some worker) b q n a c w_swap br g i cl)
| run_swap m b q n a c br g i cl :
    worker_step (MkHandoff m b q n a c w_swap br g i cl) (MkHandoff m b [] n a c (w_unlock q) br g i cl)
| run_unlock m b q n a c l br g i cl :
    worker_step (MkHandoff m b q n a c (w_unlock l) br g i cl) (MkHandoff None b q n a c (w_install l) br g i cl)
| run_install m b q n a c l br g i cl added refused :
    l ≡ₚ added ++ refused ->
    worker_step (MkHandoff m b q n a c (w_install l) br g i cl)
      (MkHandoff m b q n a c w_loop br g (i ++ added) (cl ++ refused))
| run_close m b q n a c br g i cl :
    worker_step (MkHandoff m b q n a c w_close br g i cl) (MkHandoff m b q n a c w_end_lock br g [] (cl ++ i))
| run_end_lock b q n a c br g i cl :
    worker_step (MkHandoff None b q n a c w_end_lock br g i cl)
      (MkHandoff (Some worker) b q n a c w_end_clear br g i cl)
| run_end_clear m b q n a c br g i cl :
    worker_step (MkHandoff m b q n a c w_end_clear br g i cl)
      (MkHandoff m b [] n a c w_end_unlock br g i (cl ++ q))
| run_end_unlock m b q n a c br g i cl :
    worker_step (MkHandoff m b q n a c w_end_unlock br g i cl) (MkHandoff None b q n a c w_done br g i cl).

(** [epoll_wait] may also return without the wake-up, with other events or
    interrupted, or fail, which ends the loop. *)
Inductive event_step : t -> t -> Prop :=
| other_events m b q n a c br g i cl kept gone :
    i ≡ₚ kept ++ gone ->
    event_step (MkHandoff m b q n a c w_wait br g i cl) (MkHandoff m b q n a c w_loop br g kept (cl ++ gone))
| wait_failed m b q n a c br g i cl :
    event_step (MkHandoff m b q n a c w_wait br g i cl) (MkHandoff m b q n a c w_close true g i cl).

Definition step (s s' : t) : Prop :=
  acceptor_step s s' \/ control_step s s' \/ worker_step s s' \/ event_step s s'.

Inductive reachable : t -> Prop :=
| reachable_init : reachable init
| reachable_step s s' : reachable s -> step s s' -> reachable s'.

(** The steps of calls that have begun, which do not depend on the environment: no
    new [enqueue] or [request_stop], no event but the wake-up. *)
Definition internal (s s' : t) : Prop :=
  acceptor_step s s' /\ apc s <> a_idle \/ control_step s s' /\ cpc s <> c_idle \/ worker_step s s'.

(** With the events of connections. *)
Definition move (s s' : t) : Prop := internal s s' \/ event_step s s'.

End Handoff.
