(* ===== verification/ServerModel.v ===== *)
(** * The cache server ([net/cache_server.h], [net/cache_server.cpp])

    [CacheServer::Impl]: its constructor, which opens the descriptors of the server
    and of its workers; the acceptor, which hands accepted sockets to the workers in
    turn and ages the engine; and [start], [request_stop] and [join]. What system
    calls will return is a schedule in the state. *)
From S2P Require Import Prelude ErrorModel Effects MemoryModel BufferModel ProtocolModel.
From S2P Require Import CacheEngineModel ConnectionModel WorkerModel.
Import Memory.

(** ** The calls of the operating system *)
Module Os.

Record t := MkOs {
  opened : gset Z;             (** descriptors of the server itself *)
  interest : gmap Z Z;         (** the interest list of the acceptor *)
  opens : list (option Z);     (** the descriptors the kernel will give; exhausted: none *)
  calls : list bool;           (** coming failures of the other calls; exhausted: none *)
  assigned : Z;                (** the port the kernel chooses when asked for port 0 *)
  armed : option (Z * Z);      (** first expiration and interval of the timer, in seconds *)
  signals : Z;                 (** the counter of the stop event *)
  error_text : bytes           (** [std::system_category().message(errno)] of a failure *)
}.

(** [socket], [epoll_create1], [eventfd], [timerfd_create]. *)
Definition open_fd : M t (option Z) := fun o =>
  match opens o with
  | [] => (Ret None, o)
  | None :: os => (Ret None, MkOs (opened o) (interest o) os (calls o) (assigned o) (armed o) (signals o) (error_text o))
  | Some fd :: os =>
      (Ret (Some fd), MkOs ({[fd]} ∪ opened o) (interest o) os (calls o) (assigned o) (armed o) (signals o) (error_text o))
  end.

(** Whether the next of the other calls succeeds. *)
Definition call : M t bool := fun o =>
  match calls o with
  | [] => (Ret true, o)
  | f :: fs => (Ret (negb f), MkOs (opened o) (interest o) (opens o) fs (assigned o) (armed o) (signals o) (error_text o))
  end.

(** [::close(fd)]: undefined unless it is open. *)
Definition close (fd : Z) : M t unit :=
  modify_opt (fun o =>
    if decide (fd ∈ opened o)
    then Some (MkOs (opened o ∖ {[fd]}) (delete fd (interest o)) (opens o) (calls o) (assigned o) (armed o) (signals o) (error_text o))
    else None).

Definition register (fd events : Z) (o : t) : t :=
  MkOs (opened o) (<[fd := events]> (interest o)) (opens o) (calls o) (assigned o) (armed o) (signals o) (error_text o).

Definition arm (first interval : Z) (o : t) : t :=
  MkOs (opened o) (interest o) (opens o) (calls o) (assigned o) (Some (first, interval)) (signals o) (error_text o).

(** [wake_event] and [drain_counter] on the stop event. *)
Definition set_signals (n : Z) (o : t) : t :=
  MkOs (opened o) (interest o) (opens o) (calls o) (assigned o) (armed o) n (error_text o).
Definition wake_event (o : t) : t := if signals o <? Kernel.counter_max then set_signals (signals o + 1) o else o.
Definition drain_counter (o : t) : t := set_signals 0 o.

(** The address a socket bound to [sin_port] has, in network byte order. *)
Definition htons (x : Z) : Z := Z.lor (Z.shiftl (Z.land x 0xff) 8) (Z.shiftr (Z.land x 0xff00) 8).
Definition ntohs (x : Z) : Z := htons x.
Definition bound_port (sin_port : Z) (o : t) : Z := if sin_port =? 0 then htons (assigned o) else sin_port.

End Os.

Module CacheServer.

Record ServerOptions := MkServerOptions {
  host : bytes;
  port : Z;
  worker_threads : Z;
  pending_output_limit : Z
}.

(** The defaults of the members. *)
Definition default_options : ServerOptions := MkServerOptions (lit "127.0.0.1") 11211 4 (4 * 1024 * 1024).

Record ListenSocket := MkListenSocket { socket : Z; listen_port : Z }.

(** [std::thread]: not joinable; joinable and in the loop of its function; joinable
    although its function has returned. *)
Inductive thread := no_thread | a_thread | ended_thread.

(** A worker as the server holds it. *)
Record slot := MkSlot {
  epoll_ : Z;
  worker_ : Worker.t;
  kernel_ : Kernel.t;
  thread_ : thread
}.

(** [CacheServer::Impl]. *)
Record t := MkServer {
  options_ : ServerOptions;
  listen_socket_ : ListenSocket;
  accept_epoll_ : Z;
  stop_event_ : Z;
  timer_ : Z;
  workers_ : list slot;
  acceptor_thread_ : thread;
  ever_started_ : bool;
  stop_requested_ : bool;
  running_ : bool;
  next_worker_ : Z
}.

(** ** Construction *)

Definition build : Type := Os.t * env.

Definition close_fd (fd : Z) : M build unit := on_fst (Os.close fd).

(** [throw_network_error]. *)
Definition throw_network_error {A} (operation : bytes) : M build A :=
  o <- on_fst read ;;
  on_snd may_alloc ;;
  throw (highcache_error (MkHighCacheError network (operation ++ lit ": " ++ Os.error_text o))).

Definition opened_or_throw (operation : bytes) : M build Z :=
  r <- on_fst Os.open_fd ;;
  match r with Some fd => ret fd | None => throw_network_error operation end.

Definition create_epoll : M build Z := opened_or_throw (lit "epoll_create1 failed").
Definition create_event : M build Z := opened_or_throw (lit "eventfd failed").
Definition create_timer : M build Z := opened_or_throw (lit "timerfd_create failed").

(** A call whose failure is thrown. *)
Definition checked (operation : bytes) : M build unit :=
  b <- on_fst Os.call ;;
  if b then ret tt else throw_network_error operation.

(** [add_to_epoll(epoll_, fd, EPOLLIN)]. *)
Definition add_to_epoll (fd : Z) : M build unit :=
  checked (lit "epoll_ctl add failed") ;;
  on_fst (modify (Os.register fd Connection.EPOLLIN)).

(** [Worker::Worker]; when it throws, the members made so far close. [ctl] is what
    the calls of [epoll_ctl] on its epoll instance will do while it runs. *)
Definition create_worker (output_limit : Z) (ctl : list bool) : M build slot :=
  epoll <- create_epoll ;;
  on_throw
    (wakeup <- create_event ;;
     on_throw
       (checked (lit "epoll_ctl add failed") ;;
        o <- on_fst read ;;
        ret (MkSlot epoll (Worker.init output_limit wakeup)
               (Worker.init_kernel wakeup ctl (Os.error_text o)) no_thread))
       (close_fd wakeup))
    (close_fd epoll).

(** The destructor of a worker that never ran: its descriptors close. *)
Definition discard_worker (w : slot) : M build unit :=
  close_fd (Worker.wakeup_ (worker_ w)) ;; close_fd (epoll_ w).

Fixpoint discard_workers (ws : list slot) : M build unit :=
  match ws with
  | [] => ret tt
  | w :: ws => discard_worker w ;; discard_workers ws
  end.

(** The loop of the constructor; when it throws, the workers made so far are
    destroyed. [ctl i] is for worker [i]. *)
Fixpoint create_workers (output_limit : Z) (ctl : nat -> list bool) (n : nat) (made : list slot) : M build (list slot) :=
  match n with
  | O => ret made
  | S n =>
      w <- on_throw (on_snd may_alloc ;; create_worker output_limit (ctl (length made))) (discard_workers made) ;;
      create_workers output_limit ctl n (made ++ [w])
  end.

(** [validate_options]. *)
Definition validate_options (options : ServerOptions) : M build ServerOptions :=
  if worker_threads options =? 0
  then throw (highcache_error (MkHighCacheError invalid_argument
         (lit "server worker count must be greater than zero")))
  else if pending_output_limit options <? Protocol.response_header_size
  then throw (highcache_error (MkHighCacheError invalid_argument (lit "server output limit is too small")))
  else ret options.

Section construction.
(** [::inet_pton(AF_INET, host, ...)]: 1 for an IPv4 address. *)
Variable inet_pton : bytes -> Z.
(** What the later calls of [epoll_ctl] on each worker's epoll instance will do. *)
Variable ctl : nat -> list bool.

(** [create_listen_socket]. *)
Definition create_listen_socket (options : ServerOptions) : M build ListenSocket :=
  fd <- opened_or_throw (lit "socket failed") ;;
  on_throw
    (checked (lit "setsockopt SO_REUSEADDR failed") ;;
     let sin_port := Os.htons (port options) in
     (if inet_pton (host options) =? 1 then ret tt
      else throw (highcache_error (MkHighCacheError invalid_argument
             (lit "server host must be an IPv4 address")))) ;;
     checked (lit "bind failed") ;;
     checked (lit "listen failed") ;;
     checked (lit "getsockname failed") ;;
     o <- on_fst read ;;
     ret (MkListenSocket fd (Os.ntohs (Os.bound_port sin_port o))))
    (close_fd fd).

(** [Impl::Impl]; the members made before an exception are destroyed in reverse. The
    counter of the stop event starts at 0. *)
Definition create (options : ServerOptions) : M build t :=
  options <- validate_options options ;;
  listen <- create_listen_socket options ;;
  on_throw
    (epoll <- create_epoll ;;
     on_throw
       (stop <- create_event ;;
        on_fst (modify Os.drain_counter) ;;
        on_throw
          (timer <- create_timer ;;
           on_throw
             (add_to_epoll (socket listen) ;;
              add_to_epoll stop ;;
              add_to_epoll timer ;;
              on_snd may_alloc ;;
              workers <- create_workers (pending_output_limit options) ctl (Z.to_nat (worker_threads options)) [] ;;
              ret (MkServer options listen epoll stop timer workers no_thread false false false 0))
             (close_fd timer))
          (close_fd stop))
       (close_fd epoll))
    (close_fd (socket listen)).

(** [CacheServer::CacheServer]: [std::make_unique<Impl>(...)]. *)
Definition make (options : ServerOptions) : M build t :=
  on_snd may_alloc ;;
  create options.

End construction.

(** ** The running server *)

Definition state : Type := t * (CacheEngine.t * (Os.t * env)).

Definition on_server {A} (f : M t A) : M state A := on_fst f.
Definition on_engine {A} (f : M CacheEngine.t A) : M state A := on_snd (on_fst f).
Definition on_build {A} (f : M build A) : M state A := on_snd (on_snd f).

Definition set_workers (ws : list slot) (s : t) : t :=
  MkServer (options_ s) (listen_socket_ s) (accept_epoll_ s) (stop_event_ s) (timer_ s) ws (acceptor_thread_ s)
    (ever_started_ s) (stop_requested_ s) (running_ s) (next_worker_ s).
Definition set_acceptor (th : thread) (s : t) : t :=
  MkServer (options_ s) (listen_socket_ s) (accept_epoll_ s) (stop_event_ s) (timer_ s) (workers_ s) th
    (ever_started_ s) (stop_requested_ s) (running_ s) (next_worker_ s).
Definition set_ever_started (s : t) : t :=
  MkServer (options_ s) (listen_socket_ s) (accept_epoll_ s) (stop_event_ s) (timer_ s) (workers_ s) (acceptor_thread_ s)
    true (stop_requested_ s) (running_ s) (next_worker_ s).
Definition set_stop_requested (s : t) : t :=
  MkServer (options_ s) (listen_socket_ s) (accept_epoll_ s) (stop_event_ s) (timer_ s) (workers_ s) (acceptor_thread_ s)
    (ever_started_ s) true (running_ s) (next_worker_ s).
Definition set_running (b : bool) (s : t) : t :=
  MkServer (options_ s) (listen_socket_ s) (accept_epoll_ s) (stop_event_ s) (timer_ s) (workers_ s) (acceptor_thread_ s)
    (ever_started_ s) (stop_requested_ s) b (next_worker_ s).
Definition set_next_worker (n : Z) (s : t) : t :=
  MkServer (options_ s) (listen_socket_ s) (accept_epoll_ s) (stop_event_ s) (timer_ s) (workers_ s) (acceptor_thread_ s)
    (ever_started_ s) (stop_requested_ s) (running_ s) n.

(** A call on [*workers_[i]]: undefined out of range. *)
Definition on_worker {A} (i : nat) (f : M Worker.state A) : M state A := fun s =>
  let '(srv, (e, (o, m))) := s in
  match workers_ srv !! i with
  | Some w =>
      let '(r, (w', (e', (k', m')))) := f (worker_ w, (e, (kernel_ w, m))) in
      (r, (set_workers (<[i := MkSlot (epoll_ w) w' k' (thread_ w)]> (workers_ srv)) srv, (e', (o, m'))))
  | None => (Undefined, s)
  end.

Definition set_thread (i : nat) (th : thread) (s : t) : t :=
  match workers_ s !! i with
  | Some w => set_workers (<[i := MkSlot (epoll_ w) (worker_ w) (kernel_ w) th]> (workers_ s)) s
  | None => s
  end.

(** What [accept4] does. *)
Inductive accept_result :=
| accepted (fd : Z) (sock : Socket.t)
| interrupted          (** [EINTR] *)
| aborted              (** [ECONNABORTED] or [EPROTO] *)
| accept_failed.       (** [EAGAIN] or another error *)

(** [accept_connections], with what its calls of [accept4] will do; exhausted:
    [EAGAIN]. *)
Fixpoint accept_connections (results : list accept_result) : M state unit :=
  srv <- on_server read ;;
  if stop_requested_ srv then ret tt
  else
    match results with
    | [] => ret tt
    | accepted fd sock :: results =>
        let i := Z.to_nat (next_worker_ srv mod zlen (workers_ srv)) in
        on_server (modify (set_next_worker (u64 (next_worker_ srv + 1)))) ;;
        on_worker i (Worker.on_kernel (modify (fun k => Kernel.set_sockets (<[fd := sock]> (Kernel.sockets k)) k))) ;;
        try_catch (on_worker i (Worker.enqueue (UniqueFd.MkUniqueFd fd))) (fun _ => ret tt) ;;
        accept_connections results
    | interrupted :: results | aborted :: results => accept_connections results
    | accept_failed :: _ => ret tt
    end.

(** What [read] on the timer does. *)
Inductive timer_result :=
| expired (n : Z)
| timer_interrupted
| timer_failed.

(** The loop over the expirations: it ends when a tick throws. *)
Fixpoint tick_times (n : nat) : M state unit :=
  match n with
  | O => ret tt
  | S n =>
      b <- try_catch (on_engine CacheEngine.tick ;; ret true) (fun _ => ret false) ;;
      if b then tick_times n else ret tt
  end.

(** [handle_timer]. *)
Fixpoint handle_timer (results : list timer_result) : M state unit :=
  match results with
  | [] | timer_failed :: _ => ret tt
  | timer_interrupted :: results => handle_timer results
  | expired n :: _ => tick_times (Z.to_nat n)
  end.

(** One event of the acceptor, with what the calls its handler makes will do. *)
Record event := MkEvent {
  ev_fd : Z;
  ev_timer : list timer_result;
  ev_accept : list accept_result
}.

Definition handle_event (ev : event) : M state unit :=
  srv <- on_server read ;;
  if ev_fd ev =? stop_event_ srv then on_build (on_fst (modify Os.drain_counter))
  else if ev_fd ev =? timer_ srv then handle_timer (ev_timer ev)
  else if ev_fd ev =? socket (listen_socket_ srv) then accept_connections (ev_accept ev)
  else ret tt.

(** An iteration of [run_acceptor] after [epoll_wait] returned [events]. *)
Fixpoint run_acceptor_once (events : list event) : M state unit :=
  match events with
  | [] => ret tt
  | ev :: events => handle_event ev ;; run_acceptor_once events
  end.

(** ** The loops of the threads *)

(** How a call of [epoll_wait] ends. [wait_interrupted]: with [EINTR]; it also stands
    for a thread that was at the head of its loop and had not made the call. *)
Inductive waited (E : Type) :=
| wait_ready (events : list E)
| wait_interrupted
| wait_failed.
Arguments wait_ready {E} events.
Arguments wait_interrupted {E}.
Arguments wait_failed {E}.

Section threads.
Variable hash : bytes -> Z.

(** The way out of [Worker::run]: its end, then the thread ends. *)
Definition leave_run (i : nat) : M state unit :=
  on_worker i Worker.run_end ;;
  on_server (modify (set_thread i ended_thread)).

(** The condition of the loop of [Worker::run]. *)
Definition check_stop (i : nat) : M state unit :=
  srv <- on_server read ;;
  match workers_ srv !! i with
  | None => undefined
  | Some w => if Worker.stop_requested_ (worker_ w) then leave_run i else ret tt
  end.

(** An iteration of [Worker::run], from the return of [epoll_wait] to the next check
    of the condition. *)
Definition worker_round (i : nat) (r : waited (Z * Z)) : M state unit :=
  match r with
  | wait_ready events => on_worker i (Worker.run_once hash events) ;; check_stop i
  | wait_interrupted => check_stop i
  | wait_failed => leave_run i
  end.

(** The same for [run_acceptor]. *)
Definition leave_acceptor : M state unit :=
  on_server (modify (set_running false)) ;;
  on_server (modify (set_acceptor ended_thread)).

Definition check_acceptor : M state unit :=
  srv <- on_server read ;;
  if stop_requested_ srv then leave_acceptor else ret tt.

Definition acceptor_round (r : waited event) : M state unit :=
  match r with
  | wait_ready events => run_acceptor_once events ;; check_acceptor
  | wait_interrupted => check_acceptor
  | wait_failed => leave_acceptor
  end.

(** ** Starting and stopping *)

(** Creating a thread, which may fail. *)
Definition make_thread : M state bool := on_build (on_fst Os.call).

(** Joining a thread that nothing makes return from [epoll_wait(-1)] never returns. *)
Definition blocked {A} : M state A := undefined.

(** How the [epoll_wait] ends in which a thread is when it is joined. *)
Record last_waits := MkLastWaits {
  worker_wait : nat -> waited (Z * Z);
  acceptor_wait : waited event
}.
Variable last : last_waits.

(** A loop over the workers from [i] on. *)
Fixpoint for_workers (f : nat -> M state unit) (i n : nat) : M state unit :=
  match n with
  | O => ret tt
  | S n => f i ;; for_workers f (S i) n
  end.

(** [Worker::request_stop] and [Worker::join] on a worker. Joining waits for the
    thread to end: a thread in [epoll_wait] returns from it if its wake-up event is
    set, and ends if it then finds that it is to stop. *)
Definition stop_worker (i : nat) : M state unit := on_worker i Worker.request_stop.

Definition join_worker (i : nat) : M state unit :=
  srv <- on_server read ;;
  match workers_ srv !! i with
  | None => undefined
  | Some w =>
      match thread_ w with
      | no_thread => ret tt
      | ended_thread => on_server (modify (set_thread i no_thread))
      | a_thread =>
          if Worker.stop_requested_ (worker_ w) && (0 <? Kernel.counter (kernel_ w))
          then worker_round i (worker_wait last i) ;; on_server (modify (set_thread i no_thread))
          else blocked
      end
  end.

(** The loop of [start]: how many workers it started, and whether all. *)
Fixpoint start_workers (i n : nat) : M state (nat * bool) :=
  match n with
  | O => ret (i, true)
  | S n =>
      b <- make_thread ;;
      if b then on_server (modify (set_thread i a_thread)) ;; start_workers (S i) n
      else ret (i, false)
  end.

Definition thread_error : exn := std_runtime_error (lit "Resource temporarily unavailable").

(** [start]; its handler stops and joins the workers that were started. *)
Definition start : M state unit :=
  srv <- on_server read ;;
  on_server (modify set_ever_started) ;;
  if ever_started_ srv
  then throw (highcache_error (MkHighCacheError invalid_argument (lit "cache server can only be started once")))
  else
    on_build (checked (lit "timerfd_settime failed")) ;;
    on_build (on_fst (modify (Os.arm 1 1))) ;;
    r <- start_workers 0 (length (workers_ srv)) ;;
    let '(started, all) := r in
    b <- (if all : bool then on_server (modify (set_running true)) ;; make_thread else ret false) ;;
    if b then on_server (modify (set_acceptor a_thread))
    else
      on_server (modify (set_running false)) ;;
      for_workers stop_worker 0 started ;;
      for_workers join_worker 0 started ;;
      throw thread_error.

(** [request_stop]. *)
Definition request_stop : M state unit :=
  on_server (modify set_stop_requested) ;; on_build (on_fst (modify Os.wake_event)).

(** [acceptor_thread_.join()], if it is joinable: the stop event must be set. *)
Definition join_acceptor : M state unit :=
  s <- read ;;
  match acceptor_thread_ s.1 with
  | no_thread => ret tt
  | ended_thread => on_server (modify (set_acceptor no_thread))
  | a_thread =>
      if stop_requested_ s.1 && (0 <? Os.signals s.2.2.1)
      then acceptor_round (acceptor_wait last) ;; on_server (modify (set_acceptor no_thread))
      else blocked
  end.

(** [join]. *)
Definition join : M state unit :=
  srv <- on_server read ;;
  join_acceptor ;;
  for_workers stop_worker 0 (length (workers_ srv)) ;;
  for_workers join_worker 0 (length (workers_ srv)) ;;
  on_server (modify (set_running false)).

(** [~Worker]: the thread is stopped, then the members are destroyed: what they
    still own closes. *)
Definition destroy_worker (i : nat) : M state unit :=
  stop_worker i ;;
  join_worker i ;;
  on_worker i Worker.run_end ;;
  srv <- on_server read ;;
  match workers_ srv !! i with
  | Some w => on_build (discard_worker w)
  | None => undefined
  end.

(** [~Impl]. *)
Definition destroy : M state unit :=
  request_stop ;;
  join ;;
  srv <- on_server read ;;
  for_workers destroy_worker 0 (length (workers_ srv)) ;;
  on_build (close_fd (timer_ srv) ;; close_fd (stop_event_ srv) ;; close_fd (accept_epoll_ srv) ;;
            close_fd (socket (listen_socket_ srv))).

End threads.

(** [worker_count]. *)
Definition worker_count (srv : t) : Z := zlen (workers_ srv).
Definition running (srv : t) : bool := running_ srv.
Definition server_host (srv : t) : bytes := host (options_ srv).
Definition server_port (srv : t) : Z := listen_port (listen_socket_ srv).

End CacheServer.
