(* ===== verification/ClientModel.v ===== *)
(** * The command-line client ([client/main.cpp])

    One request over one connection. The arguments are byte strings, [argv[0]] the
    name of the program; what system calls return is a schedule in the state, as for
    the server; the connected socket is a stream. *)
From S2P Require Import Prelude ErrorModel Effects MemoryModel BufferModel ProtocolModel.
From S2P Require Import CacheEngineModel ConnectionModel WorkerModel ServerModel TextModel.
Import Memory.

Module Client.

(** The descriptors, the stream, and memory. *)
Definition state : Type := Os.t * (Socket.t * env).

Definition on_os {A} (f : M Os.t A) : M state A := on_fst f.
Definition on_socket {A} (f : M Socket.t A) : M state A := on_snd (on_fst f).
Definition on_env {A} (f : M env A) : M state A := on_snd (on_snd f).

(** ** Arguments *)

Definition of_outcome {S A} (o : outcome A) : M S A := fun s => (o, s).

(** [parse_unsigned]. *)
Definition parse_unsigned (value : bytes) : outcome Z :=
  match whole_number u64_max value with
  | Some v => Ret v
  | None => Throw (std_invalid_argument (lit "expected unsigned decimal integer"))
  end.

Definition usage : exn :=
  std_invalid_argument (lit "usage: highcache_client HOST PORT get|set|delete KEY [VALUE] [TTL_MS]").

(** [parse_request(argc, argv)], with [argc] the number of arguments. *)
Definition parse_request (argv : list bytes) : outcome Protocol.Request :=
  let argc := length argv in
  if (argc <? 5)%nat then Throw usage
  else
    match argv !! 3%nat, argv !! 4%nat with
    | Some command, Some key =>
        if bool_decide (command = lit "get") && (argc =? 5)%nat
        then Ret (Protocol.MkRequest Protocol.op_get 1 key [] 0)
        else if bool_decide (command = lit "delete") && (argc =? 5)%nat
        then Ret (Protocol.MkRequest Protocol.op_erase 1 key [] 0)
        else if bool_decide (command = lit "set") && ((argc =? 6)%nat || (argc =? 7)%nat)
        then
          match argv !! 5%nat with
          | Some value =>
              if (argc =? 7)%nat
              then
                match argv !! 6%nat with
                | Some ttl =>
                    match parse_unsigned ttl with
                    | Ret ttl_ms => Ret (Protocol.MkRequest Protocol.op_set 1 key value ttl_ms)
                    | Throw x => Throw x
                    | Undefined => Undefined
                    end
                | None => Undefined
                end
              else Ret (Protocol.MkRequest Protocol.op_set 1 key value 0)
          | None => Undefined
          end
        else Throw usage
    | _, _ => Undefined
    end.

(** ** The connection *)

Definition runtime_error (what : bytes) : exn := std_runtime_error what.

(** A call whose failure is thrown. *)
Definition checked (x : exn) : M state unit :=
  b <- on_os Os.call ;;
  if b then ret tt else throw x.

Section client.
Variable inet_pton : bytes -> Z.
(** The peer at an address and a port in network byte order: what it sends and takes. *)
Variable network : bytes -> Z -> Socket.t.

(** [connect_to]; on every exception the socket closes. *)
Definition connect_to (host : bytes) (port : Z) : M state Z :=
  r <- on_os Os.open_fd ;;
  match r with
  | None => throw (runtime_error (lit "socket failed"))
  | Some fd =>
      on_throw
        (checked (runtime_error (lit "socket timeout setup failed")) ;;
         checked (runtime_error (lit "socket timeout setup failed")) ;;
         let sin_port := Os.htons port in
         (if inet_pton host =? 1 then ret tt
          else throw (std_invalid_argument (lit "host must be an IPv4 address"))) ;;
         checked (runtime_error (lit "connect failed")) ;;
         on_socket (modify (fun _ => network host sin_port)) ;;
         ret fd)
        (on_os (Os.close fd))
  end.

(** The loop of [send_all]; each round uses up one outcome of [send]. *)
Fixpoint send_rounds (n : nat) (frame : bytes) (sent : Z) : M state unit :=
  match n with
  | O => undefined
  | S n =>
      if sent <? zlen frame
      then
        result <- on_socket (Socket.send (drop (Z.to_nat sent) frame)) ;;
        match result with
        | Socket.taken k =>
            if 0 <? k then send_rounds n frame (u64 (sent + k)) else throw (runtime_error (lit "send failed"))
        | Socket.send_error e =>
            if decide (e = Socket.EINTR) then send_rounds n frame sent
            else throw (runtime_error (lit "send failed"))
        end
      else ret tt
  end.

Definition send_all (frame : bytes) : M state unit :=
  s <- on_socket read ;;
  send_rounds (S (length (Socket.departures s))) frame 0.

(** The loop of [read_response] over its buffer; each round uses up some of what
    arrived. *)
Fixpoint receive_rounds (n : nat) (input : Buffer.t) : M state Protocol.Response :=
  match n with
  | O => undefined
  | S n =>
      r <- (fun s : state => let '(o, (input', m')) := Protocol.decode_response (input, s.2.2) in
              (match o with Ret d => Ret (d, input') | Throw x => Throw x | Undefined => Undefined end,
               (s.1, (s.2.1, m')))) ;;
      let '(decoded, input) := r in
      match decoded with
      | Protocol.complete response => ret response
      | Protocol.error e =>
          on_env may_alloc ;;
          throw (runtime_error (lit "invalid response: " ++ Protocol.message e))
      | Protocol.incomplete =>
          result <- on_socket (Socket.recv (64 * 1024)) ;;
          match result with
          | Socket.got bs =>
              input <- (fun s : state => let '(o, (input', m')) := Buffer.append bs (input, s.2.2) in
                          (match o with Ret _ => Ret input' | Throw x => Throw x | Undefined => Undefined end,
                           (s.1, (s.2.1, m')))) ;;
              receive_rounds n input
          | Socket.recv_error e =>
              if decide (e = Socket.EINTR) then receive_rounds n input
              else throw (runtime_error (lit "connection closed before response"))
          | Socket.eof => throw (runtime_error (lit "connection closed before response"))
          end
      end
  end.

(** [read_response]; [Buffer input] reserves the default capacity. *)
Definition read_response : M state Protocol.Response :=
  input <- on_env (Buffer.create 4096) ;;
  s <- on_socket read ;;
  receive_rounds (S (Socket.recv_calls s)) input.

(** ** [main] *)

(** What is printed for a response, and the status of the program. *)
Definition shown (r : Protocol.Response) : bytes :=
  Protocol.wire_status_to_string (Protocol.status r) ++
  (if bool_decide (Protocol.r_value r = []) then [] else lit " " ++ Protocol.r_value r) ++ [Byte.x0a].
Definition exit_status (r : Protocol.Response) : Z :=
  match Protocol.status r with Protocol.ws_ok => 0 | _ => 2 end.

(** The outcome of the program: its status, standard output and standard error. *)
Record result := MkResult { status : Z; out : bytes; err : bytes }.

(** The exchange, after the arguments; the socket closes on every way out. *)
Definition exchange (host : bytes) (port : Z) (request : Protocol.Request) : M state Protocol.Response :=
  fd <- connect_to host port ;;
  response <- on_throw
    (frame <- on_env (Protocol.encode_request request) ;;
     send_all frame ;;
     read_response) (on_os (Os.close fd)) ;;
  on_os (Os.close fd) ;;
  ret response.

Definition main_body (argv : list bytes) : M state result :=
  port_value <- of_outcome (match argv !! 2%nat with Some a => parse_unsigned a | None => Ret 0 end) ;;
  if (port_value =? 0) || (port_value >? 65535)
  then throw (std_invalid_argument (lit "port must be between 1 and 65535"))
  else
    request <- of_outcome (parse_request argv) ;;
    match argv !! 1%nat with
    | None => undefined
    | Some host =>
        response <- exchange host port_value request ;;
        ret (MkResult (exit_status response) (shown response) [])
    end.

Definition main (argv : list bytes) : M state result :=
  try_catch (main_body argv)
    (fun x => ret (MkResult 1 [] (lit "highcache_client: " ++ what x ++ [Byte.x0a]))).

End client.

End Client.
