(* ===== verification/ClientFacts.v ===== *)
(** * The client's exchange

    What [send_all] puts on the stream, what [read_response] makes of what arrives,
    and that the descriptor of the connection is closed on every way out. *)
From S2P Require Import Prelude ErrorModel Effects MemoryModel BufferModel ProtocolModel ProtocolFacts ResponseFacts.
From S2P Require Import CacheModel CacheEngineModel ConnectionModel ConnectionFacts ConnectionIOFacts WorkerModel ServerModel TextModel ClientModel.
Import Memory.
Import Client.

(** ** Sending *)

Lemma on_socket_wp {A} (f : M Socket.t A) (o : Os.t) k (m : env) Q :
  wp f k (fun r k' => Q r (o, (k', m))) -> wp (on_socket f) (o, (k, m)) Q.
Proof. intros H. by apply wp_on_snd, wp_on_fst. Qed.

Lemma on_env_wp {A} (f : M env A) (o : Os.t) (k : Socket.t) m Q :
  wp f m (fun r m' => Q r (o, (k, m'))) -> wp (on_env f) (o, (k, m)) Q.
Proof. intros H. by apply wp_on_snd, wp_on_snd. Qed.

Lemma send_rounds_wp n frame sent o k m :
  0 <= sent <= zlen frame -> zlen frame < 2 ^ 64 -> (length (Socket.departures k) < n)%nat ->
  wp (send_rounds n frame sent) (o, (k, m)) (post
    (fun _ s' => exists k', s' = (o, (k', m)) /\ Socket.sent k' = Socket.sent k ++ drop (Z.to_nat sent) frame /\
       Socket.arrivals k' = Socket.arrivals k)
    (fun x s' => x = runtime_error (lit "send failed") /\ exists k' more rest, s' = (o, (k', m)) /\
       Socket.sent k' = Socket.sent k ++ more /\ drop (Z.to_nat sent) frame = more ++ rest /\ rest <> [])).
Proof.
  revert sent k. induction n as [|n IH]; intros sent k Hs Hf Hn; [lia|]. cbn [send_rounds].
  destruct (sent <? zlen frame) eqn:Hlt; zsimp.
  2: { apply wp_ret. exists k. split_and!; [done| |done]. by rewrite drop_ge, app_nil_r by lia. }
  assert (drop (Z.to_nat sent) frame <> []) as Hne.
  { intros H. apply (f_equal length) in H. rewrite length_drop in H. simpl in H. lia. }
  assert (forall k', Socket.sent k' = Socket.sent k -> exists k1 more rest, (o, (k', m)) = (o, (k1, m)) /\
    Socket.sent k1 = Socket.sent k ++ more /\ drop (Z.to_nat sent) frame = more ++ rest /\ rest <> []) as Hnone.
  { intros k' Hk'. exists k', [], (drop (Z.to_nat sent) frame). by rewrite app_nil_r. }
  apply wp_bind, on_socket_wp. unfold wp, Socket.send. destruct (Socket.departures k) as [|[r|er] ds] eqn:Hd; cbn [fst snd] in *.
  - rewrite decide_False by done. split; [done|]. by apply Hnone.
  - set (j := Z.max 0 (Z.min r (zlen (drop (Z.to_nat sent) frame)))). 
    assert (0 <= j <= zlen frame - sent) as Hj by (unfold j; rewrite length_drop; lia). clearbody j. destruct (0 <? j) eqn:Hpos; zsimp.
    + rewrite u64_small by lia. eapply wp_post_mono; [apply IH; [lia|done|simpl in *; lia]|..]; cbn [Socket.sent Socket.arrivals].
      * intros _ s' (k' & -> & H1 & H2). exists k'. split_and!; [done| |done]. rewrite H1, <- app_assoc. f_equal.
        replace (Z.to_nat (sent + j)) with (Z.to_nat sent + Z.to_nat j)%nat by lia. rewrite <- drop_drop. apply take_drop.
      * intros x s' (-> & k' & more & rest & -> & H1 & H2 & H3). split; [done|].
        exists k', (take (Z.to_nat j) (drop (Z.to_nat sent) frame) ++ more), rest.
        split_and!; [done|by rewrite app_assoc|..|done]. rewrite <- app_assoc, <- H2.
        replace (Z.to_nat (sent + j)) with (Z.to_nat sent + Z.to_nat j)%nat by lia. rewrite <- drop_drop. by rewrite take_drop.
    + split; [done|]. apply Hnone. simpl. assert (j = 0) as -> by lia. simpl. by rewrite app_nil_r.
  - destruct (decide (er = Socket.EINTR)).
    + eapply wp_post_mono; [apply IH; [lia|done|simpl in *; lia]|..]; cbn [Socket.sent Socket.arrivals]; done.
    + split; [done|]. by apply Hnone.
Qed.

(** The whole frame, or a proper prefix of it and an exception. *)
Lemma send_all_wp frame o k m :
  zlen frame < 2 ^ 64 ->
  wp (send_all frame) (o, (k, m)) (post
    (fun _ s' => exists k', s' = (o, (k', m)) /\ Socket.sent k' = Socket.sent k ++ frame /\
       Socket.arrivals k' = Socket.arrivals k)
    (fun x s' => x = runtime_error (lit "send failed") /\ exists k' more rest, s' = (o, (k', m)) /\
       Socket.sent k' = Socket.sent k ++ more /\ frame = more ++ rest /\ rest <> [])).
Proof.
  intros Hf. unfold send_all. apply wp_bind, on_socket_wp, wp_read. cbn beta iota.
  apply (send_rounds_wp _ frame 0); [lia|done|lia].
Qed.

(** ** Receiving *)

(** A stream that only delivers, with interruptions. *)
Definition benign (k : Socket.t) : Prop :=
  Forall (fun a => match a with Socket.chunk _ _ | Socket.failed Socket.EINTR => True | _ => False end) (Socket.arrivals k).

Lemma recv_steps n k :
  0 < n ->
  wp (Socket.recv n) k (fun r k' => Socket.sent k' = Socket.sent k /\ match r with
    | Ret (Socket.got bs) => incoming k = bs ++ incoming k' /\ (Socket.recv_calls k' < Socket.recv_calls k)%nat /\ (benign k -> benign k')
    | Ret Socket.eof => ~ benign k
    | Ret (Socket.recv_error e) => incoming k = incoming k' /\
        if decide (e = Socket.EINTR) then (Socket.recv_calls k' < Socket.recv_calls k)%nat /\ (benign k -> benign k')
        else benign k -> incoming k = []
    | _ => False
    end).
Proof.
  intros Hn. unfold wp, Socket.recv, Socket.recv_calls, incoming, benign. destruct k as [[|[b bs| |er] rest] ds st]; cbn [Socket.arrivals fst snd].
  - split; [done|]. split; [done|]. by rewrite decide_False.
  - assert (exists j, Z.to_nat n = S j) as [j Hj] by (exists (Nat.pred (Z.to_nat n)); lia). rewrite Hj. cbn [drop take].
    destruct (drop j bs) as [|b' bs'] eqn:Hd; cbn [fst snd Socket.arrivals]; (split; [done|]).
    + split_and!; [done|simpl; lia|by intros [_ ?]%Forall_cons].
    + pose proof (take_drop j bs) as Htd. rewrite Hd in Htd. split_and!.
      * simpl. f_equal. rewrite <- Htd at 1. by rewrite <- app_assoc.
      * apply (f_equal length) in Htd. rewrite length_app in Htd. simpl in *. lia.
      * intros [_ ?]%Forall_cons. by apply Forall_cons.
  - split; [done|]. by intros [? _]%Forall_cons.
  - split; [done|]. split; [done|]. destruct (decide (er = Socket.EINTR)) as [->|Hne].
    + split; [simpl; lia|by intros [_ ?]%Forall_cons].
    + intros [H _]%Forall_cons. by destruct er.
Qed.

(** A prefix of a response frame is incomplete, or the response is there. *)
Lemma view_response_prefix data more r rest :
  response_ok r -> data ++ more = Protocol.response_frame r ++ rest ->
  view_response data = Protocol.incomplete \/ view_response data = Protocol.complete r.
Proof.
  intros Hr E. destruct (Z.lt_ge_cases (zlen data) (zlen (Protocol.response_frame r))) as [Hlt|Hge].
  - left. unfold view_response. destruct (zlen data <? Protocol.response_header_size) eqn:Hl; [done|]. zsimp.
    pose proof (length_response_frame r) as Hlen. unfold Protocol.response_header_size in *.
    rewrite (read_response_frame data r Hr).
    2: { unfold bytes_at. rewrite drop_0. rewrite response_frame_split, <- app_assoc in E.
         assert (length (response_header_bytes r) = 20%nat) as H20.
         { pose proof (f_equal length (response_frame_split r)) as H. rewrite length_app in H. lia. }
         rewrite H20. apply (f_equal (take 20)) in E. rewrite take_app_le in E by lia. rewrite E, <- H20. apply take_app_length. }
    rewrite (proj2 (response_header_error_none _)).
    2: { pose proof Hr as ((v & Hv & Hs) & Hl' & _). unfold response_header_of. cbn [Protocol.rh_magic Protocol.rh_version Protocol.rh_reserved Protocol.rh_status Protocol.rh_value_length].
         rewrite Hs, status_of_value by done. split_and!; [done|done|done|lia|done]. }
    unfold response_header_of. cbn [Protocol.rh_value_length Protocol.rh_request_id Protocol.rh_status].
    by rewrite (proj2 (Z.ltb_lt _ _)) by lia.
  - right. assert (exists tl, data = Protocol.response_frame r ++ tl) as [tl ->].
    { exists (drop (length (Protocol.response_frame r)) data). apply (f_equal (take (length (Protocol.response_frame r)))) in E.
      rewrite take_app_length, take_app_le in E by lia. rewrite <- E at 1. by rewrite take_drop. }
    by apply response_roundtrip.
Qed.

(** What [read_response] may throw. *)
Definition read_exn (x : exn) : Prop :=
  io_exn x \/ x = runtime_error (lit "connection closed before response") \/
  exists w, x = runtime_error (lit "invalid response: " ++ w).

(** What it returns is the response at the head of what was received; and if the
    stream delivers a response, nothing but memory can keep it from returning it. *)
Lemma receive_rounds_wp n input o k m :
  Buffer.buffer_ok input -> (Socket.recv_calls k < n)%nat ->
  wp (receive_rounds n input) (o, (k, m)) (post
    (fun r s' => exists k' m' stream, s' = (o, (k', m')) /\ incoming k = stream ++ incoming k' /\ Socket.sent k' = Socket.sent k /\
       view_response (Buffer.readable_view input ++ stream) = Protocol.complete r)
    (fun x s' => exists k' m', s' = (o, (k', m')) /\ Socket.sent k' = Socket.sent k /\ read_exn x /\
       (benign k -> forall r rest, response_ok r ->
          Buffer.readable_view input ++ incoming k = Protocol.response_frame r ++ rest -> io_exn x))).
Proof.
  revert input k m. induction n as [|n IH]; intros input k m Hb Hn; [lia|]. cbn [receive_rounds].
  pose proof (decode_response_wp input m Hb) as Hdec. apply wp_bind. unfold wp at 1. unfold wp in Hdec. cbn [fst snd].
  destruct (Protocol.decode_response (input, m)) as [[d|x|] [input1 m1]]; cbn [fst snd post] in *; [..|done].
  2: { destruct Hdec as (-> & _). eexists _, _. split_and!; [done|done|left; by left|]. intros _ r rest _ _. by left. }
  destruct Hdec as (-> & Hb1 & _ & Hview). destruct (view_response (Buffer.readable_view input)) as [|r|err] eqn:Hv.
  - simpl in Hview. rewrite drop_0 in Hview. apply wp_bind, on_socket_wp. eapply wp_mono; [apply recv_steps; lia|].
    intros [[bs| |er]|x|] k1 [Hsent H0]; [..|done|done]; revert H0.
    + intros (Hin & Hlt & Hben). apply wp_bind. pose proof (Buffer.append_wp bs input1 m1 Hb1) as Happ. unfold wp at 1. unfold wp in Happ.
      cbn [fst snd]. destruct (Buffer.append bs (input1, m1)) as [[[]|x|] [input2 m2]]; cbn [fst snd post] in *; [..|done].
      * destruct Happ as (Hb2 & Hv2 & _). eapply wp_post_mono; [apply (IH input2 k1 m2 Hb2); lia|..].
        -- intros r s' (k' & m' & stream & -> & H1 & H3 & H2). exists k', m', (bs ++ stream).
           split_and!; [done|by rewrite Hin, H1, app_assoc|congruence|]. rewrite app_assoc, <- Hview, <- Hv2. done.
        -- intros x s' (k' & m' & -> & H0 & H1 & H2). eexists _, _. split_and!; [done|congruence|done|]. intros Hk r rest Hr Hf.
           apply (H2 (Hben Hk) r rest Hr). by rewrite Hv2, Hview, <- app_assoc, <- Hin.
      * destruct Happ as (_ & _ & Hx). eexists _, _. split_and!; [done|done|by left|]. done.
    + intros Hk. eexists _, _. split_and!; [done|done|right; by left|]. done.
    + intros (Hin & H). destruct (decide (er = Socket.EINTR)).
      * destruct H as [Hlt Hben]. eapply wp_post_mono; [apply (IH input1 k1 m1 Hb1); lia|..].
        -- intros r s' (k' & m' & stream & -> & H1 & H3 & H2). exists k', m', stream. rewrite Hin, <- Hview, <- Hsent. done.
        -- intros x s' (k' & m' & -> & H0 & H1 & H2). eexists _, _. split_and!; [done|congruence|done|]. intros Hk r rest Hr Hf.
           apply (H2 (Hben Hk) r rest Hr). by rewrite Hview, <- Hin.
      * eexists _, _. split_and!; [done|done|right; by left|]. intros Hk r rest Hr Hf. exfalso.
        rewrite (H Hk), app_nil_r in Hf. rewrite Hf, response_roundtrip in Hv by done. discriminate Hv.
  - apply wp_ret. exists k, m1, []. by rewrite app_nil_r.
  - apply wp_bind, on_env_wp, wp_may_alloc; intros fs.
    + eexists _, _. split_and!; [done|done|right; right; by eexists|]. intros _ r rest Hr Hf. exfalso.
      destruct (view_response_prefix _ _ r rest Hr Hf); congruence.
    + eexists _, _. split_and!; [done|done|left; by left|]. intros _ r rest _ _. by left.
Qed.

Lemma read_response_wp o k m :
  wp read_response (o, (k, m)) (post
    (fun r s' => exists k' m' stream, s' = (o, (k', m')) /\ incoming k = stream ++ incoming k' /\ Socket.sent k' = Socket.sent k /\
       view_response stream = Protocol.complete r)
    (fun x s' => exists k' m', s' = (o, (k', m')) /\ Socket.sent k' = Socket.sent k /\ read_exn x /\
       (benign k -> forall r rest, response_ok r -> incoming k = Protocol.response_frame r ++ rest -> io_exn x))).
Proof.
  unfold read_response. apply wp_bind, on_env_wp.
  eapply wp_mono; [apply Buffer.create_buffer_wp; unfold CharVector.max_size; lia|]. intros [b|x|] m1; [..|done]; cbn [post].
  - intros (Hb & Hv & _). apply wp_bind, on_socket_wp, wp_read. cbn beta iota.
    eapply wp_post_mono; [apply (receive_rounds_wp _ b o k m1 Hb); lia|..]; rewrite Hv; done.
  - intros (-> & _). eexists _, _. split_and!; [done|done|left; by left|]. intros _ r rest _ _. by left.
Qed.

(** The response in front of the stream is the one returned. *)
Lemma read_response_returns o k m r rest :
  response_ok r -> benign k -> incoming k = Protocol.response_frame r ++ rest ->
  wp read_response (o, (k, m)) (post (fun r' s' => r' = r /\ s'.1 = o) (fun x s' => io_exn x /\ s'.1 = o)).
Proof.
  intros Hr Hk Hin. eapply wp_post_mono; [apply read_response_wp|..].
  - intros r' s' (k' & m' & stream & -> & Hs & _ & Hv). split; [|done].
    destruct (view_response_prefix stream (incoming k') r rest Hr) as [H|H]; [congruence|congruence|]. congruence.
  - intros x s' (k' & m' & -> & _ & _ & H). split; [by eapply H|done].
Qed.

(** ** Arguments *)

(** The command lines the client accepts, and the request each makes. *)
Inductive command_line : list bytes -> Protocol.Request -> Prop :=
| command_get program host port key :
    command_line [program; host; port; lit "get"; key] (Protocol.MkRequest Protocol.op_get 1 key [] 0)
| command_delete program host port key :
    command_line [program; host; port; lit "delete"; key] (Protocol.MkRequest Protocol.op_erase 1 key [] 0)
| command_set program host port key value :
    command_line [program; host; port; lit "set"; key; value] (Protocol.MkRequest Protocol.op_set 1 key value 0)
| command_set_ttl program host port key value ttl n :
    whole_number u64_max ttl = Some n ->
    command_line [program; host; port; lit "set"; key; value; ttl] (Protocol.MkRequest Protocol.op_set 1 key value n).

(** What is thrown for a word that is not a number of 64 bits. *)
Definition not_a_number : exn := std_invalid_argument (lit "expected unsigned decimal integer").

(** Why a command line is refused: its TTL is no number, or it is none of the usage text. *)
Definition bad_command (argv : list bytes) (x : exn) : Prop :=
  (forall r, ~ command_line argv r) /\
  (x = usage \/ x = not_a_number /\ exists ttl, argv !! 6%nat = Some ttl /\ whole_number u64_max ttl = None).

Lemma parse_request_spec argv :
  match parse_request argv with
  | Ret r => command_line argv r
  | Throw x => bad_command argv x
  | Undefined => False
  end.
Proof.
  unfold parse_request. destruct argv as [|a [|h [|p [|c [|k args]]]]]; try (split; [by inversion 1|by left]).
  cbn [length Nat.ltb Nat.leb lookup list_lookup]. destruct args as [|v args].
  - cbn [length Nat.eqb]. rewrite !andb_true_r, !andb_false_r.
    destruct (bool_decide (c = lit "get")) eqn:E1; zsimp; [rewrite E1; constructor|].
    destruct (bool_decide (c = lit "delete")) eqn:E2; zsimp; [rewrite E2; constructor|].
    split; [|by left]. intros r H. inversion H; subst; done.
  - cbn [length Nat.eqb]. rewrite !andb_false_r. cbn [lookup list_lookup].
    destruct (bool_decide (c = lit "set")) eqn:E3; zsimp.
    2: { split; [|by left]. intros r H. inversion H; subst; done. }
    destruct args as [|t [|t2 args]]; cbn [length Nat.eqb orb andb lookup list_lookup].
    + rewrite E3. constructor.
    + unfold parse_unsigned. destruct (whole_number u64_max t) eqn:E; [rewrite E3; by constructor|].
      split; [intros r H; inversion H; subst; congruence|]. right. split; [done|]. by exists t.
    + split; [|by left]. intros r H. inversion H.
Qed.

Lemma parse_request_has_host argv r : parse_request argv = Ret r -> exists h, argv !! 1%nat = Some h.
Proof.
  intros E. pose proof (parse_request_spec argv) as H. rewrite E in H. inversion H; subst; by eexists.
Qed.

(** ** The exchange *)

Section client.
Variable inet_pton : bytes -> Z.
Variable network : bytes -> Z -> Socket.t.

(** The next descriptor the kernel gives is not in use. *)
Definition next_free (o : Os.t) : Prop := forall fd os, Os.opens o = Some fd :: os -> fd ∉ Os.opened o.

(** Apart from [fd], what is open is what was. *)
Definition has_opened (o : Os.t) (fd : Z) (o' : Os.t) : Prop := Os.opened o' = {[fd]} ∪ Os.opened o /\ (fd ∉ Os.opened o).

(** The answers still to come are some of those that were. *)
Definition later_calls (o o' : Os.t) : Prop := forall b, b ∈ Os.calls o' -> b ∈ Os.calls o.

Lemma client_checked_wp x o k m Q :
  (forall o', Os.opened o' = Os.opened o -> later_calls o o' -> Q (Ret tt) (o', (k, m))) ->
  (forall o', Os.opened o' = Os.opened o -> later_calls o o' -> true ∈ Os.calls o -> Q (Throw x) (o', (k, m))) ->
  wp (checked x) (o, (k, m)) Q.
Proof.
  intros HR HT. unfold checked, on_os. apply wp_bind, wp_on_fst. unfold wp, Os.call.
  destruct (Os.calls o) as [|[] fs] eqn:E; cbn [fst snd negb]; [apply HR|apply HT|apply HR];
    unfold later_calls; cbn [Os.opened Os.calls]; try done; try (intros b Hb; rewrite E; by right).
  by left.
Qed.

Lemma client_close_wp o fd o' k m Q :
  has_opened o fd o' -> (forall o'', Os.opened o'' = Os.opened o -> Q (Ret tt) (o'', (k, m))) ->
  wp (on_os (Os.close fd)) (o', (k, m)) Q.
Proof.
  intros [Ho Hf] HQ. unfold on_os. apply wp_on_fst. eapply wp_modify_opt; [rewrite decide_True; [done|rewrite Ho; set_solver]|].
  apply HQ. simpl. rewrite Ho. set_solver.
Qed.

(** Why [connect_to] throws. *)
Inductive connect_failed (host : bytes) (o : Os.t) : exn -> Prop :=
| failed_socket : (forall fd os, Os.opens o <> Some fd :: os) -> connect_failed host o (runtime_error (lit "socket failed"))
| failed_timeout : true ∈ Os.calls o -> connect_failed host o (runtime_error (lit "socket timeout setup failed"))
| failed_host : inet_pton host <> 1 -> connect_failed host o (std_invalid_argument (lit "host must be an IPv4 address"))
| failed_connect : true ∈ Os.calls o -> connect_failed host o (runtime_error (lit "connect failed")).

(** Why the exchange throws: no connection; a request that may not be sent; a send
    that fails short of the whole frame; an end of the stream or bytes that are no
    response; or a failed allocation. *)
Inductive exchange_failed (host : bytes) (port : Z) (request : Protocol.Request) (o : Os.t) (k' : Socket.t) : exn -> Prop :=
| failed_connecting x : connect_failed host o x -> exchange_failed host port request o k' x
| failed_encoding w : Protocol.request_refusal request = Some w ->
    exchange_failed host port request o k' (std_invalid_argument w)
| failed_sending more rest :
    Socket.sent k' = Socket.sent (network host (Os.htons port)) ++ more ->
    Protocol.request_frame request = more ++ rest -> rest <> [] ->
    exchange_failed host port request o k' (runtime_error (lit "send failed"))
| failed_reading x : Socket.sent k' = Socket.sent (network host (Os.htons port)) ++ Protocol.request_frame request ->
    read_exn x -> exchange_failed host port request o k' x
| failed_memory x : io_exn x -> exchange_failed host port request o k' x.

Lemma connect_to_wp host port o k m :
  next_free o ->
  wp (connect_to inet_pton network host port) (o, (k, m)) (post
    (fun fd s' => exists o', s' = (o', (network host (Os.htons port), m)) /\ has_opened o fd o')
    (fun x s' => exists o', s' = (o', (k, m)) /\ Os.opened o' = Os.opened o /\ connect_failed host o x)).
Proof.
  intros Hf. unfold connect_to. apply wp_bind, wp_on_fst. unfold wp at 1, Os.open_fd.
  destruct (Os.opens o) as [|[fd|] os] eqn:Hos; cbn [fst snd];
    [eexists; split_and!; [done|done|constructor; congruence]| |eexists; split_and!; [done|done|constructor; congruence]].
  assert (fd ∉ Os.opened o) as Hn by (by eapply Hf).
  eapply (wp_on_throw _ _ _ _ (fun x s' => exists o', s' = (o', (k, m)) /\ has_opened o fd o' /\ connect_failed host o x)).
  - apply wp_bind, client_checked_wp; intros o1 H1 L1; [|intros Hb; exists o1; split_and!; [done|done|by constructor]].
    apply wp_bind, client_checked_wp; intros o2 H2 L2.
    2: { intros Hb. exists o2. split_and!; [done|split; [by rewrite H2, H1|done]|]. constructor. by apply L1. }
    assert (has_opened o fd o2) as Ho2 by (split; [by rewrite H2, H1|done]).
    destruct (Z.eqb_spec (inet_pton host) 1); [|by apply wp_bind; eexists; split_and!; [done|done|constructor]].
    apply wp_bind, wp_ret. cbn beta iota. apply wp_bind, client_checked_wp; intros o3 H3 L3; destruct Ho2.
    + apply wp_bind, on_socket_wp, wp_modify. cbn beta iota. apply wp_ret. exists o3. split; [done|]. split; [congruence|done].
    + intros Hb. exists o3. split_and!; [done|split; [congruence|done]|]. constructor. apply L1, L2. done.
  - intros x s' (o' & -> & Ho' & Hx). eapply client_close_wp; [exact Ho'|]. intros o'' H. by eexists.
Qed.

Lemma frame_small request : Protocol.request_refusal request = None -> zlen (Protocol.request_frame request) < 2 ^ 64.
Proof.
  intros H. apply request_refusal_none in H as (_ & Hk & Hv & _). rewrite length_request_frame.
  unfold Protocol.request_header_size, Cache.max_key_length, Cache.max_value_length in *. lia.
Qed.

Lemma exchange_wp host port request o k m :
  next_free o ->
  wp (exchange inet_pton network host port request) (o, (k, m)) (post
    (fun r s' => Os.opened s'.1 = Os.opened o /\ Protocol.request_refusal request = None /\
       Socket.sent s'.2.1 = Socket.sent (network host (Os.htons port)) ++ Protocol.request_frame request /\
       exists stream, incoming (network host (Os.htons port)) = stream ++ incoming s'.2.1 /\ view_response stream = Protocol.complete r)
    (fun x s' => Os.opened s'.1 = Os.opened o /\ exchange_failed host port request o s'.2.1 x)).
Proof.
  intros Hf. unfold exchange.
  eapply wp_bind_post; [by apply connect_to_wp| |by intros x s' (o' & -> & ? & ?); split; [|constructor]].
  intros fd s1 (o1 & -> & H1). clear k. set (k := network host (Os.htons port)).
  eapply wp_bind_post with (R := fun r s' => exists k' m', s' = (o1, (k', m')) /\ Protocol.request_refusal request = None /\
      Socket.sent k' = Socket.sent k ++ Protocol.request_frame request /\
      exists stream, incoming k = stream ++ incoming k' /\ view_response stream = Protocol.complete r)
    (E := fun x s' => Os.opened s'.1 = Os.opened o /\ exchange_failed host port request o s'.2.1 x); [| |done].
  - eapply (wp_on_throw _ _ _ _ (fun x s' => exists k' m', s' = (o1, (k', m')) /\ exchange_failed host port request o k' x)).
    2: { intros x s' (k' & m' & -> & Hx). eapply client_close_wp; [exact H1|]. by intros o'' H. }
    unfold Protocol.encode_request. destruct (Protocol.request_refusal request) eqn:Href.
    { apply wp_bind, on_env_wp. eexists _, _. split; [done|by apply failed_encoding]. }
    apply wp_bind, on_env_wp, wp_bind, wp_may_alloc; intros fs; [apply wp_ret|].
    2: { eexists _, _. split; [done|]. apply failed_memory. by left. }
    eapply wp_bind_post; [apply send_all_wp; by apply frame_small| |].
    2: { intros x s' (-> & k' & more & rest & -> & Hs & Hr & Hne). eexists _, _. split; [done|]. by eapply failed_sending. }
    intros [] s2 (k2 & -> & Hs & Ha). eapply wp_post_mono; [apply read_response_wp|..].
    + intros r s' (k' & m' & stream & -> & Hi & Hs' & Hv). exists k', m'. split_and!; [done|done|by rewrite Hs'|].
      exists stream. split; [|done]. unfold incoming in *. by rewrite <- Ha.
    + intros x s' (k' & m' & -> & Hs' & Hx & _). eexists _, _. split; [done|]. apply failed_reading; [by rewrite Hs'|done].
  - intros r s' (k' & m' & -> & Hs). apply wp_bind. eapply client_close_wp; [exact H1|]. intros o'' Ho. by apply wp_ret.
Qed.

(** What the program did when it did not fail; [k'] is the peer afterwards. *)
Definition answered (argv : list bytes) (k' : Socket.t) (res : result) : Prop :=
  exists host port request r stream, argv !! 1%nat = Some host /\
    (argv !! 2%nat ≫= whole_number u64_max) = Some port /\ 1 <= port <= 65535 /\
    let k := network host (Os.htons port) in
    command_line argv request /\ Protocol.request_refusal request = None /\
    Socket.sent k' = Socket.sent k ++ Protocol.request_frame request /\
    incoming k = stream ++ incoming k' /\ view_response stream = Protocol.complete r /\
    res = MkResult (exit_status r) (shown r) [].

(** The port on the command line; without one it is 0. *)
Definition given_port (argv : list bytes) : option Z :=
  match argv !! 2%nat with Some a => whole_number u64_max a | None => Some 0 end.

(** Why the program failed, in the order it looks: the port is no number or out of
    range, the command is not one of the usage text, or the exchange failed. *)
Inductive failed_because (argv : list bytes) (o : Os.t) (k' : Socket.t) : exn -> Prop :=
| failed_port : given_port argv = None -> failed_because argv o k' not_a_number
| failed_port_range port : given_port argv = Some port -> ~ 1 <= port <= 65535 ->
    failed_because argv o k' (std_invalid_argument (lit "port must be between 1 and 65535"))
| failed_command port x : given_port argv = Some port -> 1 <= port <= 65535 -> bad_command argv x ->
    failed_because argv o k' x
| failed_exchange host port request x :
    argv !! 1%nat = Some host -> given_port argv = Some port -> 1 <= port <= 65535 -> command_line argv request ->
    exchange_failed host port request o k' x -> failed_because argv o k' x.

(** What the program did when it failed: status 1, nothing on standard output, and
    the reason on standard error. *)
Definition reported (argv : list bytes) (o : Os.t) (k' : Socket.t) (res : result) : Prop :=
  exists x, failed_because argv o k' x /\ res = MkResult 1 [] (lit "highcache_client: " ++ what x ++ [Byte.x0a]).

Lemma main_wp argv o k m :
  next_free o ->
  wp (main inet_pton network argv) (o, (k, m)) (post
    (fun res s' => Os.opened s'.1 = Os.opened o /\ (reported argv o s'.2.1 res \/ answered argv s'.2.1 res))
    (fun _ _ => False)).
Proof.
  intros Hf. unfold main.
  eapply (wp_try_catch _ _ _ (fun res s' => Os.opened s'.1 = Os.opened o /\ answered argv s'.2.1 res)
    (fun x s' => Os.opened s'.1 = Os.opened o /\ failed_because argv o s'.2.1 x)).
  2: { intros res s' [H1 H2]. split; [done|by right]. }
  2: { intros x s' [H1 H2]. apply wp_ret. split; [done|left]. by exists x. }
  unfold main_body. apply wp_bind. unfold of_outcome, wp at 1. cbn [fst snd].
  assert (match argv !! 2%nat with Some a => parse_unsigned a | None => Ret 0 end =
    match given_port argv with Some v => Ret v | None => Throw not_a_number end) as ->.
  { unfold given_port. destruct (argv !! 2%nat); [|done]. unfold parse_unsigned. by destruct (whole_number _ _). }
  destruct (given_port argv) as [port|] eqn:Hp; [|split; [done|by constructor]].
  destruct ((port =? 0) || (port >? 65535)) eqn:Hr.
  { split; [done|]. eapply failed_port_range; [exact Hp|]. zsimp. lia. }
  assert ((argv !! 2%nat ≫= whole_number u64_max) = Some port /\ 1 <= port <= 65535) as [Hport Hrange].
  { unfold given_port in Hp. destruct (argv !! 2%nat) as [a|]; simpl; [|by injection Hp as <-]. split; [done|].
    apply whole_number_range in Hp. zsimp. lia. }
  apply wp_bind. unfold wp at 1. cbn [fst snd]. pose proof (parse_request_spec argv) as Hspec.
  destruct (parse_request argv) as [request|x|] eqn:Hreq; [|split; [done|by eapply failed_command]|done].
  destruct (parse_request_has_host _ _ Hreq) as [host Hh]. rewrite Hh.
  eapply wp_bind_post; [by apply exchange_wp| |].
  - intros r s' (H1 & H2 & H3 & stream & H4 & H5). apply wp_ret. split; [done|]. by exists host, port, request, r, stream.
  - intros x s' [H1 H2]. split; [done|]. by eapply failed_exchange.
Qed.
End client.
