(* ===== verification/ServerFacts.v ===== *)
(** * Constructing the server

    The constructor opens the descriptors it says, or none: an exception at any
    point closes what was opened before it. *)
From S2P Require Import Prelude ErrorModel Effects MemoryModel BufferModel ProtocolModel ProtocolFacts.
From S2P Require Import CacheEngineModel ConnectionModel WorkerModel ServerModel.
Import Memory.
Import CacheServer.

(** ** Descriptors *)

(** The descriptors the kernel will give are not in use. *)
Definition coming (o : Os.t) : list Z := omap id (Os.opens o).
Definition fresh_opens (o : Os.t) : Prop :=
  NoDup (coming o) /\ forall fd, fd ∈ coming o -> 0 <= fd /\ fd ∉ Os.opened o.

(** In [s], exactly the descriptors [l] are open besides those of [o]. *)
Definition leaves (o : Os.t) (l : list Z) (s : build) : Prop :=
  fresh_opens s.1 /\ Os.opened s.1 = list_to_set l ∪ Os.opened o /\ NoDup l /\
  (forall fd, fd ∈ l -> 0 <= fd /\ fd ∉ Os.opened o) /\ Os.assigned s.1 = Os.assigned o.

Lemma leaves_start o e : fresh_opens o -> leaves o [] (o, e).
Proof. intros Ho. split_and!; [done|set_solver|constructor|by intros fd ?%elem_of_nil|done]. Qed.

(** What constructors throw. *)
Definition setup_exn (x : exn) : Prop :=
  x = bad_alloc \/ exists what, x = highcache_error (MkHighCacheError network what).

Section leaves.
Context (o : Os.t).

Lemma throw_network_wp {A} op l s (R : A -> build -> Prop) :
  leaves o l s -> wp (throw_network_error op) s (post R (fun x s' => leaves o l s' /\ setup_exn x)).
Proof.
  intros Hl. destruct s as [o1 e1]. unfold throw_network_error. apply wp_bind, wp_on_fst, wp_read. cbn beta iota.
  apply wp_bind, wp_on_snd, wp_may_alloc; intros fs; (split; [exact Hl|]); [right; by eexists|by left].
Qed.

(** One more descriptor, or none. *)
Lemma open_fd_wp l s :
  leaves o l s -> wp (on_fst Os.open_fd) s (post
    (fun r s' => Os.interest s'.1 = Os.interest s.1 /\
       match r with Some fd => leaves o (fd :: l) s' | None => leaves o l s' end) (fun _ _ => False)).
Proof.
  intros ([Hnd Hfr] & Hop & Hl & Hd & Has). destruct s as [o1 e1]. apply wp_on_fst.
  unfold wp, Os.open_fd, coming in *. simpl in *. destruct (Os.opens o1) as [|[fd|] os] eqn:Hos; cbn [fst snd post].
  - split; [done|]. by split_and!; [split; unfold coming; simpl; rewrite Hos|..].
  - csimpl in *. apply NoDup_cons in Hnd as [Hfd Hnd]. destruct (Hfr fd) as [H0 Hn]; [left|]. split; [done|].
    rewrite Hop in Hn. split_and!; simpl.
    + split; [done|]. unfold coming. simpl. intros fd1 H1. destruct (Hfr fd1) as [G1 G2]; [by right|]. split; [done|].
      assert (fd1 <> fd) by (by intros ->). set_solver.
    + rewrite Hop. set_solver.
    + constructor; [|done]. intros Hin. apply Hn. set_solver.
    + intros fd1 [->|H1]%elem_of_cons; [|by apply Hd]. split; [done|]. set_solver.
    + done.
  - csimpl in *. split; [done|]. split_and!; [split; [done|]; unfold coming; simpl; by apply Hfr|done|done|done|done].
Qed.

Lemma opened_or_throw_wp op l s :
  leaves o l s -> wp (opened_or_throw op) s (post
    (fun fd s' => leaves o (fd :: l) s' /\ Os.interest s'.1 = Os.interest s.1)
    (fun x s' => leaves o l s' /\ setup_exn x)).
Proof.
  intros Hl. eapply wp_bind_post; [by apply open_fd_wp| |by intros].
  intros [fd|] s1 [Hi H1]; [by apply wp_ret|by apply throw_network_wp].
Qed.

Lemma checked_wp op l s :
  leaves o l s -> wp (checked op) s (post
    (fun _ s' => leaves o l s' /\ Os.interest s'.1 = Os.interest s.1) (fun x s' => leaves o l s' /\ setup_exn x)).
Proof.
  intros Hl. destruct s as [o1 e1]. unfold checked. apply wp_bind, wp_on_fst. unfold wp, Os.call.
  destruct (Os.calls o1) as [|[] fs]; cbn [fst snd negb]; [by split| |by split]. by apply throw_network_wp.
Qed.

Lemma may_alloc_leaves l s :
  leaves o l s -> wp (on_snd may_alloc) s (post
    (fun _ s' => leaves o l s' /\ Os.interest s'.1 = Os.interest s.1) (fun x s' => leaves o l s' /\ setup_exn x)).
Proof. intros Hl. destruct s as [o1 e1]. apply wp_on_snd, wp_may_alloc; intros fs; [done|]. split; [done|by left]. Qed.

(** Closing gives a descriptor back. *)
Lemma close_fd_wp fd l s :
  leaves o (fd :: l) s -> wp (close_fd fd) s (post (fun _ s' => leaves o l s') (fun _ _ => False)).
Proof.
  intros ([Hnd Hfr] & Hop & Hl & Hd & Has). destruct s as [o1 e1]. simpl in *. apply NoDup_cons in Hl as [Hfd Hl].
  unfold close_fd. apply wp_on_fst. eapply wp_modify_opt; [rewrite decide_True; [done|rewrite Hop; set_solver]|].
  destruct (Hd fd) as [_ Hn]; [left|]. split_and!; simpl.
  - split; [done|]. simpl. intros fd1 H1. destruct (Hfr fd1 H1) as [? ?]. split; [done|]. set_solver.
  - rewrite Hop. apply set_eq. intros fd1. rewrite elem_of_difference, !elem_of_union, !elem_of_list_to_set, !elem_of_singleton.
    split; [by intros [[[->|?]|?] ?]; auto|]. intros [H|H]; (split; [auto|]); intros ->; done.
  - done.
  - intros fd1 H1. apply Hd. by right.
  - done.
Qed.

(** An operation that fails after a descriptor was opened closes it. *)
Lemma guarded_wp {A} (m : M build A) fd l s R (P : exn -> Prop) :
  wp m s (post R (fun x s' => leaves o (fd :: l) s' /\ P x)) ->
  wp (on_throw m (close_fd fd)) s (post R (fun x s' => leaves o l s' /\ P x)).
Proof.
  intros Hm. eapply wp_on_throw; [exact Hm|]. intros x s' [Hl Hx]. cbn beta.
  eapply wp_post_mono; [by apply close_fd_wp|by intros|done].
Qed.

End leaves.

(** ** Ports *)

Lemma htons_spec x : 0 <= x < 65536 -> Os.htons x = x mod 256 * 256 + x / 256.
Proof.
  intros Hx. unfold Os.htons. rewrite Z.shiftr_land. change (Z.shiftr 0xff00 8) with (Z.ones 8).
  change 0xff with (Z.ones 8). rewrite !Z.land_ones, Z.shiftr_div_pow2 by lia. change (2 ^ 8) with 256.
  assert (0 <= x / 256 < 256) by (split; [apply Z.div_pos; lia|apply Z.div_lt_upper_bound; lia]).
  rewrite (Z.mod_small (x / 256)) by done. by rewrite lor_shiftl.
Qed.

Lemma ntohs_htons x : 0 <= x < 65536 -> Os.ntohs (Os.htons x) = x.
Proof.
  intros Hx. unfold Os.ntohs. pose proof (Z.mod_pos_bound x 256 ltac:(lia)) as Hm.
  assert (0 <= x / 256 < 256) as Hd by (split; [apply Z.div_pos; lia|apply Z.div_lt_upper_bound; lia]).
  rewrite (htons_spec x Hx), htons_spec by lia.
  rewrite Z.div_add_l, (Z.div_small (x / 256)) by lia. rewrite (Z.add_comm _ (x / 256)), Z.mod_add, (Z.mod_small (x / 256)) by lia.
  pose proof (Z.div_mod x 256 ltac:(lia)). lia.
Qed.

Lemma htons_zero x : 0 <= x < 65536 -> Os.htons x = 0 -> x = 0.
Proof. intros Hx H. rewrite <- (ntohs_htons x Hx), H. done. Qed.

(** ** The parts of the constructor *)

Definition slot_fds (w : slot) : list Z := [Worker.wakeup_ (worker_ w); epoll_ w].
Definition workers_fds (ws : list slot) : list Z := concat (slot_fds <$> ws).

(** A worker that was just made. *)
Definition new_slot (limit : Z) (w : slot) : Prop :=
  exists ctl text, worker_ w = Worker.init limit (Worker.wakeup_ (worker_ w)) /\
    kernel_ w = Worker.init_kernel (Worker.wakeup_ (worker_ w)) ctl text /\ thread_ w = no_thread.

Lemma leaves_perm o l l' s : l ≡ₚ l' -> leaves o l s -> leaves o l' s.
Proof.
  intros Hp (H1 & H2 & H3 & H4 & H5). split_and!; [done|by rewrite <- Hp|by rewrite <- Hp| |done].
  intros fd. rewrite <- Hp. apply H4.
Qed.

Lemma create_worker_wp o limit ctl l s :
  leaves o l s -> wp (create_worker limit ctl) s (post
    (fun w s' => (leaves o (slot_fds w ++ l) s' /\ Os.interest s'.1 = Os.interest s.1) /\ new_slot limit w)
    (fun x s' => leaves o l s' /\ setup_exn x)).
Proof.
  intros Hl. unfold create_worker. eapply wp_bind_post; [by apply opened_or_throw_wp| |done].
  intros epoll s1 [H1 I1]. apply guarded_wp. eapply wp_bind_post; [by apply opened_or_throw_wp| |done].
  intros wakeup s2 [H2 I2]. apply guarded_wp. eapply wp_bind_post; [by apply checked_wp| |done].
  intros [] [o3 e3] [H3 I3]. apply wp_bind, wp_on_fst, wp_read. cbn beta iota. apply wp_ret.
  split; [split; [exact H3|simpl in *; congruence]|]. by exists ctl, (Os.error_text o3).
Qed.

Lemma discard_workers_wp o ws l s :
  leaves o (workers_fds ws ++ l) s ->
  wp (discard_workers ws) s (post (fun _ s' => leaves o l s') (fun _ _ => False)).
Proof.
  revert s. induction ws as [|w ws IH]; intros s Hl; cbn [discard_workers]; [by apply wp_ret|].
  unfold workers_fds in Hl. csimpl in Hl. unfold discard_worker. apply wp_bind.
  eapply wp_bind_post; [by apply (close_fd_wp o)| |done]. intros [] s1 H1.
  eapply wp_post_mono; [by apply (close_fd_wp o)| |done]. intros [] s2 H2. by apply IH.
Qed.

Lemma create_workers_wp o limit ctl n made l s :
  leaves o (workers_fds made ++ l) s -> Forall (new_slot limit) made ->
  wp (create_workers limit ctl n made) s (post
    (fun ws s' => (leaves o (workers_fds ws ++ l) s' /\ Os.interest s'.1 = Os.interest s.1) /\
       Forall (new_slot limit) ws /\ length ws = (length made + n)%nat)
    (fun x s' => leaves o l s' /\ setup_exn x)).
Proof.
  revert made s. induction n as [|n IH]; intros made s Hl Hm; cbn [create_workers].
  { apply wp_ret. by split_and!; [..|lia]. }
  eapply wp_bind_post; [eapply wp_on_throw with (E := fun x s' => leaves o (workers_fds made ++ l) s' /\ setup_exn x)
    (E' := fun x s' => leaves o l s' /\ setup_exn x)| |done].
  - eapply wp_bind_post; [by apply (may_alloc_leaves o)| |done]. intros [] s1 [H1 I1].
    eapply wp_post_mono; [by apply create_worker_wp| |done].
    intros w s2 [[H2 I2] Hw]. exact (conj (conj H2 (eq_trans I2 I1)) Hw).
  - intros x s1 [H1 Hx]. eapply wp_post_mono; [by apply discard_workers_wp| |done]. intros [] s2 H2. exact (conj H2 Hx).
  - intros w s1 [[H1 I1] Hw]. eapply wp_post_mono; [apply IH| |done].
    + eapply leaves_perm; [|exact H1]. unfold workers_fds. rewrite fmap_app, concat_app. cbn [fmap list_fmap concat].
      rewrite app_nil_r, (Permutation_app_comm (concat _) (slot_fds w)). by rewrite app_assoc.
    + apply Forall_app. auto.
    + intros ws s2 [[H2 I2] [H3 H4]]. rewrite length_app in H4. simpl in H4.
      split_and!; [exact H2|congruence|done|lia].
Qed.

(** ** The stop event *)

(** What leaves its counter alone. *)
Definition steady {A} (f : M build A) : Prop := forall s, Os.signals (f s).2.1 = Os.signals s.1.

Lemma steady_ret {A} (a : A) : steady (ret a).
Proof. done. Qed.

Lemma steady_throw {A} x : steady (throw (A := A) x).
Proof. done. Qed.

Lemma steady_bind {A B} (f : M build A) (k : A -> M build B) : steady f -> (forall a, steady (k a)) -> steady (bind f k).
Proof.
  intros Hf Hk s. specialize (Hf s). unfold bind. destruct (f s) as [[a|x|] s1]; cbn [snd] in *; [|done|done]. by rewrite Hk.
Qed.

Lemma steady_on_throw {A} (f : M build A) d : steady f -> steady d -> steady (on_throw f d).
Proof.
  intros Hf Hd s. specialize (Hf s). unfold on_throw. destruct (f s) as [[a|x|] s1]; cbn [snd] in *; [done| |done].
  specialize (Hd s1). destruct (d s1) as [[]]; cbn [snd] in *; congruence.
Qed.

Lemma steady_os {A} (f : M Os.t A) : (forall o, Os.signals (f o).2 = Os.signals o) -> steady (on_fst f).
Proof. intros Hf [o e]. specialize (Hf o). unfold on_fst. cbn [fst snd]. by destruct (f o). Qed.

Lemma steady_env {A} (f : M env A) : steady (on_snd f).
Proof. intros [o e]. unfold on_snd. cbn [fst snd]. by destruct (f e). Qed.

Lemma open_fd_steady : steady (on_fst Os.open_fd).
Proof. apply steady_os. intros o. unfold Os.open_fd. by destruct (Os.opens o) as [|[]]. Qed.

Lemma call_steady : steady (on_fst Os.call).
Proof. apply steady_os. intros o. unfold Os.call. by destruct (Os.calls o). Qed.

Lemma close_steady fd : steady (close_fd fd).
Proof. apply steady_os. intros o. unfold Os.close, modify_opt. by destruct (decide _). Qed.

Lemma register_steady fd events : steady (on_fst (modify (Os.register fd events))).
Proof. by apply steady_os. Qed.

Lemma read_steady : steady (on_fst read).
Proof. by apply steady_os. Qed.

#[local] Hint Resolve steady_ret steady_throw steady_env open_fd_steady call_steady close_steady register_steady read_steady : wp.

(** [steady] goes through the statements of an operation. *)
Ltac steady :=
  repeat first [ solve [auto with wp] | (apply steady_bind; [|intros ?]) | apply steady_on_throw
               | match goal with |- steady (match ?x with _ => _ end) => destruct x end ].

Lemma checked_steady op : steady (checked op).
Proof. unfold checked, throw_network_error. steady. Qed.

Lemma opened_or_throw_steady op : steady (opened_or_throw op).
Proof. unfold opened_or_throw, throw_network_error. steady. Qed.

#[local] Hint Resolve checked_steady opened_or_throw_steady : wp.

Lemma discard_workers_steady ws : steady (discard_workers ws).
Proof. induction ws as [|w ws IH]; cbn [discard_workers]; [steady|]. unfold discard_worker. steady. Qed.

#[local] Hint Resolve discard_workers_steady : wp.

Lemma create_workers_steady limit ctl n made : steady (create_workers limit ctl n made).
Proof.
  revert made. induction n as [|n IH]; intros made; cbn [create_workers]; [steady|].
  unfold create_worker, create_epoll, create_event. steady.
Qed.

(** What returns with the counter at 0. *)
Definition signals_cleared {A} (f : M build A) : Prop := forall s a s', f s = (Ret a, s') -> Os.signals s'.1 = 0.

Lemma cleared_bind {A B} (f : M build A) (k : A -> M build B) : (forall a, signals_cleared (k a)) -> signals_cleared (bind f k).
Proof. intros Hk s b s'. unfold bind. destruct (f s) as [[a|x|] s1]; [apply Hk|done|done]. Qed.

Lemma cleared_on_throw {A} (f : M build A) d : signals_cleared f -> signals_cleared (on_throw f d).
Proof.
  intros Hf s b s'. specialize (Hf s b s'). unfold on_throw. destruct (f s) as [[a|x|] s1]; [done| |done].
  by destruct (d s1) as [[]].
Qed.

Lemma cleared_drain {A} (k : M build A) : steady k -> signals_cleared (on_fst (modify Os.drain_counter) ;; k).
Proof.
  intros Hk [o e] a s'. unfold bind, on_fst, modify. cbn [fst snd]. intros E. pose proof (Hk (Os.drain_counter o, e)) as H. by rewrite E in H.
Qed.

Lemma create_cleared inet_pton ctl options : signals_cleared (create inet_pton ctl options).
Proof.
  unfold create. do 2 (apply cleared_bind; intros ?). apply cleared_on_throw. apply cleared_bind. intros epoll. apply cleared_on_throw.
  apply cleared_bind. intros stop. apply cleared_drain. pose proof create_workers_steady.
  unfold create_timer, add_to_epoll. steady.
Qed.

Section construction.
Variable inet_pton : bytes -> Z.
Variable ctl : nat -> list bool.

Definition invalid (what : bytes) : exn := highcache_error (MkHighCacheError invalid_argument what).

(** What the constructor throws on these options. *)
Definition create_exn (options : ServerOptions) (x : exn) : Prop :=
  setup_exn x \/ inet_pton (host options) <> 1 /\ x = invalid (lit "server host must be an IPv4 address").

(** The port a server asked for [p] listens on. *)
Definition chosen_port (p : Z) (o : Os.t) : Z := if p =? 0 then Os.assigned o else p.

Lemma create_listen_socket_wp o options l s :
  0 <= port options < 65536 -> 0 <= Os.assigned o < 65536 -> leaves o l s ->
  wp (create_listen_socket inet_pton options) s (post
    (fun ls s' => (leaves o (socket ls :: l) s' /\ Os.interest s'.1 = Os.interest s.1) /\
       listen_port ls = chosen_port (port options) o /\ inet_pton (host options) = 1)
    (fun x s' => leaves o l s' /\ create_exn options x)).
Proof.
  intros Hp Ha Hl. unfold create_listen_socket.
  eapply wp_bind_post; [by apply opened_or_throw_wp| |intros x s' [? ?]; split; [done|by left]].
  intros fd s1 [H1 I1]. apply guarded_wp.
  eapply wp_bind_post; [by apply checked_wp| |intros x s' [? ?]; split; [done|by left]]. intros [] s2 [H2 I2].
  cbn zeta. destruct (inet_pton (host options) =? 1) eqn:Hin; zsimp.
  2: { apply wp_bind. split; [done|by right]. }
  apply wp_bind, wp_ret. cbn beta iota.
  eapply wp_bind_post; [by apply checked_wp| |intros x s' [? ?]; split; [done|by left]]. intros [] s3 [H3 I3].
  eapply wp_bind_post; [by apply checked_wp| |intros x s' [? ?]; split; [done|by left]]. intros [] s4 [H4 I4].
  eapply wp_bind_post; [by apply checked_wp| |intros x s' [? ?]; split; [done|by left]]. intros [] [o5 e5] [H5 I5].
  apply wp_bind, wp_on_fst, wp_read. cbn beta iota. apply wp_ret. split_and!; [exact H5|simpl in *; congruence| |done].
  simpl. unfold Os.bound_port, chosen_port. destruct H5 as (_ & _ & _ & _ & Has). simpl in Has. rewrite Has.
  destruct (Os.htons (port options) =? 0) eqn:Hz, (port options =? 0) eqn:Hp0; zsimp.
  - by apply ntohs_htons.
  - by apply htons_zero in Hz.
  - rewrite Hp0 in Hz. by destruct Hz.
  - by apply ntohs_htons.
Qed.

(** The descriptors of a server. *)
Definition server_fds (srv : t) : list Z :=
  workers_fds (workers_ srv) ++ [timer_ srv; stop_event_ srv; accept_epoll_ srv; socket (listen_socket_ srv)].

(** A server that was just made. *)
Definition new_server (options : ServerOptions) (srv : t) : Prop :=
  options_ srv = options /\ Forall (new_slot (pending_output_limit options)) (workers_ srv) /\
  length (workers_ srv) = Z.to_nat (worker_threads options) /\ acceptor_thread_ srv = no_thread /\
  ever_started_ srv = false /\ stop_requested_ srv = false /\ running_ srv = false /\ next_worker_ srv = 0.

Lemma add_to_epoll_wp o fd l s :
  leaves o l s -> wp (add_to_epoll fd) s (post
    (fun _ s' => leaves o l s' /\ Os.interest s'.1 = <[fd := Connection.EPOLLIN]> (Os.interest s.1))
    (fun x s' => leaves o l s' /\ setup_exn x)).
Proof.
  intros Hl. unfold add_to_epoll. eapply wp_bind_post; [by apply (checked_wp o)| |done]. intros [] [o1 e1] [H1 I1].
  apply wp_on_fst, wp_modify. cbn [post fst]. split; [exact H1|]. simpl in *. by rewrite I1.
Qed.

Lemma create_body_wp o options ls epoll stop timer s :
  let l := [timer; stop; epoll; socket ls] in
  leaves o l s ->
  wp (add_to_epoll (socket ls) ;; add_to_epoll stop ;; add_to_epoll timer ;; on_snd may_alloc ;;
      workers <- create_workers (pending_output_limit options) ctl (Z.to_nat (worker_threads options)) [] ;;
      ret (MkServer options ls epoll stop timer workers no_thread false false false 0)) s
    (post (fun srv s' => leaves o (server_fds srv) s' /\ new_server options srv /\ listen_socket_ srv = ls /\
       Os.interest s'.1 = <[timer_ srv := Connection.EPOLLIN]> (<[stop_event_ srv := Connection.EPOLLIN]>
         (<[socket (listen_socket_ srv) := Connection.EPOLLIN]> (Os.interest s.1))))
     (fun x s' => leaves o l s' /\ create_exn options x)).
Proof.
  intros l Hl. assert (forall (x : exn) (s' : build), leaves o l s' /\ setup_exn x -> leaves o l s' /\ create_exn options x) as HE.
  { intros x s' [? ?]. split; [done|by left]. }
  eapply wp_bind_post; [by apply add_to_epoll_wp| |exact HE]. intros [] s1 [H1 I1].
  eapply wp_bind_post; [by apply add_to_epoll_wp| |exact HE]. intros [] s2 [H2 I2].
  eapply wp_bind_post; [by apply add_to_epoll_wp| |exact HE]. intros [] s3 [H3 I3].
  eapply wp_bind_post; [by apply may_alloc_leaves| |exact HE]. intros [] s4 [H4 I4].
  eapply wp_bind_post; [apply (create_workers_wp o _ _ _ [] l s4 H4); constructor| |exact HE].
  intros ws s5 [[H5 I5] [H6 H7]]. apply wp_ret. split_and!; [exact H5| |done|simpl; congruence].
  by split_and!.
Qed.

(** The outcome of the constructor. *)
Definition created (o : Os.t) (options : ServerOptions) (srv : t) (s' : build) : Prop :=
  (worker_threads options <> 0 /\ Protocol.response_header_size <= pending_output_limit options /\
   inet_pton (host options) = 1) /\
  leaves o (server_fds srv) s' /\ new_server options srv /\
  server_port srv = chosen_port (port options) o /\
  Os.interest s'.1 = <[timer_ srv := Connection.EPOLLIN]> (<[stop_event_ srv := Connection.EPOLLIN]>
    (<[socket (listen_socket_ srv) := Connection.EPOLLIN]> (Os.interest o))) /\
  Os.signals s'.1 = 0.

Definition create_refused (options : ServerOptions) (x : exn) : Prop :=
  if worker_threads options =? 0 then x = invalid (lit "server worker count must be greater than zero")
  else if pending_output_limit options <? Protocol.response_header_size
  then x = invalid (lit "server output limit is too small")
  else create_exn options x.

Lemma server_create_wp o options e :
  0 <= port options < 65536 -> 0 <= Os.assigned o < 65536 -> fresh_opens o ->
  wp (create inet_pton ctl options) (o, e) (post (created o options) (fun x s' => leaves o [] s' /\ create_refused options x)).
Proof.
  intros Hp Ha Hf. pose proof (create_cleared inet_pton ctl options (o, e)) as Hz.
  enough (wp (create inet_pton ctl options) (o, e) (post
    (fun srv s' => Os.signals s'.1 = 0 -> created o options srv s') (fun x s' => leaves o [] s' /\ create_refused options x))) as H.
  { unfold wp in *. destruct (create _ _ _ _) as [[srv|x|] s']; [|done|done]. by apply H, (Hz srv). }
  clear Hz. pose proof (leaves_start o e Hf) as Hl. unfold create, validate_options, create_refused, created.
  destruct (worker_threads options =? 0) eqn:Hw; [by apply wp_bind|].
  destruct (pending_output_limit options <? _) eqn:Hlim; [by apply wp_bind|]. zsimp.
  apply wp_bind, wp_ret. cbn beta iota.
  assert (forall l (x : exn) (s' : build), leaves o l s' /\ setup_exn x -> leaves o l s' /\ create_exn options x) as HE.
  { intros l x s' [? ?]. split; [done|by left]. }
  eapply wp_bind_post; [by apply (create_listen_socket_wp o)| |done]. intros ls s1 [[H1 I1] [Hport Hin]].
  apply guarded_wp. eapply wp_bind_post; [by apply opened_or_throw_wp| |apply HE]. intros epoll s2 [H2 I2].
  apply guarded_wp. eapply wp_bind_post; [by apply opened_or_throw_wp| |apply HE]. intros stop [o3 e3] [H3 I3].
  apply wp_bind, wp_on_fst, wp_modify. cbn beta iota.
  apply guarded_wp. eapply wp_bind_post; [by apply opened_or_throw_wp| |apply HE]. intros timer s4 [H4 I4].
  apply guarded_wp. eapply wp_post_mono; [by apply create_body_wp| |done].
  intros srv s5 (H5 & H6 & H7 & H8) H9. split_and!; [done|done|done|done|done|unfold server_port; by rewrite H7| |done].
  rewrite H8. simpl in *. congruence.
Qed.

(** The allocation of [Impl] comes first. *)
Lemma server_make_wp o options e :
  0 <= port options < 65536 -> 0 <= Os.assigned o < 65536 -> fresh_opens o ->
  wp (make inet_pton ctl options) (o, e) (post (created o options)
    (fun x s' => leaves o [] s' /\ (x = bad_alloc \/ create_refused options x))).
Proof.
  intros Hp Ha Hf. unfold make. apply wp_bind, wp_on_snd, wp_may_alloc; intros fs; cbn beta iota.
  - eapply wp_post_mono; [by apply server_create_wp|done|]. intros x s' [? ?]. auto.
  - split; [by apply leaves_start|by left].
Qed.

End construction.
