(* ===== verification/SampleStates.v ===== *)
(** * Sample states

    Small concrete caches, engines and connections, for the examples that
    accompany the theorems. *)
From S2P Require Import Prelude ErrorModel Effects MemoryModel AllocatorModel.
From S2P Require Import ValueAllocatorModel CacheModel LruSpec CacheEntryFacts CacheRep CacheFacts CacheTickFacts.
From S2P Require Import CacheShardModel CacheEngineModel CacheEngineFacts BufferModel ProtocolModel.
From S2P Require Import ConnectionModel ConnectionFacts.
Import Memory.

(** ** A cache of 100 bytes on the system allocator *)

Definition sample_env : env := MkEnv empty_memory [].

Definition empty_cache : Cache.state (A := AnyAllocator.t) :=
  (Cache.init 100, (make_value_allocator system, sample_env)).

Lemma empty_cache_holds : cache_holds 100 empty_cache [].
Proof.
  apply init_holds; [lia|]. exists ∅. split; [apply make_value_allocator_owns|]. by rewrite map_to_list_empty.
Qed.

(** After [set("a", "xyz", 1500ms)]. *)
Definition sample_cache : Cache.state (A := AnyAllocator.t) :=
  (Cache.set (lit "a") (lit "xyz") 1500 empty_cache).2.

Definition sample_item : Lru.item := Lru.MkItem (lit "a") (lit "xyz") (Some 2).

Lemma sample_cache_holds : cache_holds 100 sample_cache [sample_item].
Proof.
  pose proof (set_wp 100 empty_cache [] (lit "a") (lit "xyz") 1500 empty_cache_holds) as H.
  unfold wp in H. assert ((Cache.set (lit "a") (lit "xyz") 1500 empty_cache).1 = Ret ok) as E by (vm_compute; reflexivity).
  rewrite E in H. destruct H as (items & Hs & Hh & _); [unfold i64_max; lia|].
  assert (Lru.set 100 (lit "a") (lit "xyz") 1500 [] = (ok, [sample_item])) as E' by (vm_compute; reflexivity).
  rewrite E' in Hs. injection Hs as <-. exact Hh.
Qed.

(** ** An engine of two shards; the hash is the length of the key *)

Definition sample_hash (key : bytes) : Z := zlen key.

Definition sample_engine : CacheEngine.t :=
  match (CacheEngine.create 201 2 system (fun _ => []) sample_env).1 with
  | Ret e => e
  | _ => CacheEngine.MkCacheEngine 0 system []
  end.

Lemma sample_engine_holds : engine_holds sample_hash 201 sample_engine [[]; []].
Proof.
  pose proof (create_engine_wp sample_hash 201 2 system (fun _ => []) sample_env ltac:(lia) ltac:(lia)) as H.
  unfold wp in H. unfold sample_engine. destruct (CacheEngine.create _ _ _ _ _) as [[e|x|] s] eqn:E; simpl in *.
  - apply H.
  - exfalso. revert E. vm_compute. done.
  - done.
Qed.

(** ** A fresh connection *)

Definition sample_connection : Connection.t :=
  Connection.MkConnection (Buffer.MkBuffer (CharVector.MkCharVector [] 4096) 0)
    (Buffer.MkBuffer (CharVector.MkCharVector [] 4096) 0) 4096 false false false.

Lemma sample_connection_ok : conn_ok sample_connection.
Proof.
  assert (Buffer.buffer_ok (Buffer.MkBuffer (CharVector.MkCharVector [] 4096) 0)) as Hb.
  { constructor; unfold CharVector.size, CharVector.max_size; simpl; lia. }
  constructor; [done|done|simpl; lia|unfold output_view; simpl; lia].
Qed.

(** [witness_run H m s v]: [H] is a [wp] fact about running [m] from [s], which
    computes to the outcome [v]; introduces the final state. *)
Ltac witness_run H m s v :=
  let o := fresh "o" in let s' := fresh "s'" in let E := fresh "E" in let Ho := fresh "Ho" in
  unfold wp in H; destruct (m s) as [o s'] eqn:E;
  assert (o = v) as Ho by (transitivity ((m s).1); [by rewrite E|vm_compute; reflexivity]);
  subst o; cbn [fst snd post] in H.
