(* ===== verification/EngineTheorems.v ===== *)
(** * What the engine guarantees *)
From S2P Require Import Prelude ErrorModel Effects MemoryModel AllocatorModel ValueAllocatorModel.
From S2P Require Import CacheModel LruSpec CacheEntryFacts CacheRep CacheSteps CacheFacts CacheTickFacts.
From S2P Require Import CacheShardModel CacheEngineModel CacheEngineFacts ProgressFacts SampleStates.
Import Memory.

(** The constructor divides the capacity without loss: the shares of the
    shards add up to the capacity and differ by at most one byte. *)
Theorem engine_capacity_split cap n :
  0 <= cap < 2 ^ 64 -> 0 < n ->
  zsum id (shares cap n 0 (Z.to_nat n)) = cap /\
  (forall i j, 0 <= i < n -> 0 <= j < n ->
    CacheEngine.shard_capacity cap n i <= CacheEngine.shard_capacity cap n j + 1).
Proof.
  intros Hc Hn. split.
  - rewrite zsum_shares by lia. rewrite Z2Nat.id by lia.
    pose proof (Z.div_mod cap n ltac:(lia)). pose proof (Z.mod_pos_bound cap n Hn). lia.
  - intros i j Hi Hj. destruct (shard_capacity_range cap n i Hc Hn ltac:(lia)) as [-> _].
    destruct (shard_capacity_range cap n j Hc Hn ltac:(lia)) as [-> _].
    destruct (i <? cap mod n), (j <? cap mod n); lia.
Qed.

Lemma engine_capacity_split_witness :
  zsum id (shares 201 2 0 2) = 201 /\
  CacheEngine.shard_capacity 201 2 0 <= CacheEngine.shard_capacity 201 2 1 + 1.
Proof.
  destruct (engine_capacity_split 201 2 ltac:(lia) ltac:(lia)) as [H1 H2].
  split; [exact H1|apply H2; lia].
Defined.

(** An engine with no shards is refused with [invalid_argument]; otherwise
    the constructor gives an engine of that many shards that holds nothing, or
    throws [std::bad_alloc]. *)
Theorem engine_create_correct hash cap n backend schedule e :
  0 <= cap < 2 ^ 64 -> 0 <= n ->
  wp (CacheEngine.create cap n backend schedule) e (post
    (fun eng _ => 0 < n /\ engine_holds hash cap eng (replicate (Z.to_nat n) []) /\
       CacheEngine.shard_count eng = n /\ CacheEngine.capacity_bytes eng = cap /\
       CacheEngine.allocator_backend eng = backend)
    (fun x _ => if n =? 0
       then x = highcache_error (MkHighCacheError invalid_argument
                  (lit "cache shard count must be greater than zero"))
       else x = bad_alloc)).
Proof.
  intros Hc Hn. destruct (Z.eqb_spec n 0) as [->|Hne]; [done|].
  eapply wp_post_mono; [apply (create_engine_wp hash); lia|..]; [|done].
  intros eng s (He & Hs & Hb). split_and!; [lia|done|done|apply He|done].
Qed.

Lemma engine_create_correct_witness :
  exists eng s, CacheEngine.create 201 2 system (fun _ => []) sample_env = (Ret eng, s) /\
    CacheEngine.shard_count eng = 2.
Proof.
  pose proof (engine_create_correct sample_hash 201 2 system (fun _ => []) sample_env ltac:(lia) ltac:(lia)) as H.
  unfold wp in H. destruct (CacheEngine.create _ _ _ _ _) as [[eng|x|] s] eqn:E; cbn [fst snd post] in H.
  - exists eng, s. split; [reflexivity|]. apply H.
  - exfalso. revert E. vm_compute. discriminate.
  - destruct H.
Defined.

Section theorems.
Variable hash : bytes -> Z.

(** SET on the engine is the abstract SET on the items of the shard the key
    hashes to, with that shard's capacity; every other shard is untouched. *)
Theorem engine_set_refines cap e ls k v ttl :
  engine_holds hash cap e ls -> ttl <= i64_max ->
  wp (CacheEngine.set hash k v ttl) e (post
    (fun st e' => shard_step hash cap k ls e e' (fun c items items' s s' =>
       Lru.set c k v ttl items = (st, items') /\ counted 0 0 (evictions st k items items') 0 s s'))
    (fun x e' => shard_step hash cap k ls e e' (fun c items items' s s' =>
       cache_exn x /\ items' `prefix_of` items /\ (Lru.lookup k items <> None -> items' = items) /\
       counted 0 0 (zlen items - zlen items') 0 s s'))).
Proof. apply engine_set_wp. Qed.

(** GET on the engine is the abstract GET on the shard of the key. *)
Theorem engine_get_refines cap e ls k output :
  engine_holds hash cap e ls ->
  wp (CacheEngine.get hash k output) e (post
    (fun r e' => shard_step hash cap k ls e e' (fun _ items items' s s' =>
       (exists ov, Lru.get k items = (r.1, ov, items') /\ r.2 = default output ov) /\
       counted (if decide (r.1 = ok) then 1 else 0) (if decide (r.1 = not_found) then 1 else 0) 0 0 s s'))
    (fun x e' => shard_step hash cap k ls e e' (fun _ items items' s s' =>
       x = bad_alloc /\ items' = items /\ s' = s))).
Proof. apply engine_get_wp. Qed.

(** DELETE on the engine is the abstract DELETE on the shard of the key. *)
Theorem engine_erase_refines cap e ls k :
  engine_holds hash cap e ls ->
  wp (CacheEngine.erase hash k) e (post
    (fun st e' => shard_step hash cap k ls e e' (fun _ items items' s s' =>
       Lru.erase k items = (st, items') /\ counted 0 0 0 0 s s'))
    (fun x e' => shard_step hash cap k ls e e' (fun _ items items' s s' =>
       x = bad_alloc /\ items' = items /\ s' = s))).
Proof. apply engine_erase_wp. Qed.

Lemma engine_tick_wp cap e ls :
  engine_holds hash cap e ls ->
  wp CacheEngine.tick e (post
    (fun _ e' => engine_holds hash cap e' (Lru.tick <$> ls))
    (fun x e' => x = bad_alloc /\ exists j, (j <= length ls)%nat /\
      engine_holds hash cap e' ((Lru.tick <$> take j ls) ++ drop j ls))).
Proof.
  intros He. unfold CacheEngine.tick. apply wp_bind, wp_read. cbn beta iota.
  pose proof He as (_ & _ & _ & Hlen & _).
  eapply wp_post_mono; [apply (tick_from_wp hash cap (length (CacheEngine.shards_ e)) 0 e [] ls He); done|..].
  - by intros [] e'.
  - intros x e' (-> & j & Hj & He'). split; [done|]. exists j. split; [lia|done].
Qed.

(** A tick of the engine ages the items of every shard once; if a shard throws,
    the shards before it have aged and it and those after it have not. *)
Theorem engine_tick_refines cap e ls :
  engine_holds hash cap e ls ->
  wp CacheEngine.tick e (post
    (fun _ e' => engine_holds hash cap e' (Lru.tick <$> ls))
    (fun x e' => x = bad_alloc /\ exists j, (j <= length ls)%nat /\
      engine_holds hash cap e' ((Lru.tick <$> take j ls) ++ drop j ls))).
Proof. apply engine_tick_wp. Qed.

(** The totals of the engine are exact: [memory_usage_bytes] is the key and
    value bytes of all items, at most the capacity; [size] and the allocator's
    [used_bytes] are, modulo 2^64, the number of items and of value bytes;
    [empty] holds when no shard has an item. None of them changes the engine. *)
Theorem engine_totals_exact cap e ls :
  engine_holds hash cap e ls ->
  CacheEngine.memory_usage_bytes e = (Ret (zsum Lru.usage ls), e) /\ zsum Lru.usage ls <= cap /\
  CacheEngine.size e = (Ret (u64 (zsum (fun items => zlen items) ls)), e) /\
  CacheEngine.empty e = (Ret (bool_decide (Forall (fun items => items = []) ls)), e) /\
  (exists m, CacheEngine.allocator_metrics e = (Ret m, e) /\
    used_bytes m = u64 (zsum (zsum (fun x => zlen (Lru.i_value x))) ls)).
Proof.
  intros He. pose proof (engine_usage_le hash cap e ls He) as Hu.
  pose proof He as (_ & Hc & _). split_and!.
  - unfold CacheEngine.memory_usage_bytes, CacheShard.memory_usage_bytes.
    rewrite (engine_zsum hash cap e ls _ Lru.usage He); [by rewrite u64_small by lia|].
    intros c s items Hh. by apply cache_holds_usage in Hh as [? _].
  - lia.
  - unfold CacheEngine.size, CacheShard.size.
    rewrite (engine_zsum hash cap e ls _ (fun items => zlen items) He); [done|].
    intros c s items Hh. by eapply cache_holds_size.
  - unfold CacheEngine.empty, bind, read. pose proof He as (_ & _ & _ & Hlen & _). rewrite Hlen.
    by rewrite (empty_from_run hash cap e ls _ 0 He).
  - unfold CacheEngine.allocator_metrics, CacheShard.allocator_metrics.
    rewrite (total_run hash cap e ls _ _ _ He). eexists. split; [done|].
    pose proof (engine_zsum hash cap e ls (fun s => used_bytes (AnyAllocator.metrics s.2.1))
      (zsum (fun x => zlen (Lru.i_value x))) He) as Hz.
    rewrite (total_run hash cap e ls _ _ _ He) in Hz.
    assert (forall l z, used_bytes (foldl CacheEngine.add_metrics z l) =
      foldl CacheEngine.add_size (used_bytes z) (used_bytes <$> l)) as Hfold.
    { induction l as [|x l IH]; intros z; csimpl; [done|]. by rewrite IH. }
    rewrite Hfold, <- list_fmap_compose. assert (forall c s items, cache_holds c s items ->
      used_bytes (AnyAllocator.metrics s.2.1) = zsum (fun x => zlen (Lru.i_value x)) items) as Hused
      by (intros c s items Hh; exact (cache_holds_used c s items Hh)).
    specialize (Hz Hused). by injection Hz.
Qed.

(** ** Reading back *)

(** Reads see writes: a GET that follows a SET answered [ok] finds the value. *)
Theorem engine_read_your_write cap e ls k v ttl :
  engine_holds hash cap e ls -> ttl <= i64_max ->
  wp (st <- CacheEngine.set hash k v ttl ;; r <- CacheEngine.get hash k [] ;; ret (st, r)) e (post
    (fun r _ => r.1 = ok -> r.2 = (ok, v)) (fun _ _ => True)).
Proof.
  intros He Ht. eapply wp_bind_post; [by apply engine_set_wp|..]; [|done].
  intros st e1 (items & items' & sh & sh' & Hi & _ & _ & (Hs & _) & He1 & _).
  eapply wp_bind_post; [by eapply (engine_get_wp hash cap e1)|..]; [|done].
  intros [st' v'] e2 (items1 & items2 & sh1 & sh2 & Hi1 & _ & _ & ((ov & Hg & Hv) & _) & _).
  apply wp_ret. simpl in *. intros ->. rewrite length_insert in Hi1.
  rewrite list_lookup_insert_eq in Hi1 by (by eapply lookup_lt_Some). injection Hi1 as <-.
  destruct (lru_set_get _ _ _ _ _ _ _ _ _ Hs Hg) as [-> ->]. by subst v'.
Qed.

(** ** Progress *)

(** What holds of the cache of every shard. *)
Definition all_shards (P : Cache.state (A := AnyAllocator.t) -> Prop) (e : CacheEngine.t) : Prop :=
  Forall (fun sh => P (CacheShard.contents sh)) (CacheEngine.shards_ e).

Lemma on_shard_calm {B} i (P Q : Cache.state -> Prop) (m : M Cache.state B) :
  calm P m Q -> (forall s, P s -> Q s) ->
  calm (all_shards P) (CacheEngine.on_shard i (CacheShard.with_lock m)) (all_shards Q).
Proof.
  intros Hm HPQ e He. unfold CacheEngine.on_shard. destruct (_ !! i) as [sh|] eqn:Hi; [|done].
  assert (P (CacheShard.contents sh)) as Hs by (by eapply (Forall_lookup_1 _ _ _ _ He)).
  specialize (Hm _ Hs). unfold CacheShard.with_lock. destruct (CacheShard.mutex_ sh); [done|].
  destruct (m _) as [[b|x|] s']; [|done|done]. apply Forall_insert; [|done].
  eapply Forall_impl; [exact He|]. auto.
Qed.

Lemma engine_tick_calm : calm (all_shards cache_quiet) CacheEngine.tick (all_shards cache_quiet).
Proof.
  unfold CacheEngine.tick. apply calm_bind_same; [apply calm_read|]. intros e.
  generalize 0%nat (length (CacheEngine.shards_ e)). intros i n. revert i.
  induction n as [|n IH]; intros i; simpl; [apply calm_ret|].
  apply calm_bind_same; [by apply on_shard_calm; [apply tick_calm|]|]. intros []. apply IH.
Qed.

Lemma cache_ready_quiet (s : Cache.state (A := AnyAllocator.t)) : cache_ready s -> cache_quiet s.
Proof. intros [Hs _]. exact (ready_quiet _ _ Hs). Qed.

Lemma engine_set_calm k v ttl :
  calm (all_shards cache_ready) (CacheEngine.set hash k v ttl) (all_shards cache_quiet).
Proof.
  apply calm_bind with (all_shards cache_ready); [apply calm_read|]. intros e.
  apply on_shard_calm; [apply set_calm|apply cache_ready_quiet].
Qed.

Lemma engine_get_calm k output :
  calm (all_shards cache_quiet) (CacheEngine.get hash k output) (all_shards cache_quiet).
Proof. apply calm_bind_same; [apply calm_read|]. intros e. by apply on_shard_calm; [apply get_calm|]. Qed.

Lemma engine_erase_calm k :
  calm (all_shards cache_quiet) (CacheEngine.erase hash k) (all_shards cache_quiet).
Proof. apply calm_bind_same; [apply calm_read|]. intros e. by apply on_shard_calm; [apply erase_calm|]. Qed.

(** The engine answers: when no allocation failure is scheduled in any shard,
    with room for a slab and generations left in each, SET, GET and DELETE return,
    and a tick reaches every shard. *)
Theorem engine_answers cap e ls k v ttl output :
  engine_holds hash cap e ls -> all_shards cache_ready e -> ttl <= i64_max ->
  (exists st e', CacheEngine.set hash k v ttl e = (Ret st, e')) /\
  (exists r e', CacheEngine.get hash k output e = (Ret r, e')) /\
  (exists st e', CacheEngine.erase hash k e = (Ret st, e')) /\
  (exists e', CacheEngine.tick e = (Ret tt, e') /\ engine_holds hash cap e' (Lru.tick <$> ls)).
Proof.
  intros He Hr Ht.
  assert (all_shards cache_quiet e) as Hq by (eapply Forall_impl; [exact Hr|intros sh; apply cache_ready_quiet]).
  split_and!.
  - destruct (calm_returns _ _ _ e _ _ (engine_set_calm k v ttl) Hr (engine_set_wp hash cap e ls k v ttl He Ht))
      as (st & e' & H & _). by eauto.
  - destruct (calm_returns _ _ _ e _ _ (engine_get_calm k output) Hq (engine_get_wp hash cap e ls k output He))
      as (r & e' & H & _). by eauto.
  - destruct (calm_returns _ _ _ e _ _ (engine_erase_calm k) Hq (engine_erase_wp hash cap e ls k He))
      as (st & e' & H & _). by eauto.
  - destruct (calm_returns _ _ _ e _ _ engine_tick_calm Hq (engine_tick_wp cap e ls He))
      as ([] & e' & H & H' & _). by eauto.
Qed.

(** C35: destroying the engine returns all memory: whatever the shards hold and whichever
    backend they use, destruction releases every value and then every slab, each once,
    and nothing is left on the heap of any shard. *)
Theorem engine_destroy_frees_all cap e ls :
  engine_holds hash cap e ls ->
  wp CacheEngine.destroy e (post (fun _ e' => Forall shard_freed (CacheEngine.shards_ e')) (fun _ _ => False)).
Proof. apply engine_destroy_wp. Qed.

End theorems.

(** ** Examples *)

(** An engine on slabs, with a value in it. *)
Definition slab_engine : CacheEngine.t :=
  match (CacheEngine.create 201 2 slab (fun _ => []) sample_env).1 with
  | Ret e => (CacheEngine.set sample_hash (lit "a") (lit "x") 0 e).2
  | _ => CacheEngine.MkCacheEngine 0 slab []
  end.

Lemma slab_engine_holds : exists ls, engine_holds sample_hash 201 slab_engine ls.
Proof.
  pose proof (create_engine_wp sample_hash 201 2 slab (fun _ => []) sample_env ltac:(lia) ltac:(lia)) as H.
  apply wp_run in H. unfold slab_engine.
  destruct H as [(e & s & -> & He & _)|(x & s & H & _)]; [|by vm_compute in H]. cbn [fst].
  pose proof (engine_set_wp sample_hash 201 e _ (lit "a") (lit "x") 0 He ltac:(unfold i64_max; lia)) as H.
  apply wp_run in H.
  destruct H as [(st & e' & -> & items & items' & sh & sh' & _ & _ & _ & _ & He' & _)|
    (x & e' & -> & items & items' & sh & sh' & _ & _ & _ & _ & He' & _)]; eexists; exact He'.
Qed.

Lemma engine_destroy_frees_all_witness :
  exists e', CacheEngine.destroy slab_engine = (Ret tt, e') /\ Forall shard_freed (CacheEngine.shards_ e').
Proof.
  destruct slab_engine_holds as [ls Hls].
  destruct (wp_run _ _ _ _ (engine_destroy_frees_all sample_hash 201 slab_engine ls Hls))
    as [([] & e' & H1 & H2)|(x & e' & _ & [])].
  exists e'. split; [exact H1|exact H2].
Defined.

Lemma engine_set_refines_witness :
  exists e', CacheEngine.set sample_hash (lit "a") (lit "x") 0 sample_engine = (Ret ok, e') /\
    engine_holds sample_hash 201 e' [[]; [Lru.MkItem (lit "a") (lit "x") None]].
Proof.
  pose proof (engine_set_refines sample_hash 201 sample_engine [[]; []] (lit "a") (lit "x") 0
    sample_engine_holds ltac:(unfold i64_max; lia)) as H.
  witness_run H (CacheEngine.set sample_hash (lit "a") (lit "x") 0) sample_engine (Ret ok).
  destruct H as (items & items' & sh & sh' & Hi & _ & _ & (Hs & _) & He & _).
  vm_compute in Hi. injection Hi as <-. vm_compute in Hs. injection Hs as <-.
  exists s'. split; [reflexivity|exact He].
Defined.

Lemma engine_get_refines_witness :
  exists e', CacheEngine.get sample_hash (lit "a") [] sample_engine = (Ret (not_found, []), e') /\
    engine_holds sample_hash 201 e' [[]; []].
Proof.
  pose proof (engine_get_refines sample_hash 201 sample_engine [[]; []] (lit "a") [] sample_engine_holds) as H.
  witness_run H (CacheEngine.get sample_hash (lit "a") []) sample_engine (Ret (not_found, @nil byte)).
  destruct H as (items & items' & sh & sh' & Hi & _ & _ & ((ov & Hs & _) & _) & He & _).
  vm_compute in Hi. injection Hi as <-. vm_compute in Hs. injection Hs as <- <-.
  exists s'. split; [reflexivity|exact He].
Defined.

Lemma engine_erase_refines_witness :
  exists e', CacheEngine.erase sample_hash (lit "a") sample_engine = (Ret not_found, e') /\
    engine_holds sample_hash 201 e' [[]; []].
Proof.
  pose proof (engine_erase_refines sample_hash 201 sample_engine [[]; []] (lit "a") sample_engine_holds) as H.
  witness_run H (CacheEngine.erase sample_hash (lit "a")) sample_engine (Ret not_found).
  destruct H as (items & items' & sh & sh' & Hi & _ & _ & (Hs & _) & He & _).
  vm_compute in Hi. injection Hi as <-. vm_compute in Hs. injection Hs as <-.
  exists s'. split; [reflexivity|exact He].
Defined.

Lemma engine_tick_refines_witness :
  exists e', CacheEngine.tick sample_engine = (Ret tt, e') /\ engine_holds sample_hash 201 e' [[]; []].
Proof.
  pose proof (engine_tick_refines sample_hash 201 sample_engine [[]; []] sample_engine_holds) as H.
  witness_run H CacheEngine.tick sample_engine (Ret tt). exists s'. split; [reflexivity|exact H].
Defined.

Lemma engine_totals_exact_witness :
  CacheEngine.memory_usage_bytes sample_engine = (Ret 0, sample_engine).
Proof. exact (proj1 (engine_totals_exact sample_hash 201 sample_engine [[]; []] sample_engine_holds)). Defined.

Lemma engine_read_your_write_witness :
  exists e', (st <- CacheEngine.set sample_hash (lit "a") (lit "x") 0 ;;
    r <- CacheEngine.get sample_hash (lit "a") [] ;; ret (st, r)) sample_engine = (Ret (ok, (ok, lit "x")), e').
Proof.
  pose proof (engine_read_your_write sample_hash 201 sample_engine [[]; []] (lit "a") (lit "x") 0
    sample_engine_holds ltac:(unfold i64_max; lia)) as H.
  witness_run H (st <- CacheEngine.set sample_hash (lit "a") (lit "x") 0 ;;
    r <- CacheEngine.get sample_hash (lit "a") [] ;; ret (st, r)) sample_engine (Ret (ok, (ok, lit "x"))).
  exists s'. reflexivity.
Defined.

Lemma engine_answers_witness :
  exists st e', CacheEngine.set sample_hash (lit "a") (lit "x") 0 sample_engine = (Ret st, e').
Proof.
  assert (all_shards cache_ready sample_engine) as Hr.
  { apply Forall_lookup. intros [|[|i]] sh Hi; vm_compute in Hi; [injection Hi as <-..|discriminate];
      vm_compute; repeat split; discriminate. }
  exact (proj1 (engine_answers sample_hash 201 sample_engine [[]; []] (lit "a") (lit "x") 0 []
    sample_engine_holds Hr ltac:(unfold i64_max; lia))).
Defined.
