(* ===== verification/ServerRunFacts.v ===== *)
(** * The running server

    The invariant of a server and its workers: each worker is consistent over the
    engine, one in its loop has been told of what waits for it, and no descriptor has two
    owners. Rounds of the workers keep it; joining the threads ends them. *)
From S2P Require Import Prelude ErrorModel Effects MemoryModel ProgressFacts BufferModel ProtocolModel.
From S2P Require Import LruSpec CacheEngineModel CacheEngineFacts EngineTheorems ConnectionModel ConnectionFacts.
From S2P Require Import WorkerModel WorkerFacts WorkerInstallFacts WorkerRunFacts ServerModel ServerFacts.
Import Memory.
Import CacheServer.

(** The sockets of a worker. *)
Definition has_socket (fd : Z) (w : slot) : Prop := is_Some (Kernel.sockets (kernel_ w) !! fd).

(** A descriptor that nobody uses. *)
Definition free_fd (fd : Z) (srv : t) : Prop :=
  0 <= fd /\ (fd ∉ server_fds srv) /\ forall i w, workers_ srv !! i = Some w -> ~ has_socket fd w.

Section server.
Variable hash : bytes -> Z.

(** A worker in its place: one that is in its loop, or was not started yet, has
    been told of what waits for it. *)
Definition slot_ok (cap : Z) (started : bool) (e : CacheEngine.t) (w : slot) : Prop :=
  worker_sound hash cap (worker_ w) e (kernel_ w) /\
  (thread_ w = a_thread \/ started = false -> announced (worker_ w) (kernel_ w)).

Record server_ok (cap : Z) (srv : t) (e : CacheEngine.t) (o : Os.t) : Prop := {
  sv_engine : exists ls, engine_holds hash cap e ls;
  sv_workers : forall i w, workers_ srv !! i = Some w -> slot_ok cap (ever_started_ srv) e w;
  sv_some : workers_ srv <> [];
  sv_fds : NoDup (server_fds srv);
  sv_opened : forall fd, fd ∈ server_fds srv -> fd ∈ Os.opened o;
  sv_disjoint : forall i j wi wj fd, workers_ srv !! i = Some wi -> workers_ srv !! j = Some wj ->
    has_socket fd wi -> has_socket fd wj -> i = j;
  sv_separate : forall i w fd, workers_ srv !! i = Some w -> has_socket fd w -> fd ∉ server_fds srv;
  sv_next : 0 <= next_worker_ srv < 2 ^ 64;
  sv_threads : acceptor_thread_ srv = a_thread -> ever_started_ srv = true
}.

Lemma slot_ok_engine cap b w e e' ls : slot_ok cap b e w -> engine_holds hash cap e' ls -> slot_ok cap b e' w.
Proof.
  intros [[[O1 O2 O3 O4 O5 O6 O7 O8] Hc] Ha] He. split; [|exact Ha]. split; [|exact Hc]. constructor; try done. by eexists.
Qed.

Lemma server_ok_engine cap srv e o e' ls :
  server_ok cap srv e o -> engine_holds hash cap e' ls -> server_ok cap srv e' o.
Proof.
  intros [S1 S2 S3 S4 S5 S6 S7 S8 S9] He. constructor; try done; [by eexists|].
  intros i w Hi. eapply slot_ok_engine; [by eapply S2|exact He].
Qed.

Lemma workers_fds_insert ws i w w' :
  ws !! i = Some w -> slot_fds w' = slot_fds w -> workers_fds (<[i := w']> ws) = workers_fds ws.
Proof.
  intros Hi Hs. unfold workers_fds. rewrite list_fmap_insert, Hs. f_equal. apply list_insert_id.
  by rewrite list_lookup_fmap, Hi.
Qed.

Definition set_slot (i : nat) (w : slot) (srv : t) : t := set_workers (<[i := w]> (workers_ srv)) srv.

Lemma set_slot_fds srv i w w' :
  workers_ srv !! i = Some w -> slot_fds w' = slot_fds w -> server_fds (set_slot i w' srv) = server_fds srv.
Proof. intros Hi Hs. unfold server_fds. simpl. by rewrite (workers_fds_insert _ _ w). Qed.

(** A worker changes, and with it the engine; it may get sockets nobody had. *)
Lemma server_ok_slot cap srv e o i w w' e' :
  server_ok cap srv e o -> workers_ srv !! i = Some w -> slot_ok cap (ever_started_ srv) e' w' ->
  slot_fds w' = slot_fds w ->
  (forall fd, has_socket fd w' -> has_socket fd w \/ free_fd fd srv) ->
  server_ok cap (set_slot i w' srv) e' o.
Proof.
  intros Hok Hi Hw' Hs Hgrow. pose proof Hok as [S1 S2 S3 S4 S5 S6 S7 S8 S9].
  destruct (wk_engine _ _ _ _ _ _ (proj1 (proj1 Hw'))) as [ls He]. pose proof (lookup_lt_Some _ _ _ Hi) as Hlt.
  assert (forall j wj, <[i := w']> (workers_ srv) !! j = Some wj ->
    j = i /\ wj = w' \/ j <> i /\ workers_ srv !! j = Some wj) as Hlook.
  { intros j wj Hj. destruct (decide (j = i)) as [->|Hne].
    - rewrite list_lookup_insert_eq in Hj by done. left. by injection Hj.
    - rewrite list_lookup_insert_ne in Hj by done. by right. }
  constructor; rewrite ?(set_slot_fds _ _ w) by done; simpl; [by eexists|..|done|done].
  - intros j wj Hj. destruct (Hlook j wj Hj) as [[-> ->]|[_ Hj']]; [done|]. eapply slot_ok_engine; [by eapply S2|exact He].
  - intros Hnil. apply (f_equal length) in Hnil. rewrite length_insert in Hnil. simpl in Hnil. lia.
  - done.
  - done.
  - intros j1 j2 w1 w2 fd H1 H2 F1 F2.
    destruct (Hlook _ _ H1) as [[-> ->]|[N1 G1]], (Hlook _ _ H2) as [[-> ->]|[N2 G2]]; [done|..].
    + destruct (Hgrow fd F1) as [F|(_ & _ & F)]; [by eapply S6|by destruct (F _ _ G2)].
    + destruct (Hgrow fd F2) as [F|(_ & _ & F)]; [by eapply S6|by destruct (F _ _ G1)].
    + by eapply S6.
  - intros j wj fd Hj F. destruct (Hlook j wj Hj) as [[-> ->]|[_ Hj']]; [|by eapply S7].
    destruct (Hgrow fd F) as [G|(_ & G & _)]; [by eapply S7|done].
Qed.

(** A call on a worker, as a step of the server. *)
Lemma wp_worker_call {A} i w (f : M Worker.state A) srv e o m Q :
  workers_ srv !! i = Some w ->
  wp f (worker_ w, (e, (kernel_ w, m))) (fun r s' =>
    Q r (set_slot i (MkSlot (epoll_ w) s'.1 s'.2.2.1 (thread_ w)) srv, (s'.2.1, (o, s'.2.2.2)))) ->
  wp (on_worker i f) (srv, (e, (o, m))) Q.
Proof. intros Hi Hf. unfold wp, on_worker in *. rewrite Hi. by destruct (f _) as [r [w' [e' [k' m']]]]. Qed.

(** A call on a worker that keeps its invariant and opens nothing. *)
Definition worker_left (cap : Z) (s s' : Worker.state) : Prop :=
  worker_sound hash cap s'.1 s'.2.1 s'.2.2.1 /\ Worker.wakeup_ s'.1 = Worker.wakeup_ s.1 /\ no_new_socket s s'.

Lemma worker_left_trans cap s1 s2 s3 : worker_left cap s1 s2 -> worker_left cap s2 s3 -> worker_left cap s1 s3.
Proof. intros (_ & A1 & A2) (B0 & B1 & B2). split_and!; [done|congruence|]. intros fd ?. auto. Qed.

(** The slot of the worker at [w] after a call that left [s']. *)
Definition slot_after (w : slot) (th : thread) (s' : Worker.state) : slot := MkSlot (epoll_ w) s'.1 s'.2.2.1 th.

Lemma worker_left_slot cap w e m th s' :
  worker_left cap (worker_ w, (e, (kernel_ w, m))) s' ->
  slot_fds (slot_after w th s') = slot_fds w /\ forall fd, has_socket fd (slot_after w th s') -> has_socket fd w.
Proof. intros (_ & H1 & H2). split; [unfold slot_fds; simpl in *; by rewrite H1|]. intros fd F. by apply H2. Qed.

Lemma server_ok_left cap srv e o i w m th s' :
  server_ok cap srv e o -> workers_ srv !! i = Some w -> worker_left cap (worker_ w, (e, (kernel_ w, m))) s' ->
  (th = a_thread \/ ever_started_ srv = false -> announced s'.1 s'.2.2.1) ->
  server_ok cap (set_slot i (slot_after w th s') srv) s'.2.1 o.
Proof.
  intros Hok Hi Hl Ha. destruct (worker_left_slot _ _ _ _ th _ Hl) as [H1 H2].
  eapply server_ok_slot; [done|done|split; [apply Hl|exact Ha]|done|]. intros fd F. left. by apply H2.
Qed.

(** ** Loops over the workers *)

Lemma wp_bind_assoc {S A B C} (m : M S A) (k : A -> M S B) (k' : B -> M S C) s Q :
  wp (bind (bind m k) k') s Q -> wp (bind m (fun a => bind (k a) k')) s Q.
Proof. unfold wp, bind. by destruct (m s) as [[]]. Qed.

Lemma for_workers_wp (f : nat -> M state unit) (I : nat -> state -> Prop) n i s :
  I i s -> (forall j s, (i <= j < i + n)%nat -> I j s -> wp (f j) s (post (fun _ => I (S j)) (fun _ _ => False))) ->
  wp (for_workers f i n) s (post (fun _ => I (i + n)%nat) (fun _ _ => False)).
Proof.
  revert i s. induction n as [|n IH]; intros i s Hi Hf; cbn [for_workers].
  { apply wp_ret. cbn [post]. by rewrite Nat.add_0_r. }
  eapply wp_bind_post; [apply Hf; [lia|exact Hi]| |done]. intros [] s1 H1.
  replace (i + S n)%nat with (S i + n)%nat by lia. apply IH; [done|]. intros j s2 Hj. apply Hf. lia.
Qed.

(** No worker has connections. *)
Definition idle (srv : t) : Prop := forall j w, workers_ srv !! j = Some w -> Worker.connections_ (worker_ w) = ∅.

(** Only the workers, the engine and the memory change: [P] relates each worker to
    what it was, below [k]; from [k] on they are as they were. The engine does not
    change if no worker has connections. *)
Definition swept (cap : Z) (P : slot -> slot -> Prop) (srv : t) (e : CacheEngine.t) (o : Os.t) (k : nat) (s : state) : Prop :=
  exists srv' e' m', s = (srv', (e', (o, m'))) /\ server_ok cap srv' e' o /\ srv' = set_workers (workers_ srv') srv /\
    (length (workers_ srv') = length (workers_ srv) /\ (idle srv -> e' = e)) /\
    forall j w, workers_ srv !! j = Some w -> exists w', workers_ srv' !! j = Some w' /\
      if (j <? k)%nat then P w w' else w' = w.

(** A sweep advances when the call does what [P] says to the worker at [k]. *)
Lemma swept_step cap P srv e0 o k srv' e m w w' e' m' :
  swept cap P srv e0 o k (srv', (e, (o, m))) -> workers_ srv !! k = Some w -> P w w' ->
  server_ok cap (set_slot k w' srv') e' o -> (Worker.connections_ (worker_ w) = ∅ -> e' = e) ->
  swept cap P srv e0 o (S k) (set_slot k w' srv', (e', (o, m'))).
Proof.
  intros (srv1 & e1 & m1 & [= <- <- <-] & _ & Hsame & [Hlen Heng] & Hall) Hk HP Hok He. eexists _, _, _. split_and!; [done|done|..].
  - unfold set_slot. by rewrite Hsame.
  - simpl. by rewrite length_insert.
  - intros Hi. rewrite He by (by eapply Hi). by apply Heng.
  - intros j wj Hj. simpl. destruct (decide (j = k)) as [->|Hne].
    + exists w'. rewrite list_lookup_insert_eq by (rewrite Hlen; by eapply lookup_lt_Some). split; [done|].
      rewrite (proj2 (Nat.ltb_lt k (S k))) by lia. by simplify_eq.
    + rewrite list_lookup_insert_ne by done. destruct (Hall j wj Hj) as (w1 & H1 & H2). exists w1. split; [done|].
      destruct (j <? k)%nat eqn:E1, (j <? S k)%nat eqn:E2; rewrite ?Nat.ltb_lt, ?Nat.ltb_ge in *; (done || lia).
Qed.

Lemma swept_start cap P srv e o m : server_ok cap srv e o -> swept cap P srv e o 0 (srv, (e, (o, m))).
Proof.
  intros Hok. exists srv, e, m. split_and!; [done|done|by destruct srv|done|done|]. intros j w Hj. by exists w.
Qed.

(** The worker at [k] has not been visited yet. *)
Lemma swept_at cap P srv e0 o k s w :
  swept cap P srv e0 o k s -> workers_ srv !! k = Some w ->
  exists srv' e m, s = (srv', (e, (o, m))) /\ server_ok cap srv' e o /\ workers_ srv' !! k = Some w /\
    ever_started_ srv' = ever_started_ srv.
Proof.
  intros (srv' & e & m & -> & Hok & Hsame & _ & Hall) Hk. exists srv', e, m. split_and!; [done|done| |by rewrite Hsame].
  destruct (Hall k w Hk) as (w' & H1 & H2). by rewrite Nat.ltb_irrefl in H2; subst.
Qed.

(** [request_stop] on a worker. *)
Definition asked (w w' : slot) : Prop :=
  thread_ w' = thread_ w /\ slot_fds w' = slot_fds w /\ worker_ w' = Worker.set_stop (worker_ w) /\
  Kernel.sockets (kernel_ w') = Kernel.sockets (kernel_ w) /\ 0 < Kernel.counter (kernel_ w').

Lemma stop_worker_wp cap srv e0 o k s :
  (k < length (workers_ srv))%nat -> swept cap asked srv e0 o k s ->
  wp (stop_worker k) s (post (fun _ => swept cap asked srv e0 o (S k)) (fun _ _ => False)).
Proof.
  intros Hk Hs. destruct (lookup_lt_is_Some_2 _ _ Hk) as [w Hw].
  destruct (swept_at _ _ _ _ _ _ _ _ Hs Hw) as (srv' & e & m & -> & Hok & Hw' & _).
  pose proof (sv_workers _ _ _ _ Hok _ _ Hw') as [Hwok _].
  unfold stop_worker. apply (wp_worker_call k w); [done|].
  eapply wp_mono; [by apply (request_stop_wp hash cap)|]. intros [[]|x|] s'; [|done|done].
  intros ([R1 R1'] & R2 & R3 & R4 & R5 & R6 & _).
  assert (worker_left cap (worker_ w, (e, (kernel_ w, m))) s') as Hl.
  { split_and!; [split; [exact R1|lia]|by rewrite R2|intros fd; by rewrite R5]. }
  pose proof (server_ok_left _ _ _ _ _ _ _ (thread_ w) _ Hok Hw' Hl (fun _ => R1')) as Hok'.
  eapply swept_step; [exact Hs|done| |exact Hok'|by intros _]. destruct (worker_left_slot _ _ _ _ (thread_ w) _ Hl) as [Hf _].
  by split_and!.
Qed.

Lemma set_thread_slot i th srv w :
  workers_ srv !! i = Some w -> set_thread i th srv = set_slot i (MkSlot (epoll_ w) (worker_ w) (kernel_ w) th) srv.
Proof. intros Hi. unfold set_thread. by rewrite Hi. Qed.

Lemma set_slot_twice i w1 w2 srv :
  set_slot i w2 (set_slot i w1 srv) = set_slot i w2 srv.
Proof. unfold set_slot, set_workers. simpl. by rewrite list_insert_insert_eq. Qed.

Lemma set_slot_same i w srv : workers_ srv !! i = Some w -> set_slot i w srv = srv.
Proof. intros Hi. unfold set_slot. rewrite list_insert_id by done. by destruct srv. Qed.

Lemma set_slot_lookup i w w0 srv : workers_ srv !! i = Some w0 -> workers_ (set_slot i w srv) !! i = Some w.
Proof. intros Hi. simpl. apply list_lookup_insert_eq. by eapply lookup_lt_Some. Qed.

(** ** A round of a worker *)

(** A worker that owns nothing any more. *)
Definition emptied (w : slot) : Prop :=
  Kernel.sockets (kernel_ w) = ∅ /\ Worker.connections_ (worker_ w) = ∅ /\ Worker.pending_ (worker_ w) = [].

Lemma run_end_left cap w e k m :
  worker_sound hash cap w e k ->
  wp Worker.run_end (w, (e, (k, m))) (post
    (fun _ s' => worker_left cap (w, (e, (k, m))) s' /\ Kernel.sockets s'.2.2.1 = ∅ /\ s'.1 = init_stopped w /\
       s'.2.1 = e /\ s'.2.2.2 = m)
    (fun _ _ => False)).
Proof.
  intros [Ho Ha]. eapply wp_post_mono; [by apply (run_end_wp hash cap)| |done].
  intros [] s' (R1 & R2 & R3 & R4 & R5 & R6 & R7 & R8). split; [|done].
  split; [split; [done|by rewrite R6]|]. split; [by rewrite R7|]. intros fd. rewrite R3, lookup_empty. by intros [? ?].
Qed.

(** The worker at [i] became [w'], and with it the engine and the memory. *)
Definition slot_step (cap : Z) (i : nat) (P : slot -> CacheEngine.t -> Prop) (srv : t) (o : Os.t) (s' : state) : Prop :=
  exists w' e' m', s' = (set_slot i w' srv, (e', (o, m'))) /\ server_ok cap (set_slot i w' srv) e' o /\ P w' e'.

(** What leaving [run] makes of the worker [w]; [w1] is the worker at that point. *)
Definition left_run (w w' : slot) : Prop :=
  thread_ w' = ended_thread /\ slot_fds w' = slot_fds w /\
  Worker.stop_requested_ (worker_ w') = Worker.stop_requested_ (worker_ w) /\ emptied w'.

(** The rest of a round, after a call that left [s1] of the worker [w]. *)
Lemma leave_run_wp cap i w srv e o m s1 :
  server_ok cap srv e o -> workers_ srv !! i = Some w -> ever_started_ srv = true ->
  worker_left cap (worker_ w, (e, (kernel_ w, m))) s1 ->
  Worker.stop_requested_ s1.1 = Worker.stop_requested_ (worker_ w) ->
  wp (leave_run i) (set_slot i (slot_after w (thread_ w) s1) srv, (s1.2.1, (o, s1.2.2.2)))
    (post (fun _ => slot_step cap i (fun w' e' => left_run w w' /\ e' = s1.2.1) srv o) (fun _ _ => False)).
Proof.
  intros Hok Hi Hev Hl Hst. unfold leave_run. destruct s1 as [w1 [e1 [k1 m1]]]. cbn [fst snd] in *.
  pose proof (set_slot_lookup i (slot_after w (thread_ w) (w1, (e1, (k1, m1)))) w srv Hi) as Hi1.
  apply wp_bind, (wp_worker_call i _ _ _ _ _ _ _ Hi1). cbn [worker_ kernel_ epoll_ thread_ slot_after fst snd].
  eapply wp_mono; [apply run_end_left, Hl|]. intros [[]|x|] s2; [|done|done]. intros (L2 & S2 & W2 & E2 & M2).
  pose proof (worker_left_trans _ _ _ _ Hl L2) as L. rewrite set_slot_twice.
  apply wp_on_fst, wp_modify. cbn [post].
  rewrite (set_thread_slot i ended_thread _ _ (set_slot_lookup i _ w srv Hi)), set_slot_twice. cbn [epoll_ worker_ kernel_].
  pose proof (server_ok_left _ _ _ _ _ _ _ ended_thread _ Hok Hi L ltac:(intros [?|?]; congruence)) as Hok'.
  destruct (worker_left_slot _ _ _ _ ended_thread _ L) as [Hf _].
  eexists _, _, _. split; [done|]. split; [exact Hok'|]. split; [|exact E2]. split_and!; [done|exact Hf|..].
  - cbn. by rewrite W2, <- Hst.
  - split_and!; [exact S2|cbn; by rewrite W2..].
Qed.

(** What a round makes of a worker: it stays in its loop, or it leaves it. *)
Definition round_done (r : waited (Z * Z)) (w w' : slot) : Prop :=
  slot_fds w' = slot_fds w /\ Worker.stop_requested_ (worker_ w') = Worker.stop_requested_ (worker_ w) /\
  (forall fd, has_socket fd w' -> has_socket fd w) /\
  if Worker.stop_requested_ (worker_ w) || match r with wait_failed => true | _ => false end
  then thread_ w' = ended_thread /\ emptied w'
  else thread_ w' = a_thread.

Lemma left_run_round r w w' :
  left_run w w' -> Worker.stop_requested_ (worker_ w) || match r with wait_failed => true | _ => false end = true ->
  round_done r w w'.
Proof.
  intros (H1 & H2 & H3 & H4) Hb. split_and!; [done|done| |by rewrite Hb].
  intros fd [v Hv]. destruct H4 as (E & _). rewrite E in Hv. by apply lookup_empty_Some in Hv.
Qed.

(** The check at the head of the loop. *)
Lemma check_stop_wp cap i w srv e o m s1 r :
  server_ok cap srv e o -> workers_ srv !! i = Some w -> thread_ w = a_thread -> ever_started_ srv = true ->
  worker_left cap (worker_ w, (e, (kernel_ w, m))) s1 ->
  Worker.stop_requested_ s1.1 = Worker.stop_requested_ (worker_ w) ->
  (Worker.stop_requested_ (worker_ w) = false -> announced s1.1 s1.2.2.1) ->
  match r with wait_failed => False | _ => True end ->
  wp (check_stop i) (set_slot i (slot_after w (thread_ w) s1) srv, (s1.2.1, (o, s1.2.2.2)))
    (post (fun _ => slot_step cap i (fun w' e' => round_done r w w' /\ e' = s1.2.1) srv o) (fun _ _ => False)).
Proof.
  intros Hok Hi Hth Hev Hl Hst Han Hr. unfold check_stop. apply wp_bind, wp_on_fst, wp_read. cbn beta iota.
  rewrite (set_slot_lookup i _ w srv Hi). cbn [slot_after worker_]. rewrite Hst.
  destruct (Worker.stop_requested_ (worker_ w)) eqn:E.
  - eapply wp_post_mono; [exact (leave_run_wp cap i w srv e o m s1 Hok Hi Hev Hl ltac:(congruence))| |done].
    intros [] s' (w' & e' & m' & -> & H1 & H2 & ->). eexists _, _, _. split; [done|]. split; [done|]. split; [|done].
    apply left_run_round; [done|by rewrite E].
  - apply wp_ret. destruct (worker_left_slot _ _ _ _ (thread_ w) _ Hl) as [Hf Hg]. eexists _, _, _. split; [done|].
    split; [exact (server_ok_left cap srv e o i w m (thread_ w) s1 Hok Hi Hl (fun _ => Han eq_refl))|].
    split; [|done]. split_and!; [exact Hf|cbn; congruence|exact Hg|]. rewrite E. by destruct r.
Qed.

Lemma worker_left_refl cap w e k m : worker_sound hash cap w e k -> worker_left cap (w, (e, (k, m))) (w, (e, (k, m))).
Proof. intros H. split; [exact H|]. split; [done|]. by intros fd ?. Qed.

Lemma slot_after_same w e m : slot_after w (thread_ w) (worker_ w, (e, (kernel_ w, m))) = w.
Proof. by destruct w. Qed.

Lemma worker_round_wp cap i w r srv e o m :
  server_ok cap srv e o -> workers_ srv !! i = Some w -> thread_ w = a_thread -> ever_started_ srv = true ->
  wp (worker_round hash i r) (srv, (e, (o, m))) (post (fun _ => slot_step cap i (fun w' e' => round_done r w w' /\
    (Worker.connections_ (worker_ w) = ∅ -> Worker.stop_requested_ (worker_ w) = true -> e' = e)) srv o) (fun _ _ => False)).
Proof.
  intros Hok Hi Hth Hev. destruct (sv_workers _ _ _ _ Hok i w Hi) as [Hw Han]. specialize (Han (or_introl Hth)).
  pose proof (worker_left_refl cap _ _ _ m Hw) as Hrefl.
  assert ((srv, (e, (o, m))) = (set_slot i (slot_after w (thread_ w) (worker_ w, (e, (kernel_ w, m)))) srv, (e, (o, m)))) as Hs.
  { by rewrite slot_after_same, set_slot_same. }
  destruct r as [events| |]; cbn [worker_round].
  - apply wp_bind, (wp_worker_call i w); [done|]. pose proof (run_once_wp hash cap events _ _ _ m Hw) as Hrun.
    pose proof (run_once_idle hash events (worker_ w) e (kernel_ w) m) as Hidle. unfold wp in Hrun. unfold wp at 1.
    destruct (Worker.run_once _ _ _) as [[[]|x|] s1]; [|done|done]. cbn [fst snd post] in *.
    destruct Hrun as (R1 & R2 & _ & R3 & R4 & R5 & _).
    eapply wp_post_mono; [apply (check_stop_wp cap i w srv e o m s1 (wait_ready events)); [done..|by split_and!|done|by auto|done]| |done].
    intros [] s' (w' & e' & m' & -> & H1 & H2 & ->). eexists _, _, _. split; [done|]. split; [done|]. split; [done|].
    intros Hc Hst. by destruct (Hidle Hc Hst) as (k' & [= ->]).
  - rewrite Hs. eapply wp_post_mono; [by apply (check_stop_wp cap i w srv e o m (worker_ w, (e, (kernel_ w, m))) wait_interrupted)| |done].
    intros [] s' (w' & e' & m' & -> & H1 & H2 & ->). eexists _, _, _. split; [done|]. by split_and!.
  - rewrite Hs. eapply wp_post_mono; [by apply (leave_run_wp cap i w srv e o m (worker_ w, (e, (kernel_ w, m))))| |done].
    intros [] s' (w' & e' & m' & -> & H1 & H2 & ->). eexists _, _, _. split; [done|]. split; [done|]. split; [|done].
    apply left_run_round; [done|]. apply orb_true_r.
Qed.

(** ** Joining *)

Variable last : last_waits.

(** [join] on a worker. *)
Definition joined (w w' : slot) : Prop :=
  thread_ w' = no_thread /\ slot_fds w' = slot_fds w /\
  Worker.stop_requested_ (worker_ w') = Worker.stop_requested_ (worker_ w) /\
  (thread_ w = a_thread -> emptied w') /\
  (thread_ w <> a_thread -> worker_ w' = worker_ w /\ kernel_ w' = kernel_ w).

(** A thread that is joined. *)
Lemma server_ok_joined cap srv e o i w :
  server_ok cap srv e o -> workers_ srv !! i = Some w ->
  server_ok cap (set_slot i (MkSlot (epoll_ w) (worker_ w) (kernel_ w) no_thread) srv) e o.
Proof.
  intros Hok Hi. destruct (sv_workers _ _ _ _ Hok i w Hi) as [Hw Ha].
  eapply server_ok_slot; [done|done|split; [done|]|done|by left]. intros [?|?]; [done|]. apply Ha. by right.
Qed.

Lemma join_worker_wp cap srv e0 o k s w :
  workers_ srv !! k = Some w -> ever_started_ srv = true \/ thread_ w <> a_thread ->
  Worker.stop_requested_ (worker_ w) = true -> 0 < Kernel.counter (kernel_ w) -> swept cap joined srv e0 o k s ->
  wp (join_worker hash last k) s (post (fun _ => swept cap joined srv e0 o (S k)) (fun _ _ => False)).
Proof.
  intros Hw Hev Hstop Hcnt Hs. destruct (swept_at _ _ _ _ _ _ _ _ Hs Hw) as (srv' & e & m & -> & Hok & Hw' & Hev').
  unfold join_worker. apply wp_bind, wp_on_fst, wp_read. cbn beta iota. rewrite Hw'. destruct (thread_ w) eqn:Hth.
  - apply wp_ret. cbn [post]. rewrite <- (set_slot_same k w srv' Hw').
    eapply swept_step; [exact Hs|done| |by rewrite set_slot_same|done]. by split_and!; [..|congruence|].
  - rewrite Hstop, (proj2 (Z.ltb_lt 0 _) Hcnt). cbn [andb].
    eapply wp_bind_post; [apply (worker_round_wp cap k w); [done|done|done|destruct Hev; [congruence|done]]| |done].
    intros [] s1 (w1 & e1 & m1 & -> & Hok1 & (F1 & F2 & _ & F3) & F5). rewrite Hstop in F3. destruct F3 as [F3 F4].
    apply wp_on_fst, wp_modify. cbn [post].
    pose proof (set_slot_lookup k w1 w srv' Hw') as Hl. pose proof (server_ok_joined _ _ _ _ _ _ Hok1 Hl) as Hok2.
    rewrite (set_thread_slot k no_thread _ _ Hl). rewrite !set_slot_twice in *.
    eapply swept_step; [exact Hs|done| |exact Hok2|by auto]. split_and!; [done|exact F1|exact F2|by intros _|congruence].
  - apply wp_on_fst, wp_modify. cbn [post]. rewrite (set_thread_slot k no_thread _ _ Hw').
    eapply swept_step; [exact Hs|done| |by apply server_ok_joined|done]. by split_and!; [..|congruence|].
Qed.

(** ** Starting and stopping *)

(** What the invariant does not depend on. *)
Lemma server_ok_same cap srv srv' e o o' :
  server_ok cap srv e o -> workers_ srv' = workers_ srv -> server_fds srv' = server_fds srv ->
  next_worker_ srv' = next_worker_ srv -> Os.opened o' = Os.opened o ->
  (acceptor_thread_ srv' = a_thread -> ever_started_ srv' = true) ->
  (ever_started_ srv = true -> ever_started_ srv' = true) -> server_ok cap srv' e o'.
Proof.
  intros [S1 S2 S3 S4 S5 S6 S7 S8 S9] Hw Hf Hn Ho Ht Hev. constructor; rewrite ?Hw, ?Hf, ?Hn, ?Ho; try done.
  intros i w Hi. destruct (S2 i w Hi) as [H1 H2]. split; [done|]. intros [?|E]; apply H2; [by left|right].
  destruct (ever_started_ srv); [|done]. by rewrite Hev in E.
Qed.

(** The server after [join]: no thread is left; a worker that was in its loop has
    closed its sockets, the others have what they had. *)
Definition quiesced (w w' : slot) : Prop :=
  thread_ w' = no_thread /\ slot_fds w' = slot_fds w /\ Worker.stop_requested_ (worker_ w') = true /\
  (thread_ w = a_thread -> emptied w') /\
  (thread_ w <> a_thread -> Kernel.sockets (kernel_ w') = Kernel.sockets (kernel_ w) /\
     worker_ w' = Worker.set_stop (worker_ w)).

Lemma stop_join_wp cap srv e o m n :
  server_ok cap srv e o -> (n <= length (workers_ srv))%nat ->
  (forall w, w ∈ workers_ srv -> thread_ w = a_thread -> ever_started_ srv = true) ->
  wp (for_workers stop_worker 0 n ;; for_workers (join_worker hash last) 0 n) (srv, (e, (o, m)))
    (post (fun _ => swept cap quiesced srv e o n) (fun _ _ => False)).
Proof.
  intros Hok Hn Hev. eapply wp_bind_post.
  { apply (for_workers_wp stop_worker (swept cap asked srv e o) n 0); [by apply swept_start|].
    intros j s Hj Hs. apply stop_worker_wp; [lia|done]. }
  2: done.
  intros [] s1 (srv1 & e1 & m1 & -> & Hok1 & Hs1 & [Hl1 Hi1] & H1). eapply wp_post_mono.
  - apply (for_workers_wp (join_worker hash last) (swept cap joined srv1 e1 o) n 0); [by apply swept_start|].
    intros j s Hj Hs. destruct (lookup_lt_is_Some_2 (workers_ srv) j) as [w Hw]; [lia|].
    destruct (H1 j w Hw) as (w1 & Hw1 & H). rewrite (proj2 (Nat.ltb_lt j (0 + n))) in H by lia.
    destruct H as (A1 & _ & A3 & _ & A5). eapply join_worker_wp; [done|..|done]; [|by rewrite A3|done].
    rewrite A1, Hs1. simpl. destruct (thread_ w) eqn:E; [by right|left|by right].
    eapply Hev; [by eapply list_elem_of_lookup_2|done].
  - intros [] s2 (srv2 & e2 & m2 & -> & Hok2 & Hs2 & [Hl2 Hi2] & H2). exists srv2, e2, m2. split_and!; [done|done| |congruence|..].
    + rewrite Hs2, Hs1. done.
    + intros Hi. rewrite Hi2; [by apply Hi1|]. intros j w1 Hw1. pose proof (lookup_lt_Some _ _ _ Hw1) as Hlt. rewrite Hl1 in Hlt.
      destruct (lookup_lt_is_Some_2 _ _ Hlt) as [w Hw]. destruct (H1 j w Hw) as (w1' & Hw1' & HA). simplify_eq.
      destruct (j <? _)%nat; [destruct HA as (_ & _ & -> & _)|rewrite HA]; exact (Hi j w Hw).
    + intros j w Hw. destruct (H1 j w Hw) as (w1 & Hw1 & HA). destruct (H2 j w1 Hw1) as (w2 & Hw2 & HB).
      exists w2. split; [done|]. simpl in *. destruct (j <? n)%nat; [|congruence].
      destruct HA as (A1 & A2 & A3 & A4 & _), HB as (B1 & B2 & B3 & B4 & B5).
      split_and!; [done|congruence|rewrite B3, A3; done|by rewrite A1 in B4|].
      rewrite A1 in B5. intros Hno. destruct (B5 Hno) as [-> ->]. by split.
  - done.
Qed.

Lemma swept_fds cap P srv e0 o k srv' e m :
  (forall w w', P w w' -> slot_fds w' = slot_fds w) -> swept cap P srv e0 o k (srv', (e, (o, m))) ->
  server_fds srv' = server_fds srv.
Proof.
  intros HP (s1 & ? & ? & [= <- <- <-] & _ & Hs & [Hl _] & H). unfold server_fds. rewrite Hs at 2 3 4 5. simpl. f_equal.
  unfold workers_fds. f_equal. apply list_eq_same_length with (length (workers_ srv)); [by rewrite length_fmap..|].
  intros j a b Hj Ha Hb. rewrite list_lookup_fmap in Ha, Hb. destruct (workers_ srv !! j) as [w|] eqn:Hw; [|done].
  destruct (H j w Hw) as (w' & Hw' & Hr). rewrite Hw' in Ha. simplify_eq/=. destruct (j <? k)%nat; [by apply HP|by subst].
Qed.

(** *** The acceptor's last batch: it accepts nothing any more *)

Lemma tick_times_holds cap n srv e o m ls :
  engine_holds hash cap e ls ->
  wp (tick_times n) (srv, (e, (o, m))) (post
    (fun _ s' => exists e' ls', s' = (srv, (e', (o, m))) /\ engine_holds hash cap e' ls') (fun _ _ => False)).
Proof.
  revert e ls. induction n as [|n IH]; intros e ls He; cbn [tick_times]; [by apply wp_ret; exists e, ls|].
  pose proof (engine_tick_wp hash cap e ls He) as Ht. apply wp_bind.
  unfold try_catch, wp, bind, on_engine, on_snd, on_fst in *. simpl. destruct (CacheEngine.tick e) as [[[]|x|] e1]; simpl in *; [..|done].
  - by apply (IH e1 (Lru.tick <$> ls)).
  - destruct Ht as (_ & j & _ & He1). by eexists _, _.
Qed.

Lemma handle_timer_holds cap results srv e o m ls :
  engine_holds hash cap e ls ->
  wp (handle_timer results) (srv, (e, (o, m))) (post
    (fun _ s' => exists e' ls', s' = (srv, (e', (o, m))) /\ engine_holds hash cap e' ls') (fun _ _ => False)).
Proof.
  intros He. induction results as [|[n| |] results IH]; cbn [handle_timer]; [..|done|].
  - by apply (tick_times_holds cap 0 srv e o m ls).
  - by apply (tick_times_holds cap _ srv e o m ls).
  - by apply (tick_times_holds cap 0 srv e o m ls).
Qed.

Lemma run_acceptor_stopped_wp cap events srv e o m ls :
  engine_holds hash cap e ls -> stop_requested_ srv = true -> 0 <= Os.signals o ->
  wp (run_acceptor_once events) (srv, (e, (o, m))) (post
    (fun _ s' => exists e' ls' o', s' = (srv, (e', (o', m))) /\ engine_holds hash cap e' ls' /\
       Os.opened o' = Os.opened o /\ 0 <= Os.signals o') (fun _ _ => False)).
Proof.
  intros He Hst. revert e o ls He. induction events as [|ev events IH]; intros e o ls He Ho; cbn [run_acceptor_once].
  { apply wp_ret. by eexists _, _, _. }
  eapply wp_bind_post with (R := fun _ s' => exists e' ls' o', s' = (srv, (e', (o', m))) /\ engine_holds hash cap e' ls' /\
       Os.opened o' = Os.opened o /\ 0 <= Os.signals o') (E := fun _ _ => False); [| |done].
  - unfold handle_event. apply wp_bind, wp_on_fst, wp_read. cbn beta iota. destruct (_ =? _).
    { unfold on_build. apply wp_on_snd, wp_on_snd, wp_on_fst, wp_modify. by eexists _, _, _. }
    destruct (_ =? _).
    { eapply wp_post_mono; [by apply (handle_timer_holds cap _ _ _ _ _ ls)| |done].
      intros [] s' (e' & ls' & -> & H). by eexists _, _, _. }
    destruct (_ =? _); [|by apply wp_ret; eexists _, _, _].
    destruct (ev_accept ev); cbn [accept_connections]; apply wp_bind, wp_on_fst, wp_read; cbn beta iota; rewrite Hst;
      apply wp_ret; by eexists _, _, _.
  - intros [] s1 (e1 & ls1 & o1 & -> & He1 & Ho1 & Hg1). eapply wp_post_mono; [by apply (IH e1 o1 ls1)| |done].
    intros [] s' (e' & ls' & o' & -> & H1 & H2 & H3). eexists _, _, _. split_and!; [done|done|congruence|done].
Qed.

(** ** [join] *)

(** The acceptor can be joined: if it is in its loop, a stop was requested and it has
    been told so. *)
Definition joinable (srv : t) (o : Os.t) : Prop :=
  0 <= Os.signals o /\ (acceptor_thread_ srv = a_thread -> stop_requested_ srv = true /\ 0 < Os.signals o).

Lemma check_acceptor_stops srv r : stop_requested_ srv = true -> check_acceptor (srv, r) = leave_acceptor (srv, r).
Proof. intros Hst. unfold check_acceptor, on_server, on_fst, read, bind. cbn [fst snd]. by rewrite Hst. Qed.

(** What joining the acceptor leaves. *)
Definition acceptor_joined (cap : Z) (srv : t) (o : Os.t) (m : env) (s' : state) : Prop :=
  exists b e' o', s' = (set_acceptor no_thread (set_running b srv), (e', (o', m))) /\
    server_ok cap (set_acceptor no_thread (set_running b srv)) e' o' /\ Os.opened o' = Os.opened o /\ 0 <= Os.signals o' /\
    (acceptor_thread_ srv <> a_thread -> o' = o).

Lemma join_acceptor_wp cap srv e o m :
  server_ok cap srv e o -> joinable srv o ->
  wp (join_acceptor last) (srv, (e, (o, m))) (post (fun _ => acceptor_joined cap srv o m) (fun _ _ => False)).
Proof.
  intros Hok [Hsig Hj]. unfold join_acceptor. apply wp_bind, wp_read. cbn [fst snd].
  destruct (sv_engine _ _ _ _ Hok) as [ls He].
  assert (forall b e' ls' o', engine_holds hash cap e' ls' -> Os.opened o' = Os.opened o ->
    server_ok cap (set_acceptor no_thread (set_running b srv)) e' o') as Hok'.
  { intros b e' ls' o' He' Ho'. eapply server_ok_same; [by eapply server_ok_engine|done|done|done|done|done|done]. }
  destruct (acceptor_thread_ srv) eqn:Ha.
  - apply wp_ret. exists (running_ srv), e, o. split_and!; [|by eapply Hok'|done|done|done]. f_equal. destruct srv. simpl in *. by subst.
  - destruct (Hj eq_refl) as [Hst Hpos]. rewrite Hst, (proj2 (Z.ltb_lt 0 _) Hpos). cbn [andb].
    assert (forall e' o' ls', engine_holds hash cap e' ls' -> Os.opened o' = Os.opened o -> 0 <= Os.signals o' ->
      wp (leave_acceptor ;; on_server (modify (set_acceptor no_thread))) (srv, (e', (o', m))) (post (fun _ => acceptor_joined cap srv o m) (fun _ _ => False))) as Hleave.
    { intros e' o' ls' He' Ho' Hg'. unfold leave_acceptor. apply wp_bind, wp_bind, wp_on_fst, wp_modify. cbn beta iota.
      apply wp_on_fst, wp_modify. cbn beta iota. apply wp_on_fst, wp_modify. exists false, e', o'.
      split_and!; [done|by eapply Hok'|done|done|congruence]. }
    assert (forall e' o' ls', engine_holds hash cap e' ls' -> Os.opened o' = Os.opened o -> 0 <= Os.signals o' ->
      wp (check_acceptor ;; on_server (modify (set_acceptor no_thread))) (srv, (e', (o', m))) (post (fun _ => acceptor_joined cap srv o m) (fun _ _ => False))) as Hcheck.
    { intros e' o' ls' He' Ho' Hg'. pose proof (Hleave e' o' ls' He' Ho' Hg') as H. unfold wp, bind in *.
      rewrite (check_acceptor_stops srv _ Hst). exact H. }
    destruct (acceptor_wait last) as [events| |]; cbn [acceptor_round]; [|by eapply Hcheck|by eapply Hleave].
    apply wp_bind, wp_bind. eapply wp_mono; [by apply (run_acceptor_stopped_wp cap events srv e o m ls)|].
    intros [[]|x|] s1; [|done|done]. intros (e1 & ls1 & o1 & -> & He1 & Ho1 & Hg1).
    pose proof (Hcheck e1 o1 ls1 He1 Ho1 Hg1) as H. unfold wp, bind in *. by destruct (check_acceptor _) as [[]].
  - apply wp_on_fst, wp_modify. exists (running_ srv), e, o. split_and!; [|by eapply Hok'|done|done|done]. by destruct srv.
Qed.

(** What [join] leaves. *)
Definition join_left (cap : Z) (srv : t) (o : Os.t) (s' : state) : Prop :=
  exists srv' e' o' m', s' = (srv', (e', (o', m'))) /\ server_ok cap srv' e' o' /\
    acceptor_thread_ srv' = no_thread /\ running_ srv' = false /\ server_fds srv' = server_fds srv /\
    ever_started_ srv' = ever_started_ srv /\ stop_requested_ srv' = stop_requested_ srv /\
    length (workers_ srv') = length (workers_ srv) /\ Os.opened o' = Os.opened o /\ 0 <= Os.signals o' /\
    (acceptor_thread_ srv <> a_thread -> o' = o) /\
    forall j w, workers_ srv !! j = Some w -> exists w', workers_ srv' !! j = Some w' /\ quiesced w w'.

Lemma join_wp cap srv e o m :
  server_ok cap srv e o -> joinable srv o ->
  (forall w, w ∈ workers_ srv -> thread_ w = a_thread -> ever_started_ srv = true) ->
  wp (join hash last) (srv, (e, (o, m))) (post (fun _ => join_left cap srv o) (fun _ _ => False)).
Proof.
  intros Hok Hj Hev. unfold join. apply wp_bind, wp_on_fst, wp_read. cbn beta iota.
  eapply wp_bind_post; [by apply (join_acceptor_wp cap)| |done]. intros [] s1 (b & e1 & o1 & -> & Hok1 & Ho1 & Hg1 & Hsame1).
  set (srv1 := set_acceptor no_thread (set_running b srv)) in *.
  change (workers_ srv) with (workers_ srv1).
  pose proof (stop_join_wp cap srv1 e1 o1 m (length (workers_ srv1)) Hok1 ltac:(lia) Hev) as Hsj.
  apply wp_bind_assoc. eapply wp_bind_post; [exact Hsj| |done]. intros [] s2 Hsw.
  pose proof Hsw as (srv2 & e2 & m2 & -> & Hok2 & Hs2 & [Hl2 _] & H2). apply wp_on_fst, wp_modify. cbn [post].
  assert (server_fds srv2 = server_fds srv1) as Hf by (eapply swept_fds; [|exact Hsw]; by intros ?? (_ & ? & _)).
  eexists _, _, _, _. split; [done|]. split.
  { eapply server_ok_same; [exact Hok2|done|done|done|done|exact (sv_threads _ _ _ _ Hok2)|done]. }
  rewrite Hs2. split_and!; [done|done|rewrite <- Hs2; exact Hf|done|done|done|done|done|done|].
  intros j w Hw. destruct (H2 j w Hw) as (w' & Hw' & Hq). exists w'.
  rewrite (proj2 (Nat.ltb_lt j _)) in Hq by (by eapply lookup_lt_Some). split; [exact Hw'|done].
Qed.
End server.
