(* ===== verification/ServerStartFacts.v ===== *)
(** * Starting the server, and what the acceptor does

    [start] starts every thread or none; [accept_connections] deals the accepted
    sockets to the workers in turn; [handle_timer] ages the engine. *)
From S2P Require Import Prelude ErrorModel Effects MemoryModel ProgressFacts BufferModel ProtocolModel.
From S2P Require Import CacheEngineModel CacheEngineFacts ConnectionModel ConnectionFacts.
From S2P Require Import WorkerModel WorkerFacts WorkerInstallFacts WorkerRunFacts ServerModel ServerFacts ServerRunFacts.
Import Memory.
Import CacheServer.

Section server.
Variable hash : bytes -> Z.

(** ** [start] *)

(** What consuming a call leaves. *)
Definition os_same (o o' : Os.t) : Prop :=
  Os.opened o' = Os.opened o /\ Os.interest o' = Os.interest o /\ Os.armed o' = Os.armed o /\
  Os.signals o' = Os.signals o.

Lemma swept_os cap P srv e0 o o' k srv' e m :
  os_same o o' -> swept hash cap P srv e0 o k (srv', (e, (o, m))) -> swept hash cap P srv e0 o' k (srv', (e, (o', m))).
Proof.
  intros (Ho & _) (s1 & ? & ? & [= <- <- <-] & Hok & H). exists srv', e, m. split; [done|]. split; [|exact H].
  eapply server_ok_same; [exact Hok|done|done|done|done|exact (sv_threads _ _ _ _ _ Hok)|done].
Qed.

Lemma make_thread_wp srv e o m :
  wp make_thread (srv, (e, (o, m))) (post (fun _ s' => exists o', s' = (srv, (e, (o', m))) /\ os_same o o') (fun _ _ => False)).
Proof.
  unfold make_thread, on_build. apply wp_on_snd, wp_on_snd, wp_on_fst. unfold wp, Os.call. destruct (Os.calls o); cbn [post fst snd].
  - exists o. split; [done|]. by split_and!.
  - eexists. split; [done|]. by split_and!.
Qed.

(** A worker whose thread was started. *)
Definition launched (w w' : slot) : Prop := w' = MkSlot (epoll_ w) (worker_ w) (kernel_ w) a_thread.

Lemma server_ok_launched cap srv e o i w :
  server_ok hash cap srv e o -> workers_ srv !! i = Some w -> announced (worker_ w) (kernel_ w) ->
  server_ok hash cap (set_slot i (MkSlot (epoll_ w) (worker_ w) (kernel_ w) a_thread) srv) e o.
Proof.
  intros Hok Hi Ha. eapply server_ok_slot; [done|done|split; [exact (proj1 (sv_workers _ _ _ _ _ Hok i w Hi))|by intros _]|done|by left].
Qed.

Lemma start_workers_wp cap srv e m k n o srv' :
  (forall w, w ∈ workers_ srv -> announced (worker_ w) (kernel_ w)) ->
  (k + n = length (workers_ srv))%nat -> swept hash cap launched srv e o k (srv', (e, (o, m))) ->
  wp (start_workers k n) (srv', (e, (o, m))) (post
    (fun r s' => exists o' srv'', os_same o o' /\ s' = (srv'', (e, (o', m))) /\ swept hash cap launched srv e o' r.1 s' /\
       (r.1 <= length (workers_ srv))%nat /\ (r.2 = true -> r.1 = length (workers_ srv)))
    (fun _ _ => False)).
Proof.
  intros Han. revert k o srv'. induction n as [|n IH]; intros k o srv' Hk Hs; cbn [start_workers].
  { apply wp_ret. exists o, srv'. split_and!; try done. all: simpl; lia. }
  destruct (lookup_lt_is_Some_2 (workers_ srv) k) as [w Hw]; [lia|].
  eapply wp_bind_post; [apply make_thread_wp| |done]. intros b s1 (o1 & -> & Ho1).
  pose proof (swept_os _ _ _ _ _ _ _ _ _ _ Ho1 Hs) as Hs1. destruct b.
  - destruct (swept_at _ _ _ _ _ _ _ _ _ Hs1 Hw) as (? & ? & ? & [= <- <- <-] & Hok & Hw' & _).
    apply wp_bind, wp_on_fst, wp_modify. cbn beta iota. rewrite (set_thread_slot _ _ _ _ Hw').
    eapply wp_post_mono; [eapply (IH (S k) o1); [lia|]| |done].
    + eapply swept_step; [exact Hs1|done|done| |done]. apply server_ok_launched; [done|done|].
      apply Han. by eapply list_elem_of_lookup_2.
    + intros r s' (o' & srv'' & H1 & H2). exists o', srv''. split; [|exact H2].
      destruct Ho1 as (? & ? & ? & ?), H1 as (? & ? & ? & ?). split_and!; congruence.
  - apply wp_ret. exists o1, srv'. split_and!; try apply Ho1; [done|done|simpl; lia|done].
Qed.

(** [start] has started everything. *)
Definition server_started (srv srv' : t) : Prop :=
  ever_started_ srv = false /\ ever_started_ srv' = true /\ running_ srv' = true /\ acceptor_thread_ srv' = a_thread /\
  stop_requested_ srv' = stop_requested_ srv /\ server_fds srv' = server_fds srv /\
  workers_ srv' = (fun w => MkSlot (epoll_ w) (worker_ w) (kernel_ w) a_thread) <$> workers_ srv /\
  options_ srv' = options_ srv /\ listen_socket_ srv' = listen_socket_ srv.

(** [start] has failed: what it started it has stopped again. *)
Definition start_undone (srv srv' : t) : Prop :=
  ever_started_ srv' = true /\ acceptor_thread_ srv' = acceptor_thread_ srv /\ server_fds srv' = server_fds srv /\
  stop_requested_ srv' = stop_requested_ srv /\ length (workers_ srv') = length (workers_ srv) /\
  ((ever_started_ srv = true \/ running_ srv = false) -> running_ srv' = running_ srv) /\
  forall j w, workers_ srv !! j = Some w -> exists w', workers_ srv' !! j = Some w' /\
    (w' = w \/ thread_ w' = no_thread /\ Kernel.sockets (kernel_ w') = ∅).

Lemma checked_run op o m :
  wp (checked op) (o, m) (post (fun _ s' => exists o', s' = (o', m) /\ os_same o o')
    (fun x s' => exists o' m', s' = (o', m') /\ os_same o o' /\ setup_exn x)).
Proof.
  unfold checked. apply wp_bind, wp_on_fst. unfold wp, Os.call.
  assert (forall o', os_same o o' -> wp (throw_network_error (A := unit) op) (o', m)
    (post (fun _ s' => exists o', s' = (o', m) /\ os_same o o')
      (fun x s' => exists o' m', s' = (o', m') /\ os_same o o' /\ setup_exn x))) as Hthrow.
  { intros o' Ho. unfold throw_network_error. apply wp_bind, wp_on_fst, wp_read. cbn beta iota.
    apply wp_bind, wp_on_snd, wp_may_alloc; intros fs; (eexists _, _; split_and!; [done|apply Ho..|]); [right; by eexists|by left]. }
  destruct (Os.calls o) as [|[] fs]; cbn [fst snd negb].
  - exists o. split; [done|by split_and!].
  - apply Hthrow. by split_and!.
  - eexists. split; [done|by split_and!].
Qed.

Lemma launched_all cap srv e o m srv' :
  swept hash cap launched srv e o (length (workers_ srv)) (srv', (e, (o, m))) ->
  srv' = set_workers ((fun w => MkSlot (epoll_ w) (worker_ w) (kernel_ w) a_thread) <$> workers_ srv) srv.
Proof.
  intros (s1 & ? & ? & [= <- <- <-] & _ & -> & [Hl _] & H). simpl in *. f_equal. apply list_eq. intros j. rewrite list_lookup_fmap.
  destruct (workers_ srv !! j) as [w|] eqn:Hw.
  - destruct (H j w Hw) as (w' & -> & Hr). rewrite (proj2 (Nat.ltb_lt j _)) in Hr by (by eapply lookup_lt_Some). by rewrite Hr.
  - simpl. apply lookup_ge_None in Hw. apply lookup_ge_None. lia.
Qed.

Variable last : last_waits.

(** The handler of [start]. *)
Lemma undo_wp cap srv e o m n srv2 :
  ever_started_ srv = false -> (n <= length (workers_ srv))%nat ->
  swept hash cap launched (set_ever_started srv) e o n (srv2, (e, (o, m))) ->
  forall b, wp (on_server (modify (set_running false)) ;; for_workers stop_worker 0 n ;;
      for_workers (join_worker hash last) 0 n ;; throw (A := unit) thread_error)
    (set_running b srv2, (e, (o, m))) (post (fun _ _ => False)
    (fun x s' => exists srv' e' m', s' = (srv', (e', (o, m'))) /\ server_ok hash cap srv' e' o /\ start_undone srv srv' /\
       x = thread_error /\ (idle srv -> e' = e))).
Proof.
  intros Hev Hn Hsw b. assert (server_fds srv2 = server_fds srv) as Hf2.
  { eapply (swept_fds hash cap launched (set_ever_started srv)); [|exact Hsw]. by intros w w' ->. }
  destruct Hsw as (s1 & ? & ? & [= <- <- <-] & Hok & Hsame & [Hlen _] & H). apply wp_bind, wp_on_fst, wp_modify. cbn beta iota.
  change (set_running false (set_running b srv2)) with (set_running false srv2).
  assert (server_ok hash cap (set_running false srv2) e o) as Hok3
    by (eapply server_ok_same; [exact Hok|done|done|done|done|exact (sv_threads _ _ _ _ _ Hok)|done]).
  apply wp_bind_assoc. eapply wp_bind_post; [apply (stop_join_wp hash last cap (set_running false srv2) e o m n Hok3)| |done].
  { simpl in *. lia. }
  { intros w _ _. simpl. by rewrite Hsame. }
  intros [] s4 Hsw4. pose proof Hsw4 as (srv4 & e4 & m4 & -> & Hok4 & Hs4 & [Hl4 Hi4] & H4).
  assert (server_fds srv4 = server_fds srv2) as Hf4.
  { exact (swept_fds hash cap quiesced (set_running false srv2) e o n srv4 e4 m4 ltac:(by intros w w' (_ & ? & _)) Hsw4). }
  assert (idle srv -> idle (set_running false srv2)) as Hidle.
  { intros Hi j w2 Hw2. simpl in Hw2. pose proof (lookup_lt_Some _ _ _ Hw2) as Hlt. rewrite Hlen in Hlt.
    destruct (lookup_lt_is_Some_2 _ _ Hlt) as [w Hw]. destruct (H j w Hw) as (w2' & Hw2' & HA). simplify_eq.
    destruct (j <? n)%nat; rewrite HA; exact (Hi j w Hw). }
  eexists _, _, _. split; [done|]. split; [done|]. split; [|by auto]. rewrite Hs4, Hsame. split_and!; simpl in *; [done|done|..].
  - rewrite <- Hf2, <- Hf4, Hs4, Hsame. done.
  - done.
  - congruence.
  - intros [Hr|Hr]; congruence.
  - intros j w Hw. destruct (H j w Hw) as (w2 & Hw2 & HA). destruct (H4 j w2 Hw2) as (w4 & Hw4 & HB). exists w4. split; [done|].
    destruct (j <? n)%nat; [right|left; congruence]. rewrite HA in HB. destruct HB as (B1 & _ & _ & B4 & _).
    split; [done|]. by apply B4.
Qed.

(** What is left when [start] throws. *)
Definition start_failed (cap : Z) (srv : t) (e : CacheEngine.t) (o : Os.t) (m : env) (x : exn) (s' : state) : Prop :=
  exists srv' e' o' m', s' = (srv', (e', (o', m'))) /\ server_ok hash cap srv' e' o' /\ start_undone srv srv' /\
    Os.opened o' = Os.opened o /\ Os.signals o' = Os.signals o /\ (idle srv -> e' = e) /\
    (ever_started_ srv = true ->
       s' = (srv, (e, (o, m))) /\ x = invalid (lit "cache server can only be started once")) /\
    (ever_started_ srv = false -> setup_exn x \/ x = thread_error).

Lemma start_wp cap srv e o m :
  server_ok hash cap srv e o ->
  wp (start hash last) (srv, (e, (o, m))) (post
    (fun _ s' => exists srv' o', s' = (srv', (e, (o', m))) /\ server_ok hash cap srv' e o' /\ server_started srv srv' /\
       Os.opened o' = Os.opened o /\ Os.armed o' = Some (1, 1) /\ Os.signals o' = Os.signals o)
    (start_failed cap srv e o m)).
Proof.
  intros Hok. unfold start. apply wp_bind, wp_on_fst, wp_read. cbn beta iota. apply wp_bind, wp_on_fst, wp_modify. cbn beta iota.
  destruct (ever_started_ srv) eqn:Hev.
  { assert (set_ever_started srv = srv) as -> by (destruct srv; simpl in *; by subst).
    eexists _, _, _, _. split; [done|]. split; [done|]. split; [|split_and!; [done|done|done|done|congruence]].
    split_and!; try done. intros j w Hw. exists w. auto. }
  assert (forall o', Os.opened o' = Os.opened o -> server_ok hash cap (set_ever_started srv) e o') as Hok0
    by (intros o' Ho; by eapply server_ok_same).
  assert (forall w, w ∈ workers_ srv -> announced (worker_ w) (kernel_ w)) as Han.
  { intros w [i Hi]%list_elem_of_lookup. apply (sv_workers _ _ _ _ _ Hok i w Hi). by right. }
  eapply wp_bind_post; [apply wp_on_snd, wp_on_snd; eapply wp_mono; [apply checked_run|]|..].
  { intros r s'. instantiate (2 := fun _ s' => exists o', s' = (set_ever_started srv, (e, (o', m))) /\ os_same o o').
    instantiate (1 := fun x s' => exists o' m', s' = (set_ever_started srv, (e, (o', m'))) /\ os_same o o' /\ setup_exn x).
    destruct r; [|..|done]; simpl; [intros (o' & -> & H)|intros (o' & m' & -> & H)]; by eauto. }
  2: { intros x s' (o' & m' & -> & (Ho & _ & _ & Hg) & Hx). eexists _, _, _, _. split; [done|]. split; [by apply Hok0|].
       split; [|split_and!; [done|done|done|congruence|by auto]]. split_and!; try done. intros j w Hw. exists w. auto. }
  intros [] s1 (o1 & -> & (Ho1 & _ & _ & Hg1)). apply wp_bind. apply wp_on_snd, wp_on_snd, wp_on_fst, wp_modify. cbn beta iota.
  eapply wp_bind_post; [apply (start_workers_wp cap (set_ever_started srv) e m 0 _ (Os.arm 1 1 o1)); [done|done|]| |done].
  { apply swept_start. by apply Hok0. }
  intros [n all] s2 (o2 & srv2 & Ho2 & -> & Hsw & Hn & Hall).
  pose proof Hsw as (? & ? & ? & [= <- <- <-] & Hok2 & Hs2 & _ & H2). simpl in Hn, Hall.
  assert (forall o3 b, os_same o2 o3 -> wp (on_server (modify (set_running false)) ;; for_workers stop_worker 0 n ;;
    for_workers (join_worker hash last) 0 n ;; throw (A := unit) thread_error) (set_running b srv2, (e, (o3, m)))
    (post (fun _ _ => False) (start_failed cap srv e o m))) as Hundo.
  { intros o3 b Ho3. eapply wp_post_mono; [apply (undo_wp cap srv e o3 m n srv2 Hev Hn); by eapply swept_os|done|].
    intros x s' (srv' & e' & m' & -> & G1 & G2 & -> & G3). eexists _, _, _, _. split; [done|]. split; [exact G1|]. split; [exact G2|].
    destruct Ho2 as (Ho2 & _ & _ & Hg2), Ho3 as (Ho3 & _ & _ & Hg3). simpl in *.
    split_and!; [by rewrite Ho3, Ho2|by rewrite Hg3, Hg2|done|congruence|by auto]. }
  destruct all.
  - apply wp_bind, wp_bind, wp_on_fst, wp_modify. cbn beta iota.
    eapply wp_mono; [apply make_thread_wp|]. intros [[]|x|] s3; [intros (o3 & -> & Ho3)..|done|done].
    + apply wp_on_fst, wp_modify. cbn [post]. destruct Ho2 as (P1 & _ & P2 & P3), Ho3 as (Q1 & _ & Q2 & Q3).
      specialize (Hall eq_refl). subst n. pose proof (launched_all cap (set_ever_started srv) e o2 m srv2 Hsw) as Hsrv.
      eexists _, _. split; [done|]. split_and!.
      * eapply server_ok_same; [exact Hok2|done|done|done|by rewrite Q1|by rewrite Hsrv|done].
      * rewrite Hsrv. split_and!; try done. unfold server_fds. simpl. unfold workers_fds. by rewrite <- list_fmap_compose.
      * by rewrite Q1, P1.
      * by rewrite Q2, P2.
      * by rewrite Q3, P3.
    + eapply wp_post_mono; [by apply Hundo|done|done].
  - apply wp_bind, wp_ret. cbn beta iota. assert (srv2 = set_running (running_ srv2) srv2) as -> by (by destruct srv2).
    eapply wp_post_mono; [apply Hundo; by split_and!|done|done].
Qed.
End server.
