(* ===== verification/ServerAcceptFacts.v ===== *)
(** * Dealing sockets to workers

    [accept_connections] gives the accepted sockets to the workers in turn. *)
From S2P Require Import Prelude ErrorModel Effects MemoryModel ProgressFacts BufferModel ProtocolModel.
From S2P Require Import CacheEngineModel CacheEngineFacts ConnectionModel ConnectionFacts.
From S2P Require Import WorkerModel WorkerFacts WorkerInstallFacts WorkerRunFacts ServerModel ServerFacts ServerRunFacts.
Import Memory.
Import CacheServer.

(** The sockets the loop accepts, up to the error that ends it. *)
Fixpoint taken (results : list accept_result) : list Z :=
  match results with
  | accepted fd _ :: results => fd :: taken results
  | interrupted :: results | aborted :: results => taken results
  | [] | accept_failed :: _ => []
  end.

(** Those that go to worker [j] of [n], from the turn of [next] on. *)
Fixpoint deal (n next : Z) (fds : list Z) (j : Z) : list Z :=
  match fds with
  | [] => []
  | fd :: fds => (if next mod n =? j then [fd] else []) ++ deal n (u64 (next + 1)) fds j
  end.

(** ** Fairness *)

(** How many numbers below [b] leave the remainder [j]. *)
Definition below (n j b : Z) : Z := (b - j + n - 1) / n.

Lemma below_step n j a : 0 < n -> 0 <= j < n -> below n j (a + 1) = below n j a + (if a mod n =? j then 1 else 0).
Proof.
  intros Hn Hj. unfold below. pose proof (Z.div_mod a n ltac:(lia)) as Ha. pose proof (Z.mod_pos_bound a n Hn) as Hr.
  set (q := a / n) in *. set (r := a mod n) in *. destruct (r =? j) eqn:E; zsimp.
  - replace (a + 1 - j + n - 1) with (0 + (q + 1) * n) by lia. replace (a - j + n - 1) with (n - 1 + q * n) by lia.
    rewrite !Z.div_add by lia. rewrite !Z.div_small by lia. lia.
  - destruct (Z_lt_ge_dec r j).
    + replace (a + 1 - j + n - 1) with (r - j + n + q * n) by lia. replace (a - j + n - 1) with (r - j + n - 1 + q * n) by lia.
      rewrite !Z.div_add by lia. rewrite !Z.div_small by lia. lia.
    + replace (a + 1 - j + n - 1) with (r - j + (q + 1) * n) by lia. replace (a - j + n - 1) with (r - j - 1 + (q + 1) * n) by lia.
      rewrite !Z.div_add by lia. rewrite !Z.div_small by lia. lia.
Qed.

Lemma deal_length n next fds j :
  0 < n -> 0 <= j < n -> 0 <= next -> next + zlen fds <= 2 ^ 64 ->
  zlen (deal n next fds j) = below n j (next + zlen fds) - below n j next.
Proof.
  intros Hn Hj. revert next. induction fds as [|fd fds IH]; intros next Hx Hb; cbn [deal].
  { rewrite Z.add_0_r. simpl. lia. }
  rewrite length_app, Nat2Z.inj_add. simpl length in Hb |- *. destruct (Z.eq_dec (next + 1) (2 ^ 64)) as [Hw|Hw].
  - destruct fds; [|simpl length in Hb; lia]. simpl deal. simpl length.
    replace (next + Z.of_nat 1) with (next + 1) by lia. rewrite (below_step n j next) by done.
    destruct (next mod n =? j); simpl length; lia.
  - rewrite u64_small by lia. rewrite IH by lia. replace (next + Z.of_nat (S (length fds))) with (next + 1 + zlen fds) by lia.
    rewrite (below_step n j next) by done. destruct (next mod n =? j); simpl length; lia.
Qed.

Lemma below_fair n j a d : 0 < n -> 0 <= d -> d / n <= below n j (a + d) - below n j a <= d / n + 1.
Proof.
  intros Hn Hd. unfold below. replace (a + d - j + n - 1) with (a - j + n - 1 + d) by lia. set (x := a - j + n - 1).
  pose proof (Z.div_mod x n ltac:(lia)). pose proof (Z.mod_pos_bound x n Hn).
  pose proof (Z.div_mod d n ltac:(lia)). pose proof (Z.mod_pos_bound d n Hn).
  pose proof (Z.div_mod (x + d) n ltac:(lia)). pose proof (Z.mod_pos_bound (x + d) n Hn). nia.
Qed.

Section server.
Variable hash : bytes -> Z.

(** ** One socket *)

(** What being dealt the sockets [fds] does to a worker: it has at most those more,
    and none once it is to stop. *)
Definition fed (fds : list Z) (w w' : slot) : Prop :=
  thread_ w' = thread_ w /\ Worker.stop_requested_ (worker_ w') = Worker.stop_requested_ (worker_ w) /\
  Worker.connections_ (worker_ w') = Worker.connections_ (worker_ w) /\
  forall fd, has_socket fd w' -> has_socket fd w \/ (fd ∈ fds /\ Worker.stop_requested_ (worker_ w) = false).

Lemma fed_refl fds w : fed fds w w.
Proof. split_and!; try done. by left. Qed.

Lemma fed_mono fds fds' w w' : fds ⊆ fds' -> fed fds w w' -> fed fds' w w'.
Proof. intros Hs (H1 & H2 & H3 & H4). split_and!; try done. intros fd F. destruct (H4 fd F) as [?|[? ?]]; auto. Qed.

Lemma fed_trans fds w1 w2 w3 : fed fds w1 w2 -> fed fds w2 w3 -> fed fds w1 w3.
Proof.
  intros (A1 & A2 & A3 & A4) (B1 & B2 & B3 & B4). split_and!; try congruence.
  intros fd F. destruct (B4 fd F) as [G|[G1 G2]]; [by apply A4|]. right. by rewrite <- A2.
Qed.

Definition handed_to (fd : Z) (w w' : slot) : Prop := fed [fd] w w' /\ slot_fds w' = slot_fds w.

Lemma free_holds cap srv e o i w fd sock :
  server_ok hash cap srv e o -> workers_ srv !! i = Some w -> free_fd fd srv ->
  worker_holds hash cap [fd] (worker_ w) e (Kernel.set_sockets (<[fd := sock]> (Kernel.sockets (kernel_ w))) (kernel_ w)).
Proof.
  intros Hok Hi (Hfd & Hsrv & Hfree). destruct (sv_workers _ _ _ _ _ Hok i w Hi) as [[[O1 O2 O3 O4 O5 O6 O7 [O8 O9]] _] _].
  pose proof (Hfree i w Hi) as Hno. unfold has_socket in Hno.
  assert (fd <> Worker.wakeup_ (worker_ w)) as Hw.
  { intros ->. apply Hsrv. unfold server_fds, workers_fds. apply elem_of_app. left. apply list_elem_of_In, in_concat.
    exists (slot_fds w). split; [|by left]. apply list_elem_of_In, list_elem_of_fmap. exists w. split; [done|]. by eapply list_elem_of_lookup_2. }
  assert (~ (fd ∈ waiting (worker_ w) \/ is_Some (Worker.connections_ (worker_ w) !! fd))) as Hout.
  { intros H. apply Hno, O6. simpl. done. }
  constructor; simpl; [done|done|done|..|done|].
  - constructor; [|done]. intros Hin. apply Hout. by left.
  - intros fd1 [->|Hin]%elem_of_cons; [|by apply O5]. split; [done|].
    destruct (Worker.connections_ (worker_ w) !! fd) eqn:E; [|done]. destruct Hout. right. by eexists.
  - intros fd1. destruct (decide (fd1 = fd)) as [->|Hne].
    + rewrite lookup_insert_eq. split; [left; left|by eexists].
    + rewrite lookup_insert_ne by done. rewrite O6, elem_of_cons. naive_solver.
  - by rewrite lookup_insert_ne.
Qed.

(** What accepting [fd] does to the server. *)
Definition accept_done (cap fd : Z) (i : nat) (w : slot) (srv : t) (e : CacheEngine.t) (o : Os.t) (m : env) (s' : state) : Prop :=
  exists w' m', s' = (set_slot i w' srv, (e, (o, m'))) /\ server_ok hash cap (set_slot i w' srv) e o /\
    handed_to fd w w' /\ (quiet m -> quiet m' /\ (Worker.stop_requested_ (worker_ w) = false ->
      Worker.pending_ (worker_ w') = Worker.pending_ (worker_ w) ++ [UniqueFd.MkUniqueFd fd])).

(** The worker that [enqueue] leaves, back in its place. *)
Lemma enqueue_back cap srv e o i w fd sock m (s' : Worker.state) :
  let k1 := Kernel.set_sockets (<[fd := sock]> (Kernel.sockets (kernel_ w))) (kernel_ w) in
  let w' := MkSlot (epoll_ w) s'.1 s'.2.2.1 (thread_ w) in
  server_ok hash cap srv e o -> workers_ srv !! i = Some w -> free_fd fd srv ->
  worker_sound hash cap s'.1 s'.2.1 s'.2.2.1 -> (announced (worker_ w) k1 -> announced s'.1 s'.2.2.1) ->
  (Worker.stop_requested_ (worker_ w) = true -> Kernel.sockets s'.2.2.1 !! fd = None) ->
  (s'.1 = worker_ w \/ s'.1 = Worker.set_pending (Worker.pending_ (worker_ w) ++ [UniqueFd.MkUniqueFd fd]) (worker_ w)) ->
  s'.2.1 = e -> no_new_socket (worker_ w, (e, (k1, m))) s' ->
  server_ok hash cap (set_slot i w' srv) e o /\ handed_to fd w w'.
Proof.
  intros k1 w' Hok Hi Hfree Hw1 Han Hst Hw2 He' Hnew.
  assert (forall fd1, has_socket fd1 w' -> has_socket fd1 w \/ fd1 = fd) as Hgrow.
  { intros fd1 F. destruct (Hnew fd1 F) as [v Hv]. simpl in Hv. apply lookup_insert_Some in Hv as [[-> _]|[_ Hv]]; [by right|].
    left. by eexists. }
  assert (slot_fds w' = slot_fds w) as Hs by (unfold slot_fds, w'; simpl; by destruct Hw2 as [-> | ->]).
  split.
  - eapply server_ok_slot; [done|done|split; [simpl; by rewrite <- He'|]|done|].
    + intros Ht. apply Han. by apply (sv_workers _ _ _ _ _ Hok i w Hi).
    + intros fd1 F. destruct (Hgrow fd1 F) as [? | ->]; auto.
  - split; [|done]. split_and!; [done|simpl; by destruct Hw2 as [-> | ->]..|].
    intros fd1 F. destruct (Hgrow fd1 F) as [?| ->]; [by left|]. right. split; [left|].
    destruct (Worker.stop_requested_ (worker_ w)); [|done]. destruct F as [v Hv]. simpl in Hv. by rewrite Hst in Hv.
Qed.

Lemma accept_one_wp cap srv e o m i w fd sock :
  server_ok hash cap srv e o -> workers_ srv !! i = Some w -> free_fd fd srv ->
  wp (on_worker i (Worker.on_kernel (modify (fun k => Kernel.set_sockets (<[fd := sock]> (Kernel.sockets k)) k))) ;;
      try_catch (on_worker i (Worker.enqueue (UniqueFd.MkUniqueFd fd))) (fun _ => ret tt)) (srv, (e, (o, m)))
    (post (fun _ => accept_done cap fd i w srv e o m) (fun _ _ => False)).
Proof.
  intros Hok Hi Hfree. pose proof (free_holds _ _ _ _ _ _ _ sock Hok Hi Hfree) as Hh.
  pose proof (sv_workers _ _ _ _ _ Hok i w Hi) as [[_ Han] _].
  set (k1 := Kernel.set_sockets (<[fd := sock]> (Kernel.sockets (kernel_ w))) (kernel_ w)) in *.
  pose proof (set_slot_lookup i (MkSlot (epoll_ w) (worker_ w) k1 (thread_ w)) w srv Hi) as Hl.
  apply wp_bind, (wp_worker_call i w); [done|]. apply wp_on_kernel, wp_modify. cbn [fst snd]. fold k1.
  eapply wp_try_catch with (R := fun _ => accept_done cap fd i w srv e o m) (E := fun _ => accept_done cap fd i w srv e o m).
  - apply (wp_worker_call i _ _ _ _ _ _ _ Hl). cbn [worker_ kernel_ epoll_ thread_].
    eapply wp_mono; [by apply (enqueue_wp hash cap fd)|]. intros [[]|x|] s'; rewrite ?set_slot_twice; [..|done].
    + intros ((R1 & Ra & _) & R2 & R3 & R4 & R5). eexists _, _. rewrite R3. split; [done|].
      destruct (enqueue_back cap srv e o i w fd sock m s' Hok Hi Hfree) as [G1 G2]; [done|done| | |done|done|].
      { intros Hst. rewrite Hst in R2. apply R2. }
      { destruct (Worker.stop_requested_ (worker_ w)); [left|right]; apply R2. }
      split_and!; [exact G1|apply G2..|]. intros Hq. split; [by auto|]. intros Hst. rewrite Hst in R2. by destruct R2 as [-> _].
    + intros ([-> Hq] & (R1 & Ra & _) & [R2 R2'] & R3 & R4). eexists _, _. rewrite R3. split; [done|].
      destruct (enqueue_back cap srv e o i w fd sock m s' Hok Hi Hfree) as [G1 G2]; [done|done|done|by left|done|done|].
      split_and!; [exact G1|apply G2..|done].
  - intros [] s' H. exact H.
  - intros x s' H. by apply wp_ret.
Qed.

(** ** The loop *)

(** Nothing keeps the loop from dealing every socket. *)
Definition dealing (srv : t) (m : env) : Prop :=
  quiet m /\ stop_requested_ srv = false /\
  forall j w, workers_ srv !! j = Some w -> Worker.stop_requested_ (worker_ w) = false.

(** What [accept_connections] leaves. *)
Definition accepted_all (cap : Z) (results : list accept_result) (srv : t) (e : CacheEngine.t) (o : Os.t) (m : env)
    (s' : state) : Prop :=
  exists srv' m', s' = (srv', (e, (o, m'))) /\ server_ok hash cap srv' e o /\
    srv' = set_next_worker (next_worker_ srv') (set_workers (workers_ srv') srv) /\
    length (workers_ srv') = length (workers_ srv) /\ server_fds srv' = server_fds srv /\
    (dealing srv m -> next_worker_ srv' = u64 (next_worker_ srv + zlen (taken results))) /\
    forall j w, workers_ srv !! j = Some w -> exists w', workers_ srv' !! j = Some w' /\ fed (taken results) w w' /\
      (dealing srv m -> Worker.pending_ (worker_ w') = Worker.pending_ (worker_ w) ++
        (UniqueFd.MkUniqueFd <$> deal (zlen (workers_ srv)) (next_worker_ srv) (taken results) (Z.of_nat j))).

Lemma accepted_none cap results srv e o m :
  server_ok hash cap srv e o -> stop_requested_ srv = true \/ taken results = [] ->
  accepted_all cap results srv e o m (srv, (e, (o, m))).
Proof.
  intros Hok Hn. exists srv, m.
  assert (dealing srv m -> taken results = []) as Hd by (intros (_ & ? & _); destruct Hn; congruence).
  split_and!; [done|done|by destruct srv|done|done|..].
  - intros H. rewrite (Hd H). simpl. rewrite Z.add_0_r. symmetry. apply u64_small, Hok.
  - intros j w Hw. exists w. split; [done|]. split; [apply fed_refl|]. intros H. rewrite (Hd H). simpl. by rewrite app_nil_r.
Qed.

(** The worker whose turn it is. *)
Lemma turn_lookup cap srv e o :
  server_ok hash cap srv e o -> exists w, workers_ srv !! Z.to_nat (next_worker_ srv mod zlen (workers_ srv)) = Some w.
Proof.
  intros Hok. pose proof (sv_some _ _ _ _ _ Hok) as Hne. apply lookup_lt_is_Some_2.
  assert (0 < zlen (workers_ srv)) as Hn by (destruct (workers_ srv); simpl; [done|lia]).
  pose proof (Z.mod_pos_bound (next_worker_ srv) _ Hn). lia.
Qed.

Lemma free_fd_kept fd fd' i w w' srv :
  workers_ srv !! i = Some w -> handed_to fd w w' -> fd' <> fd -> free_fd fd' srv -> free_fd fd' (set_slot i w' srv).
Proof.
  intros Hi ((_ & _ & _ & Hg) & Hs) Hne (H1 & H2 & H3). split_and!; [done|by rewrite (set_slot_fds _ _ w)|].
  intros j wj Hj F. simpl in Hj. destruct (decide (j = i)) as [->|Hd].
  - rewrite list_lookup_insert_eq in Hj by (by eapply lookup_lt_Some). injection Hj as <-.
    destruct (Hg fd' F) as [G|[->%list_elem_of_singleton _]]; [by eapply H3|done].
  - rewrite list_lookup_insert_ne in Hj by done. by eapply H3.
Qed.

(** After the first socket, the rest. *)
Lemma accepted_cons cap fd sock results srv e o m i w w' m1 s' :
  let srv1 := set_slot i w' (set_next_worker (u64 (next_worker_ srv + 1)) srv) in
  server_ok hash cap srv e o -> stop_requested_ srv = false ->
  i = Z.to_nat (next_worker_ srv mod zlen (workers_ srv)) -> workers_ srv !! i = Some w -> handed_to fd w w' ->
  (quiet m -> quiet m1 /\ (Worker.stop_requested_ (worker_ w) = false ->
     Worker.pending_ (worker_ w') = Worker.pending_ (worker_ w) ++ [UniqueFd.MkUniqueFd fd])) ->
  accepted_all cap results srv1 e o m1 s' -> accepted_all cap (accepted fd sock :: results) srv e o m s'.
Proof.
  intros srv1 Hok Hstop Hidx Hi [Hfed Hfds] Hq (srv' & m' & -> & Hok' & Hsame & Hlen & Hf & Hnext & Hall).
  assert (0 < zlen (workers_ srv)) as Hn by (pose proof (lookup_lt_Some _ _ _ Hi); lia).
  pose proof (Z.mod_pos_bound (next_worker_ srv) _ Hn) as Hmod.
  assert (dealing srv m -> dealing srv1 m1) as Hd.
  { intros (D1 & D2 & D3). destruct (Hq D1) as [? _]. split_and!; [done|done|]. intros j wj Hj. simpl in Hj.
    destruct (decide (j = i)) as [->|Hne].
    - rewrite list_lookup_insert_eq in Hj by (by eapply lookup_lt_Some). injection Hj as <-. destruct Hfed as (_ & -> & _). by eapply D3.
    - rewrite list_lookup_insert_ne in Hj by done. by eapply D3. }
  exists srv', m'. split_and!; [done|done| | | | |].
  - rewrite Hsame. done.
  - rewrite Hlen. simpl. apply length_insert.
  - rewrite Hf. unfold srv1. rewrite (set_slot_fds _ _ w) by done. done.
  - intros D. rewrite (Hnext (Hd D)). simpl. rewrite u64_add_l. f_equal. simpl length. lia.
  - intros j wj Hj. cbn [taken deal]. destruct (decide (j = i)) as [->|Hne].
    + simplify_eq. destruct (Hall (Z.to_nat (next_worker_ srv mod zlen (workers_ srv))) w') as (w2 & H1 & H2 & H3).
      { simpl. by rewrite list_lookup_insert_eq by (by eapply lookup_lt_Some). }
      exists w2. split_and!; [done|..].
      { eapply fed_trans; [eapply fed_mono; [|exact Hfed]|eapply fed_mono; [|exact H2]]; set_solver. }
      intros D. rewrite (H3 (Hd D)).
      destruct D as (D1 & _ & D3). destruct (Hq D1) as [_ Hp]. rewrite Hp by (by eapply D3). rewrite fmap_app, <- app_assoc.
      f_equal. rewrite Z2Nat.id by lia. rewrite Z.eqb_refl. simpl. by rewrite length_insert.
    + destruct (Hall j wj) as (w2 & H1 & H2 & H3); [simpl; by rewrite list_lookup_insert_ne by done|].
      exists w2. split_and!; [done|eapply fed_mono; [|exact H2]; set_solver|].
      intros D. rewrite (H3 (Hd D)). rewrite fmap_app. f_equal.
      rewrite (proj2 (Z.eqb_neq _ _)) by lia. simpl. by rewrite length_insert.
Qed.

Lemma accept_connections_wp cap results srv e o m :
  server_ok hash cap srv e o -> NoDup (taken results) -> (forall fd, fd ∈ taken results -> free_fd fd srv) ->
  wp (accept_connections results) (srv, (e, (o, m))) (post (fun _ => accepted_all cap results srv e o m) (fun _ _ => False)).
Proof.
  revert srv m. induction results as [|r results IH]; intros srv m Hok Hnd Hfree; cbn [accept_connections].
  all: apply wp_bind, wp_on_fst, wp_read; cbn beta iota; destruct (stop_requested_ srv) eqn:Hstop;
    [apply wp_ret, accepted_none; auto|].
  { apply wp_ret, accepted_none; auto. }
  destruct r as [fd sock| | |].
  - cbn [taken] in *. apply NoDup_cons in Hnd as [Hfd Hnd]. destruct (turn_lookup _ _ _ _ Hok) as [w Hw]. cbn zeta.
    set (i := Z.to_nat (next_worker_ srv mod zlen (workers_ srv))) in *.
    apply wp_bind, wp_on_fst, wp_modify. cbn beta iota. set (srv0 := set_next_worker (u64 (next_worker_ srv + 1)) srv).
    assert (server_ok hash cap srv0 e o) as Hok0.
    { destruct Hok. constructor; try done. simpl. apply u64_range. }
    apply wp_bind_assoc. eapply wp_bind_post; [apply (accept_one_wp cap srv0 e o m i w fd sock Hok0 Hw)| |done].
    { destruct (Hfree fd) as (F1 & F2 & F3); [left|]. by split_and!. }
    intros [] s1 (w' & m1 & -> & Hok1 & Hh & Hq). eapply wp_post_mono; [apply (IH _ _ Hok1 Hnd)| |done].
    + intros fd1 H1. apply (free_fd_kept fd _ i w); [done|done|by intros ->|].
      destruct (Hfree fd1) as (F1 & F2 & F3); [by right|]. by split_and!.
    + intros [] s'. by eapply accepted_cons.
  - eapply wp_post_mono; [by apply IH|done|done].
  - eapply wp_post_mono; [by apply IH|done|done].
  - apply wp_ret, accepted_none; auto.
Qed.
End server.
