(* ===== verification/AllocatorTheorems.v ===== *)
(** * What the value allocators guarantee *)
From S2P Require Import Prelude ErrorModel Effects MemoryModel AllocatorModel SystemAllocatorModel.
From S2P Require Import SlabAllocatorModel SlabAllocatorFacts ValueAllocatorModel.
Import Memory.

(** C17: the slab allocator hands out fresh memory: an allocation of [n > 0] bytes
    is a block disjoint from every live one, inside live storage and holding at
    least [n] bytes; the contents of the live values are unchanged, and a failed
    allocation changes neither them nor the accounting. No free-list pointer is
    ever read from memory that a value overwrote. *)
Theorem slab_allocate_correct a m L fs n :
  slab_owns a m L -> 0 <= n ->
  wp (SlabAllocator.allocate n) (a, MkEnv m fs) (post
    (fun r s => (r = None <-> n = 0) /\
       slab_owns s.1 (mem s.2) (with_allocation r n L) /\ same_contents L m (mem s.2) /\
       (forall p, r = Some p -> L !! p = None /\ in_bounds (mem s.2) p n = true /\
          forall q k, L !! q = Some k -> disjoint_ranges p n q k))
    (fun x s => x = bad_alloc /\ slab_owns s.1 (mem s.2) L /\ same_contents L m (mem s.2))).
Proof.
  intros Ho Hn. eapply wp_post_mono; [by apply slab_allocate_spec|..]; [|done].
  intros r s (Hr & Hfresh & Ho' & Hs). split_and!; [done|done|done|]. intros p ->.
  pose proof (Hfresh p eq_refl) as Hp. simpl in Ho'. split_and!; [done| |].
  - eapply (owns_live (ValueAllocatorLaws := slab_allocator_laws) s.1); [exact Ho'|apply lookup_insert_eq].
  - intros q k Hq. assert (p <> q) by congruence.
    eapply (owns_disjoint (ValueAllocatorLaws := slab_allocator_laws) s.1); [exact Ho'|apply lookup_insert_eq| |done].
    by rewrite lookup_insert_ne.
Qed.

(** 8000 bytes from a fresh allocator: a block of the 8192-byte class. *)
Lemma slab_allocate_correct_witness :
  exists s, SlabAllocator.allocate 8000 (SlabAllocator.init, MkEnv empty_memory []) =
      (Ret (Some (0%N, 127 * 8192)), s) /\ in_bounds (mem s.2) (0%N, 127 * 8192) 8000 = true.
Proof.
  pose proof (slab_allocate_correct SlabAllocator.init empty_memory ∅ [] 8000 slab_init_owns ltac:(lia)) as H.
  unfold wp in H. destruct (SlabAllocator.allocate _ _) as [o s] eqn:E.
  assert (o = Ret (Some (0%N, 127 * 8192))) as ->.
  { transitivity (SlabAllocator.allocate 8000 (SlabAllocator.init, MkEnv empty_memory [])).1; [by rewrite E|].
    vm_compute. reflexivity. }
  exists s. split; [reflexivity|]. cbn [fst snd post] in H. destruct H as (_ & _ & _ & H).
  destruct (H _ eq_refl) as (_ & Hb & _). exact Hb.
Defined.

(** Returning a live value to the slab allocator never fails an assertion,
    frees exactly that value, and leaves every other value's contents alone. *)
Theorem slab_deallocate_correct a m L fs r n :
  slab_owns a m L -> holds_allocation L r n ->
  wp (SlabAllocator.deallocate r n) (a, MkEnv m fs) (post
    (fun _ s => slab_owns s.1 (mem s.2) (without_allocation r L) /\
       same_contents (without_allocation r L) m (mem s.2))
    (fun _ _ => False)).
Proof. apply slab_deallocate_spec. Qed.

(** A live 8000-byte value, and its release. *)
Definition sample_slab : SlabAllocator.t * env :=
  (SlabAllocator.allocate 8000 (SlabAllocator.init, MkEnv empty_memory [])).2.

Lemma sample_slab_owns :
  slab_owns sample_slab.1 (mem sample_slab.2) (<[(0%N, 127 * 8192) := 8000]> ∅).
Proof.
  pose proof (slab_allocate_spec SlabAllocator.init empty_memory ∅ [] 8000 slab_init_owns ltac:(lia)) as H.
  unfold wp in H. unfold sample_slab. destruct (SlabAllocator.allocate _ _) as [o s] eqn:E.
  assert (o = Ret (Some (0%N, 127 * 8192))) as ->.
  { transitivity (SlabAllocator.allocate 8000 (SlabAllocator.init, MkEnv empty_memory [])).1; [by rewrite E|].
    vm_compute. reflexivity. }
  apply H.
Qed.

Lemma slab_deallocate_correct_witness :
  wp (SlabAllocator.deallocate (Some (0%N, 127 * 8192)) 8000)
    (sample_slab.1, MkEnv (mem sample_slab.2) []) (post
    (fun _ s => slab_owns s.1 (mem s.2) (delete (0%N, 127 * 8192) (<[(0%N, 127 * 8192) := 8000]> ∅)) /\
       same_contents (delete (0%N, 127 * 8192) (<[(0%N, 127 * 8192) := 8000]> ∅)) (mem sample_slab.2) (mem s.2))
    (fun _ _ => False)).
Proof.
  apply (slab_deallocate_correct sample_slab.1 (mem sample_slab.2) (<[(0%N, 127 * 8192) := 8000]> ∅) []
    (Some (0%N, 127 * 8192)) 8000 sample_slab_owns).
  apply lookup_insert_eq.
Defined.

(** The metrics of the slab allocator balance: used bytes are the sizes of the
    live values, internal fragmentation is what their size classes round up, and
    reserved memory is exactly used + free + fragmentation, all of it on the heap. *)
Theorem slab_metrics_exact a m L :
  slab_owns a m L ->
  let x := SlabAllocator.metrics_ a in
  used_bytes x = msum snd L /\
  internal_fragmentation x = msum (fun kv => fragmentation kv.2) L /\
  allocated_bytes x = used_bytes x + free_bytes x + internal_fragmentation x /\
  allocated_bytes x = heap_bytes m /\ 0 <= free_bytes x /\
  u64 (allocation_count x - deallocation_count x) = u64 (Z.of_nat (size L)).
Proof.
  intros (B & F & _ & [A1 A2 [A3 A3'] A4 A5 A6 A7] & _). simpl. split_and!; try done; lia.
Qed.

Lemma slab_metrics_exact_witness :
  used_bytes (SlabAllocator.metrics_ sample_slab.1) = 8000 /\
  internal_fragmentation (SlabAllocator.metrics_ sample_slab.1) = 192.
Proof.
  destruct (slab_metrics_exact sample_slab.1 (mem sample_slab.2) _ sample_slab_owns) as (H1 & H2 & _).
  rewrite H1, H2. split; vm_compute; reflexivity.
Defined.

(** The size class of a request is the smallest that is large enough, and
    [allocation_size] reports it; larger requests are not rounded. *)
Theorem slab_class_smallest n :
  0 < n ->
  exists s, SlabAllocator.allocation_size n = Some s /\ n <= s /\
    (n <= largest_class -> s ∈ size_classes /\ forall c, c ∈ size_classes -> n <= c -> s <= c) /\
    (largest_class < n -> s = n).
Proof.
  intros Hn. unfold SlabAllocator.allocation_size. rewrite (proj2 (Z.eqb_neq n 0)) by lia. rewrite Z.gtb_ltb.
  destruct (Z.ltb_spec largest_class n) as [Hl|Hl]; simpl orb.
  - exists n. split_and!; [done|lia|lia|done].
  - destruct (class_index_some n ltac:(lia)) as (i & s & _ & Hs & Hi & Hle & Hmin). exists s. simpl.
    split_and!; [done|done| |lia]. intros _. split; [by eapply list_elem_of_lookup_2|].
    intros c Hc Hnc. apply list_elem_of_lookup in Hc as [j Hj].
    destruct (Nat.lt_ge_cases j i) as [Hji|Hji]; [specialize (Hmin j c Hji Hj); lia|].
    clear -Hi Hj Hji. unfold size_classes in *.
    repeat (destruct j as [|j]; [simpl in Hj; injection Hj as <-;
      repeat (destruct i as [|i]; [simpl in Hi; injection Hi as <-; lia|]); lia|]). done.
Qed.

Lemma slab_class_smallest_witness : exists s, SlabAllocator.allocation_size 65 = Some s /\ 65 <= s.
Proof.
  destruct (slab_class_smallest 65 ltac:(lia)) as (s & H1 & H2 & _). exists s. split; [exact H1|exact H2].
Defined.

(** C34: both backends of [make_value_allocator], and the allocator behind a
    [ValueAllocator &] whatever its dynamic type, keep the contract the cache
    relies on: allocation gives a fresh block and keeps all contents; release of a
    live block cannot fail; reserved = used + free + fragmentation; and once nothing
    is live, destruction leaves the heap empty. *)
Theorem value_allocator_contract (a : AnyAllocator.t) m L fs :
  any_owns a m L ->
  metrics_match (AnyAllocator.metrics a) L /\
  (forall n, 0 <= n -> wp (AnyAllocator.allocate n) (a, MkEnv m fs) (post
    (fun r s => (r = None <-> n = 0) /\ (forall p, r = Some p -> L !! p = None) /\
       any_owns s.1 (mem s.2) (with_allocation r n L) /\ same_contents L m (mem s.2))
    (fun x s => x = bad_alloc /\ any_owns s.1 (mem s.2) L /\ same_contents L m (mem s.2)))) /\
  (forall r n, holds_allocation L r n -> wp (AnyAllocator.deallocate r n) (a, MkEnv m fs) (post
    (fun _ s => any_owns s.1 (mem s.2) (without_allocation r L) /\
       same_contents (without_allocation r L) m (mem s.2))
    (fun _ _ => False))) /\
  (L = ∅ -> wp AnyAllocator.destroy (a, MkEnv m fs) (post
    (fun _ s => heap_bytes (mem s.2) = 0) (fun _ _ => False))).
Proof.
  intros Ho. split_and!.
  - exact (owns_metrics (ValueAllocatorLaws := any_allocator_laws) a m L Ho).
  - intros n Hn. exact (allocate_spec (ValueAllocatorLaws := any_allocator_laws) a m L fs n Ho Hn).
  - intros r n Hr. exact (deallocate_spec (ValueAllocatorLaws := any_allocator_laws) a m L fs r n Ho Hr).
  - intros ->. exact (destroy_spec (ValueAllocatorLaws := any_allocator_laws) a m fs Ho).
Qed.

Lemma value_allocator_contract_witness :
  metrics_match (AnyAllocator.metrics (make_value_allocator slab)) ∅ /\
  metrics_match (AnyAllocator.metrics (make_value_allocator system)) ∅.
Proof.
  split.
  - exact (proj1 (value_allocator_contract (make_value_allocator slab) empty_memory ∅ []
      (make_value_allocator_owns slab))).
  - exact (proj1 (value_allocator_contract (make_value_allocator system) empty_memory ∅ []
      (make_value_allocator_owns system))).
Defined.

(** The names of the allocator backends parse back to the backends, and no
    other text does. *)
Theorem backend_name_roundtrip text b :
  parse_allocator_backend text = Ret b <-> text = backend_to_string b.
Proof.
  unfold parse_allocator_backend. split.
  - destruct (bool_decide (text = lit "system")) eqn:H1; zsimp; [by intros [= <-]|].
    destruct (bool_decide (text = lit "slab")) eqn:H2; zsimp; [by intros [= <-]|done].
  - intros ->. destruct b; reflexivity.
Qed.
