(* ===== verification/TimerTheorems.v ===== *)
(** * What the timing wheel guarantees *)
From S2P Require Import Prelude ErrorModel Effects MemoryModel TimingWheelModel TimingWheelFacts.
Import Memory.

(** One turn of the wheel: [tick] returns exactly the events that were due on
    the next tick and takes a tick off every other one; an exception leaves the
    wheel as it was. *)
Theorem wheel_tick_correct w e :
  wheel_ok w ->
  wp TimingWheel.tick (w, e) (post
    (fun expired s => wheel_ok s.1 /\
       (fun ev => (TimerEvent.key ev, TimerEvent.generation ev, 1)) <$> expired =
         filter (fun x => x.2 = 1) (pending w) /\
       pending s.1 = decrement <$> filter (fun x => 1 < x.2) (pending w))
    (fun x s => x = bad_alloc /\ s.1 = w)).
Proof. intros Hw. apply tick_wp; [done|by intros|by intros]. Qed.

Lemma wheel_tick_correct_witness :
  wheel_ok TimingWheel.init /\
  wp TimingWheel.tick (TimingWheel.init, MkEnv empty_memory []) (post
    (fun expired s => wheel_ok s.1 /\
       (fun ev => (TimerEvent.key ev, TimerEvent.generation ev, 1)) <$> expired = [] /\ pending s.1 = [])
    (fun x s => x = bad_alloc /\ s.1 = TimingWheel.init)).
Proof.
  split; [exact wheel_init_ok|].
  exact (wheel_tick_correct TimingWheel.init (MkEnv empty_memory []) wheel_init_ok).
Defined.

(** The lists that [n] ticks return. *)
Fixpoint tick_times (n : nat) : M (TimingWheel.t * env) (list (list TimerEvent.t)) :=
  match n with
  | O => ret []
  | S n => evs <- TimingWheel.tick ;; rest <- tick_times n ;; ret (evs :: rest)
  end.

Lemma pending_decrement k g d (l : list countdown) :
  0 < d -> (k, g, d) ∈ (decrement <$> filter (fun x => 1 < x.2) l) <-> (k, g, d + 1) ∈ l.
Proof.
  intros Hd. rewrite list_elem_of_fmap. split.
  - intros ([[k' g'] d'] & [= -> -> ->] & Hin). apply list_elem_of_filter in Hin as [_ Hin].
    simpl in Hin. by replace (d' - 1 + 1) with d' by lia.
  - intros Hin. exists (k, g, d + 1). split; [unfold decrement; simpl; f_equal; lia|].
    apply list_elem_of_filter. simpl. split; [lia|done].
Qed.

Lemma tick_times_wp n w e :
  wheel_ok w ->
  wp (tick_times n) (w, e) (post
    (fun ls _ => length ls = n /\ forall j evs k g, ls !! j = Some evs ->
       (exists ev, ev ∈ evs /\ TimerEvent.key ev = k /\ TimerEvent.generation ev = g) <->
       (k, g, Z.of_nat j + 1) ∈ pending w)
    (fun x _ => x = bad_alloc)).
Proof.
  revert w e. induction n as [|n IH]; intros w e Hw; simpl; [by apply wp_ret|].
  apply wp_bind, tick_wp; [done| |done]. intros w' expired fs Hw' Hexp Hp.
  eapply wp_bind_post; [apply (IH w' _ Hw')|..]; [|done].
  intros ls [w'' e''] [Hlen Hls]. apply wp_ret. simpl. split; [by rewrite Hlen|].
  intros [|j] evs k g Hj; simpl in Hj.
  - injection Hj as <-. transitivity ((k, g, 1) ∈ filter (fun x => x.2 = 1) (pending w)).
    + rewrite <- Hexp, list_elem_of_fmap. split.
      * intros (ev & Hin & <- & <-). by exists ev.
      * intros (ev & [= -> ->] & Hin). by exists ev.
    + rewrite list_elem_of_filter. simpl. tauto.
  - rewrite (Hls j evs k g Hj), Hp, pending_decrement by lia.
    replace (Z.of_nat (S j) + 1) with (Z.of_nat j + 1 + 1) by lia. done.
Qed.

(** Timers are exact: an event scheduled with a TTL fires on the tick whose
    number is the TTL in seconds rounded up, on no other, across any number of
    turns of the 60-slot wheel and whatever else is scheduled. *)
Theorem wheel_fires_exactly w e k g ttl n :
  wheel_ok w -> 0 < ttl <= i64_max -> g ∉ (fun x => x.1.2) <$> pending w ->
  wp (TimingWheel.schedule k g ttl ;; tick_times n) (w, e) (post
    (fun ls _ => forall j evs, ls !! j = Some evs ->
       (exists ev, ev ∈ evs /\ TimerEvent.key ev = k /\ TimerEvent.generation ev = g) <->
       1000 * Z.of_nat j < ttl <= 1000 * (Z.of_nat j + 1))
    (fun x _ => x = bad_alloc)).
Proof.
  intros Hw Ht Hg. apply wp_bind, schedule_wp; [done|done| |done]. intros w' fs Hw' Hp.
  eapply wp_post_mono; [apply (tick_times_wp n w' _ Hw')|..]; [|done].
  intros ls s [_ Hls] j evs Hj. rewrite (Hls j evs k g Hj), Hp, elem_of_cons.
  destruct (ticks_of_ceil ttl Ht) as [Hc _]. split.
  - intros [[= Heq]|Hin]; [lia|]. destruct Hg. by apply (list_elem_of_fmap_2 (fun x => x.1.2) _ _ Hin).
  - intros Hj'. left. f_equal. lia.
Qed.

Lemma wheel_fires_exactly_witness :
  exists ls s, (TimingWheel.schedule (lit "a") 1 61000 ;; tick_times 62) (TimingWheel.init, MkEnv empty_memory []) =
      (Ret ls, s) /\ forall evs, ls !! 60%nat = Some evs ->
    exists ev, ev ∈ evs /\ TimerEvent.key ev = lit "a" /\ TimerEvent.generation ev = 1.
Proof.
  pose proof (wheel_fires_exactly TimingWheel.init (MkEnv empty_memory []) (lit "a") 1 61000 62
    wheel_init_ok ltac:(unfold i64_max; lia) ltac:(rewrite pending_init; apply not_elem_of_nil)) as H.
  unfold wp in H. destruct ((TimingWheel.schedule (lit "a") 1 61000 ;; tick_times 62) _) as [[ls|x|] s] eqn:E.
  - exists ls, s. split; [reflexivity|]. intros evs Hj. apply (H _ _ Hj). lia.
  - exfalso. revert E. vm_compute. discriminate.
  - destruct H.
Defined.
