(* ===== verification/CacheTheorems.v ===== *)
(** * What the cache guarantees

    The refinement of each operation of [Cache], and what follows from it for
    sequences of operations: reads see writes, lifetimes are exact, evictions are
    minimal. *)
From S2P Require Import Prelude ErrorModel Effects MemoryModel AllocatorModel.
From S2P Require Import ValueAllocatorModel TimingWheelModel CacheEntryModel CacheModel LruSpec.
From S2P Require Import CacheEntryFacts CacheRep CacheSteps CacheFacts CacheTickFacts ProgressFacts SampleStates.
Import Memory.

Section theorems.
Context {A : Type} {VA : ValueAllocator A} {VL : ValueAllocatorLaws A}.
Implicit Types (s : Cache.state (A := A)).

(** C2: from a cache that holds [items], [Cache::set] never reaches undefined
    behaviour (no failed assertion, dangling iterator, bad free or out-of-bounds
    access). When it returns, the status and the new contents are those of the
    abstract LRU cache and the eviction counter advanced by the items evicted;
    when it throws (memory or generations exhausted), nothing but the least recent
    items was lost, and nothing at all if the key was present. *)
Theorem cache_set_refines cap s items k v ttl :
  cache_holds cap s items -> ttl <= i64_max ->
  wp (Cache.set k v ttl) s (post
    (fun st s' => exists items', Lru.set cap k v ttl items = (st, items') /\
       cache_holds cap s' items' /\ counted 0 0 (evictions st k items items') 0 s.1 s'.1)
    (fun x s' => cache_exn x /\ exists items', items' `prefix_of` items /\
       (Lru.lookup k items <> None -> items' = items) /\ cache_holds cap s' items' /\
       counted 0 0 (zlen items - zlen items') 0 s.1 s'.1)).
Proof. intros Hh Ht. by apply set_wp. Qed.

(** C10: [Cache::get] returns the status and value of the abstract cache, makes a
    hit the most recent item, leaves the output parameter alone otherwise, and
    counts the hit or the miss; an exception changes nothing. *)
Theorem cache_get_refines cap s items k output :
  cache_holds cap s items ->
  wp (Cache.get k output) s (post
    (fun r s' => exists ov items', Lru.get k items = (r.1, ov, items') /\
       r.2 = default output ov /\ cache_holds cap s' items' /\
       counted (if decide (r.1 = ok) then 1 else 0) (if decide (r.1 = not_found) then 1 else 0)
         0 0 s.1 s'.1)
    (fun x s' => x = bad_alloc /\ cache_holds cap s' items /\ s'.1 = s.1)).
Proof. apply get_wp. Qed.

(** [Cache::erase] removes exactly the item of its key and reports whether
    there was one; an exception changes nothing. *)
Theorem cache_erase_refines cap s items k :
  cache_holds cap s items ->
  wp (Cache.erase k) s (post
    (fun st s' => exists items', Lru.erase k items = (st, items') /\ cache_holds cap s' items' /\
       counted 0 0 0 0 s.1 s'.1)
    (fun x s' => x = bad_alloc /\ cache_holds cap s' items /\ s'.1 = s.1)).
Proof. apply erase_wp. Qed.

(** C11: [Cache::tick] ages every item by one second: exactly the items with one
    second left go, and are counted as expired, whatever stale timer events of
    overwritten, deleted or evicted items the wheel still holds. *)
Theorem cache_tick_refines cap s items :
  cache_holds cap s items ->
  wp Cache.tick s (post
    (fun _ s' => cache_holds cap s' (Lru.tick items) /\
       counted 0 0 0 (zlen items - zlen (Lru.tick items)) s.1 s'.1)
    (fun x s' => x = bad_alloc /\ s'.1 = s.1 /\ cache_holds cap s' items)).
Proof. apply cache_tick_wp. Qed.

(** The destructor of a cache returns every value to the allocator: no
    allocation is left, none is freed twice, and it cannot fail. *)
Theorem cache_destroy_frees_all cap s items :
  cache_holds cap s items ->
  wp Cache.destroy s (post (fun _ s' => owns s'.2.1 (mem s'.2.2) ∅) (fun _ _ => False)).
Proof.
  intros Hh. eapply wp_post_mono; [by eapply destroy_all_wp|..]; [|done].
  intros _ s' (L & Ho & Hp). simpl. apply Permutation_nil_r, map_to_list_empty_iff in Hp. by subst.
Qed.

(** The observers tell the truth: the size is the number of items, the memory
    usage is the sum of key and value bytes and never exceeds the capacity, and
    the allocator's used bytes are exactly the bytes of the live values. *)
Theorem cache_observers_exact cap s items :
  cache_holds cap s items ->
  Cache.size s.1 = zlen items /\ Cache.empty s.1 = bool_decide (items = []) /\
  Cache.capacity_bytes s.1 = cap /\
  Cache.memory_usage_bytes s.1 = Lru.usage items /\ Lru.usage items <= cap /\
  used_bytes (metrics s.2.1) = zsum (fun x => zlen (Lru.i_value x)) items /\
  NoDup (Lru.i_key <$> items).
Proof.
  intros Hh. destruct (cache_holds_usage _ _ _ Hh) as [Hu Hle]. split_and!.
  - by eapply cache_holds_size.
  - by eapply cache_holds_empty.
  - by eapply cache_holds_cap.
  - done.
  - done.
  - by eapply cache_holds_used.
  - by eapply cache_holds_items.
Qed.

(** ** Evictions *)

Lemma fit_spec T items :
  exists gone, Lru.fit T items ++ gone = items /\
    (forall x rest, gone = x :: rest -> T < Lru.usage (Lru.fit T items ++ [x])).
Proof.
  revert T. induction items as [|y items IH]; intros T; simpl; [by exists []|].
  destruct (Z.leb_spec (Lru.charge y) T) as [Hy|Hy].
  - destruct (IH (T - Lru.charge y)) as (gone & Hg & Hlt). exists gone. split; [simpl; by rewrite Hg|].
    intros x rest Hx. specialize (Hlt x rest Hx). unfold Lru.usage in *. simpl. lia.
  - exists (y :: items). split; [done|]. intros x rest [= <- <-]. unfold Lru.usage. simpl. lia.
Qed.

(** A SET that returns [ok] evicts no more than it must, from the least recent
    end: the kept items and the evicted ones are, in order, the other items; the
    result fits, and with the most recent of the evicted items back it would not. *)
Theorem cache_set_evicts_minimum cap s items k v ttl :
  cache_holds cap s items -> ttl <= i64_max ->
  wp (Cache.set k v ttl) s (post
    (fun st s' => st = ok -> exists kept gone, kept ++ gone = Lru.remove k items /\
       cache_holds cap s' (Lru.MkItem k v (Lru.lifetime ttl) :: kept) /\
       zlen k + zlen v + Lru.usage kept <= cap /\
       (forall x rest, gone = x :: rest -> cap < zlen k + zlen v + Lru.usage (kept ++ [x])) /\
       counted 0 0 (zlen gone) 0 s.1 s'.1)
    (fun _ _ => True)).
Proof.
  intros Hh Ht. eapply wp_post_mono; [by apply set_wp|..]; [|done].
  intros st s' (items' & Hs & Hh' & Hc) ->. unfold Lru.set in Hs. repeat case_decide; simplify_eq/=; try done.
  destruct (fit_spec (cap - (zlen k + zlen v)) (Lru.remove k items)) as (gone & Hg & Hlt).
  eexists _, gone. split_and!; [exact Hg|done| |..].
  - pose proof (fit_usage (cap - (zlen k + zlen v)) (Lru.remove k items)). lia.
  - intros x rest Hx. specialize (Hlt x rest Hx). lia.
  - unfold evictions in Hc. rewrite decide_True in Hc by done. simpl in Hc.
    rewrite <- Hg in Hc at 1. rewrite length_app in Hc.
    replace (zlen gone) with (1 + Z.of_nat (length (Lru.fit (cap - (zlen k + zlen v)) (Lru.remove k items)) + length gone)
      - Z.of_nat (S (length (Lru.fit (cap - (zlen k + zlen v)) (Lru.remove k items))))) by lia. done.
Qed.

(** ** Lifetimes *)

Fixpoint ticks (n : nat) : M (Cache.state (A := A)) unit :=
  match n with
  | O => ret tt
  | S n => Cache.tick ;; ticks n
  end.

Lemma ticks_wp cap n s items :
  cache_holds cap s items ->
  wp (ticks n) s (post (fun _ s' => cache_holds cap s' (Nat.iter n Lru.tick items)) (fun _ _ => True)).
Proof.
  revert s items. induction n as [|n IH]; intros s items Hh; simpl; [by apply wp_ret|].
  eapply wp_bind_post; [by apply cache_tick_wp|..]; [|done].
  intros _ s' [Hh' _]. eapply wp_post_mono; [by apply IH|..]; [|done].
  intros [] s''; simpl. by rewrite <- Nat.iter_succ_r.
Qed.

(** Ageing the first item, whose key is in no other. *)
Lemma iter_tick_first n k v d items :
  k ∉ Lru.i_key <$> items ->
  Lru.lookup k (Nat.iter n Lru.tick (Lru.MkItem k v d :: items)) =
    match d with
    | None => Some (Lru.MkItem k v None)
    | Some d => if (n =? 0)%nat then Some (Lru.MkItem k v (Some d))
                else if Z.of_nat n <? d then Some (Lru.MkItem k v (Some (d - Z.of_nat n))) else None
    end.
Proof.
  assert (forall l, k ∉ Lru.i_key <$> l -> k ∉ Lru.i_key <$> Lru.tick l) as Htick.
  { intros l Hl Hin. apply Hl. apply list_elem_of_fmap in Hin as (x & -> & Hx).
    apply list_elem_of_omap in Hx as (y & Hy & Ha). apply list_elem_of_fmap. exists y. split; [|done].
    unfold Lru.age in Ha. destruct (Lru.i_ttl y); [|by simplify_eq]. by destruct (_ <=? _); simplify_eq. }
  revert d items. induction n as [|n IH]; intros d items Hk.
  { simpl. unfold Lru.lookup. simpl. rewrite decide_True by done. by destruct d. }
  rewrite Nat.iter_succ_r. simpl. unfold Lru.age at 1. simpl. destruct d as [d|].
  - destruct (Z.leb_spec d 1) as [H1|H1].
    + rewrite (proj2 (Z.ltb_ge (Z.of_nat (S n)) d)) by lia.
      assert (forall n l, k ∉ Lru.i_key <$> l -> k ∉ Lru.i_key <$> Nat.iter n Lru.tick l) as Hit.
      { clear -Htick. induction n as [|n IH]; intros l Hl; simpl; auto. }
      apply (keyed_find_none Lru.i_key). by apply Hit, Htick.
    + rewrite IH by (by apply Htick). destruct (Nat.eqb_spec n 0) as [->|Hn].
      * rewrite (proj2 (Z.ltb_lt _ _)) by lia. done.
      * destruct (Z.ltb_spec (Z.of_nat n) (d - 1)), (Z.ltb_spec (Z.of_nat (S n)) d); try lia; [|done].
        do 3 f_equal. lia.
  - by rewrite IH by (by apply Htick).
Qed.

(** C28: lifetimes are exact: after a SET with a TTL of [ttl] milliseconds that
    returned [ok] and [n] ticks of one second, GET finds the value if the TTL is 0
    (no limit) or more than [n] seconds, and reports [not_found] otherwise. *)
Theorem cache_expires_exactly cap s items k v ttl n :
  cache_holds cap s items -> ttl <= i64_max ->
  wp (st <- Cache.set k v ttl ;; ticks n ;; r <- Cache.get k [] ;; ret (st, r)) s (post
    (fun r _ => r.1 = ok ->
       r.2 = if (ttl =? 0) || (1000 * Z.of_nat n <? ttl) then (ok, v) else (not_found, []))
    (fun _ _ => True)).
Proof.
  intros Hh Ht. eapply wp_bind_post; [by apply set_wp|..]; [|done].
  intros st s1 (items1 & Hs & Hh1 & _).
  eapply wp_bind_post; [by apply (ticks_wp cap n)|..]; [|done].
  intros [] s2 Hh2. eapply wp_bind_post; [by apply (get_wp cap)|..]; [|done].
  intros [st' v'] s3 (ov & items3 & Hg & Hv & _ & _). apply wp_ret. simpl in *. intros ->. subst v'.
  unfold Lru.set in Hs. destruct (decide (Lru.key_status k <> ok)) as [Hk|Hk]; [simplify_eq; done|].
  repeat case_decide; simplify_eq/=. unfold Lru.get in Hg. rewrite decide_False in Hg by done.
  rewrite iter_tick_first in Hg.
  2: { intros Hin. apply list_elem_of_fmap in Hin as (y & -> & Hy).
       destruct (fit_prefix (cap - (zlen (Lru.i_key y) + zlen v)) (Lru.remove (Lru.i_key y) items)) as [z Hz].
       assert (y ∈ Lru.remove (Lru.i_key y) items) as Hy' by (rewrite Hz; apply elem_of_app; by left).
       by apply list_elem_of_filter in Hy' as [? _]. }
  unfold Lru.lifetime in Hg. destruct (Z.eqb_spec ttl 0) as [->|Hz]; simpl; [by simplify_eq|].
  pose proof (Z.div_mod (ttl + 999) 1000 ltac:(lia)). pose proof (Z.mod_pos_bound (ttl + 999) 1000 ltac:(lia)).
  destruct (Nat.eqb_spec n 0) as [->|Hn].
  - rewrite (proj2 (Z.ltb_lt (1000 * Z.of_nat 0) ttl)) by lia. by simplify_eq.
  - destruct (Z.ltb_spec (Z.of_nat n) ((ttl + 999) / 1000)), (Z.ltb_spec (1000 * Z.of_nat n) ttl); try lia; by simplify_eq.
Qed.

(** ** Sequences of operations *)

Inductive command := CSet (k v : bytes) (ttl : Z) | CGet (k : bytes) | CErase (k : bytes) | CTick.

Inductive reply :=
| Status (st : CacheStatus) | Value (st : CacheStatus) (v : bytes) | Ticked | Threw (x : exn).

(** One command, with the caller's handler around it. *)
Definition run_command (cmd : command) : M (Cache.state (A := A)) reply :=
  try_catch
    match cmd with
    | CSet k v ttl => st <- Cache.set k v ttl ;; ret (Status st)
    | CGet k => r <- Cache.get k [] ;; ret (Value r.1 r.2)
    | CErase k => st <- Cache.erase k ;; ret (Status st)
    | CTick => Cache.tick ;; ret Ticked
    end (fun x => ret (Threw x)).

Fixpoint run_commands (cmds : list command) : M (Cache.state (A := A)) (list reply) :=
  match cmds with
  | [] => ret []
  | cmd :: cmds => r <- run_command cmd ;; rs <- run_commands cmds ;; ret (r :: rs)
  end.

(** What the abstract cache allows a command to do. *)
Inductive lru_step (cap : Z) : command -> list Lru.item -> reply -> list Lru.item -> Prop :=
| step_set k v ttl items st items' :
    Lru.set cap k v ttl items = (st, items') -> lru_step cap (CSet k v ttl) items (Status st) items'
| step_get k items st ov items' :
    Lru.get k items = (st, ov, items') -> lru_step cap (CGet k) items (Value st (default [] ov)) items'
| step_erase k items st items' :
    Lru.erase k items = (st, items') -> lru_step cap (CErase k) items (Status st) items'
| step_tick items : lru_step cap CTick items Ticked (Lru.tick items)
| step_throw cmd items x items' :
    cache_exn x -> items' `prefix_of` items ->
    ((forall k v ttl, cmd <> CSet k v ttl) -> items' = items) ->
    lru_step cap cmd items (Threw x) items'.

Inductive lru_steps (cap : Z) : list command -> list Lru.item -> list reply -> list Lru.item -> Prop :=
| steps_nil items : lru_steps cap [] items [] items
| steps_cons cmd cmds items r items1 rs items2 :
    lru_step cap cmd items r items1 -> lru_steps cap cmds items1 rs items2 ->
    lru_steps cap (cmd :: cmds) items (r :: rs) items2.

Lemma run_command_wp cap cmd s items :
  cache_holds cap s items -> (forall k v ttl, cmd = CSet k v ttl -> ttl <= i64_max) ->
  wp (run_command cmd) s (post
    (fun r s' => exists items', lru_step cap cmd items r items' /\ cache_holds cap s' items' /\
      (counters_ok s.1 -> counters_ok s'.1)) (fun _ _ => False)).
Proof.
  intros Hh Ht. unfold run_command.
  eapply (wp_try_catch _ _ _
    (fun r s' => exists items', lru_step cap cmd items r items' /\ cache_holds cap s' items' /\
      (counters_ok s.1 -> counters_ok s'.1))
    (fun x s' => exists items', lru_step cap cmd items (Threw x) items' /\ cache_holds cap s' items' /\
      (counters_ok s.1 -> counters_ok s'.1))); [|done|].
  2: { intros x s' H. by apply wp_ret. }
  destruct cmd as [k v ttl|k|k|].
  - eapply wp_bind_post; [apply set_wp; [done|by eapply Ht]|..].
    + intros st s' (items' & Hs & Hh' & [_ _ _ _ Hc]). apply wp_ret. exists items'. split; [by constructor|done].
    + intros x s' (Hx & items' & Hp & _ & Hh' & [_ _ _ _ Hc]). exists items'. split; [|done].
      apply step_throw; [done|done|]. intros H. by destruct (H k v ttl).
  - eapply wp_bind_post; [by apply get_wp|..].
    + intros [st v] s' (ov & items' & Hg & Hv & Hh' & [_ _ _ _ Hc]). simpl in *. subst v. apply wp_ret.
      exists items'. split; [by constructor|done].
    + intros x s' (-> & Hh' & Hs). exists items. split; [|by rewrite Hs]. apply step_throw; [by left|done|done].
  - eapply wp_bind_post; [by apply erase_wp|..].
    + intros st s' (items' & Hs & Hh' & [_ _ _ _ Hc]). apply wp_ret. exists items'. split; [by constructor|done].
    + intros x s' (-> & Hh' & Hs). exists items. split; [|by rewrite Hs]. apply step_throw; [by left|done|done].
  - eapply wp_bind_post; [by apply cache_tick_wp|..].
    + intros _ s' [Hh' [_ _ _ _ Hc]]. apply wp_ret. eexists. split; [by constructor|done].
    + intros x s' (-> & Hs & Hh'). exists items. split; [|by rewrite Hs]. apply step_throw; [by left|done|done].
Qed.

Lemma run_commands_wp cap cmds s items :
  cache_holds cap s items -> (forall k v ttl, CSet k v ttl ∈ cmds -> ttl <= i64_max) ->
  wp (run_commands cmds) s (post
    (fun rs s' => exists items', lru_steps cap cmds items rs items' /\ cache_holds cap s' items' /\
      (counters_ok s.1 -> counters_ok s'.1))
    (fun _ _ => False)).
Proof.
  revert s items. induction cmds as [|cmd cmds IH]; intros s items Hh Ht; simpl.
  { apply wp_ret. exists items. by split; [constructor|]. }
  eapply wp_bind_post; [apply (run_command_wp cap cmd s items Hh)|..]; [| |done].
  { intros k v ttl ->. eapply Ht. by left. }
  intros r s1 (items1 & Hstep & Hh1 & Hc1).
  eapply wp_bind_post; [apply (IH s1 items1 Hh1)|..]; [| |done].
  { intros k v ttl Hin. eapply Ht. by right. }
  intros rs s2 (items2 & Hsteps & Hh2 & Hc2). apply wp_ret. exists items2. split; [by econstructor|]. auto.
Qed.

(** C6: every sequence of operations on a cache, with any schedule of allocation
    failures and callers that go on after an exception, behaves as a run of the
    abstract LRU cache, and ends in a cache that holds the items of that run. *)
Theorem cache_runs_refine cap cmds s items :
  cache_holds cap s items -> (forall k v ttl, CSet k v ttl ∈ cmds -> ttl <= i64_max) ->
  wp (run_commands cmds) s (post
    (fun rs s' => exists items', lru_steps cap cmds items rs items' /\ cache_holds cap s' items')
    (fun _ _ => False)).
Proof.
  intros Hh Ht. eapply wp_post_mono; [by apply (run_commands_wp cap cmds s items)|..]; [|done].
  intros rs s' (items' & H1 & H2 & _). by exists items'.
Qed.

(** C18: commands are answered: with no allocation failure scheduled, room for one
    more slab in the address space and generations left, every command returns
    without an exception, with the reply and the contents of the abstract cache. *)
Theorem cache_answers {VP : AllocatorProgress A} cap cmd s items :
  cache_holds cap s items -> cache_ready s ->
  (forall k v ttl, cmd = CSet k v ttl -> ttl <= i64_max) ->
  exists r s' items', run_command cmd s = (Ret r, s') /\ (forall x, r <> Threw x) /\
    lru_step cap cmd items r items' /\ cache_holds cap s' items'.
Proof.
  intros Hh Hr Ht. assert (cache_quiet s) as Hq by exact (ready_quiet _ _ (proj1 Hr)).
  unfold run_command, try_catch, bind. destruct cmd as [k v ttl|k|k|].
  - destruct (calm_returns _ _ _ s _ _ (set_calm k v ttl) Hr (set_wp cap s items k v ttl Hh (Ht _ _ _ eq_refl)))
      as (st & s' & -> & (items' & Hs & Hh' & _) & _).
    eexists _, s', items'. split_and!; [reflexivity|done|by constructor|done].
  - destruct (calm_returns _ _ _ s _ _ (get_calm k []) Hq (get_wp cap s items k [] Hh))
      as ([st v] & s' & -> & (ov & items' & Hg & Hv & Hh' & _) & _). simpl in *. subst v.
    eexists _, s', items'. split_and!; [reflexivity|done|by constructor|done].
  - destruct (calm_returns _ _ _ s _ _ (erase_calm k) Hq (erase_wp cap s items k Hh))
      as (st & s' & -> & (items' & Hs & Hh' & _) & _).
    eexists _, s', items'. split_and!; [reflexivity|done|by constructor|done].
  - destruct (calm_returns _ _ _ s _ _ tick_calm Hq (cache_tick_wp cap s items Hh))
      as (st & s' & -> & [Hh' _] & _).
    eexists _, s', _. split_and!; [reflexivity|done|by constructor|done].
Qed.

End theorems.

(** ** Examples *)

(** The cache with [a = "xyz"] accepts [b = "w"]. *)
Lemma cache_set_refines_witness :
  exists s', Cache.set (lit "b") (lit "w") 0 sample_cache = (Ret ok, s') /\
    cache_holds 100 s' [Lru.MkItem (lit "b") (lit "w") None; sample_item].
Proof.
  pose proof (cache_set_refines 100 sample_cache [sample_item] (lit "b") (lit "w") 0
    sample_cache_holds ltac:(unfold i64_max; lia)) as H.
  witness_run H (Cache.set (A := AnyAllocator.t) (lit "b") (lit "w") 0) sample_cache (Ret ok).
  destruct H as (items & Hs & Hh & _). vm_compute in Hs. injection Hs as <-. exists s'. split; [reflexivity|exact Hh].
Defined.

Lemma cache_get_refines_witness :
  exists s', Cache.get (lit "a") [] sample_cache = (Ret (ok, lit "xyz"), s') /\
    cache_holds 100 s' [sample_item].
Proof.
  pose proof (cache_get_refines 100 sample_cache [sample_item] (lit "a") [] sample_cache_holds) as H.
  witness_run H (Cache.get (A := AnyAllocator.t) (lit "a") []) sample_cache (Ret (ok, lit "xyz")).
  destruct H as (ov & items & Hg & _ & Hh & _). vm_compute in Hg. injection Hg as <- <-. exists s'. split; [reflexivity|exact Hh].
Defined.

Lemma cache_erase_refines_witness :
  exists s', Cache.erase (lit "a") sample_cache = (Ret ok, s') /\ cache_holds 100 s' [].
Proof.
  pose proof (cache_erase_refines 100 sample_cache [sample_item] (lit "a") sample_cache_holds) as H.
  witness_run H (Cache.erase (A := AnyAllocator.t) (lit "a")) sample_cache (Ret ok).
  destruct H as (items & Hg & Hh & _). vm_compute in Hg. injection Hg as <-. exists s'. split; [reflexivity|exact Hh].
Defined.

Lemma cache_tick_refines_witness :
  exists s', Cache.tick sample_cache = (Ret tt, s') /\
    cache_holds 100 s' [Lru.MkItem (lit "a") (lit "xyz") (Some 1)].
Proof.
  pose proof (cache_tick_refines 100 sample_cache [sample_item] sample_cache_holds) as H.
  witness_run H (Cache.tick (A := AnyAllocator.t)) sample_cache (Ret tt).
  destruct H as (Hh & _). exists s'. split; [reflexivity|exact Hh].
Defined.

Lemma cache_destroy_frees_all_witness :
  exists s', Cache.destroy sample_cache = (Ret tt, s') /\ owns s'.2.1 (mem s'.2.2) ∅.
Proof.
  pose proof (cache_destroy_frees_all 100 sample_cache [sample_item] sample_cache_holds) as H.
  witness_run H (Cache.destroy (A := AnyAllocator.t)) sample_cache (Ret tt). exists s'. split; [reflexivity|exact H].
Defined.

Lemma cache_observers_exact_witness :
  Cache.size sample_cache.1 = 1 /\ Cache.memory_usage_bytes sample_cache.1 = 4 /\
  used_bytes (metrics sample_cache.2.1) = 3.
Proof.
  destruct (cache_observers_exact 100 sample_cache [sample_item] sample_cache_holds)
    as (H1 & _ & _ & H2 & _ & H3 & _).
  rewrite H1, H2, H3. split; [|split]; reflexivity.
Defined.

(** A value that leaves no room for [a]. *)
Lemma cache_set_evicts_minimum_witness :
  exists s' kept gone, Cache.set (lit "b") (replicate 96 Byte.x00) 0 sample_cache = (Ret ok, s') /\
    kept ++ gone = [sample_item] /\
    (forall x rest, gone = x :: rest -> 100 < 97 + Lru.usage (kept ++ [x])) /\
    counted 0 0 (zlen gone) 0 sample_cache.1 s'.1.
Proof.
  pose proof (cache_set_evicts_minimum 100 sample_cache [sample_item] (lit "b") (replicate 96 Byte.x00) 0
    sample_cache_holds ltac:(unfold i64_max; lia)) as H.
  witness_run H (Cache.set (A := AnyAllocator.t) (lit "b") (replicate 96 Byte.x00) 0) sample_cache (Ret ok).
  destruct (H eq_refl) as (kept & gone & Hk & _ & _ & Hg & Hc). exists s', kept, gone.
  split; [reflexivity|]. split; [exact Hk|]. split; [exact Hg|exact Hc].
Defined.

(** 1.5 seconds: still there after one tick. *)
Lemma cache_expires_exactly_witness :
  exists s', (st <- Cache.set (lit "c") (lit "v") 1500 ;; ticks 1 ;; r <- Cache.get (lit "c") [] ;; ret (st, r))
    sample_cache = (Ret (ok, (ok, lit "v")), s').
Proof.
  pose proof (cache_expires_exactly 100 sample_cache [sample_item] (lit "c") (lit "v") 1500 1
    sample_cache_holds ltac:(unfold i64_max; lia)) as H.
  witness_run H (st <- Cache.set (A := AnyAllocator.t) (lit "c") (lit "v") 1500 ;; ticks 1 ;;
    r <- Cache.get (lit "c") [] ;; ret (st, r)) sample_cache (Ret (ok, (ok, lit "v"))).
  exists s'. reflexivity.
Defined.

Lemma cache_runs_refine_witness :
  exists s' items', run_commands [CSet (lit "a") (lit "1") 1000; CTick; CGet (lit "a")] sample_cache =
      (Ret [Status ok; Ticked; Value not_found []], s') /\ cache_holds 100 s' items'.
Proof.
  assert (forall k v ttl, CSet k v ttl ∈ [CSet (lit "a") (lit "1") 1000; CTick; CGet (lit "a")] -> ttl <= i64_max) as Ht.
  { intros k v ttl Hin. rewrite !elem_of_cons, elem_of_nil in Hin.
    destruct Hin as [[= _ _ ->]|[?|[?|?]]]; [unfold i64_max; lia|done|done|done]. }
  pose proof (cache_runs_refine 100 [CSet (lit "a") (lit "1") 1000; CTick; CGet (lit "a")]
    sample_cache [sample_item] sample_cache_holds) as H.
  specialize (H Ht).
  witness_run H (run_commands (A := AnyAllocator.t) [CSet (lit "a") (lit "1") 1000; CTick; CGet (lit "a")])
    sample_cache (Ret [Status ok; Ticked; Value not_found []]).
  destruct H as (items & _ & Hh). exists s', items. split; [reflexivity|exact Hh].
Defined.

Lemma cache_answers_witness :
  exists r s' items', run_command (CSet (lit "b") (lit "w") 0) sample_cache = (Ret r, s') /\
    (forall x, r <> Threw x) /\ cache_holds 100 s' items'.
Proof.
  assert (cache_ready sample_cache) as Hr by (vm_compute; repeat split; discriminate).
  destruct (cache_answers 100 (CSet (lit "b") (lit "w") 0) sample_cache [sample_item] sample_cache_holds Hr)
    as (r & s' & items' & H1 & H2 & _ & H3); [by intros k v ttl [= _ _ <-]|].
  exists r, s', items'. split; [exact H1|]. split; [exact H2|exact H3].
Defined.
