(* ===== verification/CacheTypeTheorems.v ===== *)
(** * The representation of a cache

    The fields of [Cache] hold values of their C++ types, and the list, the map and the
    wheel fit together, after any sequence of operations. *)
From S2P Require Import Prelude ErrorModel Effects MemoryModel AllocatorModel TimingWheelModel TimingWheelFacts.
From S2P Require Import CacheEntryModel CacheModel LruSpec CacheEntryFacts CacheRep CacheSteps CacheFacts CacheTickFacts.
From S2P Require Import CacheTheorems ValueAllocatorModel SampleStates.
Import Memory.
Import Cache.

(** The sizes, the counters and the generations are within [std::size_t] and
    [std::uint64_t], those of the entries and of the timer events included; every entry designates the list node of its own key and every node
    the entry of its own; keys and values are within the limits; the wheel has its slots
    and every event a round count of its width. *)
Record cache_typed (c : Cache.t) : Prop := {
  ty_usage : 0 <= memory_usage_bytes_ c <= capacity_bytes_ c /\ capacity_bytes_ c <= u64_max;
  ty_counters : counters_ok c;
  ty_generations : 0 <= generation_source_ c <= u64_max;
  ty_positions : forall k se, entries_ c !! k = Some se ->
    RecencyList.find_node (recency_position se) (recency_ c) = Some (recency_position se, k);
  ty_nodes : forall i k, (i, k) ∈ RecencyList.nodes (recency_ c) ->
    exists se, entries_ c !! k = Some se /\ recency_position se = i;
  ty_entries : forall k se, entries_ c !! k = Some se ->
    0 < zlen k <= max_key_length /\ 0 <= CacheEntry.size_ (entry se) <= max_value_length /\
    (CacheEntry.data_ (entry se) = None <-> CacheEntry.size_ (entry se) = 0) /\
    0 <= generation se <= generation_source_ c;
  ty_wheel : length (TimingWheel.slots_ (timing_wheel_ c)) = Z.to_nat TimingWheel.slot_count /\
    0 <= TimingWheel.current_slot_ (timing_wheel_ c) < TimingWheel.slot_count;
  ty_events : forall slot event, slot ∈ TimingWheel.slots_ (timing_wheel_ c) -> event ∈ slot ->
    0 <= TimerEvent.remaining_rounds event <= u64_max /\
    0 <= TimerEvent.generation event <= generation_source_ c
}.

(** The generation of an event in the wheel is one of a countdown. *)
Lemma pending_from_event c s slots slot event :
  slot ∈ slots -> event ∈ slot -> TimerEvent.generation event ∈ (fun x => x.1.2) <$> pending_from c s slots.
Proof.
  intros Hs He. revert s. induction slots as [|slot' slots IH]; intros s; simpl; [by apply elem_of_nil in Hs|].
  rewrite fmap_app, elem_of_app. apply elem_of_cons in Hs as [<-|Hs].
  - left. rewrite <- list_fmap_compose. by apply (list_elem_of_fmap_2 TimerEvent.generation).
  - right. by apply IH.
Qed.

Lemma event_generation src w slot event :
  timers_ok src w -> slot ∈ TimingWheel.slots_ w -> event ∈ slot -> 0 <= TimerEvent.generation event <= src.
Proof.
  intros Ht Hs He. pose proof (pending_from_event (TimingWheel.current_slot_ w) 0 _ _ _ Hs He) as Hin.
  apply list_elem_of_fmap in Hin as (x & -> & Hx). pose proof (timers_fresh _ _ Ht) as Hf.
  rewrite Forall_forall in Hf. by apply Hf.
Qed.

Section types.
Context {A : Type} {VA : ValueAllocator A} {VL : ValueAllocatorLaws A}.
Implicit Types (s : state (A := A)).

Lemma cache_holds_typed cap s items : cache_holds cap s items -> counters_ok s.1 -> cache_typed s.1.
Proof.
  intros (rows & _ & Hr & _) Hco. destruct s as [c [a e]]. cbn [fst snd] in *.
  pose proof (rows_usage_nonneg rows). pose proof (rep_timers _ _ _ _ Hr) as Ht. destruct (timers_wheel _ _ Ht) as [T1 T2 T3].
  constructor.
  - rewrite (rep_usage _ _ _ _ Hr), (rep_cap _ _ _ _ Hr). pose proof (rep_fits _ _ _ _ Hr). pose proof (rep_cap_range _ _ _ _ Hr).
    unfold u64_max. lia.
  - exact Hco.
  - apply Ht.
  - intros k se Hk. destruct (rep_lookup_some _ _ _ _ _ _ Hr Hk) as (l1 & r & l2 & -> & <- & <-).
    rewrite (row_position _ _ _ _ (Forall_elt _ _ _ (rep_rows _ _ _ _ Hr))).
    apply (find_row _ l1 r l2); apply Hr.
  - intros i k Hin. rewrite (rep_nodes _ _ _ _ Hr) in Hin. apply list_elem_of_fmap in Hin as (r & Heq & Hin).
    injection Heq as -> ->. apply list_elem_of_split in Hin as (l1 & l2 & ->). exists (r_stored r).
    split; [by eapply rep_lookup_row|]. apply (row_position _ _ _ _ (Forall_elt _ _ _ (rep_rows _ _ _ _ Hr))).
  - intros k se Hk. destruct (rep_lookup_some _ _ _ _ _ _ Hr Hk) as (l1 & r & l2 & -> & <- & <-).
    destruct (Forall_elt _ _ _ (rep_rows _ _ _ _ Hr)) as [_ R2 R3 [R4 R5] R6 _]. pose proof (value_length _ _ _ R2 R3).
    pose proof R2 as (_ & ? & Hdata). split; [done|]. split; [lia|]. by split.
  - done.
  - intros slot ev Hs Hev. rewrite Forall_forall in T3. specialize (T3 _ Hs). rewrite Forall_forall in T3.
    specialize (T3 _ Hev). split; [unfold event_ok, u64_max in *; lia|]. by eapply event_generation.
Qed.

(** C36: whatever is done to a new cache, with any allocator that keeps its contract and
    any schedule of allocation failures, its fields stay within their types (sizes,
    the four counters, the generations of the source, of the entries and of the timer
    events, the rounds and the wheel's position) and its list,
    map and timing wheel stay linked: in particular every stored iterator is valid and
    designates the key of its own entry. *)
Theorem cache_stays_typed cap a m fs cmds :
  0 <= cap < 2 ^ 64 -> owns_list a m [] -> (forall k v ttl, CSet k v ttl ∈ cmds -> ttl <= i64_max) ->
  wp (run_commands cmds) (Cache.init cap, (a, MkEnv m fs)) (post (fun _ s' => cache_typed s'.1) (fun _ _ => False)).
Proof.
  intros Hc Ho Ht. eapply wp_post_mono; [apply (run_commands_wp cap cmds); [by apply init_holds|done]| |done].
  intros rs s' (items & _ & Hh & Hco). eapply cache_holds_typed; [exact Hh|]. apply Hco. split_and!; unfold u64_max; simpl; lia.
Qed.

End types.

Lemma cache_stays_typed_witness :
  exists rs s', run_commands [CSet (lit "a") (lit "1") 1000; CTick; CSet (lit "b") (lit "22") 0] empty_cache = (Ret rs, s') /\
    cache_typed s'.1.
Proof.
  assert (forall k v ttl, CSet k v ttl ∈ [CSet (lit "a") (lit "1") 1000; CTick; CSet (lit "b") (lit "22") 0] -> ttl <= i64_max) as Ht.
  { intros k v ttl Hin. rewrite !elem_of_cons, elem_of_nil in Hin.
    destruct Hin as [[= _ _ ->]|[?|[[= _ _ ->]|?]]]; [unfold i64_max; lia|done|unfold i64_max; lia|done]. }
  assert (owns_list (make_value_allocator system) empty_memory []) as Ho.
  { exists ∅. split; [apply make_value_allocator_owns|]. by rewrite map_to_list_empty. }
  pose proof (cache_stays_typed 100 (make_value_allocator system) empty_memory [] _ ltac:(lia) Ho Ht) as H.
  destruct (wp_run _ _ _ _ H) as [(rs & s' & H1 & H2)|(x & s' & _ & [])].
  exists rs, s'. split; [exact H1|exact H2].
Defined.
