(* ===== verification/ConcurrentTheorems.v ===== *)
(** * What concurrent callers of the engine can rely on *)
From S2P Require Import Prelude ErrorModel Effects MemoryModel AllocatorModel ValueAllocatorModel.
From S2P Require Import CacheModel LruSpec CacheEntryFacts CacheRep CacheSteps CacheFacts CacheTickFacts.
From S2P Require Import CacheShardModel CacheEngineModel CacheEngineFacts.
From S2P Require Import ConcurrentModel ConcurrentFacts ConcurrentRunFacts SampleStates.
Import Memory Concurrent.

(** ** The abstract sharded cache, shared *)

(** What a call may answer in a shard of capacity [cap] that holds [items]. *)
Inductive shard_spec (cap : Z) : call -> list Lru.item -> outcome answer -> list Lru.item -> Prop :=
| spec_set k v ttl items st items' :
    Lru.set cap k v ttl items = (st, items') ->
    shard_spec cap (c_set k v ttl) items (Ret (a_status st)) items'
| spec_set_fault k v ttl items x items' :
    cache_exn x -> items' `prefix_of` items -> (Lru.lookup k items <> None -> items' = items) ->
    shard_spec cap (c_set k v ttl) items (Throw x) items'
| spec_get k output items st ov items' :
    Lru.get k items = (st, ov, items') ->
    shard_spec cap (c_get k output) items (Ret (a_found st (default output ov))) items'
| spec_erase k items st items' :
    Lru.erase k items = (st, items') -> shard_spec cap (c_erase k) items (Ret (a_status st)) items'
| spec_tick items : shard_spec cap c_tick items (Ret a_nothing) (Lru.tick items)
| spec_fault c items :
    (exists k output, c = c_get k output) \/ (exists k, c = c_erase k) \/ c = c_tick ->
    shard_spec cap c items (Throw bad_alloc) items
| spec_size items : shard_spec cap c_size items (Ret (a_number (zlen items))) items
| spec_usage items : shard_spec cap c_memory_usage_bytes items (Ret (a_number (Lru.usage items))) items
| spec_empty items : shard_spec cap c_empty items (Ret (a_flag (bool_decide (items = [])))) items
| spec_counter c items z :
    c = c_hit_count \/ c = c_miss_count \/ c = c_eviction_count \/ c = c_expired_count ->
    shard_spec cap c items (Ret (a_number z)) items
| spec_metrics items m :
    used_bytes m = zsum (fun x => zlen (Lru.i_value x)) items ->
    shard_spec cap c_allocator_metrics items (Ret (a_metrics m)) items.

(** A sequence of such answers, from the items [ls] of the shards on. *)
Fixpoint sharded_run (cap n : Z) (ls : list (list Lru.item)) (l : list (call * nat * outcome answer))
    (ls' : list (list Lru.item)) : Prop :=
  match l with
  | [] => ls' = ls
  | (c, i, o) :: l => exists items items', ls !! i = Some items /\
      shard_spec (CacheEngine.shard_capacity cap n (Z.of_nat i)) c items o items' /\
      sharded_run cap n (<[i := items']> ls) l ls'
  end.

(** Lifetimes are 64-bit numbers of milliseconds. *)
Definition call_ok (c : call) : Prop :=
  match c with c_set _ _ ttl => ttl <= i64_max | _ => True end.

(** The keys a call may leave in a shard. *)
Definition keys_of (c : call) (items items' : list Lru.item) : Prop :=
  forall x, x ∈ items' -> keyed_by c = Some (Lru.i_key x) \/ Lru.i_key x ∈ Lru.i_key <$> items.

Lemma same_keys c items : keys_of c items items.
Proof. intros x Hx. right. by apply list_elem_of_fmap_2. Qed.

Lemma as_answer_wp {S B} (f : B -> answer) (m : M S B) s (Q : outcome answer -> S -> Prop) R E :
  wp m s (post R E) -> (forall b s', R b s' -> Q (Ret (f b)) s') -> (forall x s', E x s' -> Q (Throw x) s') ->
  wp (as_answer f m) s Q.
Proof. intros Hm HR HE. eapply wp_bind_post; [exact Hm| |exact HE]. intros b s' Hb. by apply wp_ret, HR. Qed.

(** A critical section is an operation of the abstract cache. *)
Lemma critical_wp cap c s items :
  cache_holds cap s items -> call_ok c ->
  wp (critical c) s (fun o s' => exists items', shard_spec cap c items o items' /\
    cache_holds cap s' items' /\ keys_of c items items').
Proof.
  intros Hh Hok. destruct (cache_holds_usage _ _ _ Hh) as [Hu _]. destruct c; cbn [critical];
    try (apply wp_bind, wp_read, wp_ret; exists items; split_and!; [|done|apply same_keys]).
  - eapply as_answer_wp; [by apply set_wp|..].
    + intros st s' (items' & Hs & Hh' & _). exists items'. split_and!; [by constructor|done|].
      intros x Hx. destruct (set_keys _ _ _ _ _ _ _ _ Hs Hx) as [<-|]; auto.
    + intros x s' (Hx & items' & Hp & Hl & Hh' & _). exists items'. split_and!; [by constructor|done|].
      intros y Hy. right. by eapply prefix_keys.
  - eapply as_answer_wp; [by apply get_wp|..].
    + intros [st v] s' (ov & items' & Hg & Hv & Hh' & _). simpl in *. subst v. exists items'.
      split_and!; [by constructor|done|]. intros x Hx. destruct (get_keys _ _ _ _ _ _ Hg Hx) as [<-|]; auto.
    + intros x s' (-> & Hh' & _). exists items. split_and!; [apply spec_fault; eauto|done|apply same_keys].
  - eapply as_answer_wp; [by apply erase_wp|..].
    + intros st s' (items' & Hg & Hh' & _). exists items'.
      split_and!; [by constructor|done|]. intros x Hx. destruct (erase_keys _ _ _ _ _ Hg Hx) as [<-|]; auto.
    + intros x s' (-> & Hh' & _). exists items. split_and!; [apply spec_fault; eauto|done|apply same_keys].
  - eapply as_answer_wp; [by apply cache_tick_wp|..].
    + intros [] s' [Hh' _]. eexists. split_and!; [constructor|done|]. intros x Hx. right. by apply tick_keys.
    + intros x s' (-> & _ & Hh'). exists items. split_and!; [apply spec_fault; eauto|done|apply same_keys].
  - rewrite (cache_holds_size _ _ _ Hh). constructor.
  - rewrite Hu. constructor.
  - constructor; auto.
  - constructor; auto.
  - constructor; auto.
  - constructor; auto.
  - constructor. exact (cache_holds_used _ _ _ Hh).
  - rewrite (cache_holds_empty _ _ _ Hh). constructor.
Qed.

Section concurrent.
Variable hash : bytes -> Z.

Lemma visit_holds cap e ls c i o e' :
  engine_holds hash cap e ls -> call_ok c -> (i < length ls)%nat ->
  (is_Some (keyed_by c) -> i = first_shard hash (length ls) c) ->
  CacheEngine.on_shard i (visit c) e = (o, e') ->
  exists items items', ls !! i = Some items /\
    shard_spec (CacheEngine.shard_capacity cap (zlen ls) (Z.of_nat i)) c items o items' /\
    engine_holds hash cap e' (<[i := items']> ls).
Proof.
  intros He Hok Hlt Hkey Hrun. destruct (lookup_lt_is_Some_2 ls i Hlt) as [items Hi].
  destruct (engine_lookup _ _ _ _ _ _ He Hi) as ([b contents] & Hs & Hb & Hh & Hroute). simpl in Hb, Hh. subst b.
  pose proof (critical_wp _ c _ _ Hh Hok) as Hc. unfold wp in Hc.
  unfold CacheEngine.on_shard in Hrun. rewrite Hs, visit_run in Hrun. injection Hrun as <- <-.
  destruct Hc as (items' & Hspec & Hh' & Hk). exists items, items'. split_and!; [done..|].
  apply engine_insert; [done|]. split_and!; [done..|]. apply Forall_forall. intros x Hx.
  destruct (Hk x Hx) as [Hkx|Hin].
  - rewrite Hkey by by eexists. unfold first_shard. by rewrite Hkx.
  - apply list_elem_of_fmap in Hin as (y & -> & Hy). rewrite Forall_forall in Hroute. by apply Hroute.
Qed.

(** A point that can occur. *)
Definition point_ok (n : nat) (v : call * nat * outcome answer) : Prop :=
  (v.1.2 < n)%nat /\ call_ok v.1.1 /\ (is_Some (keyed_by v.1.1) -> v.1.2 = first_shard hash n v.1.1).

Lemma replays_refine cap l e ls e' :
  engine_holds hash cap e ls -> Forall (point_ok (length ls)) l -> replays e l e' ->
  exists ls', sharded_run cap (zlen ls) ls l ls' /\ engine_holds hash cap e' ls'.
Proof.
  revert e ls. induction l as [|[[c i] o] l IH]; intros e ls He; simpl.
  { intros _ ->. by exists ls. }
  intros [(Hi & Hok & Hk) Hl]%Forall_cons (e1 & Hv & Hr). simpl in *.
  destruct (visit_holds _ _ _ _ _ _ _ He Hok Hi Hk Hv) as (items & items' & Hit & Hs & He1).
  destruct (IH e1 (<[i := items']> ls)) as (ls' & Hrun & He'); [done|by rewrite length_insert|done|].
  rewrite length_insert in Hrun. exists ls'. split; [|done]. by exists items, items'.
Qed.

Variable code : call -> program (Cache.state (A := AnyAllocator.t)) answer.
Hypothesis code_runs : forall c s, run_program (code c) s = critical c s.

(** No mutex of a constructed engine is held. *)
Lemma holds_unlocked cap e ls :
  engine_holds hash cap e ls -> Forall (fun b => b = false) (mutexes e) /\ CacheEngine.shards_ e <> [].
Proof.
  intros He. split.
  - unfold mutexes. apply Forall_fmap, Forall_lookup. intros i sh Hi.
    destruct (engine_all_hold _ _ _ _ _ _ He Hi) as (items & _ & Hm & _). exact Hm.
  - destruct He as (_ & _ & Hne & Hl & _). intros H0. rewrite H0 in Hl. by destruct ls.
Qed.

(** The points of a history are visits of calls that were made, on their shards. *)
Lemma points_routed e0 m s :
  Forall (fun b => b = false) (mutexes e0) -> CacheEngine.shards_ e0 <> [] ->
  reachable hash code (init e0 m) s ->
  forall j c i o, ev_point j c i o ∈ history s ->
    (i < length (CacheEngine.shards_ e0))%nat /\
    (is_Some (keyed_by c) -> i = first_shard hash (length (CacheEngine.shards_ e0)) c) /\
    ev_call j c ∈ history s.
Proof.
  intros Hm Hne Hr. assert (0 < length (CacheEngine.shards_ e0))%nat as Hn.
  { destruct (CacheEngine.shards_ e0); [done|simpl; lia]. }
  assert (forall j c i o h h', (ev_point j c i o ∈ h -> (i < length (CacheEngine.shards_ e0))%nat /\
    (is_Some (keyed_by c) -> i = first_shard hash (length (CacheEngine.shards_ e0)) c) /\ ev_call j c ∈ h) ->
    ev_point j c i o ∉ h' -> ev_point j c i o ∈ h ++ h' ->
    (i < length (CacheEngine.shards_ e0))%nat /\
    (is_Some (keyed_by c) -> i = first_shard hash (length (CacheEngine.shards_ e0)) c) /\ ev_call j c ∈ h ++ h') as Hext.
  { intros j c i o h h' H Hno. rewrite !elem_of_app. naive_solver. }
  induction Hr as [|s s' Hr IH Hstep]; intros j c i o.
  { by intros ?%not_elem_of_nil. }
  pose proof (conc_reachable hash code code_runs e0 Hn m s Hm Hr) as Hok.
  destruct Hstep as [j' e ths h c' Hj|j' s s' Hin].
  - apply Hext; [apply IH|]. by intros ?%list_elem_of_singleton.
  - destruct Hin as [| |e ths h c' i' total o' b contents Hj Hi|e ths h c' o' Hj]; simpl in *; [by apply IH..| |].
    + rewrite elem_of_app. intros [Hp|Hp].
      * destruct (IH _ _ _ _ Hp) as (? & ? & ?). rewrite elem_of_app. auto.
      * apply list_elem_of_singleton in Hp as [= -> -> -> ->].
        destruct (co_traced _ _ _ Hok _ _ Hj) as (Hlt & Hk & visits & (a & b' & Hh & _) & _). simpl in Hh.
        split_and!; [done|done|]. rewrite Hh, !elem_of_app, elem_of_cons. auto.
    + apply Hext; [apply IH|]. by intros ?%list_elem_of_singleton.
Qed.

(** ** Linearizability *)

Lemma shards_pos (e : CacheEngine.t) : CacheEngine.shards_ e <> [] -> (0 < length (CacheEngine.shards_ e))%nat.
Proof. destruct (CacheEngine.shards_ e); [done|simpl; lia]. Qed.

Lemma replays_prefix e0 h1 h2 e :
  replays e0 (points (h1 ++ h2)) e -> exists e1, replays e0 (points h1) e1 /\ replays e1 (points h2) e.
Proof. rewrite points_app. apply replays_app. Qed.

(** The one event of a thread in a stretch of history. *)
Lemma of_thread_single j b ev :
  of_thread j b = [ev] -> exists b1 b2, b = b1 ++ ev :: b2 /\ of_thread j b1 = [] /\ of_thread j b2 = [].
Proof.
  unfold of_thread. induction b as [|ev' b IH]; [done|]. rewrite filter_cons. case_decide as Hev.
  - intros [= -> Hb]. exists [], b. by split_and!.
  - intros Hb. destruct (IH Hb) as (b1 & b2 & -> & H1 & H2). exists (ev' :: b1), b2.
    split_and!; [done| |done]. by rewrite filter_cons_False.
Qed.

(** C3: the engine is linearizable: in every interleaving of the calls of any number of
    threads, however the critical sections are cut into accesses, the critical sections
    that have ended give the results they would give one after the other, and whenever no
    mutex is held the engine is the one this sequential run leads to; and each SET, GET or
    DELETE that has returned took effect once, between its call and its return, with the
    result that [CacheEngine] gives at that point of the run. *)
Theorem engine_linearizable e0 m s :
  Forall (fun b => b = false) (mutexes e0) -> CacheEngine.shards_ e0 <> [] ->
  reachable hash code (init e0 m) s ->
  (exists e, replays e0 (points (history s)) e /\
     (Forall (fun b => b = false) (mutexes (engine s)) -> engine s = e)) /\
  (forall h1 j c o h2, history s = h1 ++ ev_return j c o :: h2 -> is_Some (keyed_by c) ->
     exists a b1 b2 i e1 e2, h1 = a ++ ev_call j c :: b1 ++ ev_point j c i o :: b2 /\
       of_thread j b1 = [] /\ of_thread j b2 = [] /\
       replays e0 (points (a ++ ev_call j c :: b1)) e1 /\ run_call hash c e1 = (o, e2)).
Proof.
  intros Hm Hne Hr. pose proof (conc_reachable hash code code_runs e0 (shards_pos _ Hne) m s Hm Hr) as Hok.
  destruct (co_replays _ _ _ Hok) as (e & Hrep & Ha). split.
  { exists e. split; [done|]. by eapply agrees_equal. }
  intros h1 j c o h2 Hh Hk. destruct (co_returned _ _ _ Hok _ _ _ _ _ Hh) as (visits & (a & b & -> & Hb) & Hc).
  apply conclude_keyed in Hc; [|done]. subst visits.
  apply of_thread_single in Hb as (b1 & b2 & -> & H1 & H2). unfold point in *. simpl in *.
  set (i := first_shard _ _ _) in *.
  rewrite Hh in Hrep. replace ((a ++ ev_call j c :: b1 ++ ev_point j c i o :: b2) ++ ev_return j c o :: h2)
    with ((a ++ ev_call j c :: b1) ++ ev_point j c i o :: b2 ++ ev_return j c o :: h2) in Hrep
    by (rewrite <- !app_assoc; simpl; by rewrite <- !app_assoc).
  apply replays_prefix in Hrep as (e1 & He1 & (e2 & He2 & _)).
  exists a, b1, b2, i, e1, e2. split_and!; [done..|].
  pose proof (replays_length _ _ _ He1) as Hl. rewrite <- run_call_keyed; [by rewrite Hl|done|].
  intros H0. rewrite H0 in Hl. apply shards_pos in Hne. simpl in Hl. lia.
Qed.

(** A call that goes through the shards ([tick], [size], the counters, [empty]) locks
    them one at a time: it answers from visits to successive shards between its call and
    its return, and it is the call of [CacheEngine] when no other thread's critical section
    ends in between. *)
Theorem engine_calls_visit e0 m s h1 j c o h2 :
  Forall (fun b => b = false) (mutexes e0) -> CacheEngine.shards_ e0 <> [] ->
  reachable hash code (init e0 m) s -> history s = h1 ++ ev_return j c o :: h2 ->
  let n := length (CacheEngine.shards_ e0) in
  exists a b visits, h1 = a ++ ev_call j c :: b /\ of_thread j b = point j c <$> visits /\
    conclude n c (first_shard hash n c) (zero c) visits = Some o /\
    (points b = visited c <$> visits ->
     exists e1 e2, replays e0 (points a) e1 /\ run_call hash c e1 = (o, e2)).
Proof.
  intros Hm Hne Hr Hh n. pose proof (conc_reachable hash code code_runs e0 (shards_pos _ Hne) m s Hm Hr) as Hok.
  destruct (co_replays _ _ _ Hok) as (e & Hrep & _).
  destruct (co_returned _ _ _ Hok _ _ _ _ _ Hh) as (visits & (a & b & -> & Hb) & Hc).
  exists a, b, visits. split_and!; [done..|]. intros Hpts.
  rewrite Hh, <- app_assoc in Hrep. apply replays_prefix in Hrep as (e1 & He1 & Hrest). simpl in Hrest.
  rewrite points_app, Hpts in Hrest. apply replays_app in Hrest as (e2 & Hv & _).
  exists e1, e2. split; [done|]. pose proof (replays_length _ _ _ He1) as Hl.
  eapply run_call_conclude; [|by rewrite Hl|done].
  intros H0. rewrite H0 in Hl. apply shards_pos in Hne. simpl in Hl. lia.
Qed.

(** C7: threads that share the engine see one sharded LRU cache: the critical sections of
    any interleaving, in the order they end, are a run of the abstract cache from the items
    the engine held at first, none of them reaching undefined behaviour; and whenever no
    mutex is held the engine holds the items of that run. *)
Theorem engine_concurrent_refines cap ls e0 m s :
  engine_holds hash cap e0 ls -> reachable hash code (init e0 m) s ->
  (forall j c, ev_call j c ∈ history s -> call_ok c) ->
  exists ls', sharded_run cap (zlen ls) ls (points (history s)) ls' /\
    (Forall (fun b => b = false) (mutexes (engine s)) -> engine_holds hash cap (engine s) ls').
Proof.
  intros He Hr Hcalls. destruct (holds_unlocked _ _ _ He) as [Hm Hne].
  pose proof (conc_reachable hash code code_runs e0 (shards_pos _ Hne) m s Hm Hr) as Hok.
  destruct (co_replays _ _ _ Hok) as (e & Hrep & Ha).
  assert (length (CacheEngine.shards_ e0) = length ls) as Hl by apply He.
  destruct (replays_refine cap (points (history s)) _ _ e He) as (ls' & Hrun & He'); [|done|].
  - apply Forall_forall. intros [[c i] o] (ev & Hev & Hp)%list_elem_of_omap.
    destruct ev as [|j c' i' o'|]; [done| |done]. injection Hp as <- <- <-.
    destruct (points_routed e0 m s Hm Hne Hr _ _ _ _ Hev) as (Hi & Hk & Hc). rewrite Hl in *.
    split_and!; [done| |done]. by eapply Hcalls.
  - exists ls'. split; [done|]. intros Hfree. by rewrite (agrees_equal _ _ _ Ha Hfree).
Qed.

(** ** Every call returns *)

(** The next program counters of a thread, whatever the contents are. *)
Inductive pc_step (n : nat) : pc -> pc -> Prop :=
| pc_lock c index total : pc_step n (at_lock c index total) (inside c index total (code c))
| pc_access c index total change next contents :
    pc_step n (inside c index total (Access change next)) (inside c index total (next contents))
| pc_unlock c index total o :
    pc_step n (inside c index total (Finish o)) (pc_of c (after n c index total o))
| pc_return c o : pc_step n (returning c o) idle.

Lemma pc_acc_outside n p : (p = idle \/ exists c o, p = returning c o) -> Acc (flip (pc_step n)) p.
Proof.
  assert (Acc (flip (pc_step n)) idle) as Hidle by (constructor; intros p' H; inversion H).
  intros [->|(c & o & ->)]; [done|]. constructor. intros p' H. by inversion H; subst.
Qed.

Lemma pc_acc_shards n k c index total :
  (n - index <= k)%nat ->
  Acc (flip (pc_step n)) (at_lock c index total) /\
  (forall p, Acc (flip (pc_step n)) (inside c index total p)).
Proof.
  revert index total. induction k as [k IH] using lt_wf_ind; intros index total Hk.
  assert (forall p, Acc (flip (pc_step n)) (inside c index total p)) as Hin.
  { induction p as [o|change next IHp]; constructor; intros p' H; inversion H; subst; [|apply IHp].
    destruct (after n c index total o) as [i' t'|r] eqn:E; simpl.
    - apply after_next in E as (_ & -> & Hn). apply (IH (n - S index)%nat); lia.
    - apply pc_acc_outside. eauto. }
  split; [|done]. constructor. intros p' H. inversion H; subst. apply Hin.
Qed.

Lemma pc_acc n p : Acc (flip (pc_step n)) p.
Proof.
  destruct p as [|c i total|c i total p|c o].
  - apply pc_acc_outside. by left.
  - by apply (pc_acc_shards n (n - i) c i total).
  - by apply (pc_acc_shards n (n - i) c i total).
  - apply pc_acc_outside. eauto.
Qed.

(** One element of a list moves down. *)
Definition list_step {A} (R : A -> A -> Prop) (l' l : list A) : Prop :=
  exists (j : nat) x x', l !! j = Some x /\ R x' x /\ l' = <[j := x']> l.

Lemma list_acc {A} (R : A -> A -> Prop) l : Forall (Acc R) l -> Acc (list_step R) l.
Proof.
  induction 1 as [|x l Hx _ IHl].
  { constructor. intros l' (j & x & x' & Hj & _). done. }
  revert x Hx. induction IHl as [l _ IHl]. intros x Hx. induction Hx as [x Hx IHx].
  constructor. intros l' (j & y & y' & Hj & Hy & ->). destruct j as [|j]; simpl in *.
  - injection Hj as <-. by apply IHx.
  - apply IHl; [by exists j, y, y'|]. by constructor.
Qed.

Lemma inner_step_threads j s s' :
  inner_step code j s s' ->
  length (CacheEngine.shards_ (engine s')) = length (CacheEngine.shards_ (engine s)) /\
  list_step (flip (pc_step (length (CacheEngine.shards_ (engine s))))) (threads s') (threads s).
Proof.
  intros H. destruct H; simpl; rewrite ?length_insert; (split; [done|]); do 3 eexists;
    (split; [eassumption|split; [constructor|done]]).
Qed.

#[local] Instance idle_dec (p : pc) : Decision (p = idle).
Proof. destruct p; [by left|by right..]. Defined.

(** A thread in a critical section can go on. *)
Lemma inside_progress s j c index total p :
  threads s !! j = Some (inside c index total p) -> (index < length (CacheEngine.shards_ (engine s)))%nat ->
  exists s', internal code s s'.
Proof.
  intros Hj Hlt. destruct s as [e ths h]. simpl in *.
  destruct (lookup_lt_is_Some_2 _ _ Hlt) as [[b contents] Hi]. destruct p as [o|change next].
  - eexists; exists j. by eapply step_unlock.
  - eexists; exists j. by eapply step_access.
Qed.

Lemma busy_progress e0 s j p :
  conc_ok hash e0 s -> threads s !! j = Some p -> p <> idle -> exists s', internal code s s'.
Proof.
  intros Hok Hj Hp. pose proof (co_count _ _ _ Hok) as Hn. pose proof (co_traced _ _ _ Hok _ _ Hj) as Ht.
  destruct p as [|c i total|c i total p|c o]; [done|..].
  - destruct Ht as [Hlt _]. rewrite <- Hn in Hlt.
    destruct (lookup_lt_is_Some_2 _ _ Hlt) as [[b contents] Hi]. destruct b.
    + destruct (co_owns _ _ _ Hok _ _ (mutexes_lookup _ _ _ Hi)) as (j' & Hj' & _).
      apply list_lookup_fmap_Some in Hj' as (q & Hsec & Hq).
      destruct q as [| |c' i' total' q|]; try done. injection Hsec as <-. by eapply inside_progress.
    + destruct s as [e ths h]. simpl in *. eexists; exists j. by eapply step_lock.
  - destruct Ht as [Hlt _]. rewrite <- Hn in Hlt. by eapply inside_progress.
  - destruct s as [e ths h]. simpl in *. eexists; exists j. by apply step_return.
Qed.

(** C8: the locking cannot get stuck: in every reachable state in which a call is under
    way some thread can take a step of its call, and no sequence of such steps is
    infinite, so that all the calls made return. *)
Theorem engine_calls_return e0 m s :
  Forall (fun b => b = false) (mutexes e0) -> CacheEngine.shards_ e0 <> [] ->
  reachable hash code (init e0 m) s ->
  Acc (flip (internal code)) s /\
  (Forall (fun p => p = idle) (threads s) \/ exists s', internal code s s').
Proof.
  intros Hm Hne Hr. split.
  - assert (Acc (list_step (flip (pc_step (length (CacheEngine.shards_ (engine s)))))) (threads s)) as Hacc.
    { apply list_acc, Forall_forall. intros p _. apply pc_acc. }
    clear Hr. remember (length (CacheEngine.shards_ (engine s))) as n eqn:Hn. remember (threads s) as l eqn:Hl.
    revert s Hn Hl. induction Hacc as [l _ IH]. intros s -> ->. constructor. intros s' [j Hj].
    apply inner_step_threads in Hj as [Hlen Hs]. by apply (IH _ Hs).
  - pose proof (conc_reachable hash code code_runs e0 (shards_pos _ Hne) m s Hm Hr) as Hok.
    destruct (decide (Forall (fun p => p = idle) (threads s))) as [?|Hbusy]; [by left|right].
    apply not_Forall_Exists, Exists_exists in Hbusy as (p & (j & Hj)%list_elem_of_lookup & Hp); [|apply _].
    by eapply busy_progress.
Qed.

End concurrent.

(** ** Examples

    Two threads on the engine of two shards: while the first sets ["a"], the second
    asks for it, waits for the mutex and finds the value; meanwhile [size] has looked
    into the first shard only. The body of a section is two accesses. *)

Definition two_accesses (c : call) : program (Cache.state (A := AnyAllocator.t)) answer :=
  Access id (fun _ => one_access (critical c)).

Lemma two_accesses_run c s : run_program (two_accesses c) s = critical c s.
Proof. simpl. by destruct (critical c s). Qed.

Definition sample_schedule : list action :=
  [act_call 0 (c_set (lit "a") (lit "x") 0); act_go 0; act_call 1 (c_get (lit "a") []); act_call 2 c_size;
   act_go 0; act_go 2; act_go 2; act_go 0; act_go 2; act_go 2; act_go 0; act_go 1; act_go 1; act_go 1; act_go 1;
   act_go 1; act_go 0].

Definition sample_state : t :=
  default (init sample_engine 3) (execute sample_hash two_accesses sample_schedule (init sample_engine 3)).

Definition sample_history : list event :=
  [ev_call 0 (c_set (lit "a") (lit "x") 0); ev_call 1 (c_get (lit "a") []); ev_call 2 c_size;
   ev_point 2 c_size 0 (Ret (a_number 0));
   ev_point 0 (c_set (lit "a") (lit "x") 0) 1 (Ret (a_status ok));
   ev_point 1 (c_get (lit "a") []) 1 (Ret (a_found ok (lit "x")));
   ev_return 1 (c_get (lit "a") []) (Ret (a_found ok (lit "x")));
   ev_return 0 (c_set (lit "a") (lit "x") 0) (Ret (a_status ok))].

Lemma sample_state_reachable : reachable sample_hash two_accesses (init sample_engine 3) sample_state.
Proof.
  apply (execute_reachable _ _ sample_schedule _ (init sample_engine 3)); [constructor|].
  vm_compute. reflexivity.
Qed.

Lemma sample_state_history : history sample_state = sample_history.
Proof. vm_compute. reflexivity. Qed.

Lemma sample_engine_free : Forall (fun b => b = false) (mutexes sample_engine).
Proof. repeat constructor. Qed.

Lemma sample_engine_shards : CacheEngine.shards_ sample_engine <> [].
Proof. vm_compute. discriminate. Qed.

Lemma engine_linearizable_witness :
  exists e, replays sample_engine (points sample_history) e.
Proof.
  destruct (engine_linearizable sample_hash two_accesses two_accesses_run sample_engine 3 sample_state
    sample_engine_free sample_engine_shards sample_state_reachable) as [(e & He & _) _].
  rewrite sample_state_history in He. exists e. exact He.
Defined.

Lemma engine_calls_visit_witness :
  exists a b visits, take 6 sample_history = a ++ ev_call 1 (c_get (lit "a") []) :: b /\
    of_thread 1 b = point 1 (c_get (lit "a") []) <$> visits.
Proof.
  destruct (engine_calls_visit sample_hash two_accesses two_accesses_run sample_engine 3 sample_state
    (take 6 sample_history) 1 (c_get (lit "a") []) (Ret (a_found ok (lit "x"))) (drop 7 sample_history)
    sample_engine_free sample_engine_shards sample_state_reachable) as (a & b & visits & H1 & H2 & _).
  - rewrite sample_state_history. reflexivity.
  - exists a, b, visits. split; [exact H1|exact H2].
Defined.

Lemma engine_concurrent_refines_witness :
  exists ls, sharded_run 201 2 [[]; []] (points sample_history) ls.
Proof.
  destruct (engine_concurrent_refines sample_hash two_accesses two_accesses_run 201 [[]; []] sample_engine 3
    sample_state sample_engine_holds sample_state_reachable) as (ls & H & _).
  - intros j c Hin. rewrite sample_state_history in Hin.
    repeat (apply elem_of_cons in Hin as [Hin|Hin]; [try discriminate Hin; injection Hin as -> ->; cbn; unfold i64_max; lia|]).
    by apply not_elem_of_nil in Hin.
  - rewrite sample_state_history in H. exists ls. exact H.
Defined.

Lemma engine_calls_return_witness :
  Acc (flip (internal two_accesses)) sample_state /\ exists s', internal two_accesses sample_state s'.
Proof.
  destruct (engine_calls_return sample_hash two_accesses two_accesses_run sample_engine 3 sample_state
    sample_engine_free sample_engine_shards sample_state_reachable) as [Ha [Hidle|Hs]].
  - exfalso. apply (Forall_lookup_1 _ _ 2 (at_lock c_size 1 (a_number 0))) in Hidle; [discriminate|].
    vm_compute. reflexivity.
  - split; [exact Ha|exact Hs].
Defined.
