(* ===== verification/WorkerTheorems.v ===== *)
(** * What a worker guarantees

    A worker thread among others: sockets are handed to it, it is asked to stop,
    its epoll instance reports batches of events, and meanwhile peers write to
    their sockets and other threads use the engine and the heap. In every state it
    can be in, descriptors have one owner, nothing goes wrong, and its end closes
    them all. *)
From S2P Require Import Prelude ErrorModel Effects MemoryModel ProgressFacts BufferModel ProtocolModel.
From S2P Require Import ProtocolFacts ResponseFacts CacheEngineModel CacheEngineFacts ConnectionModel ConnectionFacts ConnectionIOFacts.
From S2P Require Import WorkerModel WorkerFacts WorkerInstallFacts WorkerRunFacts SampleStates.
Import Memory.
Import Worker.

Section worker.
Variable hash : bytes -> Z.

(** [accept4] gave the descriptor [fd] over [sock]. *)
Definition accepted (fd : Z) (sock : Socket.t) (k : Kernel.t) : Kernel.t :=
  Kernel.set_sockets (<[fd := sock]> (Kernel.sockets k)) k.

(** A descriptor the kernel may give: one that is not in use. *)
Definition unused (fd : Z) (w : Worker.t) (k : Kernel.t) : Prop :=
  0 <= fd /\ fd <> wakeup_ w /\ Kernel.sockets k !! fd = None.

(** The steps of the system, as the worker sees it; while the worker waits in
    [epoll_wait] other threads run. With [single], no batch of events meets both an
    allocation and an [epoll_ctl] that fail. *)
Inductive worker_step (cap : Z) (single : bool) : Worker.state -> Worker.state -> Prop :=
| step_enqueue fd sock w e k m o s' :
    unused fd w k -> enqueue (UniqueFd.MkUniqueFd fd) (w, (e, (accepted fd sock k, m))) = (o, s') ->
    worker_step cap single (w, (e, (k, m))) s'
| step_request_stop s o s' : request_stop s = (o, s') -> worker_step cap single s s'
| step_run_once events s o s' :
    stop_requested_ s.1 = false -> (single = true -> undoubled s) -> run_once hash events s = (o, s') ->
    worker_step cap single s s'
| step_peer fd sock sock' w e k m :
    Kernel.sockets k !! fd = Some sock ->
    worker_step cap single (w, (e, (k, m))) (w, (e, (Kernel.set_sockets (<[fd := sock']> (Kernel.sockets k)) k, m)))
| step_others w e k m e' ls m' ctl :
    engine_holds hash cap e' ls -> worker_step cap single (w, (e, (k, m))) (w, (e', (with_ctl ctl k, m'))).

Inductive worker_reaches (cap : Z) (single : bool) (s : Worker.state) : Worker.state -> Prop :=
| reaches_refl : worker_reaches cap single s s
| reaches_step s' s'' : worker_reaches cap single s s' -> worker_step cap single s' s'' -> worker_reaches cap single s s''.

(** The state of a worker that was just constructed. *)
Definition worker_starts (cap : Z) (s : Worker.state) : Prop :=
  exists limit wakeup ctl text e m ls, 0 <= limit < 2 ^ 64 /\ engine_holds hash cap e ls /\
    s = (init limit wakeup, (e, (init_kernel wakeup ctl text, m))).

(** ** The invariant *)

Lemma starts_ok cap s : worker_starts cap s -> worker_ok hash cap s.1 s.2.1 s.2.2.1.
Proof.
  intros (limit & wakeup & ctl & text & e & m & ls & Hl & He & ->). split; [|split; [done|by intros [[]|?]]].
  constructor; simpl; [by eexists|done|..].
  - intros fd c Hc. by apply lookup_empty_Some in Hc.
  - constructor.
  - intros fd Hin. by apply elem_of_nil in Hin.
  - intros fd. rewrite !lookup_empty. split; [by intros [? ?]|]. intros [Hin|[? ?]]; [by apply elem_of_nil in Hin|done].
  - intros fd [v Hv]. apply lookup_singleton_Some in Hv as [<- _]. by left.
  - by rewrite lookup_singleton_eq.
Qed.

Lemma accepted_holds cap fd sock w e k :
  worker_holds hash cap [] w e k -> unused fd w k -> worker_holds hash cap [fd] w e (accepted fd sock k).
Proof.
  intros Ho (Hfd & Hw & Hs). pose proof Ho as [O1 O2 O3 O4 O5 O6 O7 [O8 O9]].
  assert (~ (fd ∈ waiting w \/ is_Some (connections_ w !! fd))) as Hfree.
  { intros H. apply O6 in H. rewrite Hs in H. by destruct H. }
  constructor; simpl; [done|done|done|..|done|].
  - constructor; [|done]. intros Hin. apply Hfree. by left.
  - intros fd1 [->|Hin]%elem_of_cons; [|by apply O5]. split; [done|]. destruct (connections_ w !! fd) eqn:E; [|done].
    destruct Hfree. right. by eexists.
  - intros fd1. destruct (decide (fd1 = fd)) as [->|Hne].
    + rewrite lookup_insert_eq. split; [left; left|by eexists].
    + rewrite lookup_insert_ne by done. rewrite O6, elem_of_cons. naive_solver.
  - by rewrite lookup_insert_ne.
Qed.

(** A peer acts on a socket. *)
Lemma peer_holds cap hs fd sock sock' w e k :
  worker_holds hash cap hs w e k -> Kernel.sockets k !! fd = Some sock ->
  worker_holds hash cap hs w e (Kernel.set_sockets (<[fd := sock']> (Kernel.sockets k)) k).
Proof.
  intros [O1 O2 O3 O4 O5 O6 O7 [O8 O9]] Hs. constructor; [done|done|done|done|done|..|done|].
  - intros fd1. rewrite <- O6. simpl. destruct (decide (fd1 = fd)) as [->|]; [rewrite lookup_insert_eq, Hs|by rewrite lookup_insert_ne].
    by split; eexists.
  - split; [done|]. simpl. rewrite lookup_insert_ne; [done|]. intros ->. congruence.
Qed.

(** What holds of a worker that waits; with [single], every connection is registered. *)
Definition worker_good (cap : Z) (single : bool) (s : Worker.state) : Prop :=
  worker_ok hash cap s.1 s.2.1 s.2.2.1 /\ (single = true -> all_registered s.1 s.2.2.1).

Lemma starts_good cap single s : worker_starts cap s -> worker_good cap single s.
Proof.
  intros Hs. split; [by apply starts_ok|]. intros _ fd c Hc.
  destruct Hs as (limit & wakeup & ctl & text & e & m & ls & _ & _ & ->). simpl in Hc. by apply lookup_empty_Some in Hc.
Qed.

Lemma step_good cap single s s' : worker_step cap single s s' -> worker_good cap single s -> worker_good cap single s'.
Proof.
  intros Hstep. destruct Hstep as [fd sock w e k m o s' Hu E|[w [e [k m]]] o s' E|events [w [e [k m]]] o s' Hst Hsi E|fd sock sock' w e k m Hs|w e k m e' ls m' ctl He];
    intros [[Ho Han] Hreg]; pose proof (conj Ho (proj1 Han)) as Hsound; cbn [fst snd] in *.
  - pose proof (enqueue_wp hash cap fd w e (accepted fd sock k) m (accepted_holds cap fd sock w e k Ho Hu) (proj1 Han)) as H.
    unfold wp in H. rewrite E in H. cbn [fst snd] in H. destruct o; [destruct H as [H _]|destruct H as (_ & H & _)|done].
    all: destruct H as ([H1 H2] & H3 & H4); split; [split; [done|by apply H3]|auto].
  - pose proof (request_stop_wp hash cap w e k m Hsound) as H. unfold wp in H. rewrite E in H. cbn [fst snd] in H.
    destruct o; [|done|done]. destruct H as (H1 & H2 & _ & _ & _ & _ & H3). split; [done|].
    intros Hs fd c Hc. rewrite H3. apply (Hreg Hs). by rewrite H2 in Hc.
  - pose proof (run_once_wp hash cap events w e k m Hsound) as H. unfold wp in H. rewrite E in H. cbn [fst snd] in H.
    destruct o; [|done|done]. destruct H as ([H1 _] & H2 & _ & _ & _ & _ & _ & H3). split; [split; [done|by apply H2]|].
    intros Hs. by apply H3; auto.
  - split; [|done]. split; [by eapply peer_holds|exact Han].
  - destruct Ho as [O1 O2 O3 O4 O5 O6 O7 O8]. split; [|done]. split; [|exact Han]. constructor; try done. by eexists.
Qed.

Lemma reaches_good cap single s s' : worker_starts cap s -> worker_reaches cap single s s' -> worker_good cap single s'.
Proof. intros Hs. induction 1; [by apply starts_good|by eapply step_good]. Qed.

Lemma reaches_ok cap single s s' :
  worker_starts cap s -> worker_reaches cap single s s' -> worker_ok hash cap s'.1 s'.2.1 s'.2.2.1.
Proof. intros Hs Hr. by destruct (reaches_good _ _ _ _ Hs Hr). Qed.

(** C14: in every state in which a worker waits in [epoll_wait], whatever was handed to
    it, reported to it and done to its sockets before, and whatever allocations and
    [epoll_ctl] calls failed: each open socket belongs to exactly one entry of the queue
    or connection; every connection is consistent, keeps only an incomplete request as
    input, and its descriptor is in the interest list for exactly the events it waits
    for or not at all; sockets in the queue and a stop request have been announced by the
    wake-up counter, so that [epoll_wait] reports it. If no batch of events meets both an
    allocation and an [epoll_ctl] that fail, every connection is registered for exactly
    the events it waits for. (When both fail it need not be: [install_unregistered].) *)
Theorem worker_invariant cap single s s' :
  worker_starts cap s -> worker_reaches cap single s s' ->
  worker_holds hash cap [] s'.1 s'.2.1 s'.2.2.1 /\
  (pending_ s'.1 <> [] \/ stop_requested_ s'.1 = true -> 0 < Kernel.counter s'.2.2.1) /\
  (single = true -> forall fd c, connections_ s'.1 !! fd = Some c ->
     Kernel.interest s'.2.2.1 !! fd = Some (Connection.desired_events c)).
Proof. intros Hs Hr. destruct (reaches_good _ _ _ _ Hs Hr) as [[H1 [_ H2]] H3]. by split_and!. Qed.

(** In every state a worker can reach, nothing goes wrong: no descriptor is
    closed twice or used after it was closed, a batch of events and a stop request
    end without an exception (both are [noexcept] in the code), and handing over a
    socket throws at most [std::bad_alloc], in which case the socket is closed. *)
Theorem worker_never_fails cap s w e k m :
  worker_starts cap s -> worker_reaches cap false s (w, (e, (k, m))) ->
  (forall events, exists s', run_once hash events (w, (e, (k, m))) = (Ret tt, s')) /\
  (exists s', request_stop (w, (e, (k, m))) = (Ret tt, s')) /\
  (forall fd sock, unused fd w k -> exists o s',
    enqueue (UniqueFd.MkUniqueFd fd) (w, (e, (accepted fd sock k, m))) = (o, s') /\
    (o = Ret tt \/ o = Throw bad_alloc /\ Kernel.sockets s'.2.2.1 !! fd = None)).
Proof.
  intros Hs Hr. pose proof (worker_ok_sound _ _ _ _ _ (reaches_ok _ _ _ _ Hs Hr)) as Hok. cbn [fst snd] in Hok. split_and!.
  - intros events. destruct (wp_run _ _ _ _ (run_once_wp hash cap events w e k m Hok)) as [([] & s' & H & _)|(x & s' & _ & [])].
    by exists s'.
  - destruct (wp_run _ _ _ _ (request_stop_wp hash cap w e k m Hok)) as [([] & s' & H & _)|(x & s' & _ & [])]. by exists s'.
  - intros fd sock Hu. destruct (wp_run _ _ _ _ (enqueue_wp hash cap fd w e (accepted fd sock k) m
      (accepted_holds _ _ _ _ _ _ (proj1 Hok) Hu) (proj2 Hok))) as [([] & s' & H & _)|(x & s' & H & [-> _] & _ & [_ Hc] & _)].
    + exists (Ret tt), s'. auto.
    + exists (Throw bad_alloc), s'. auto.
Qed.

(** Whenever the loop of a worker ends, the end of [run] closes every socket the
    worker owns, once each: queue and connections are empty and none is left open. *)
Theorem worker_end_closes_all cap s w e k m :
  worker_starts cap s -> worker_reaches cap false s (w, (e, (k, m))) ->
  exists s', run_end (w, (e, (k, m))) = (Ret tt, s') /\ Kernel.sockets s'.2.2.1 = ∅ /\
    connections_ s'.1 = ∅ /\ pending_ s'.1 = [] /\ s'.2.1 = e.
Proof.
  intros Hs Hr. pose proof (reaches_ok _ _ _ _ Hs Hr) as [Hok _]. cbn [fst snd] in Hok.
  destruct (wp_run _ _ _ _ (run_end_wp hash cap w e k m Hok)) as [([] & s' & H & H1 & H2 & H3 & H4 & _)|(x & s' & _ & [])].
  by exists s'.
Qed.

(** An event touches only its own connection: the others, their sockets and
    their registration stay as they were. Afterwards the connection is gone, with
    its socket closed, or registered for exactly the events it now waits for; after
    an error event it is gone. *)
Theorem worker_event_effect cap fd events w e k m :
  worker_holds hash cap [] w e k ->
  wp (handle_connection_event hash fd events) (w, (e, (k, m))) (post
    (fun _ s' => worker_holds hash cap [] s'.1 s'.2.1 s'.2.2.1 /\ others_same fd (w, (e, (k, m))) s' /\
       (connections_ s'.1 !! fd = None /\ (is_Some (connections_ w !! fd) -> Kernel.sockets s'.2.2.1 !! fd = None) \/
        has events EPOLLERR = false /\ exists c, connections_ s'.1 !! fd = Some c /\
          Kernel.interest s'.2.2.1 !! fd = Some (Connection.desired_events c)))
    (fun _ _ => False)).
Proof.
  intros Ho. eapply wp_post_mono; [by apply (handle_connection_event_wp hash cap)| |done].
  intros _ s' [(H1 & H2 & H3) H4]. split_and!; [done|done|]. destruct H3 as [Hn|(c & Hc & Hi)].
  - left. split; [done|]. intros [c Hc]. pose proof (wk_owned _ _ _ _ _ _ _ _ Ho Hc) as (_ & _ & _ & _ & Hw).
    destruct (Kernel.sockets s'.2.2.1 !! fd) eqn:Hs; [|done].
    destruct (proj1 (wk_sockets _ _ _ _ _ _ H1 fd)) as [Hin|Hin]; [by eexists|..].
    + destruct H2 as (P & _). unfold waiting in Hin, Hw. rewrite P in Hin. done.
    + rewrite Hn in Hin. by destruct Hin.
  - right. split; [|by exists c]. destruct (has events EPOLLERR) eqn:He; [|done]. specialize (H4 eq_refl). congruence.
Qed.

(** A wake-up empties the queue: after a batch that contains it, no socket
    waits any more, unless the worker is to stop. If nothing fails, every socket
    that waited is now a connection registered for reading. *)
Theorem worker_installs_pending cap events w e k m :
  worker_sound hash cap w e k -> stop_requested_ w = false -> wakeup_ w ∈ events.*1 ->
  (exists s', run_once hash events (w, (e, (k, m))) = (Ret tt, s') /\ pending_ s'.1 = []) /\
  (quiet m -> Kernel.ctl k = [] -> exists s', install_pending (w, (e, (k, m))) = (Ret tt, s') /\
    forall fd, fd ∈ waiting w -> exists c, connections_ s'.1 !! fd = Some c /\
      Kernel.interest s'.2.2.1 !! fd = Some (Z.lor EPOLLRDHUP EPOLLIN)).
Proof.
  intros Hok Hstop Hin. split.
  - destruct (wp_run _ _ _ _ (run_once_wp hash cap events w e k m Hok)) as [([] & s' & H & _ & _ & Hp & _)|(x & s' & _ & [])].
    exists s'. split; [done|]. rewrite Hp, Hstop. by rewrite bool_decide_true.
  - intros Hq Hc. destruct (wp_run _ _ _ _ (install_pending_wp hash cap w e k m (proj1 Hok)))
      as [([] & s' & H & _ & _ & _ & _ & Hst)|(x & s' & _ & [])].
    exists s'. split; [done|]. intros fd Hfd. destruct Hst as [_ Hall]; [by split|].
    destruct (Hall fd Hfd) as (c & H1 & (_ & _ & H2) & H3). exists c. split; [done|]. by rewrite H3, H2.
Qed.

(** Serving a readable event, with what was received and answered. *)
Lemma serve_readable_wp cap fd c sock e m w k ls :
  conn_ready c -> engine_holds hash cap e ls -> Connection.close_after_write_ c = false ->
  let left keep s := exists c' sock' e' m' ls', s = put fd c' sock' e' m' w k /\ conn_ok c' /\
    Connection.output_limit_ c' = Connection.output_limit_ c /\ engine_holds hash cap e' ls' /\
    (keep = true -> conn_ready c') /\
    (keep = true -> exists stream rs rest bad, incoming sock = stream ++ incoming sock' /\
      served hash e (input_view c ++ stream) e' rs rest bad /\ input_view c' = rest /\
      output_view c' = output_view c ++ concat (Protocol.response_frame <$> rs) /\
      Connection.close_after_write_ c' = bad) in
  wp (serve_events hash fd EPOLLIN) (put fd c sock e m w k) (post left (fun _ => left false)).
Proof.
  intros Hr He F left. pose proof Hr as (Hok & F2 & Hv & _). unfold serve_events.
  change (has EPOLLIN EPOLLERR) with false. change (has EPOLLIN EPOLLOUT) with false.
  change (has EPOLLIN (Z.lor (Z.lor EPOLLIN EPOLLRDHUP) EPOLLHUP)) with true.
  change (has EPOLLIN (Z.lor EPOLLRDHUP EPOLLHUP)) with false. cbn [negb andb].
  apply wp_bind, wp_on_put.
  pose proof (readable_kept hash cap c e sock m ls Hr He) as H1.
  pose proof (handle_readable_wp hash cap c e sock m ls Hok He (Hv F) F F2) as H2.
  unfold wp in *. destruct (Connection.handle_readable hash _) as [[b|x|] s]; cbn [fst snd post] in *; [..|done].
  - destruct H1 as [(C1 & C2 & ls' & C3) C4], H2 as [(_ & _ & _ & _ & _ & _ & stream & Hst & H) Hb].
    unfold bind, ret. rewrite !andb_false_r. cbn [fst snd]. eexists _, _, _, _, ls'.
    split_and!; [done|done|done|done|done|]. intros ->. destruct H as [H|(_ & _ & rs & rest & bad & H)]; [by rewrite H in Hb|].
    exists stream, rs, rest, bad. by destruct H as (G1 & G2 & G3 & G4 & _).
  - destruct H1 as (C1 & C2 & ls' & C3). eexists _, _, _, _, ls'. by split_and!.
Qed.

(** A readable event serves the peer's requests: unless the connection is
    dropped, the responses queued for this peer are those of the requests in the
    bytes it sent, executed in order on the shared engine, and the worker waits for
    the rest of the request that is incomplete. *)
Theorem worker_serves_requests cap fd c sock w e k m :
  worker_holds hash cap [] w e k -> connections_ w !! fd = Some c -> Kernel.sockets k !! fd = Some sock ->
  Connection.close_after_write_ c = false ->
  wp (handle_connection_event hash fd EPOLLIN) (w, (e, (k, m))) (post
    (fun _ s' => connections_ s'.1 !! fd = None \/
       exists c' sock' stream rs rest bad, connections_ s'.1 !! fd = Some c' /\
         Kernel.sockets s'.2.2.1 !! fd = Some sock' /\ incoming sock = stream ++ incoming sock' /\
         served hash e (input_view c ++ stream) s'.2.1 rs rest bad /\ input_view c' = rest /\
         output_view c' = output_view c ++ concat (Protocol.response_frame <$> rs) /\
         Connection.close_after_write_ c' = bad)
    (fun _ _ => False)).
Proof.
  intros Ho Hc Hs F. pose proof (wk_owned _ _ _ _ _ _ _ _ Ho Hc) as (_ & Hr & _).
  destruct (wk_engine _ _ _ _ _ _ Ho) as [ls He]. pose proof Hr as (Hok & F2 & Hv & _).
  unfold handle_connection_event. apply wp_bind, wp_on_fst, wp_read. cbn beta iota. rewrite Hc.
  rewrite <- (put_same fd c sock e m w k Hc Hs) at 1. apply wp_bind.
  eapply wp_try_catch; [apply (serve_readable_wp cap fd c sock e m w k ls Hr He F)|..].
  - intros keep s (c' & sock' & e' & m' & ls' & -> & H1 & H2 & H3 & H4 & H5).
    eapply wp_post_mono; [by eapply (settle_wp hash cap fd c c' sock' e m w k e' m' ls' keep)| |done].
    intros _ s' (_ & -> & [Hn|(Hk & Hc' & Hs')]); [by left|right]. destruct (H5 Hk) as (stream & rs & rest & bad & G).
    exists c', sock', stream, rs, rest, bad. destruct G as (G1 & G2 & G3 & G4 & G5). by split_and!.
  - intros x s (c' & sock' & e' & m' & ls' & -> & H1 & H2 & H3 & _). apply wp_ret.
    eapply wp_post_mono; [by eapply (settle_wp hash cap fd c c' sock' e m w k e' m' ls' false)| |done].
    intros _ s' (_ & _ & [Hn|(? & _)]); [by left|done].
Qed.
End worker.

(** ** Instances *)

(** A worker whose wake-up descriptor is 9, over the sample engine. *)
Definition sample_worker : Worker.t := init 4096 9.
Definition sample_kernel : Kernel.t := init_kernel 9 [] (lit "No space left on device").
Definition sample_start : Worker.state := (sample_worker, (sample_engine, (sample_kernel, sample_env))).

Lemma sample_starts : worker_starts sample_hash 201 sample_start.
Proof.
  exists 4096, 9, [], (lit "No space left on device"), sample_engine, sample_env, [[]; []].
  split_and!; [lia|lia|exact sample_engine_holds|reflexivity].
Qed.

(** Descriptor 5 is accepted and queued, then the wake-up event installs it. *)
Definition sample_peer : Socket.t := Socket.MkSocket [] [] [].
Definition sample_queued : Worker.state :=
  (enqueue (UniqueFd.MkUniqueFd 5) (sample_worker, (sample_engine, (accepted 5 sample_peer sample_kernel, sample_env)))).2.
Definition sample_serving : Worker.state := (run_once sample_hash [(9, 1)] sample_queued).2.

Lemma sample_unused : unused 5 sample_worker sample_kernel.
Proof. split_and!; [lia|done|reflexivity]. Qed.

Lemma sample_queued_reached b : worker_reaches sample_hash 201 b sample_start sample_queued.
Proof.
  eapply reaches_step; [apply reaches_refl|]. eapply (step_enqueue _ _ _ 5 sample_peer); [exact sample_unused|].
  apply surjective_pairing.
Qed.

Lemma sample_serving_reached b : worker_reaches sample_hash 201 b sample_start sample_serving.
Proof.
  eapply reaches_step; [apply sample_queued_reached|]. eapply (step_run_once _ _ _ [(9, 1)]); [reflexivity|intros _; by left|].
  apply surjective_pairing.
Qed.

(** The parts of a state. *)
Lemma state_eta (s : Worker.state) : s = (s.1, (s.2.1, (s.2.2.1, s.2.2.2))).
Proof. by destruct s as [? [? [? ?]]]. Qed.

Lemma worker_invariant_witness :
  exists c, connections_ sample_serving.1 !! 5 = Some c /\
    Kernel.interest sample_serving.2.2.1 !! 5 = Some (Connection.desired_events c).
Proof.
  destruct (worker_invariant sample_hash 201 true sample_start sample_serving sample_starts (sample_serving_reached true)) as (_ & _ & H).
  destruct (connections_ sample_serving.1 !! 5) as [c|] eqn:E; [|vm_compute in E; discriminate E].
  exists c. split; [reflexivity|]. exact (H eq_refl 5 c E).
Defined.

Lemma worker_never_fails_witness :
  exists s', run_once sample_hash [(5, 1); (9, 1)] sample_serving = (Ret tt, s').
Proof.
  pose proof (sample_serving_reached false) as H. rewrite (state_eta sample_serving) in *.
  exact (proj1 (worker_never_fails sample_hash 201 sample_start _ _ _ _ sample_starts H) [(5, 1); (9, 1)]).
Defined.

Lemma worker_end_closes_all_witness :
  exists s', run_end sample_serving = (Ret tt, s') /\ Kernel.sockets s'.2.2.1 = ∅.
Proof.
  pose proof (sample_serving_reached false) as H. rewrite (state_eta sample_serving) in *.
  destruct (worker_end_closes_all sample_hash 201 sample_start _ _ _ _ sample_starts H) as (s' & H1 & H2 & _).
  exists s'. split; [exact H1|exact H2].
Defined.

Lemma sample_serving_ok : worker_ok sample_hash 201 sample_serving.1 sample_serving.2.1 sample_serving.2.2.1.
Proof. exact (reaches_ok sample_hash 201 false _ _ sample_starts (sample_serving_reached false)). Qed.

Lemma sample_queued_ok : worker_ok sample_hash 201 sample_queued.1 sample_queued.2.1 sample_queued.2.2.1.
Proof. exact (reaches_ok sample_hash 201 false _ _ sample_starts (sample_queued_reached false)). Qed.

Lemma worker_event_effect_witness :
  exists s', handle_connection_event sample_hash 5 8 sample_serving = (Ret tt, s') /\
    connections_ s'.1 !! 5 = None.
Proof.
  pose proof (worker_event_effect sample_hash 201 5 8 _ _ _ sample_serving.2.2.2 (proj1 sample_serving_ok)) as H.
  rewrite <- (state_eta sample_serving) in H. unfold wp in H.
  destruct (handle_connection_event sample_hash 5 8 sample_serving) as [[[]|x|] s']; cbn [fst snd post] in H; [|destruct H|destruct H].
  exists s'. split; [reflexivity|]. destruct H as (_ & _ & [[H _]|[H _]]); [exact H|discriminate H].
Defined.

Lemma worker_installs_pending_witness :
  exists s', install_pending sample_queued = (Ret tt, s') /\
    exists c, connections_ s'.1 !! 5 = Some c /\ Kernel.interest s'.2.2.1 !! 5 = Some (Z.lor EPOLLRDHUP EPOLLIN).
Proof.
  destruct (worker_installs_pending sample_hash 201 [(9, 1)] _ _ _ sample_queued.2.2.2 (worker_ok_sound _ _ _ _ _ sample_queued_ok)) as [_ H].
  - reflexivity.
  - left.
  - rewrite <- (state_eta sample_queued) in H. destruct H as (s' & H1 & H2); [reflexivity|reflexivity|].
    exists s'. split; [exact H1|]. apply H2. left.
Defined.

Lemma worker_serves_requests_witness :
  exists c sock s', connections_ sample_serving.1 !! 5 = Some c /\ Kernel.sockets sample_serving.2.2.1 !! 5 = Some sock /\
    handle_connection_event sample_hash 5 EPOLLIN sample_serving = (Ret tt, s').
Proof.
  destruct (connections_ sample_serving.1 !! 5) as [c|] eqn:Hc; [|vm_compute in Hc; discriminate Hc].
  destruct (Kernel.sockets sample_serving.2.2.1 !! 5) as [sock|] eqn:Hs; [|vm_compute in Hs; discriminate Hs].
  assert (Connection.close_after_write_ c = false) as F by (vm_compute in Hc; injection Hc as <-; reflexivity).
  pose proof (worker_serves_requests sample_hash 201 5 c sock _ _ _ sample_serving.2.2.2 (proj1 sample_serving_ok) Hc Hs F) as H.
  rewrite <- (state_eta sample_serving) in H. unfold wp in H. exists c, sock.
  destruct (handle_connection_event sample_hash 5 EPOLLIN sample_serving) as [[[]|x|] s']; cbn [fst snd post] in H; [|destruct H|destruct H].
  exists s'. split_and!; reflexivity.
Defined.

(** When [epoll_ctl] fails and so does building the text of its error, the
    exception is not a [HighCacheError]: the inner handler of [install_pending] does
    not run, and the connection stays in the map although no event of it will ever
    be reported. *)
Theorem install_unregistered :
  let s' := (install (UniqueFd.MkUniqueFd 5)
    (sample_worker, (sample_engine, (with_ctl [true] (accepted 5 sample_peer sample_kernel),
      MkEnv empty_memory [false; false; false; false; true])))).2 in
  is_Some (connections_ s'.1 !! 5) /\ Kernel.interest s'.2.2.1 !! 5 = None /\ is_Some (Kernel.sockets s'.2.2.1 !! 5).
Proof. split_and!; [apply (bool_decide_unpack _)|..|apply (bool_decide_unpack _)]; vm_compute; try exact I; reflexivity. Qed.
