(* ===== verification/HandoffTheorems.v ===== *)
(** * What the hand-over guarantees under every interleaving *)
From S2P Require Import Prelude ErrorModel Effects MemoryModel WorkerModel HandoffModel.
Import Handoff.

(** ** The invariant *)

Definition acceptor_holds (a : acceptor_pc) : bool :=
  match a with a_check _ | a_push _ | a_leave _ | a_unlock => true | _ => false end.
Definition worker_holds_mutex (w : worker_pc) : bool :=
  match w with w_swap | w_unlock _ | w_end_clear | w_end_unlock => true | _ => false end.

(** A wake-up is on its way. *)
Definition waking (s : t) : Prop :=
  0 < counter s \/ apc s = a_unlock \/ apc s = a_wake \/ cpc s = c_wake.

(** The socket [enqueue] holds, and those [install_pending] holds. *)
Definition in_enqueue (a : acceptor_pc) : list Z :=
  match a with
  | a_lock fd | a_check fd | a_push fd | a_leave fd | a_close fd => [fd]
  | _ => []
  end.
Definition in_worker (w : worker_pc) : list Z :=
  match w with w_unlock l | w_install l => l | _ => [] end.

(** Where the wake-up has been consumed but the queue not yet been looked at. *)
Definition consumed (w : worker_pc) : bool :=
  match w with w_check | w_lock | w_swap => true | _ => false end.
(** Past the loop; past the clearing. *)
Definition ending (w : worker_pc) : bool :=
  match w with w_close | w_end_lock | w_end_clear | w_end_unlock | w_done => true | _ => false end.
Definition cleared (w : worker_pc) : bool :=
  match w with w_end_unlock | w_done => true | _ => false end.

(** Past the clearing of the connections. *)
Definition disconnected (w : worker_pc) : bool :=
  match w with w_end_lock | w_end_clear | w_end_unlock | w_done => true | _ => false end.

(** How often a socket occurs in a list. *)
Definition occ (fd : Z) (l : list Z) : nat := count_occ Z.eq_dec l fd.

Lemma occ_app fd l1 l2 : occ fd (l1 ++ l2) = (occ fd l1 + occ fd l2)%nat.
Proof. apply count_occ_app. Qed.

Lemma occ_perm fd l l1 l2 : l ≡ₚ l1 ++ l2 -> occ fd l = (occ fd l1 + occ fd l2)%nat.
Proof. intros H. rewrite <- occ_app. by apply (Permutation_count_occ Z.eq_dec). Qed.

Record inv (s : t) : Prop := {
  inv_acceptor : mutex s = Some acceptor <-> acceptor_holds (apc s) = true;
  inv_worker : mutex s = Some worker <-> worker_holds_mutex (wpc s) = true;
  inv_counter : 0 <= counter s;
  inv_queue : queue s <> [] -> consumed (wpc s) = false -> waking s \/ stop s = true \/ broke s = true;
  inv_wait : wpc s = w_wait -> stop s = true -> waking s;
  inv_wait_queue : wpc s = w_wait -> queue s <> [] -> waking s;
  inv_broke : broke s = true -> ending (wpc s) = true;
  inv_ending : ending (wpc s) = true -> broke s = false -> stop s = true;
  inv_cleared : cleared (wpc s) = true -> broke s = false ->
    queue s = [] /\ (forall fd, apc s <> a_push fd) /\ (apc s <> a_unlock);
  inv_disconnected : disconnected (wpc s) = true -> installed s = [];
  inv_given : forall fd, occ fd (given s) =
    (occ fd (in_enqueue (apc s)) + occ fd (queue s) + occ fd (in_worker (wpc s)) + occ fd (installed s) + occ fd (closed s))%nat
}.

Lemma bump_pos n : 0 <= n -> 0 < bump n.
Proof. intros Hn. unfold bump, Kernel.counter_max. destruct (_ <? _) eqn:E; zsimp; lia. Qed.

(** One step at a time: the components of the invariant are mostly unchanged or
    follow by propositional reasoning. *)
Ltac inv_step :=
  constructor; unfold waking in *; simpl in *;
  repeat match goal with
  | b : bool |- context [if ?b then _ else _] => destruct b; simpl in *
  end;
  try solve [intuition (try congruence; try lia)];
  try solve [intros fd'; repeat match goal with H : forall fd, occ fd _ = _ |- _ => specialize (H fd') end;
    repeat match goal with H : _ ≡ₚ _ |- _ => apply (occ_perm fd') in H end;
    rewrite ?occ_app in *; simpl in *; lia].

Lemma cleared_ending w : cleared w = true -> ending w = true.
Proof. by destruct w. Qed.

Lemma acceptor_inv s s' : acceptor_step s s' -> inv s -> inv s'.
Proof.
  intros Hstep [A W C Q T TQ B E D DC G]. pose proof (cleared_ending (wpc s)) as CE. pose proof (bump_pos (counter s) C) as P.
  destruct Hstep; inv_step.
Qed.

Lemma control_inv s s' : control_step s s' -> inv s -> inv s'.
Proof.
  intros Hstep [A W C Q T TQ B E D DC G]. pose proof (bump_pos (counter s) C) as P. destruct Hstep; inv_step.
Qed.

Lemma worker_inv s s' : Handoff.worker_step s s' -> inv s -> inv s'.
Proof.
  intros Hstep [A W C Q T TQ B E D DC G]. destruct Hstep; inv_step.
  intros _ _. destruct a; simpl in *; intuition congruence.
Qed.

Lemma event_inv s s' : event_step s s' -> inv s -> inv s'.
Proof. intros Hstep [A W C Q T TQ B E D DC G]. destruct Hstep; inv_step. Qed.

Lemma step_inv s s' : step s s' -> inv s -> inv s'.
Proof.
  intros [H|[H|[H|H]]]; [by apply acceptor_inv|by apply control_inv|by apply worker_inv|by apply event_inv].
Qed.

Lemma reachable_inv s : reachable s -> inv s.
Proof. induction 1 as [|s s' _ IH H]; [by constructor|by eapply step_inv]. Qed.

Lemma move_step s s' : move s s' -> step s s'.
Proof. intros [[[H _]|[[H _]|H]]|H]; [left|right;left|do 2 right;left|do 3 right]; exact H. Qed.

(** ** Progress *)

(** A thread inside a call can move, unless it waits for the mutex another holds
    or for an event. *)
Lemma internal_stuck s :
  inv s -> (forall s', ~ internal s s') ->
  apc s = a_idle /\ cpc s = c_idle /\ (wpc s = w_done \/ wpc s = w_wait /\ ~ 0 < counter s).
Proof.
  intros Hi Hs. destruct s as [m b q n a c w br g i cl]. simpl.
  destruct Hi as [A W _ _ _ _ _ _ _ _ _]. simpl in *.
  assert (worker_holds_mutex w = false) as Hw.
  { destruct w; try done; exfalso; eapply Hs; do 2 right; by econstructor. }
  assert (acceptor_holds a = false) as Ha.
  { destruct a; try done; exfalso; eapply Hs; left; (split; [by econstructor|done]). }
  assert (m = None) as ->.
  { rewrite Hw in W. rewrite Ha in A. destruct m as [[]|]; [discriminate (proj1 A eq_refl)|discriminate (proj1 W eq_refl)|done]. }
  split_and!.
  - destruct a; try done; exfalso; eapply Hs; left; (split; [by econstructor|done]).
  - destruct c; [done|]. exfalso. eapply Hs. right. left. split; [by econstructor|done].
  - destruct w; auto; try (exfalso; eapply Hs; do 2 right; by econstructor).
    + right. split; [done|]. intros Hn. eapply Hs. do 2 right. by econstructor.
    + exfalso. eapply Hs. do 2 right. apply (run_drain None b q n a c br g i cl i []). by rewrite app_nil_r.
    + exfalso. eapply Hs. do 2 right. apply (run_install None b q n a c taken br g i cl taken []). by rewrite app_nil_r.
Qed.

(** How far each thread is from the end of what it does, once the worker is to stop. *)
Definition acceptor_rank (a : acceptor_pc) : nat :=
  match a with
  | a_idle => 0 | a_wake => 1 | a_close _ => 1 | a_unlock => 2 | a_leave _ => 2
  | a_push _ => 3 | a_check _ => 4 | a_lock _ => 5
  end.
Definition control_rank (c : control_pc) : nat := match c with c_idle => 0 | c_wake => 1 end.
Definition worker_rank (w : worker_pc) : nat :=
  match w with
  | w_done => 0 | w_end_unlock => 1 | w_end_clear => 2 | w_end_lock => 3 | w_close => 4 | w_loop => 5
  | w_install _ => 6 | w_unlock _ => 7 | w_swap => 8 | w_lock => 9
  | w_check => 6 | w_drain => 7 | w_wait => 8
  end.
Definition rank (s : t) : nat := acceptor_rank (apc s) + control_rank (cpc s) + worker_rank (wpc s).

Lemma rank_bound s : (rank s <= 15)%nat.
Proof. destruct s as [m b q n [] [] [] br g i cl]; unfold rank; simpl; lia. Qed.

Lemma move_rank s s' : stop s = true -> move s s' -> stop s' = true /\ (rank s' < rank s)%nat.
Proof.
  intros Hs Hm. destruct Hm as [[[Hm Ha]|[[Hm Hc]|Hm]]|Hm]; destruct Hm; simpl in *; subst;
    (split; [done|unfold rank; simpl; lia]) || done.
Qed.

Lemma moves_rank n s s' : nsteps move n s s' -> stop s = true -> stop s' = true /\ (n + rank s' <= rank s)%nat.
Proof.
  induction 1 as [s|n s s1 s' Hm _ IH]; intros Hs; [auto with lia|].
  destruct (move_rank _ _ Hs Hm) as [H1 H2]. destruct (IH H1) as [H3 H4]. split; [done|lia].
Qed.

(** ** The guarantees *)

(** C5: no wake-up is lost: under every interleaving of [enqueue], [request_stop]
    and [run], once the calls that began have gone as far as they can, the worker
    has ended or is waiting with an empty queue and no stop request outstanding.
    In particular it never sleeps on a socket that was handed over, and the mutex
    is never held forever. *)
Theorem handoff_no_lost_wakeup s :
  reachable s -> (forall s', ~ internal s s') ->
  apc s = a_idle /\ cpc s = c_idle /\ mutex s = None /\
  (wpc s = w_done \/ wpc s = w_wait /\ queue s = [] /\ stop s = false).
Proof.
  intros Hr Hs. pose proof (reachable_inv s Hr) as Hi. destruct (internal_stuck s Hi Hs) as (Ha & Hc & Hw).
  destruct Hi as [A W C Q T TQ B E D DC G]. rewrite Ha in A.
  assert (worker_holds_mutex (wpc s) = false) as Hm by (by destruct Hw as [->|[-> _]]). rewrite Hm in W.
  assert (mutex s = None) as Hmu.
  { destruct (mutex s) as [[]|]; [discriminate (proj1 A eq_refl)|discriminate (proj1 W eq_refl)|done]. }
  split_and!; [done|done|done|]. destruct Hw as [Hw|[Hw Hn]]; [by left|right].
  assert (~ waking s) as Hno by (unfold waking; rewrite Ha, Hc; intuition congruence).
  split_and!; [done|..].
  - destruct (queue s) eqn:Eq; [done|]. destruct Hno. by apply TQ.
  - destruct (stop s) eqn:Es; [|done]. destruct Hno. by apply T.
Qed.

Lemma moves_reachable n s s' : reachable s -> nsteps move n s s' -> reachable s'.
Proof.
  intros Hr Hn. induction Hn as [s|n s s1 s' Hm _ IH]; [done|]. apply IH. eapply reachable_step; [exact Hr|]. by apply move_step.
Qed.

(** C21: a stop request ends the worker: from any reachable state in which it was
    made, whatever connections do and however the threads are scheduled, at most 15
    further steps of the calls that began are possible; and when none is left the
    worker has ended, with its connections closed and, unless it left the loop on
    an error of [epoll_wait], nothing in its queue. *)
Theorem handoff_stop_terminates s :
  reachable s -> stop s = true ->
  forall n s', nsteps move n s s' ->
    (n <= 15)%nat /\
    ((forall s'', ~ internal s' s'') -> wpc s' = w_done /\ installed s' = [] /\ (broke s' = false -> queue s' = [])).
Proof.
  intros Hr Hs n s' Hn. destruct (moves_rank _ _ _ Hn Hs) as [Hs' Hrank]. split; [pose proof (rank_bound s); lia|].
  intros Hstuck. pose proof (moves_reachable _ _ _ Hr Hn) as Hr'.
  pose proof (reachable_inv s' Hr') as Hi. destruct (internal_stuck s' Hi Hstuck) as (Ha & Hc & [Hw|[Hw Hcnt]]).
  - destruct Hi as [A W C Q T TQ B E D DC G]. rewrite Hw in *. split_and!; [done|by apply DC|]. intros Hb. by apply D.
  - destruct (inv_wait _ Hi Hw Hs') as [H|[H|[H|H]]]; congruence.
Qed.


(** ** Instances *)

(** A step of a run that is known to be reachable. *)
Ltac reach R tac :=
  let R' := fresh in
  eassert (reachable _) as R' by (eapply reachable_step; [exact R|tac]);
  clear R; rename R' into R; simpl in R.
Ltac by_acceptor c := left; eapply c.
Ltac by_control c := right; left; eapply c.
Ltac by_worker c := do 2 right; left; eapply c.

(** Socket 7 handed over, taken and installed; the worker waits again. *)
Lemma handoff_no_lost_wakeup_witness :
  exists s, reachable s /\ (forall s', ~ internal s s') /\ installed s = [7] /\ wpc s = w_wait /\ queue s = [].
Proof.
  pose proof reachable_init as R. unfold init in R.
  reach R ltac:(by_acceptor (enqueue_call 7)). reach R ltac:(by_acceptor enqueue_lock).
  reach R ltac:(by_acceptor enqueue_check). reach R ltac:(by_worker run_loop).
  reach R ltac:(by_acceptor enqueue_push). reach R ltac:(by_acceptor enqueue_unlock).
  reach R ltac:(by_acceptor enqueue_wake). reach R ltac:(by_worker run_wakeup; vm_compute; reflexivity).
  reach R ltac:(do 2 right; left; eapply (run_drain _ _ _ _ _ _ _ _ _ _ [] []); reflexivity). reach R ltac:(by_worker run_check).
  reach R ltac:(by_worker run_lock). reach R ltac:(by_worker run_swap). reach R ltac:(by_worker run_unlock).
  reach R ltac:(do 2 right; left; eapply (run_install _ _ _ _ _ _ _ _ _ _ _ [7] []); reflexivity). reach R ltac:(by_worker run_loop).
  assert (Hs : forall s', ~ internal (MkHandoff None false [] 0 a_idle c_idle w_wait false [7] [7] []) s');
    [|eexists; split; [exact R|split; [exact Hs|]]].
  - intros s' [[H Ha]|[[H Hc]|H]]; [by destruct Ha|by destruct Hc|]. inversion H. lia.
  - destruct (handoff_no_lost_wakeup _ R Hs) as (_ & _ & _ & [Hw|(Hw & Hq & _)]); [discriminate Hw|].
    split; [reflexivity|]. split; [exact Hw|exact Hq].
Defined.

(** A stop request during a hand-over: the worker is woken and ends; the socket that
    was being queued is closed. *)
Lemma stopped_reachable :
  reachable (MkHandoff (Some acceptor) true [] 0 (a_push 7) c_wake w_wait false [7] [] []).
Proof.
  pose proof reachable_init as R. unfold init in R. reach R ltac:(by_worker run_loop).
  reach R ltac:(by_acceptor (enqueue_call 7)). reach R ltac:(by_acceptor enqueue_lock).
  reach R ltac:(by_acceptor enqueue_check). reach R ltac:(by_control stop_store). exact R.
Qed.

(** A move of a run. *)
Ltac run_move tac := eapply nsteps_l; [tac|simpl].
Ltac acceptor_move c := run_move ltac:(left; left; split; [eapply c|done]).
Ltac worker_move c := run_move ltac:(left; right; right; eapply c).

(** From there to the end of the worker, in 12 moves. *)
Lemma stopped_run :
  nsteps move 12 (MkHandoff (Some acceptor) true [] 0 (a_push 7) c_wake w_wait false [7] [] [])
    (MkHandoff None true [] 0 a_idle c_idle w_done false [7] [] [7]).
Proof.
  acceptor_move enqueue_push. acceptor_move enqueue_unlock. acceptor_move enqueue_wake.
  run_move ltac:(left; right; left; split; [eapply stop_wake|done]).
  worker_move run_wakeup; [vm_compute; reflexivity|].
  run_move ltac:(left; right; right; eapply (run_drain _ _ _ _ _ _ _ _ _ _ [] []); reflexivity).
  worker_move run_check. worker_move run_loop. worker_move run_close. worker_move run_end_lock.
  worker_move run_end_clear. worker_move run_end_unlock. apply nsteps_O.
Qed.

Lemma stopped_stuck s' : ~ internal (MkHandoff None true [] 0 a_idle c_idle w_done false [7] [] [7]) s'.
Proof. intros [[H Ha]|[[H Hc]|H]]; [by destruct Ha|by destruct Hc|inversion H]. Qed.

Lemma handoff_stop_terminates_witness :
  (12 <= 15)%nat /\ queue (MkHandoff None true [] 0 a_idle c_idle w_done false [7] [] [7]) = [].
Proof.
  destruct (handoff_stop_terminates _ stopped_reachable eq_refl 12 _ stopped_run) as [H1 H2].
  split; [exact H1|]. apply (H2 stopped_stuck). reflexivity.
Defined.

