(* ===== verification/HandoffCallTheorems.v ===== *)
(** * The calls of a worker as sequences of steps

    The worker model runs [enqueue] and [request_stop] as one action; the hand-over
    model interleaves their steps. Both are the same code. *)
From S2P Require Import Prelude ErrorModel Effects MemoryModel CacheEngineModel ConnectionModel.
From S2P Require Import WorkerModel WorkerFacts WorkerTheorems HandoffModel SampleStates.
Import Memory.
Import Handoff.

(** The shared state of a worker between calls, with the rest of the system. *)
Definition shared (s : Worker.state) (w : worker_pc) (br : bool) (g i cl : list Z) : t :=
  MkHandoff None (Worker.stop_requested_ s.1) (waiting s.1) (Kernel.counter s.2.2.1) a_idle c_idle w br g i cl.

Lemma wake_event_run (s : Worker.state) :
  wp Worker.wake_event s (fun o s' => o = Ret tt /\ s'.1 = s.1 /\ Kernel.counter s'.2.2.1 = bump (Kernel.counter s.2.2.1)).
Proof.
  destruct s as [w [e [k m]]]. unfold Worker.wake_event. apply wp_on_kernel. unfold Kernel.event_write. apply wp_modify.
  unfold bump. simpl. by destruct (_ <? _).
Qed.

Section calls.
Context (pc : worker_pc) (br : bool) (g i cl : list Z).

(** The way out of [enqueue] that closes the socket. *)
Lemma leave_run fd b q n :
  rtc acceptor_step (MkHandoff (Some acceptor) b q n (a_leave fd) c_idle pc br (g ++ [fd]) i cl)
    (MkHandoff None b q n a_idle c_idle pc br (g ++ [fd]) i (cl ++ [fd])).
Proof. eapply rtc_l; [apply enqueue_leave|]. apply rtc_once, enqueue_close. Qed.

(** And the one that queues it. *)
Lemma push_run fd b q n :
  rtc acceptor_step (MkHandoff (Some acceptor) b q n (a_push fd) c_idle pc br (g ++ [fd]) i cl)
    (MkHandoff None b (q ++ [fd]) (bump n) a_idle c_idle pc br (g ++ [fd]) i cl).
Proof.
  eapply rtc_l; [apply enqueue_push|]. eapply rtc_l; [apply enqueue_unlock|]. apply rtc_once, enqueue_wake.
Qed.

Lemma enter_run fd (b : bool) q n s :
  rtc acceptor_step (MkHandoff (Some acceptor) b q n (if b then a_leave fd else a_push fd) c_idle pc br (g ++ [fd]) i cl) s ->
  rtc acceptor_step (MkHandoff None b q n a_idle c_idle pc br g i cl) s.
Proof.
  intros H. eapply rtc_l; [apply (enqueue_call fd)|]. eapply rtc_l; [apply enqueue_lock|].
  eapply rtc_l; [apply enqueue_check|]. exact H.
Qed.

(** The end of [enqueue], with the socket queued or closed. *)
Definition enqueued (fd : Z) (s s' : Worker.state) : Prop :=
  rtc acceptor_step (shared s pc br g i cl) (shared s' pc br (g ++ [fd]) i cl) /\ waiting s'.1 = waiting s.1 ++ [fd] \/
  rtc acceptor_step (shared s pc br g i cl) (shared s' pc br (g ++ [fd]) i (cl ++ [fd])) /\ s'.1 = s.1 /\
    Kernel.sockets s'.2.2.1 !! fd = None.

Lemma enqueue_run fd sock (w : Worker.t) (e : CacheEngine.t) k m :
  0 <= fd -> Kernel.sockets k !! fd = Some sock ->
  wp (Worker.enqueue (UniqueFd.MkUniqueFd fd)) (w, (e, (k, m))) (post
    (fun _ s' => enqueued fd (w, (e, (k, m))) s') (fun _ s' => enqueued fd (w, (e, (k, m))) s')).
Proof.
  intros Hfd Hs. unfold Worker.enqueue. apply wp_bind, wp_on_fst, wp_read. cbn beta iota.
  destruct (Worker.stop_requested_ w) eqn:Hstop.
  - apply wp_on_kernel. eapply (destroy_fd_wp fd k sock); [done|done|]. right. unfold shared. simpl.
    split_and!; [|done|apply lookup_delete_eq]. rewrite Hstop. eapply (enter_run fd true), leave_run.
  - eapply wp_bind_post; [eapply (wp_on_throw _ _ _ (fun _ s' => exists m', s' = (w, (e, (k, m'))))
      (fun x s' => exists m', s' = (w, (e, (k, m')))) (fun _ s' => enqueued fd (w, (e, (k, m))) s'))|..].
    + apply wp_on_thread_env, wp_may_alloc; intros fs; by eexists.
    + intros x s' (m' & ->). apply wp_on_kernel. eapply (destroy_fd_wp fd k sock); [done|done|]. right. unfold shared. simpl.
      split_and!; [|done|apply lookup_delete_eq]. rewrite Hstop. eapply (enter_run fd false).
      eapply rtc_l; [apply enqueue_throw|apply leave_run].
    + intros [] s' (m' & ->). apply wp_bind, wp_on_fst, wp_modify. cbn beta iota.
      eapply wp_mono; [apply wake_event_run|]. intros o s' (-> & Hw & Hc). simpl in Hc. left. unfold shared. rewrite Hw, Hc. simpl.
      rewrite Hstop. unfold waiting. simpl. rewrite fmap_app. split; [|done]. eapply (enter_run fd false), push_run.
    + done.
Qed.

Lemma request_stop_run (s : Worker.state) :
  wp Worker.request_stop s (post (fun _ s' => rtc control_step (shared s pc br g i cl) (shared s' pc br g i cl)) (fun _ _ => False)).
Proof.
  destruct s as [w [e [k m]]]. unfold Worker.request_stop. apply wp_bind, wp_on_fst, wp_modify. cbn beta iota.
  eapply wp_mono; [apply wake_event_run|]. intros o s' (-> & Hw & Hc). simpl in Hc. cbn [post]. unfold shared. rewrite Hw, Hc. simpl.
  eapply rtc_l; [apply stop_store|]. apply rtc_once, stop_wake.
Qed.

(** The worker's calls are executions of the interleaved model: [enqueue] run
    without interruption is a sequence of the acceptor's steps that ends with the
    socket queued and announced, or closed, also when it throws; [request_stop] is
    one of the controlling thread's. *)
Theorem handoff_simulates_calls fd sock (w : Worker.t) (e : CacheEngine.t) k m :
  0 <= fd -> Kernel.sockets k !! fd = Some sock ->
  wp (Worker.enqueue (UniqueFd.MkUniqueFd fd)) (w, (e, (k, m))) (post
    (fun _ s' => enqueued fd (w, (e, (k, m))) s') (fun _ s' => enqueued fd (w, (e, (k, m))) s')) /\
  wp Worker.request_stop (w, (e, (k, m))) (post
    (fun _ s' => rtc control_step (shared (w, (e, (k, m))) pc br g i cl) (shared s' pc br g i cl)) (fun _ _ => False)).
Proof. intros Hfd Hs. split; [by eapply enqueue_run|apply request_stop_run]. Qed.

End calls.

Lemma handoff_simulates_calls_witness :
  rtc acceptor_step (MkHandoff None false [] 0 a_idle c_idle w_wait false [] [] [])
    (MkHandoff None false [5] 1 a_idle c_idle w_wait false [5] [] []).
Proof.
  pose proof (proj1 (handoff_simulates_calls w_wait false [] [] [] 5 sample_peer sample_worker sample_engine
    (accepted 5 sample_peer sample_kernel) sample_env ltac:(lia) eq_refl)) as H.
  witness_run H (Worker.enqueue (UniqueFd.MkUniqueFd 5))
    (sample_worker, (sample_engine, (accepted 5 sample_peer sample_kernel, sample_env))) (Ret tt).
  assert (s' = sample_queued) as -> by (unfold sample_queued; by rewrite E).
  destruct H as [[H _]|(_ & H & _)]; [exact H|]. exfalso. vm_compute in H. discriminate H.
Defined.
