(* ===== verification/ServerSystemFacts.v ===== *)
(** * The server as a system

    The timer, rounds of the loops of the acceptor and of the workers, starting and
    stopping, in any order: the steps of the system and the invariant they keep; and destruction, which
    stops and joins the threads and closes every descriptor of the server and of its
    workers, once each. *)
From S2P Require Import Prelude ErrorModel Effects MemoryModel ProgressFacts BufferModel ProtocolModel LruSpec.
From S2P Require Import CacheEngineModel CacheEngineFacts EngineTheorems ConnectionModel ConnectionFacts.
From S2P Require Import WorkerModel WorkerFacts WorkerInstallFacts WorkerRunFacts WorkerTheorems.
From S2P Require Import ServerModel ServerFacts ServerRunFacts ServerStartFacts ServerAcceptFacts.
Import Memory.
Import CacheServer.

Section server.
Variable hash : bytes -> Z.

(** ** The timer *)

(** Every item of every shard, [n] ticks later. *)
Definition aged (n : nat) (ls : list (list Lru.item)) : list (list Lru.item) := Nat.iter n (fmap Lru.tick) ls.

Lemma aged_S n ls : aged n (Lru.tick <$> ls) = aged (S n) ls.
Proof. unfold aged. by rewrite Nat.iter_succ_r. Qed.

(** What the ticks of [handle_timer] leave: all of them done, or those up to one that
    threw in the middle of the shards. *)
Definition ticked (cap : Z) (n : nat) (srv : t) (e : CacheEngine.t) (o : Os.t) (m : env) (ls : list (list Lru.item))
    (s' : state) : Prop :=
  exists e' ls', s' = (srv, (e', (o, m))) /\ engine_holds hash cap e' ls' /\
    (ls' = aged n ls \/ exists k j, (k < n)%nat /\ ls' = (Lru.tick <$> take j (aged k ls)) ++ drop j (aged k ls)) /\
    (all_shards cache_quiet e -> ls' = aged n ls).

Lemma server_ticks_wp cap n srv e o m ls :
  engine_holds hash cap e ls ->
  wp (tick_times n) (srv, (e, (o, m))) (post (fun _ => ticked cap n srv e o m ls) (fun _ _ => False)).
Proof.
  revert e ls. induction n as [|n IH]; intros e ls He; cbn [tick_times].
  { apply wp_ret. exists e, ls. split_and!; [done|done|by left|done]. }
  pose proof (engine_tick_wp hash cap e ls He) as Ht. pose proof (engine_tick_calm e) as Hc.
  apply wp_bind. unfold try_catch, wp, bind, on_engine, on_snd, on_fst in *. simpl. destruct (CacheEngine.tick e) as [[[]|x|] e1]; simpl in *; [..|done].
  - eapply wp_post_mono; [apply (IH e1 (Lru.tick <$> ls) Ht)| |done].
    intros [] s' (e' & ls' & -> & H1 & H2 & H3). exists e', ls'. rewrite aged_S in *. split_and!; [done|done| |by auto].
    destruct H2 as [H2|(k & j & Hk & H2)]; [by left|right]. exists (S k), j. split; [lia|]. by rewrite <- aged_S.
  - destruct Ht as (-> & j & Hj & He1). exists e1, ((Lru.tick <$> take j ls) ++ drop j ls). split_and!; [done|done|..].
    + right. exists 0%nat, j. split; [lia|done].
    + intros Hq. by destruct (Hc Hq).
Qed.

(** The expirations [handle_timer] reads. *)
Fixpoint expirations (results : list timer_result) : nat :=
  match results with
  | [] | timer_failed :: _ => 0
  | timer_interrupted :: results => expirations results
  | expired n :: _ => Z.to_nat n
  end.

Lemma handle_timer_wp cap results srv e o m ls :
  engine_holds hash cap e ls ->
  wp (handle_timer results) (srv, (e, (o, m)))
    (post (fun _ => ticked cap (expirations results) srv e o m ls) (fun _ _ => False)).
Proof.
  intros He. induction results as [|[n| |] results IH]; cbn [handle_timer expirations].
  - by apply (server_ticks_wp cap 0).
  - by apply server_ticks_wp.
  - exact IH.
  - by apply (server_ticks_wp cap 0).
Qed.

(** ** The acceptor *)

(** What the acceptor leaves: the workers have at most the sockets [fds] more. *)
Definition acceptor_left (cap : Z) (fds : list Z) (srv : t) (o : Os.t) (s' : state) : Prop :=
  exists srv' e' o' m', s' = (srv', (e', (o', m'))) /\ server_ok hash cap srv' e' o' /\
    (Os.opened o' = Os.opened o /\ 0 <= Os.signals o') /\ server_fds srv' = server_fds srv /\
    acceptor_thread_ srv' = acceptor_thread_ srv /\ ever_started_ srv' = ever_started_ srv /\
    stop_requested_ srv' = stop_requested_ srv /\ length (workers_ srv') = length (workers_ srv) /\
    forall j w, workers_ srv !! j = Some w -> exists w', workers_ srv' !! j = Some w' /\ fed fds w w'.

Lemma acceptor_left_same cap srv e o m e' ls o' :
  server_ok hash cap srv e o -> engine_holds hash cap e' ls -> Os.opened o' = Os.opened o -> 0 <= Os.signals o' ->
  acceptor_left cap [] srv o (srv, (e', (o', m))).
Proof.
  intros Hok He Ho Hg. eexists _, _, _, _. split; [done|]. split_and!; try done.
  - eapply server_ok_same; [by eapply server_ok_engine|done|done|done|done|exact (sv_threads _ _ _ _ _ Hok)|done].
  - intros j w Hw. exists w. split; [done|apply fed_refl].
Qed.

Lemma acceptor_left_trans cap fds1 fds2 srv o srv1 e1 o1 m1 s' :
  acceptor_left cap fds1 srv o (srv1, (e1, (o1, m1))) -> acceptor_left cap fds2 srv1 o1 s' ->
  acceptor_left cap (fds1 ++ fds2) srv o s'.
Proof.
  intros (? & ? & ? & ? & [= <- <- <- <-] & _ & [A1 _] & A2 & A3 & A4 & A5 & A6 & A7)
    (srv2 & e2 & o2 & m2 & -> & B0 & [B1 B1'] & B2 & B3 & B4 & B5 & B6 & B7).
  eexists _, _, _, _. split; [done|]. split_and!; try done; try congruence. intros j w Hw.
  destruct (A7 j w Hw) as (w1 & Hw1 & F1). destruct (B7 j w1 Hw1) as (w2 & Hw2 & F2). exists w2.
  split; [done|]. eapply fed_trans; [eapply fed_mono; [|exact F1]|eapply fed_mono; [|exact F2]]; set_solver.
Qed.

Lemma handle_event_wp cap ev srv e o m :
  server_ok hash cap srv e o -> 0 <= Os.signals o ->
  NoDup (taken (ev_accept ev)) -> (forall fd, fd ∈ taken (ev_accept ev) -> free_fd fd srv) ->
  wp (handle_event ev) (srv, (e, (o, m))) (post (fun _ => acceptor_left cap (taken (ev_accept ev)) srv o) (fun _ _ => False)).
Proof.
  intros Hok Hsig Hnd Hfree. destruct (sv_engine _ _ _ _ _ Hok) as [ls He].
  assert (forall s', acceptor_left cap [] srv o s' -> acceptor_left cap (taken (ev_accept ev)) srv o s') as Hmono.
  { intros s' (srv' & e' & o' & m' & -> & B0 & [B1 B1'] & B2 & B3 & B4 & B5 & B6 & B7). eexists _, _, _, _. split; [done|].
    split_and!; try done. intros j w Hw. destruct (B7 j w Hw) as (w' & H1 & H2). exists w'. split; [done|].
    eapply fed_mono; [|exact H2]. set_solver. }
  unfold handle_event. apply wp_bind, wp_on_fst, wp_read. cbn beta iota. destruct (ev_fd ev =? stop_event_ srv).
  { unfold on_build. apply wp_on_snd, wp_on_snd, wp_on_fst, wp_modify. apply Hmono. by eapply acceptor_left_same. }
  destruct (ev_fd ev =? timer_ srv).
  { eapply wp_post_mono; [by apply handle_timer_wp| |done]. intros [] s' (e' & ls' & -> & He' & _). apply Hmono.
    by eapply acceptor_left_same. }
  destruct (ev_fd ev =? socket (listen_socket_ srv)).
  - eapply wp_post_mono; [by apply (accept_connections_wp hash cap)| |done].
    intros [] s' (srv' & m' & -> & B0 & B1 & B2 & B3 & _ & B4). eexists _, _, _, _. split; [done|]. rewrite B1 in B0 |- *.
    split_and!; try done; [by rewrite <- B1|]. intros j w Hw. destruct (B4 j w Hw) as (w' & H1 & H2 & _). by exists w'.
  - apply wp_ret, Hmono. by eapply acceptor_left_same.
Qed.

(** The sockets a batch of events accepts. *)
Definition batch_taken (events : list event) : list Z := concat ((fun ev => taken (ev_accept ev)) <$> events).

(** The descriptors [accept4] gives are not in use. *)
Definition valid_events (events : list event) (srv : t) : Prop :=
  NoDup (batch_taken events) /\ forall fd, fd ∈ batch_taken events -> free_fd fd srv.

Lemma run_acceptor_once_wp cap events srv e o m :
  server_ok hash cap srv e o -> 0 <= Os.signals o -> valid_events events srv ->
  wp (run_acceptor_once events) (srv, (e, (o, m))) (post (fun _ => acceptor_left cap (batch_taken events) srv o) (fun _ _ => False)).
Proof.
  revert srv e o m. induction events as [|ev events IH]; intros srv e o m Hok Hsig [Hnd Hfree]; cbn [run_acceptor_once].
  { destruct (sv_engine _ _ _ _ _ Hok) as [ls He]. apply wp_ret. by eapply acceptor_left_same. }
  unfold batch_taken in *. csimpl in *. apply NoDup_app in Hnd as (N1 & N2 & N3).
  eapply wp_bind_post; [apply (handle_event_wp cap ev srv e o m Hok Hsig N1)| |done].
  { intros fd F. apply Hfree, elem_of_app. by left. }
  intros [] s1 Hleft. pose proof Hleft as (srv1 & e1 & o1 & m1 & -> & A0 & [A1 A1'] & A2 & A3 & A4 & A5 & A6 & A7).
  eapply wp_post_mono; [apply (IH srv1 e1 o1 m1 A0 A1')| |done].
  - split; [done|]. intros fd F. destruct (Hfree fd) as (F1 & F2 & F3); [apply elem_of_app; by right|].
    split_and!; [done|by rewrite A2|]. intros j w' Hj Hs. pose proof (lookup_lt_Some _ _ _ Hj) as Hlt. rewrite A6 in Hlt.
    destruct (lookup_lt_is_Some_2 _ _ Hlt) as [w Hw]. destruct (A7 j w Hw) as (w1 & Hw1 & (_ & _ & _ & Hg)). simplify_eq.
    destruct (Hg fd Hs) as [G|[G _]]; [by eapply F3|]. by apply (N2 fd G).
  - intros [] s' Hs'. by eapply acceptor_left_trans.
Qed.

(** ** The system *)

(** What the acceptor's [epoll_wait] may report. *)
Definition acceptable (unbroken : bool) (srv : t) (x : waited event) : Prop :=
  match x with
  | wait_ready events => valid_events events srv
  | wait_interrupted => True
  | wait_failed => unbroken = false
  end.

(** The operations of the server and the rounds of its threads, in any order; how
    [epoll_wait] ends, peers, other users of the engine and of the heap, and the
    schedules of failures are arbitrary. [join] is the call that returns. When
    [unbroken], [epoll_wait] does not fail (other than with [EINTR]). *)
Inductive server_step (cap : Z) (unbroken : bool) : state -> state -> Prop :=
| sstep_start last s r s' : start hash last s = (r, s') -> server_step cap unbroken s s'
| sstep_request_stop s r s' : request_stop s = (r, s') -> server_step cap unbroken s s'
| sstep_join last s r s' :
    (acceptor_thread_ s.1 = a_thread -> stop_requested_ s.1 = true) -> join hash last s = (r, s') ->
    server_step cap unbroken s s'
| sstep_acceptor w s r s' :
    acceptor_thread_ s.1 = a_thread -> acceptable unbroken s.1 w -> acceptor_round w s = (r, s') ->
    server_step cap unbroken s s'
| sstep_worker i w x s r s' :
    workers_ s.1 !! i = Some w -> thread_ w = a_thread -> (unbroken = true -> x <> wait_failed) ->
    worker_round hash i x s = (r, s') -> server_step cap unbroken s s'
| sstep_peer i w fd sock sock' srv e o m :
    workers_ srv !! i = Some w -> Kernel.sockets (kernel_ w) !! fd = Some sock ->
    server_step cap unbroken (srv, (e, (o, m)))
      (set_slot i (MkSlot (epoll_ w) (worker_ w)
         (Kernel.set_sockets (<[fd := sock']> (Kernel.sockets (kernel_ w))) (kernel_ w)) (thread_ w)) srv, (e, (o, m)))
| sstep_others srv e o m e' ls o' m' :
    engine_holds hash cap e' ls -> Os.opened o' = Os.opened o -> Os.signals o' = Os.signals o ->
    server_step cap unbroken (srv, (e, (o, m))) (srv, (e', (o', m'))).

(** The server that [create] returned. *)
Definition server_made (cap : Z) (s : state) : Prop :=
  exists inet_pton o options ls, created inet_pton o options s.1 s.2.2 /\ 0 <= pending_output_limit options < 2 ^ 64 /\
    0 <= worker_threads options /\ engine_holds hash cap s.2.1 ls.

Inductive server_reaches (cap : Z) (unbroken : bool) (s : state) : state -> Prop :=
| server_reaches_refl : server_reaches cap unbroken s s
| server_reaches_step s' s'' :
    server_reaches cap unbroken s s' -> server_step cap unbroken s' s'' -> server_reaches cap unbroken s s''.

(** A worker and its thread. *)
Record worker_settled (unbroken : bool) (srv : t) (w : slot) : Prop := {
  ws_joined : acceptor_thread_ srv = a_thread -> thread_ w <> no_thread;
  ws_started : thread_ w = a_thread -> ever_started_ srv = true;
  ws_connections : thread_ w <> a_thread -> Worker.connections_ (worker_ w) = ∅;
  ws_sockets : unbroken = true -> thread_ w <> a_thread -> Kernel.sockets (kernel_ w) = ∅;
  ws_ended : unbroken = true -> thread_ w = ended_thread -> Worker.stop_requested_ (worker_ w) = true
}.

(** While the acceptor is in its loop no worker has been joined; a worker that is not
    in its loop has no connections, and no sockets either if [epoll_wait] does not fail,
    in which case it ended because it was asked to. *)
Definition settled (unbroken : bool) (srv : t) : Prop :=
  forall j w, workers_ srv !! j = Some w -> worker_settled unbroken srv w.

(** An acceptor that is to stop has been told so. *)
Definition alert (srv : t) (o : Os.t) : Prop :=
  0 <= Os.signals o /\
  (acceptor_thread_ srv = a_thread \/ ever_started_ srv = false -> stop_requested_ srv = true -> 0 < Os.signals o).

Definition server_good (cap : Z) (unbroken : bool) (s : state) : Prop :=
  server_ok hash cap s.1 s.2.1 s.2.2.1 /\ settled unbroken s.1 /\ alert s.1 s.2.2.1.

Lemma new_slot_ok cap limit w e ls :
  0 <= limit < 2 ^ 64 -> engine_holds hash cap e ls -> new_slot limit w ->
  worker_ok hash cap (worker_ w) e (kernel_ w) /\ Kernel.sockets (kernel_ w) = ∅ /\
  Worker.connections_ (worker_ w) = ∅ /\ thread_ w = no_thread.
Proof.
  intros Hl He (ctl & text & Hw & Hk & Ht). split; [|by rewrite Hk, Hw]. rewrite Hk, Hw. simpl.
  apply (starts_ok hash cap (Worker.init limit _, (e, (Worker.init_kernel _ ctl text, MkEnv empty_memory [])))).
  by eexists _, _, _, _, _, _, _.
Qed.

Lemma made_good cap unbroken s : server_made cap s -> server_good cap unbroken s.
Proof.
  destruct s as [srv [e [o1 m]]]. intros (ip & o & options & ls & ((Hw & _) & Hleft & Hnew & _ & _ & Hg) & Hl & Ht & He). simpl in *.
  destruct Hleft as (_ & Hop & Hnd & _). destruct Hnew as (Ho & Hall & Hlen & Ha & Hev & Hst & Hr & Hn).
  assert (forall j w, workers_ srv !! j = Some w -> worker_ok hash cap (worker_ w) e (kernel_ w) /\ Kernel.sockets (kernel_ w) = ∅ /\
    Worker.connections_ (worker_ w) = ∅ /\ thread_ w = no_thread) as Hs.
  { intros j w Hj. eapply new_slot_ok; [done|done|]. by eapply (Forall_lookup_1 _ _ _ _ Hall). }
  assert (forall j w fd, workers_ srv !! j = Some w -> ~ has_socket fd w) as Hno.
  { intros j w fd Hj [v Hv]. rewrite (proj1 (proj2 (Hs j w Hj))) in Hv. by apply lookup_empty_Some in Hv. }
  split; [|split].
  - constructor; simpl; [by eexists|..|done| | | | |].
    + intros j w Hj. destruct (Hs j w Hj) as [Hk _]. split; [by apply worker_ok_sound|]. intros _. apply Hk.
    + intros Hnil. rewrite Hnil in Hlen. simpl in Hlen. lia.
    + intros fd Hin. simpl in Hop. rewrite Hop. apply elem_of_union_l. by apply elem_of_list_to_set.
    + intros i j wi wj fd Hi Hj F. by destruct (Hno i wi fd Hi).
    + intros i w fd Hi F. by destruct (Hno i w fd Hi).
    + rewrite Hn. lia.
    + by rewrite Ha.
  - intros j w Hj. destruct (Hs j w Hj) as (_ & H1 & H2 & H3). cbn [fst]. constructor; try done; rewrite ?Ha, ?H3; done.
  - split; cbn [fst snd]; [lia|]. rewrite Hst. done.
Qed.

(** ** Every step keeps the invariant *)

(** What is known of each worker at the end, from what is known of it before. *)
Lemma settled_all unbroken srv srv' :
  settled unbroken srv -> length (workers_ srv') = length (workers_ srv) ->
  (forall j w, workers_ srv !! j = Some w -> worker_settled unbroken srv w ->
     exists w', workers_ srv' !! j = Some w' /\ worker_settled unbroken srv' w') -> settled unbroken srv'.
Proof.
  intros Hs Hlen H j w' Hj. pose proof (lookup_lt_Some _ _ _ Hj) as Hlt. rewrite Hlen in Hlt.
  destruct (lookup_lt_is_Some_2 _ _ Hlt) as [w Hw]. destruct (H j w Hw (Hs j w Hw)) as (w1 & H1 & H2). by simplify_eq.
Qed.

Lemma settled_slot unbroken srv i w w' :
  settled unbroken srv -> workers_ srv !! i = Some w -> worker_settled unbroken srv w' -> settled unbroken (set_slot i w' srv).
Proof.
  intros Hs Hi Hw. apply (settled_all unbroken srv); [done|simpl; apply length_insert|]. intros j wj Hj Hsj. simpl.
  destruct (decide (j = i)) as [->|Hne].
  - exists w'. rewrite list_lookup_insert_eq by (by eapply lookup_lt_Some). split; [done|]. by destruct Hw.
  - exists wj. rewrite list_lookup_insert_ne by done. split; [done|]. by destruct Hsj.
Qed.

(** A round of a worker. *)
Lemma worker_round_good cap unbroken i w x srv e o m :
  server_good cap unbroken (srv, (e, (o, m))) -> workers_ srv !! i = Some w -> thread_ w = a_thread ->
  (unbroken = true -> x <> wait_failed) ->
  wp (worker_round hash i x) (srv, (e, (o, m))) (post
    (fun _ s' => server_good cap unbroken s' /\ exists w' e' m', s' = (set_slot i w' srv, (e', (o, m'))) /\ round_done x w w')
    (fun _ _ => False)).
Proof.
  intros (Hok & Hs & Ha) Hi Hth Hx. cbn [fst snd] in *. pose proof (Hs i w Hi) as [W1 W2 W3 W4 W5].
  eapply wp_post_mono; [by apply (worker_round_wp hash cap i w x); auto| |done].
  intros [] s' (w' & e' & m' & -> & Hok' & Hr & _). pose proof Hr as (_ & R2 & _ & R3).
  split; [|by eauto]. split; [exact Hok'|]. split; [|exact Ha]. cbn [fst snd]. apply (settled_slot _ _ _ w); [done|done|].
  destruct (Worker.stop_requested_ (worker_ w) || _) eqn:E.
  - destruct R3 as (R3 & R4 & R5 & _). constructor; rewrite ?R3; try done. intros Hu _. rewrite R2.
    destruct (Worker.stop_requested_ (worker_ w)); [done|]. destruct x; try done. by destruct (Hx Hu).
  - constructor; rewrite ?R3; try done. intros _. by apply W2.
Qed.

(** [start]. *)
Lemma start_good last cap unbroken srv e o m :
  server_good cap unbroken (srv, (e, (o, m))) ->
  wp (start hash last) (srv, (e, (o, m))) (post (fun _ => server_good cap unbroken) (fun _ => server_good cap unbroken)).
Proof.
  intros (Hok & Hs & Ha). cbn [fst snd] in *. eapply wp_post_mono; [by apply (start_wp hash last cap)|..].
  - intros [] s' (srv' & o' & -> & Hok' & (S1 & S2 & _ & _ & S3 & _ & Hw & _) & _ & _ & Hg). split; [exact Hok'|]. cbn [fst snd]. split.
    + apply (settled_all unbroken srv); [done|by rewrite Hw, length_fmap|]. intros j w Hj _. rewrite Hw, list_lookup_fmap, Hj.
      eexists. split; [done|]. by constructor.
    + destruct Ha as [A1 A2]. split; rewrite Hg; [done|]. intros _. rewrite S3. apply A2. by right.
  - intros x s' (srv' & e' & o' & m' & -> & Hok' & (U1 & U2 & U3 & U4 & U5 & U6 & U7) & _ & Hg & _ & Honce & _).
    destruct (ever_started_ srv) eqn:Hev; [destruct (Honce eq_refl) as [-> _]; by split_and!|]. split; [exact Hok'|]. cbn [fst snd].
    assert (acceptor_thread_ srv <> a_thread) as Hno by (intros H; pose proof (sv_threads _ _ _ _ _ Hok H); congruence).
    split; [|split; [rewrite Hg; apply Ha|]].
    + apply (settled_all unbroken srv); [done|done|]. intros j w Hj [W1 W2 W3 W4 W5]. destruct (U7 j w Hj) as (w' & H1 & H2).
      exists w'. split; [done|]. destruct H2 as [->|[H2 H3]]; [constructor; try done; by rewrite U2|].
      pose proof (sv_workers _ _ _ _ _ Hok' j w' H1) as [[Hh _] _].
      assert (Worker.connections_ (worker_ w') = ∅) as Hc.
      { apply map_empty. intros fd. apply eq_None_not_Some. intros Hc. pose proof (proj2 (wk_sockets _ _ _ _ _ _ Hh fd) (or_intror Hc)) as F.
        rewrite H3, lookup_empty in F. by destruct F. }
      constructor; rewrite ?H2; try done. rewrite U2. done.
    + rewrite U1, U2. intros [?|?]; done.
Qed.

(** What [join] leaves of a worker. *)
Lemma quiesced_settled unbroken srv srv' w w' :
  worker_settled unbroken srv w -> acceptor_thread_ srv' = no_thread -> quiesced w w' -> worker_settled unbroken srv' w'.
Proof.
  intros [W1 W2 W3 W4 W5] Ha (Q1 & _ & Q2 & Q3 & Q4). constructor; rewrite ?Q1, ?Ha; try done.
  - intros _. destruct (thread_ w) eqn:E; [|by apply Q3|]; (destruct Q4 as [_ ->]; [done|]); by apply W3.
  - intros Hu _. destruct (thread_ w) eqn:E; [|by apply Q3|]; (destruct Q4 as [-> _]; [done|]); by apply W4.
Qed.

Lemma join_good last cap unbroken srv e o m :
  server_good cap unbroken (srv, (e, (o, m))) -> (acceptor_thread_ srv = a_thread -> stop_requested_ srv = true) ->
  wp (join hash last) (srv, (e, (o, m))) (post
    (fun _ s' => server_good cap unbroken s' /\ join_left hash cap srv o s') (fun _ _ => False)).
Proof.
  intros (Hok & Hs & Ha) Hstop. cbn [fst snd] in *. eapply wp_post_mono; [apply (join_wp hash last cap); [done|..]| |done].
  - split; [apply Ha|]. intros H. split; [by apply Hstop|]. apply Ha; auto.
  - intros w [j Hj]%list_elem_of_lookup. exact (ws_started _ _ _ (Hs j w Hj)).
  - intros [] s' Hj. split; [|exact Hj]. destruct Hj as (srv' & e' & o' & m' & -> & Hok' & J1 & _ & _ & J2 & J3 & J4 & _ & J5 & J6 & J7).
    split; [exact Hok'|]. cbn [fst snd]. split; [|split; [done|]].
    + apply (settled_all unbroken srv); [done|done|]. intros j w Hw Hset. destruct (J7 j w Hw) as (w' & H1 & H2). exists w'.
      split; [done|]. by eapply quiesced_settled.
    + rewrite J1, J2, J3. intros [?|Hev]; [done|]. rewrite J6; [apply Ha; by right|].
      intros H. pose proof (sv_threads _ _ _ _ _ Hok H). congruence.
Qed.

(** What [settled] does not depend on. *)
Lemma settled_same unbroken srv srv' :
  settled unbroken srv -> workers_ srv' = workers_ srv -> ever_started_ srv' = ever_started_ srv ->
  (acceptor_thread_ srv' = a_thread -> acceptor_thread_ srv = a_thread) -> settled unbroken srv'.
Proof.
  intros Hs Hw Hev Ha j w Hj. rewrite Hw in Hj. destruct (Hs j w Hj) as [W1 W2 W3 W4 W5]. constructor; rewrite ?Hev; auto.
Qed.

(** What the acceptor's batch leaves of the workers. *)
Lemma fed_settled unbroken cap fds srv o s' :
  settled unbroken srv -> acceptor_thread_ srv = a_thread -> acceptor_left cap fds srv o s' -> settled unbroken s'.1.
Proof.
  intros Hs Hacc (srv' & e' & o' & m' & -> & _ & _ & _ & B3 & B4 & _ & B6 & B7). cbn [fst].
  apply (settled_all unbroken srv); [done|done|]. intros j w Hj [W1 W2 W3 W4 W5].
  destruct (B7 j w Hj) as (w' & H1 & (F1 & F2 & F3 & F4)). exists w'. split; [done|].
  constructor; rewrite ?F1, ?F2, ?F3, ?B3, ?B4; try done. intros Hu Hno. specialize (W4 Hu Hno).
  assert (thread_ w = ended_thread) as He by (specialize (W1 Hacc); by destruct (thread_ w)). specialize (W5 Hu He).
  apply map_empty. intros fd. apply eq_None_not_Some. intros F. destruct (F4 fd F) as [[v Hv]|[_ ?]]; [|congruence].
  rewrite W4 in Hv. by apply lookup_empty_Some in Hv.
Qed.

(** The acceptor ends. *)
Lemma acceptor_ended_good cap unbroken srv e o m :
  server_good cap unbroken (srv, (e, (o, m))) -> ever_started_ srv = true ->
  server_good cap unbroken (set_acceptor ended_thread (set_running false srv), (e, (o, m))).
Proof.
  intros (Hok & Hs & Ha) Hev. cbn [fst snd] in *. split_and!; cbn [fst snd].
  - eapply server_ok_same; [exact Hok|done..].
  - by apply (settled_same unbroken srv).
  - split; [apply Ha|]. simpl. rewrite Hev. intros [?|?]; done.
Qed.

(** What a round of the acceptor leaves. *)
Definition acceptor_kept (srv : t) (o : Os.t) (s' : state) : Prop :=
  server_fds s'.1 = server_fds srv /\ Os.opened s'.2.2.1 = Os.opened o /\ stop_requested_ s'.1 = stop_requested_ srv.

(** The checks at the head of the loop, when the last batch left [s]. *)
Lemma check_acceptor_good cap unbroken srv e o m srv0 o0 :
  server_ok hash cap srv e o -> settled unbroken srv -> 0 <= Os.signals o -> acceptor_thread_ srv = a_thread ->
  acceptor_kept srv0 o0 (srv, (e, (o, m))) ->
  wp check_acceptor (srv, (e, (o, m))) (post
    (fun _ s' => server_good cap unbroken s' /\ acceptor_kept srv0 o0 s') (fun _ _ => False)).
Proof.
  intros Hok Hs Hg Hacc Hk. pose proof (sv_threads _ _ _ _ _ Hok Hacc) as Hev.
  unfold check_acceptor. apply wp_bind, wp_on_fst, wp_read. cbn beta iota.
  destruct (stop_requested_ srv) eqn:E.
  - unfold leave_acceptor. apply wp_bind, wp_on_fst, wp_modify. cbn beta iota. apply wp_on_fst, wp_modify. split; [|exact Hk].
    split_and!; cbn [fst snd].
    + eapply server_ok_same; [exact Hok|done..].
    + by apply (settled_same unbroken srv).
    + split; [done|]. simpl. rewrite Hev. intros [?|?]; done.
  - apply wp_ret. split; [|exact Hk]. split_and!; [exact Hok|exact Hs|]. split; [done|]. cbn [fst]. congruence.
Qed.

(** A round of the acceptor. *)
Lemma acceptor_round_good cap unbroken x srv e o m :
  server_good cap unbroken (srv, (e, (o, m))) -> acceptor_thread_ srv = a_thread -> acceptable unbroken srv x ->
  wp (acceptor_round x) (srv, (e, (o, m))) (post
    (fun _ s' => server_good cap unbroken s' /\ acceptor_kept srv o s') (fun _ _ => False)).
Proof.
  intros Hgood Hacc Hx. pose proof Hgood as (Hok & Hs & Ha). cbn [fst snd] in *. pose proof (sv_threads _ _ _ _ _ Hok Hacc) as Hev.
  destruct x as [events| |]; cbn [acceptor_round acceptable] in *.
  - eapply wp_bind_post; [apply (run_acceptor_once_wp cap events); [done|apply Ha|done]| |done].
    intros [] s' Hleft. pose proof (fed_settled unbroken _ _ _ _ _ Hs Hacc Hleft) as Hs'.
    destruct Hleft as (srv' & e' & o' & m' & -> & B0 & [B1 B1'] & B2 & B3 & B4 & B5 & B6 & B7). cbn [fst] in Hs'.
    apply check_acceptor_good; [exact B0|exact Hs'|exact B1'|congruence|by split_and!].
  - by apply check_acceptor_good; [..|apply Ha|done|].
  - unfold leave_acceptor. apply wp_bind, wp_on_fst, wp_modify. cbn beta iota. apply wp_on_fst, wp_modify. split; [|done].
    by apply acceptor_ended_good.
Qed.

Lemma stop_request_wp cap unbroken srv e o m :
  server_ok hash cap srv e o -> settled unbroken srv -> 0 <= Os.signals o ->
  wp request_stop (srv, (e, (o, m))) (post
    (fun _ s' => server_good cap unbroken s' /\ exists o', s' = (set_stop_requested srv, (e, (o', m))) /\ Os.opened o' = Os.opened o)
    (fun _ _ => False)).
Proof.
  intros Hok Hs Hg. unfold request_stop. apply wp_bind, wp_on_fst, wp_modify. cbn beta iota.
  unfold on_build. apply wp_on_snd, wp_on_snd, wp_on_fst, wp_modify. cbn [post].
  assert (Os.opened (Os.wake_event o) = Os.opened o /\ 0 < Os.signals (Os.wake_event o)) as [Ho Hpos].
  { unfold Os.wake_event, Kernel.counter_max. destruct (_ <? _) eqn:E; simpl; (split; [done|]); [lia|]. apply Z.ltb_ge in E. lia. }
  split; [|by eexists]. split_and!; cbn [fst snd].
  - eapply server_ok_same; [exact Hok|done|done|done|done|exact (sv_threads _ _ _ _ _ Hok)|done].
  - by apply (settled_same unbroken srv).
  - split; [lia|done].
Qed.

Lemma request_stop_good cap unbroken srv e o m :
  server_good cap unbroken (srv, (e, (o, m))) ->
  wp request_stop (srv, (e, (o, m))) (post
    (fun _ s' => server_good cap unbroken s' /\ exists o', s' = (set_stop_requested srv, (e, (o', m))) /\ Os.opened o' = Os.opened o)
    (fun _ _ => False)).
Proof. intros (Hok & Hs & Hg & _). by apply stop_request_wp. Qed.

Lemma peer_good cap unbroken i w fd sock sock' srv e o m :
  server_good cap unbroken (srv, (e, (o, m))) -> workers_ srv !! i = Some w -> Kernel.sockets (kernel_ w) !! fd = Some sock ->
  server_good cap unbroken (set_slot i (MkSlot (epoll_ w) (worker_ w)
    (Kernel.set_sockets (<[fd := sock']> (Kernel.sockets (kernel_ w))) (kernel_ w)) (thread_ w)) srv, (e, (o, m))).
Proof.
  intros (Hok & Hs & Ha) Hi Hsock. cbn [fst snd] in *.
  destruct (sv_workers _ _ _ _ _ Hok i w Hi) as [[Hh Hc] Han]. split; [|split; [|exact Ha]]; cbn [fst snd].
  - eapply server_ok_slot; [done|done|split; [split; [by eapply peer_holds|exact Hc]|exact Han]|done|].
    intros fd1 [v Hv]. left. simpl in Hv. destruct (decide (fd1 = fd)) as [->|Hne]; [by eexists|].
    rewrite lookup_insert_ne in Hv by done. by eexists.
  - apply (settled_slot _ _ _ w); [done|done|]. destruct (Hs i w Hi) as [W1 W2 W3 W4 W5]. constructor; simpl; try done.
    intros Hu Hno. rewrite (W4 Hu Hno) in Hsock. by apply lookup_empty_Some in Hsock.
Qed.

(** The state an operation that is verified leaves. *)
Lemma wp_left {A} (f : M state A) s r s' (P : state -> Prop) E :
  f s = (r, s') -> wp f s (post (fun _ => P) (fun x s => E x s)) -> (forall x s, E x s -> P s) -> P s'.
Proof. unfold wp. intros -> H HE. destruct r; simpl in H; [done|by eapply HE|done]. Qed.

Lemma server_step_good cap unbroken s s' : server_step cap unbroken s s' -> server_good cap unbroken s -> server_good cap unbroken s'.
Proof.
  intros Hstep Hg. destruct Hstep as [last [srv [e [o m]]] r s' E|[srv [e [o m]]] r s' E|last [srv [e [o m]]] r s' Hj E
    |x [srv [e [o m]]] r s' Hacc Hv E|i w x [srv [e [o m]]] r s' Hi Hth Hx E|i w fd sock sock' srv e o m Hi Hs|srv e o m e' ls o' m' He Ho Hsig].
  - eapply wp_left; [exact E|by apply start_good|done].
  - eapply wp_left; [exact E|eapply wp_post_mono; [by apply request_stop_good|by intros _ ? [? _]|exact (fun _ _ H => H)]|done].
  - eapply wp_left; [exact E|eapply wp_post_mono; [by apply join_good|by intros _ ? [? _]|exact (fun _ _ H => H)]|done].
  - eapply wp_left; [exact E|eapply wp_post_mono; [by apply acceptor_round_good|by intros _ ? [? _]|exact (fun _ _ H => H)]|done].
  - eapply wp_left; [exact E|eapply wp_post_mono; [by eapply worker_round_good|by intros _ ? [? _]|exact (fun _ _ H => H)]|done].
  - by eapply peer_good.
  - destruct Hg as (Hok & Hs & Ha). split; [|split; [exact Hs|]]; cbn [fst snd] in *.
    + eapply server_ok_same; [by eapply server_ok_engine|done|done|done|done|exact (sv_threads _ _ _ _ _ Hok)|done].
    + unfold alert. rewrite Hsig. exact Ha.
Qed.

Lemma server_reaches_good cap unbroken s s' :
  server_made cap s -> server_reaches cap unbroken s s' -> server_good cap unbroken s'.
Proof. intros Hm. induction 1; [by apply made_good|by eapply server_step_good]. Qed.
End server.

(** ** Destroying the server *)

(** Closing a descriptor that is open. *)
Lemma close_open_wp fd srv (e : CacheEngine.t) o m Q :
  fd ∈ Os.opened o ->
  (forall o', Os.opened o' = Os.opened o ∖ {[fd]} -> Q (Ret tt) (srv, (e, (o', m)))) ->
  wp (on_build (close_fd fd)) (srv, (e, (o, m))) Q.
Proof.
  intros Hin HQ. unfold on_build, close_fd. apply wp_on_snd, wp_on_snd, wp_on_fst.
  eapply wp_modify_opt; [by rewrite decide_True|]. by apply HQ.
Qed.

Lemma on_build_bind {A B} (f : M build A) (g : A -> M build B) s :
  on_build (bind f g) s = bind (on_build f) (fun a => on_build (g a)) s.
Proof.
  destruct s as [srv [e [o m]]]. unfold on_build, bind, on_snd. simpl. by destruct (f _) as [[] ?].
Qed.

Lemma wp_on_build_bind {A B} (f : M build A) (g : A -> M build B) s Q :
  wp (bind (on_build f) (fun a => on_build (g a))) s Q -> wp (on_build (bind f g)) s Q.
Proof. unfold wp. by rewrite on_build_bind. Qed.

Section server.
Variable hash : bytes -> Z.

Variable last : last_waits.

(** The workers below [k] are destroyed: their sockets and descriptors are closed;
    none has a thread. *)
Definition destroying (cap : Z) (srv : t) (e : CacheEngine.t) (o : Os.t) (m : env) (k : nat) (s : state) : Prop :=
  exists srv' o', s = (srv', (e, (o', m))) /\ srv' = set_workers (workers_ srv') srv /\
    length (workers_ srv') = length (workers_ srv) /\
    Os.opened o' = Os.opened o ∖ list_to_set (workers_fds (take k (workers_ srv))) /\
    forall j w, workers_ srv !! j = Some w -> exists w', workers_ srv' !! j = Some w' /\ slot_fds w' = slot_fds w /\
      thread_ w' = no_thread /\ worker_sound hash cap (worker_ w') e (kernel_ w') /\
      ((j < k)%nat -> Kernel.sockets (kernel_ w') = ∅).

(** Changing the worker at [k] keeps the rest. *)
Lemma destroying_slot cap srv e o m k srv' o' w w1 w' o1 :
  destroying cap srv e o m k (srv', (e, (o', m))) -> workers_ srv !! k = Some w -> workers_ srv' !! k = Some w1 ->
  slot_fds w' = slot_fds w1 -> thread_ w' = no_thread -> worker_sound hash cap (worker_ w') e (kernel_ w') ->
  Kernel.sockets (kernel_ w') = ∅ -> Os.opened o1 = Os.opened o' ∖ list_to_set (slot_fds w) ->
  workers_fds (take (S k) (workers_ srv)) = workers_fds (take k (workers_ srv)) ++ slot_fds w ->
  destroying cap srv e o m (S k) (set_slot k w' srv', (e, (o1, m))).
Proof.
  intros (? & ? & [= <- <-] & Hsame & Hlen & Hop & Hall) Hk Hk1 Hf Ht Hw Hs Ho Hfds. eexists _, _. split_and!; [done|..].
  - unfold set_slot. by rewrite Hsame.
  - simpl. by rewrite length_insert.
  - rewrite Ho, Hop, Hfds, list_to_set_app_L. set_solver.
  - intros j wj Hj. destruct (Hall j wj Hj) as (w2 & Hw2 & H2 & H3 & H4 & H5). simpl. destruct (decide (j = k)) as [->|Hne].
    + exists w'. rewrite list_lookup_insert_eq by (by eapply lookup_lt_Some). assert (w2 = w1) as -> by congruence.
      split_and!; [done|by rewrite Hf|done|apply Hw..|done].
    + exists w2. rewrite list_lookup_insert_ne by done. split_and!; [done|done|done|apply H4..|]. intros Hlt. apply H5. lia.
Qed.

Lemma workers_fds_take ws k w :
  ws !! k = Some w -> workers_fds (take (S k) ws) = workers_fds (take k ws) ++ slot_fds w.
Proof.
  intros Hk. rewrite (take_S_r _ _ w) by done. unfold workers_fds. rewrite fmap_app, concat_app. cbn [fmap list_fmap concat].
  by rewrite app_nil_r.
Qed.

Lemma discard_worker_wp w srv (e : CacheEngine.t) o m :
  NoDup (slot_fds w) -> (forall fd, fd ∈ slot_fds w -> fd ∈ Os.opened o) ->
  wp (on_build (discard_worker w)) (srv, (e, (o, m))) (post
    (fun _ s' => exists o', s' = (srv, (e, (o', m))) /\ Os.opened o' = Os.opened o ∖ list_to_set (slot_fds w))
    (fun _ _ => False)).
Proof.
  intros Hnd Hin. unfold discard_worker. apply wp_on_build_bind, wp_bind, close_open_wp; [apply Hin; left|].
  intros o1 H1. apply close_open_wp.
  - rewrite H1. apply elem_of_difference. split; [apply Hin; right; left|]. apply NoDup_cons in Hnd as [Hnd _]. set_solver.
  - intros o2 H2. exists o2. split; [done|]. rewrite H2, H1. unfold slot_fds. simpl. set_solver.
Qed.

(** The descriptors of the worker at [k] are not among those before it. *)
Lemma workers_fds_split ws k w :
  NoDup (workers_fds ws) -> ws !! k = Some w ->
  NoDup (slot_fds w) /\ forall fd, fd ∈ slot_fds w -> fd ∈ workers_fds ws /\ (fd ∉ workers_fds (take k ws)).
Proof.
  intros Hnd Hk. assert (workers_fds ws = workers_fds (take k ws) ++ slot_fds w ++ workers_fds (drop (S k) ws)) as E.
  { rewrite <- (take_drop_middle ws k w Hk) at 1. unfold workers_fds. rewrite fmap_app, concat_app. done. }
  rewrite E in Hnd. apply NoDup_app in Hnd as (_ & Hd & Hnd). apply NoDup_app in Hnd as (Hs & _ & _). split; [done|].
  intros fd F. split; [rewrite E, !elem_of_app; auto|]. intros G. apply (Hd fd G). apply elem_of_app. by left.
Qed.

Lemma destroy_worker_wp cap srv e o m k s :
  NoDup (workers_fds (workers_ srv)) -> (forall fd, fd ∈ workers_fds (workers_ srv) -> fd ∈ Os.opened o) ->
  (k < length (workers_ srv))%nat -> destroying cap srv e o m k s ->
  wp (destroy_worker hash last k) s (post (fun _ => destroying cap srv e o m (S k)) (fun _ _ => False)).
Proof.
  intros Hnd Hopen Hk Hd. destruct (lookup_lt_is_Some_2 _ _ Hk) as [w Hw].
  pose proof Hd as (srv1 & o1 & -> & _ & _ & Hop & Hall). destruct (Hall k w Hw) as (w1 & Hw1 & F1 & T1 & K1 & _).
  unfold destroy_worker, stop_worker. apply wp_bind, (wp_worker_call k w1); [done|].
  eapply wp_mono; [by apply (request_stop_wp hash cap)|]. intros [[]|x|] s2; [|done|done]. intros (R1 & R2 & _ & R3 & R4 & R5 & _).
  destruct s2 as [w2 [e2 [k2 m2]]]. cbn [fst snd] in *. subst e2 m2.
  pose proof (set_slot_lookup k (MkSlot (epoll_ w1) w2 k2 (thread_ w1)) w1 srv1 Hw1) as Hw2.
  apply wp_bind. unfold join_worker. apply wp_bind, wp_on_fst, wp_read. cbn beta iota. rewrite Hw2. cbn [thread_]. rewrite T1.
  rewrite T1 in Hw2. apply wp_ret. apply wp_bind, (wp_worker_call k _ _ _ _ _ _ _ Hw2). cbn [worker_ kernel_ epoll_ thread_].
  eapply wp_mono; [by apply (run_end_left hash cap), worker_ok_sound|]. intros [[]|x|] s3; [|done|done]. intros ((L1 & L2 & _) & L3 & _ & L4 & L5).
  destruct s3 as [w3 [e3 [k3 m3]]]. cbn [fst snd] in *. subst e3 m3. rewrite set_slot_twice.
  pose proof (set_slot_lookup k (MkSlot (epoll_ w1) w3 k3 no_thread) w1 srv1 Hw1) as Hw3.
  apply wp_bind, wp_on_fst, wp_read. cbn beta iota. rewrite Hw3.
  assert (Worker.wakeup_ w3 = Worker.wakeup_ (worker_ w1)) as Hwk by (by rewrite L2, R2).
  assert (slot_fds (MkSlot (epoll_ w1) w3 k3 no_thread) = slot_fds w) as Hfds
    by (rewrite <- F1; unfold slot_fds; simpl; by rewrite Hwk).
  destruct (workers_fds_split _ _ _ Hnd Hw) as [Hnd' Hsplit].
  eapply wp_post_mono; [apply discard_worker_wp; rewrite Hfds|..|done]; [done| |].
  { intros fd F. destruct (Hsplit fd F) as [G1 G2]. rewrite Hop. apply elem_of_difference. split; [by apply Hopen|].
    by rewrite elem_of_list_to_set. }
  intros [] s' (o' & -> & Ho'). rewrite Hfds in Ho'.
  eapply destroying_slot; [exact Hd|exact Hw|exact Hw1|by rewrite Hfds, F1|done|exact L1|exact L3|exact Ho'|by apply workers_fds_take].
Qed.

(** The four descriptors of the acceptor. *)
Lemma close_rest_wp a b c d srv (e : CacheEngine.t) o m :
  NoDup [a; b; c; d] -> (forall fd, fd ∈ [a; b; c; d] -> fd ∈ Os.opened o) ->
  wp (on_build (close_fd a ;; close_fd b ;; close_fd c ;; close_fd d)) (srv, (e, (o, m))) (post
    (fun _ s' => exists o', s' = (srv, (e, (o', m))) /\ Os.opened o' = Os.opened o ∖ {[a; b; c; d]}) (fun _ _ => False)).
Proof.
  intros Hnd Hin. apply NoDup_cons in Hnd as [Ha Hnd]. apply NoDup_cons in Hnd as [Hb Hnd]. apply NoDup_cons in Hnd as [Hc _].
  apply wp_on_build_bind, wp_bind, close_open_wp; [apply Hin; set_solver|]. intros o1 H1.
  apply wp_on_build_bind, wp_bind, close_open_wp; [rewrite H1; set_solver|]. intros o2 H2.
  apply wp_on_build_bind, wp_bind, close_open_wp; [rewrite H2, H1; set_solver|]. intros o3 H3.
  apply close_open_wp; [rewrite H3, H2, H1; set_solver|]. intros o4 H4. exists o4. split; [done|].
  rewrite H4, H3, H2, H1. set_solver.
Qed.

(** What the destructor leaves. *)
Definition destroyed (cap : Z) (fds : list Z) (o : Os.t) (s' : state) : Prop :=
  exists srv' e' o' m' ls, s' = (srv', (e', (o', m'))) /\ engine_holds hash cap e' ls /\
    Os.opened o' = Os.opened o ∖ list_to_set fds /\ acceptor_thread_ srv' = no_thread /\
    forall j w, workers_ srv' !! j = Some w -> thread_ w = no_thread /\ Kernel.sockets (kernel_ w) = ∅.

Lemma server_destroy_wp cap unbroken srv e o m :
  server_good hash cap unbroken (srv, (e, (o, m))) ->
  wp (destroy hash last) (srv, (e, (o, m))) (post (fun _ => destroyed cap (server_fds srv) o) (fun _ _ => False)).
Proof.
  intros Hg. unfold destroy. eapply wp_bind_post; [by apply request_stop_good| |done].
  intros [] s1 (Hg1 & o1 & -> & Ho1). eapply wp_bind_post; [by apply (join_good hash last cap unbroken)| |done].
  intros [] s2 (_ & srv2 & e2 & o2 & m2 & -> & Hok2 & J1 & _ & J2 & _ & _ & J3 & J4 & _ & _ & J5).
  change (server_fds (set_stop_requested srv)) with (server_fds srv) in J2.
  pose proof (sv_fds _ _ _ _ _ Hok2) as Hnd. pose proof (sv_opened _ _ _ _ _ Hok2) as Hin.
  apply wp_bind, wp_on_fst, wp_read. cbn beta iota.
  unfold server_fds in Hnd at 1. apply NoDup_app in Hnd as (Hnd1 & Hnd2 & Hnd3).
  eapply wp_bind_post; [apply (for_workers_wp (destroy_worker hash last) (destroying cap srv2 e2 o2 m2) (length (workers_ srv2)) 0)| |done].
  { exists srv2, o2. split_and!; [done|by destruct srv2|done| |].
    - rewrite take_0. unfold workers_fds. simpl. set_solver.
    - intros j w Hj. exists w. pose proof (lookup_lt_Some _ _ _ Hj) as Hlt. rewrite J3 in Hlt.
      destruct (lookup_lt_is_Some_2 _ _ Hlt) as [w0 Hw0]. destruct (J5 j w0 Hw0) as (w1 & Hw1 & (Q1 & _)). simplify_eq.
      split; [done|]. split; [done|]. split; [done|]. split; [exact (proj1 (sv_workers _ _ _ _ _ Hok2 j _ Hj))|lia]. }
  { intros j s Hj Hd. eapply destroy_worker_wp; [done| |lia|done]. intros fd F. apply Hin. unfold server_fds. apply elem_of_app. by left. }
  intros [] s3 (srv3 & o3 & -> & D1 & D2 & D3 & D4). rewrite Nat.add_0_l, firstn_all in D3.
  eapply wp_post_mono; [apply close_rest_wp; [done|]| |done].
  { intros fd F. rewrite D3. apply elem_of_difference. split; [apply Hin; unfold server_fds; apply elem_of_app; by right|].
    rewrite elem_of_list_to_set. intros G. by apply (Hnd2 fd). }
  intros [] s' (o4 & -> & H4). destruct (sv_engine _ _ _ _ _ Hok2) as [ls Hls]. eexists _, _, _, _, ls. split; [done|]. split; [exact Hls|]. split_and!.
  - rewrite H4, D3, J4, Ho1, <- J2. unfold server_fds. rewrite list_to_set_app_L. simpl. set_solver.
  - by rewrite D1.
  - intros j w Hj. pose proof (lookup_lt_Some _ _ _ Hj) as Hlt. rewrite D2 in Hlt.
    destruct (lookup_lt_is_Some_2 _ _ Hlt) as [w0 Hw0]. destruct (D4 j w0 Hw0) as (w1 & Hw1 & _ & T & _ & S). simplify_eq.
    split; [done|]. apply S. lia.
Qed.
End server.
