(* ===== verification/ServerMainModel.v ===== *)
(** * The server executable ([server/main.cpp])

    [main] composes the configuration, the logger, the engine and the server. What
    its threads do between [start] and [join] is a list of rounds of their loops, in the
    order in which they happen. The state is what [std::clog] has received, what the
    engine has left in its shards' heaps, and the descriptors and the memory of the
    process. *)
From S2P Require Import Prelude ErrorModel Effects MemoryModel AllocatorModel ValueAllocatorModel CacheShardModel CacheEngineModel.
From S2P Require Import TextModel LoggerModel ConfigModel WorkerModel ServerModel.
From S2P Require Import ServerFacts ServerRunFacts ServerAcceptFacts ServerSystemFacts.
Import Memory.

(** ** Which batches the kernel can deliver *)

Lemma free_fd_iff fd srv :
  free_fd fd srv <-> 0 <= fd /\ (fd ∉ server_fds srv) /\
    Forall (fun w => Kernel.sockets (CacheServer.kernel_ w) !! fd = None) (CacheServer.workers_ srv).
Proof.
  unfold free_fd, has_socket. split; intros (H1 & H2 & H3); (split_and!; [done|done|]).
  - apply Forall_lookup. intros i w Hi. apply eq_None_not_Some. by eapply H3.
  - intros i w Hi. rewrite (Forall_lookup_1 _ _ _ _ H3 Hi). by intros [? ?].
Qed.

#[export] Instance free_fd_dec fd srv : Decision (free_fd fd srv).
Proof.
  refine (cast_if (decide (0 <= fd /\ (fd ∉ server_fds srv) /\
    Forall (fun w => Kernel.sockets (CacheServer.kernel_ w) !! fd = None) (CacheServer.workers_ srv)))); by rewrite free_fd_iff.
Defined.

#[export] Instance valid_events_dec events srv : Decision (valid_events events srv).
Proof.
  refine (cast_if (decide (NoDup (batch_taken events) /\ Forall (fun fd => free_fd fd srv) (batch_taken events))));
    unfold valid_events; by rewrite <- Forall_forall.
Defined.

#[export] Instance acceptable_dec unbroken srv r : Decision (acceptable unbroken srv r).
Proof. destruct r; cbn [acceptable]; apply _. Defined.

Module ServerMain.

(** A local object [x] of the block [m]. *)
Definition local {L X T A} (x : X) (m : M (L * (X * T)) A) : M (L * T) A := fun s =>
  let '(o, (l, (_, t))) := m (s.1, (x, s.2)) in (o, (l, t)).

(** A block at whose end, on every way out, a destructor runs. *)
Definition finally {S A} (m : M S A) (destructor : M S unit) : M S A :=
  a <- on_throw m destructor ;; destructor ;; ret a.

(** What is outside the blocks: the shards of the engine that was destroyed, the
    descriptors and the memory. *)
Definition outside : Type := list CacheShard.t * CacheServer.build.

(** [std::clog] and the rest. *)
Definition state : Type := bytes * outside.

(** The block of the engine: what it leaves of the shards' heaps outlives it. *)
Definition local_engine {L A} (engine : CacheEngine.t) (m : M (L * (CacheEngine.t * CacheServer.build)) A) : M (L * outside) A := fun s =>
  let '(o, (l, (e, t))) := m (s.1, (engine, s.2.2)) in (o, (l, (CacheEngine.shards_ e, t))).

(** The block in which the logger on [std::clog] lives. *)
Definition with_logger {A} (level : Logger.LogLevel) (m : M (Logger.t * outside) A) : M state A := fun s =>
  let '(o, (logger, t)) := m (Logger.create s.1 level, s.2) in (o, (Logger.output_ logger, t)).

Definition error {S A} (code : ErrorCode) (what : bytes) : M S A := throw (highcache_error (MkHighCacheError code what)).

(** ** What the threads do *)

(** A round of the loop of a thread: its [epoll_wait] returns. *)
Inductive activity :=
| acceptor_turn (r : CacheServer.waited CacheServer.event)
| worker_turn (i : nat) (r : CacheServer.waited (Z * Z)).

(** The outcome of the program: its status, standard output, log and standard error, and
    the shards as the destructor of the engine left them. *)
Record result := MkResult { status : Z; out : bytes; log : bytes; err : bytes; remains : list CacheShard.t }.

Definition usage_text : bytes := lit "usage: highcache_server [config-file]".

Section main.
Variable hash : bytes -> Z.
Variable inet_pton : bytes -> Z.
(** Opening a file: its text, and whether its device fails after it. *)
Variable open_file : bytes -> option (bytes * bool).
(** When the allocations of each shard will fail. *)
Variable schedule : Z -> list bool.
(** What the calls of [epoll_ctl] of each worker will do. *)
Variable ctl : nat -> list bool.
(** How [epoll_wait] ends in each thread when it is joined. *)
Variable last : CacheServer.last_waits.
(** The rounds before and after the stop request. *)
Variables before after : list activity.

(** A round of a thread in its loop; nothing when the thread is not in its loop or
    when the descriptors it accepts are in use. *)
Definition act (a : activity) : M CacheServer.state unit :=
  srv <- CacheServer.on_server read ;;
  match a with
  | acceptor_turn r =>
      match CacheServer.acceptor_thread_ srv with
      | CacheServer.a_thread => if decide (acceptable false srv r) then CacheServer.acceptor_round r else ret tt
      | _ => ret tt
      end
  | worker_turn i r =>
      match CacheServer.workers_ srv !! i with
      | Some (CacheServer.MkSlot _ _ _ CacheServer.a_thread) => CacheServer.worker_round hash i r
      | _ => ret tt
      end
  end.

Fixpoint act_all (acts : list activity) : M CacheServer.state unit :=
  match acts with
  | [] => ret tt
  | a :: acts => act a ;; act_all acts
  end.

(** [block_shutdown_signals]. *)
Definition prepare : M CacheServer.build unit :=
  b <- on_fst Os.call ;;
  if b then ret tt else error network (lit "unable to prepare shutdown signals").

Definition block_shutdown_signals : M CacheServer.build unit :=
  prepare ;; prepare ;; prepare ;;
  b <- on_fst Os.call ;;
  if b then ret tt else error network (lit "unable to block shutdown signals").

(** [::sigwait]. *)
Definition wait_for_signal : M CacheServer.build unit :=
  b <- on_fst Os.call ;;
  if b then ret tt else error network (lit "unable to wait for shutdown signal").

(** The lines logged. *)
Definition startup (srv : CacheServer.t) (engine : CacheEngine.t) : bytes :=
  lit "HighCache listening on " ++ CacheServer.server_host srv ++ lit ":" ++
  to_decimal (CacheServer.server_port srv) ++ lit " with " ++ to_decimal (CacheServer.worker_count srv) ++
  lit " workers, " ++ to_decimal (CacheEngine.shard_count engine) ++ lit " cache shards, and " ++
  backend_to_string (CacheEngine.allocator_backend engine) ++ lit " value allocation".

Definition metrics (entries logical : Z) (allocator : ValueAllocatorMetrics) : bytes :=
  lit "Cache metrics: entries=" ++ to_decimal entries ++
  lit " logical_bytes=" ++ to_decimal logical ++
  lit " allocator_reserved_bytes=" ++ to_decimal (allocated_bytes allocator) ++
  lit " allocator_used_bytes=" ++ to_decimal (used_bytes allocator) ++
  lit " allocator_fragmentation_bytes=" ++ to_decimal (internal_fragmentation allocator) ++
  lit " allocator_allocations=" ++ to_decimal (allocation_count allocator) ++
  lit " allocator_deallocations=" ++ to_decimal (deallocation_count allocator) ++
  lit " allocator_slabs=" ++ to_decimal (slab_count allocator).

Definition stopped : bytes := lit "HighCache stopped".

(** From [server.start()] to [server.join()]; the text of the message is allocated. *)
Definition serve : M (Logger.t * CacheServer.state) unit :=
  on_snd (CacheServer.start hash last) ;;
  s <- on_snd read ;;
  on_snd (CacheServer.on_build (on_snd may_alloc)) ;;
  on_fst (Logger.log_info (startup s.1 s.2.1)) ;;
  on_snd (act_all before) ;;
  on_snd (CacheServer.on_build wait_for_signal) ;;
  on_snd CacheServer.request_stop ;;
  on_snd (act_all after) ;;
  on_snd (CacheServer.join hash last).

(** The rest of the block. *)
Definition run_server : M (Logger.t * CacheServer.state) unit :=
  serve ;;
  allocator <- on_snd (CacheServer.on_engine CacheEngine.allocator_metrics) ;;
  entries <- on_snd (CacheServer.on_engine CacheEngine.size) ;;
  logical <- on_snd (CacheServer.on_engine CacheEngine.memory_usage_bytes) ;;
  on_snd (CacheServer.on_build (on_snd may_alloc)) ;;
  on_fst (Logger.log_info (metrics entries logical allocator)) ;;
  on_fst (Logger.log_info stopped).

(** The block in which the server lives, in that of the engine. *)
Definition options_of (config : Config.t) : CacheServer.ServerOptions :=
  CacheServer.MkServerOptions (Config.host config) (Config.port config) (Config.worker_threads config)
    (CacheServer.pending_output_limit CacheServer.default_options).

Definition with_server (config : Config.t) : M (Logger.t * (CacheEngine.t * CacheServer.build)) unit :=
  server <- on_snd (on_snd (CacheServer.make inet_pton ctl (options_of config))) ;;
  local server (finally run_server (on_snd (CacheServer.destroy hash last))).

Definition with_engine (config : Config.t) : M (Logger.t * outside) unit :=
  on_snd (on_snd block_shutdown_signals) ;;
  engine <- on_snd (on_snd (on_snd (CacheEngine.create (Config.cache_capacity_bytes config) (Config.shard_count config)
                              (Config.allocator_backend config) schedule))) ;;
  local_engine engine (finally (with_server config) (on_snd (on_fst CacheEngine.destroy))).

(** The configuration the command line asks for. *)
Definition configure (argv : list bytes) : outcome Config.t :=
  match argv with
  | [_; path] => Config.from_file path ((fun f => Istream.MkIstream f.1 f.2 false) <$> open_file path)
  | _ => Ret Config.init
  end.

(** The [try] block: what it has printed on standard output. *)
Definition main_body (argv : list bytes) : M state bytes :=
  if decide (argv !! 1%nat = Some (lit "--help") /\ length argv = 2%nat)
  then ret (usage_text ++ [Byte.x0a])
  else if decide (2 < length argv)%nat then error invalid_argument usage_text
  else
    config <- (fun s => (configure argv, s)) ;;
    with_logger (Config.log_level config) (with_engine config) ;;
    ret [].

(** The handlers. *)
Definition reported (x : exn) : bytes :=
  lit "highcache_server: " ++
  match x with
  | highcache_error e => error_code_to_string (code e) ++ lit ": " ++ what x
  | _ => lit "unexpected error: " ++ what x
  end ++ [Byte.x0a].

Definition main (argv : list bytes) : M CacheServer.build result := fun s =>
  match main_body argv ([], ([], s)) with
  | (Ret out, (log, (shards, s'))) => (Ret (MkResult 0 out log [] shards), s')
  | (Throw x, (log, (shards, s'))) => (Ret (MkResult 1 [] log (reported x) shards), s')
  | (Undefined, (_, (_, s'))) => (Undefined, s')
  end.

End main.

End ServerMain.
