(* ===== verification/ServerSupplyFacts.v ===== *)
(** * When nothing fails, the server comes up

    With enough descriptors to come, no failing call and no failing allocation, the
    constructor and [start] return; and the acceptor makes no call that could fail. *)
From S2P Require Import Prelude ErrorModel Effects MemoryModel ProgressFacts ProtocolModel CacheEngineModel.
From S2P Require Import WorkerModel ServerModel.
Import Memory.
Import CacheServer.

(** Nothing fails, and [n] more descriptors can be opened. *)
Definition supplied (n : nat) (s : build) : Prop :=
  Os.calls s.1 = [] /\ quiet s.2 /\ exists fds, Os.opens s.1 = Some <$> fds /\ (n <= length fds)%nat.

Lemma supplied_le n k s : (k <= n)%nat -> supplied n s -> supplied k s.
Proof. intros Hk (H1 & H2 & fds & H3 & H4). split_and!; [done|done|]. exists fds. split; [done|lia]. Qed.

(** ** The constructor *)

Lemma opened_calm op n : calm (supplied (S n)) (opened_or_throw op) (supplied n).
Proof.
  intros [o m] (H1 & H2 & fds & H3 & H4). unfold opened_or_throw, bind, on_fst, Os.open_fd. cbn [fst snd] in *. rewrite H3.
  destruct fds as [|fd fds]; cbn [length] in H4; [lia|]. csimpl. split_and!; [done|done|]. exists fds. split; [done|lia].
Qed.

Lemma checked_calm op n : calm (supplied n) (checked op) (supplied n).
Proof. intros [o m] Hs. pose proof Hs as (H1 & _). unfold checked, bind, on_fst, Os.call. cbn [fst snd] in *. by rewrite H1. Qed.

Lemma alloc_calm n : calm (supplied n) (on_snd may_alloc) (supplied n).
Proof. intros [o [h fs]] Hs. pose proof Hs as (_ & H2 & _). unfold quiet in H2. simpl in H2. subst. exact Hs. Qed.

Lemma modify_os_calm f n :
  (forall o, Os.calls (f o) = Os.calls o /\ Os.opens (f o) = Os.opens o) -> calm (supplied n) (on_fst (modify f)) (supplied n).
Proof.
  intros Hf [o m] (H1 & H2 & H3). destruct (Hf o) as [E1 E2]. split_and!; cbn [fst snd] in *; [by rewrite E1|done|by rewrite E2].
Qed.

Lemma create_worker_calm limit ctl n : calm (supplied (S (S n))) (create_worker limit ctl) (supplied n).
Proof.
  unfold create_worker. eapply calm_bind; [apply opened_calm|]. intros epoll. apply calm_on_throw.
  eapply calm_bind; [apply opened_calm|]. intros wakeup. apply calm_on_throw.
  eapply calm_bind; [apply checked_calm|]. intros []. eapply calm_bind; [|intros ?; apply calm_ret].
  by intros [o m].
Qed.

Lemma create_workers_calm limit ctl n made : calm (supplied (2 * n)) (create_workers limit ctl n made) (supplied 0).
Proof.
  revert made. induction n as [|n IH]; intros made; cbn [create_workers]; [apply calm_ret|].
  eapply calm_bind; [|intros w; apply IH]. apply calm_on_throw. eapply calm_bind; [apply alloc_calm|]. intros [].
  replace (2 * S n)%nat with (S (S (2 * n))) by lia. apply create_worker_calm.
Qed.

Lemma register_calm fd n : calm (supplied n) (add_to_epoll fd) (supplied n).
Proof. unfold add_to_epoll. eapply calm_bind; [apply checked_calm|]. intros []. by apply modify_os_calm. Qed.

Lemma calm_bind_ret {S A B} (P Q : S -> Prop) (a : A) (k : A -> M S B) : calm P (k a) Q -> calm P (bind (ret a) k) Q.
Proof. done. Qed.

Section create.
Variable inet_pton : bytes -> Z.
Variable ctl : nat -> list bool.

Lemma listen_calm options n :
  inet_pton (host options) = 1 -> calm (supplied (S n)) (create_listen_socket inet_pton options) (supplied n).
Proof.
  intros Hin. unfold create_listen_socket. eapply calm_bind; [apply opened_calm|]. intros fd. apply calm_on_throw. rewrite Hin.
  eapply calm_bind; [apply checked_calm|]. intros []. eapply calm_bind; [apply calm_ret|]. intros [].
  do 3 (eapply calm_bind; [apply checked_calm|]; intros []). eapply calm_bind; [|intros ?; apply calm_ret]. by intros [o m].
Qed.

Lemma create_calm options :
  worker_threads options <> 0 -> Protocol.response_header_size <= pending_output_limit options -> inet_pton (host options) = 1 ->
  calm (supplied (4 + 2 * Z.to_nat (worker_threads options))) (create inet_pton ctl options) (supplied 0).
Proof.
  intros Hw Hl Hin. unfold create, validate_options. rewrite (proj2 (Z.eqb_neq _ 0) Hw), (proj2 (Z.ltb_ge _ _) Hl).
  apply calm_bind_ret. set (n := Z.to_nat _). change (4 + 2 * n)%nat with (S (S (S (S (2 * n))))).
  eapply calm_bind; [by apply listen_calm|]. intros listen. apply calm_on_throw.
  eapply calm_bind; [apply opened_calm|]. intros epoll. apply calm_on_throw.
  eapply calm_bind; [apply opened_calm|]. intros stop. eapply calm_bind; [by apply modify_os_calm|]. intros []. apply calm_on_throw.
  eapply calm_bind; [apply opened_calm|]. intros timer. apply calm_on_throw.
  do 3 (eapply calm_bind; [apply register_calm|]; intros []). eapply calm_bind; [apply alloc_calm|]. intros [].
  eapply calm_bind; [apply create_workers_calm|]. intros ws. apply calm_ret.
Qed.

Lemma make_calm options :
  worker_threads options <> 0 -> Protocol.response_header_size <= pending_output_limit options -> inet_pton (host options) = 1 ->
  calm (supplied (4 + 2 * Z.to_nat (worker_threads options))) (make inet_pton ctl options) (supplied 0).
Proof. intros Hw Hl Hin. eapply calm_bind; [apply alloc_calm|]. intros []. by apply create_calm. Qed.

End create.

(** ** [start] *)

Lemma bind_run {S A B} (m : M S A) (k : A -> M S B) s a s' : m s = (Ret a, s') -> bind m k s = k a s'.
Proof. unfold bind. by intros ->. Qed.

(** While no call fails, creating a thread succeeds and changes nothing. *)
Lemma make_thread_run srv e o m : Os.calls o = [] -> make_thread (srv, (e, (o, m))) = (Ret true, (srv, (e, (o, m)))).
Proof. intros Hc. unfold make_thread, on_build, on_snd, on_fst, Os.call. cbn [fst snd]. by rewrite Hc. Qed.

Lemma start_workers_run srv e o m i n :
  Os.calls o = [] -> exists srv', start_workers i n (srv, (e, (o, m))) = (Ret ((i + n)%nat, true), (srv', (e, (o, m)))).
Proof.
  intros Hc. revert srv i. induction n as [|n IH]; intros srv i; cbn [start_workers].
  { exists srv. by rewrite Nat.add_0_r. }
  unfold bind at 1. rewrite make_thread_run by done. unfold bind, on_server, on_fst, modify. cbn [fst snd].
  destruct (IH (set_thread i a_thread srv) (S i)) as [srv' H]. exists srv'. by rewrite H, Nat.add_succ_r.
Qed.

Lemma start_run hash last srv e o m :
  Os.calls o = [] -> ever_started_ srv = false -> exists srv' o', start hash last (srv, (e, (o, m))) = (Ret tt, (srv', (e, (o', m)))) /\ Os.calls o' = [].
Proof.
  intros Hc Hev. unfold start.
  destruct (start_workers_run (set_ever_started srv) e (Os.arm 1 1 o) m 0 (length (workers_ srv)) Hc) as [srv' Hs].
  eexists _, (Os.arm 1 1 o). split; [|exact Hc]. rewrite (bind_run _ _ _ srv (srv, (e, (o, m)))) by done. cbn beta.
  rewrite (bind_run _ _ _ tt (set_ever_started srv, (e, (o, m)))) by done. rewrite Hev.
  rewrite (bind_run _ _ _ tt (set_ever_started srv, (e, (o, m)))).
  2: { unfold on_build, on_snd, checked, bind, on_fst, Os.call. cbn [fst snd]. by rewrite Hc. }
  rewrite (bind_run _ _ _ tt (set_ever_started srv, (e, (Os.arm 1 1 o, m)))) by done. rewrite (bind_run _ _ _ _ _ Hs). cbn beta iota zeta.
  rewrite (bind_run _ _ _ true (set_running true srv', (e, (Os.arm 1 1 o, m)))); [reflexivity|].
  rewrite (bind_run _ _ _ tt (set_running true srv', (e, (Os.arm 1 1 o, m)))) by done. by apply make_thread_run.
Qed.

(** ** Calls that can fail *)

(** An operation that makes none of them. *)
Definition no_calls {A} (f : M state A) : Prop := forall s, Os.calls (f s).2.2.2.1 = Os.calls s.2.2.1.

Lemma no_calls_ret {A} (a : A) : no_calls (ret a).
Proof. done. Qed.

Lemma no_calls_bind {A B} (f : M state A) (k : A -> M state B) : no_calls f -> (forall a, no_calls (k a)) -> no_calls (bind f k).
Proof.
  intros Hf Hk s. specialize (Hf s). unfold bind. destruct (f s) as [[a|x|] s1]; cbn [snd] in *; [|done|done]. by rewrite Hk.
Qed.

Lemma no_calls_catch {A} (f : M state A) h : no_calls f -> (forall x, no_calls (h x)) -> no_calls (try_catch f h).
Proof.
  intros Hf Hh s. specialize (Hf s). unfold try_catch. destruct (f s) as [[a|x|] s1]; cbn [snd] in *; [done| |done]. by rewrite Hh.
Qed.

Lemma no_calls_server {A} (f : M t A) : no_calls (on_server f).
Proof. intros [srv r]. unfold on_server, on_fst. by destruct (f _). Qed.

Lemma no_calls_engine {A} (f : M CacheEngine.t A) : no_calls (on_engine f).
Proof. intros [srv [e r]]. unfold on_engine, on_snd, on_fst. cbn [fst snd]. by destruct (f _). Qed.

Lemma no_calls_worker {A} i (f : M Worker.state A) : no_calls (on_worker i f).
Proof.
  intros [srv [e [o m]]]. unfold on_worker. destruct (workers_ srv !! i); [|done]. by destruct (f _) as [r [w' [e' [k' m']]]].
Qed.

#[local] Hint Resolve no_calls_ret no_calls_server no_calls_engine no_calls_worker : wp.

(** [no_calls] goes through the statements of an operation. *)
Ltac no_calls :=
  repeat first [ solve [auto with wp] | (apply no_calls_bind; [|intros ?]) | (apply no_calls_catch; [|intros ?])
               | match goal with |- no_calls (match ?x with _ => _ end) => destruct x end ].

Lemma accept_no_calls results : no_calls (accept_connections results).
Proof. induction results as [|[] results IH]; cbn [accept_connections]; no_calls. Qed.

Lemma tick_times_no_calls n : no_calls (tick_times n).
Proof. induction n as [|n IH]; cbn [tick_times]; no_calls. Qed.

Lemma handle_timer_no_calls results : no_calls (handle_timer results).
Proof. induction results as [|[] results IH]; cbn [handle_timer]; no_calls. apply tick_times_no_calls. Qed.

Lemma acceptor_no_calls events : no_calls (run_acceptor_once events).
Proof.
  induction events as [|ev events IH]; cbn [run_acceptor_once]; [apply no_calls_ret|]. apply no_calls_bind; [|done].
  unfold handle_event. apply no_calls_bind; [apply no_calls_server|]. intros srv.
  destruct (_ =? _); [by intros [? [? [? ?]]]|]. destruct (_ =? _); [apply handle_timer_no_calls|].
  destruct (_ =? _); [apply accept_no_calls|apply no_calls_ret].
Qed.

Lemma acceptor_round_no_calls r : no_calls (acceptor_round r).
Proof.
  pose proof acceptor_no_calls. unfold acceptor_round, check_acceptor, leave_acceptor. no_calls.
Qed.

Lemma worker_round_no_calls hash i r : no_calls (worker_round hash i r).
Proof.
  assert (no_calls (check_stop i)).
  { unfold check_stop. apply no_calls_bind; [apply no_calls_server|]. intros srv. destruct (_ !! i) as [w|]; [|done].
    unfold leave_run. no_calls. }
  unfold worker_round, leave_run. no_calls.
Qed.
