(* ===== verification/ServerMainFacts.v ===== *)
(** * What the server executable does

    The blocks of [main] from the inside out: the rounds of its threads, the life of
    the server, the life of the engine, the handlers. *)
From S2P Require Import Prelude ErrorModel Effects MemoryModel AllocatorModel ValueAllocatorModel LruSpec.
From S2P Require Import CacheShardModel CacheEngineModel CacheEngineFacts EngineTheorems TextModel LoggerModel ConfigModel ConfigFacts.
From S2P Require Import ProtocolModel WorkerModel WorkerFacts WorkerInstallFacts WorkerRunFacts.
From S2P Require Import ServerModel ServerFacts ServerRunFacts ServerStartFacts ServerAcceptFacts ServerSystemFacts.
From S2P Require Import ProgressFacts ServerSystemFacts ServerMainModel ServerSupplyFacts.
Import Memory.
Import CacheServer.
Import ServerMain.

(** ** Blocks *)

Lemma wp_local {L X T A} (x : X) (m : M (L * (X * T)) A) l t Q :
  wp m (l, (x, t)) (fun o s' => Q o (s'.1, s'.2.2)) -> wp (local x m) (l, t) Q.
Proof. unfold wp, local. simpl. by destruct (m _) as [o [l' [x' t']]]. Qed.

Lemma wp_local_engine {L A} (e : CacheEngine.t) (m : M (L * (CacheEngine.t * build)) A) l shards t Q :
  wp m (l, (e, t)) (fun o s' => Q o (s'.1, (CacheEngine.shards_ s'.2.1, s'.2.2))) -> wp (local_engine e m) (l, (shards, t)) Q.
Proof. unfold wp, local_engine. cbn [fst snd]. by destruct (m _) as [o [l' [e' t']]]. Qed.

Lemma wp_finally {S A} (m : M S A) d s (R R' : A -> S -> Prop) (E E' : exn -> S -> Prop) :
  wp m s (post R E) ->
  (forall a s', R a s' -> wp d s' (post (fun _ => R' a) (fun _ _ => False))) ->
  (forall x s', E x s' -> wp d s' (post (fun _ => E' x) (fun _ _ => False))) ->
  wp (finally m d) s (post R' E').
Proof.
  intros Hm HR HE. unfold finally. eapply wp_bind_post; [eapply wp_on_throw; [exact Hm|exact HE]| |by intros].
  intros a s' Ha. eapply wp_bind_post; [by apply HR| |done]. intros [] s'' H. by apply wp_ret.
Qed.

Section main.
Variable hash : bytes -> Z.

Variable last : last_waits.

(** ** The rounds *)

(** The server works, and owns the descriptors it was made with. *)
Definition serving (cap : Z) (fds : list Z) (opened : gset Z) (s : CacheServer.state) : Prop :=
  server_good hash cap false s /\ server_fds s.1 = fds /\ Os.opened s.2.2.1 = opened.

Lemma worker_turn_serving cap fds opened i w x srv e o m :
  serving cap fds opened (srv, (e, (o, m))) -> workers_ srv !! i = Some w -> thread_ w = a_thread ->
  wp (worker_round hash i x) (srv, (e, (o, m))) (post
    (fun _ s' => serving cap fds opened s' /\ stop_requested_ s'.1 = stop_requested_ srv) (fun _ _ => False)).
Proof.
  intros (Hg & Hf & Ho) Hi Hth. eapply wp_post_mono; [by apply (worker_round_good hash cap false i w x)| |done].
  intros [] s' (Hg' & w' & e' & m' & -> & Hr & _). split; [|done]. split_and!; [exact Hg'| |exact Ho].
  cbn [fst]. by rewrite (set_slot_fds srv i w).
Qed.

Lemma acceptor_turn_serving cap fds opened x srv e o m :
  serving cap fds opened (srv, (e, (o, m))) -> acceptor_thread_ srv = a_thread -> acceptable false srv x ->
  wp (acceptor_round x) (srv, (e, (o, m))) (post
    (fun _ s' => serving cap fds opened s' /\ stop_requested_ s'.1 = stop_requested_ srv) (fun _ _ => False)).
Proof.
  intros (Hg & Hf & Ho) Ha Hv. eapply wp_post_mono; [by apply (acceptor_round_good hash cap false x)| |done].
  intros [] s' (Hg' & K1 & K2 & K3). cbn [fst snd] in *. split; [|done]. split_and!; [exact Hg'|congruence..].
Qed.

Lemma act_no_calls a : no_calls (act hash a).
Proof.
  unfold act. apply no_calls_bind; [apply no_calls_server|]. intros srv. destruct a as [x|i x].
  - destruct (acceptor_thread_ srv); [apply no_calls_ret| |apply no_calls_ret].
    destruct (decide _); [apply acceptor_round_no_calls|apply no_calls_ret].
  - destruct (workers_ srv !! i) as [[ep w k []]|]; try apply no_calls_ret. apply worker_round_no_calls.
Qed.

Lemma act_all_no_calls acts : no_calls (act_all hash acts).
Proof. induction acts as [|a acts IH]; [apply no_calls_ret|]. apply no_calls_bind; [apply act_no_calls|done]. Qed.

Lemma act_wp cap fds opened a s :
  serving cap fds opened s ->
  wp (act hash a) s (post
    (fun _ s' => serving cap fds opened s' /\ stop_requested_ s'.1 = stop_requested_ s.1) (fun _ _ => False)).
Proof.
  destruct s as [srv [e [o m]]]. intros Hs. unfold act. apply wp_bind, wp_on_fst, wp_read. cbn beta iota.
  destruct a as [x|i x].
  - destruct (acceptor_thread_ srv) eqn:Ha; [by apply wp_ret| |by apply wp_ret]. destruct (decide _) as [Hv|_]; [|by apply wp_ret].
    by apply acceptor_turn_serving.
  - destruct (workers_ srv !! i) as [[ep w k []]|] eqn:Hi; try by apply wp_ret. by eapply worker_turn_serving.
Qed.

Lemma act_all_wp cap fds opened acts s :
  serving cap fds opened s ->
  wp (act_all hash acts) s (post
    (fun _ s' => (serving cap fds opened s' /\ stop_requested_ s'.1 = stop_requested_ s.1) /\
       Os.calls s'.2.2.1 = Os.calls s.2.2.1) (fun _ _ => False)).
Proof.
  intros Hs. pose proof (act_all_no_calls acts s) as Hc.
  enough (wp (act_all hash acts) s (post
    (fun _ s' => serving cap fds opened s' /\ stop_requested_ s'.1 = stop_requested_ s.1) (fun _ _ => False))) as H.
  { unfold wp in *. destruct (act_all hash acts s) as [[[]|x|] s']; [by split|done|done]. }
  clear Hc. revert s Hs. induction acts as [|a acts IH]; intros s Hs; cbn [act_all]; [by apply wp_ret|].
  eapply wp_bind_post; [by apply (act_wp cap fds opened)| |done]. intros [] s1 [H1 E1].
  eapply wp_post_mono; [by apply IH| |done]. intros [] s2 [H2 E2]. split; [done|congruence].
Qed.

(** ** The life of the server *)

Lemma start_serving cap fds opened srv e o m :
  serving cap fds opened (srv, (e, (o, m))) -> ever_started_ srv = false ->
  wp (start hash last) (srv, (e, (o, m))) (post
    (fun _ s' => serving cap fds opened s' /\ exists srv' o', s' = (srv', (e, (o', m))) /\ server_started srv srv' /\
       (Os.calls o = [] -> Os.calls o' = []))
    (fun x s' => serving cap fds opened s' /\ (setup_exn x \/ x = thread_error) /\ Os.calls o <> [])).
Proof.
  intros (Hg & Hf & Ho) Hev. pose proof (start_good hash last cap false srv e o m Hg) as Hgood.
  pose proof (start_wp hash last cap srv e o m (proj1 Hg)) as Hst. pose proof (fun Hc => start_run hash last srv e o m Hc Hev) as Hrun. unfold wp in *.
  destruct (start _ _ _) as [[[]|x|] s']; cbn [fst snd post] in *; [..|done].
  - destruct Hst as (srv' & o' & -> & _ & Hs & H1 & _). cbn [fst snd] in *. split; [|exists srv', o'; split_and!; [done|done|]].
    2: { intros Hc. destruct (Hrun Hc) as (? & ? & [= <- <-] & ?). done. }
    destruct Hs as (_ & _ & _ & _ & _ & Hf' & _). split_and!; [done|cbn [fst snd] in *; congruence..].
  - destruct Hst as (srv' & e' & o' & m' & -> & _ & Hu & H1 & _ & _ & _ & H2). cbn [fst snd] in *. split; [|split; [by auto|]].
    2: { intros Hc. by destruct (Hrun Hc) as (? & ? & ? & _). }
    destruct Hu as (_ & _ & Hf' & _). split_and!; [done|cbn [fst snd] in *; congruence..].
Qed.

Lemma request_stop_serving cap fds opened s :
  serving cap fds opened s ->
  wp request_stop s (post
    (fun _ s' => serving cap fds opened s' /\ stop_requested_ s'.1 = true) (fun _ _ => False)).
Proof.
  destruct s as [srv [e [o m]]]. intros (Hg & Hf & Ho). eapply wp_post_mono; [by apply request_stop_good| |done].
  intros [] s' (Hg' & o' & -> & Ho'). split; [|done]. split_and!; [done|done|by cbn [fst snd] in *; congruence].
Qed.

Lemma join_serving cap fds opened s :
  serving cap fds opened s -> stop_requested_ s.1 = true ->
  wp (join hash last) s (post (fun _ => serving cap fds opened) (fun _ _ => False)).
Proof.
  destruct s as [srv [e [o m]]]. intros (Hg & Hf & Ho) Hst. eapply wp_post_mono; [by apply (join_good hash last cap false)| |done].
  intros [] s' (Hg' & srv' & e' & o' & m' & -> & _ & _ & _ & Hf' & _ & _ & _ & Ho' & _). cbn [fst snd] in *.
  split_and!; [done|cbn [fst snd] in *; congruence..].
Qed.

Lemma destroy_serving cap fds opened s :
  serving cap fds opened s ->
  wp (CacheServer.destroy hash last) s (post
    (fun _ s' => Os.opened s'.2.2.1 = opened ∖ list_to_set fds /\ exists ls, engine_holds hash cap s'.2.1 ls) (fun _ _ => False)).
Proof.
  destruct s as [srv [e [o m]]]. intros (Hg & Hf & Ho). eapply wp_post_mono; [by apply (server_destroy_wp hash last cap false)| |done].
  intros [] s' (srv' & e' & o' & m' & ls & -> & He & H1 & _). cbn [fst snd] in *. split; [|by eexists]. rewrite H1. congruence.
Qed.

(** ** What is logged *)

(** The lines in the log of messages at level [info]. *)
Definition info_lines (level : Logger.LogLevel) (messages : list bytes) : bytes :=
  if Logger.level_value Logger.info <? Logger.level_value level then []
  else concat (Logger.log_line Logger.info <$> messages).

Lemma info_lines_cons level x messages : info_lines level (x :: messages) = info_lines level [x] ++ info_lines level messages.
Proof. unfold info_lines. destruct (_ <? _); [done|]. csimpl. by rewrite app_nil_r. Qed.

(** A logger that has logged [messages]. *)
Definition logged (level : Logger.LogLevel) (messages : list bytes) : Logger.t :=
  Logger.MkLogger (info_lines level messages) level false.

Lemma log_info_wp {T} level messages message (t : T) Q :
  Q (Ret tt) (logged level (messages ++ [message]), t) ->
  wp (on_fst (Logger.log_info message)) (logged level messages, t) Q.
Proof.
  intros H. apply wp_on_fst. unfold wp, Logger.log_info. rewrite Logger.log_run by done. cbn [fst snd].
  eapply eq_rect; [exact H|]. do 2 f_equal. unfold logged, info_lines. cbn [Logger.output_ Logger.minimum_level_].
  destruct (_ <? _); [done|]. by rewrite fmap_app, concat_app; csimpl; rewrite app_nil_r.
Qed.

(** The metrics of the engine [e]: those of the items [ls] that it holds. *)
Definition final_metrics (cap : Z) (e : CacheEngine.t) (line : bytes) : Prop :=
  exists ls allocator, engine_holds hash cap e ls /\
    line = metrics (u64 (zsum (fun items => zlen items) ls)) (zsum Lru.usage ls) allocator /\
    CacheEngine.allocator_metrics e = (Ret allocator, e) /\ zsum Lru.usage ls <= cap /\
    used_bytes allocator = u64 (zsum (zsum (fun x => zlen (Lru.i_value x))) ls).

(** Reading the engine leaves everything as it was. *)
Lemma on_engine_run {A} (f : M CacheEngine.t A) (a : A) (lg : Logger.t) srv e (b : build) Q :
  f e = (Ret a, e) -> Q (Ret a) (lg, (srv, (e, b))) -> wp (on_snd (on_engine f)) (lg, (srv, (e, b))) Q.
Proof. intros Hf HQ. apply wp_on_snd. unfold on_engine. apply wp_on_snd, wp_on_fst. unfold wp. by rewrite Hf. Qed.

(** Allocating the text of a message. *)
Lemma text_wp (lg : Logger.t) cap fds opened s Q :
  serving cap fds opened s ->
  (forall s', serving cap fds opened s' -> s'.2.2.1 = s.2.2.1 ->
     Q (Ret tt) (lg, s') /\ (~ quiet s.2.2.2 -> Q (Throw bad_alloc) (lg, s'))) ->
  wp (on_snd (on_build (on_snd may_alloc))) (lg, s) Q.
Proof.
  destruct s as [srv [e [o m]]]. intros Hs HQ. apply wp_on_snd. unfold on_build. apply wp_on_snd, wp_on_snd, wp_on_snd.
  unfold wp, may_alloc. destruct (faults m) as [|[] fs] eqn:Hfs; cbn [fst snd].
  - by apply (HQ (srv, (e, (o, m)))).
  - apply (HQ (srv, (e, (o, MkEnv (mem m) fs)))); [done|done|]. unfold quiet. cbn [fst snd]. by rewrite Hfs.
  - by apply (HQ (srv, (e, (o, MkEnv (mem m) fs)))).
Qed.

Lemma startup_started srv srv' e : server_started srv srv' -> startup srv' e = startup srv e.
Proof.
  intros (_ & _ & _ & _ & _ & _ & Hw & Ho & Hl). unfold startup, server_host, server_port, worker_count.
  by rewrite Hw, Ho, Hl, length_fmap.
Qed.

Lemma wait_serving cap fds opened s :
  serving cap fds opened s ->
  wp (on_build wait_for_signal) s (post
    (fun _ s' => serving cap fds opened s' /\ s'.1 = s.1)
    (fun x s' => serving cap fds opened s' /\ setup_exn x /\ Os.calls s.2.2.1 <> [])).
Proof.
  destruct s as [srv [e [o m]]]. intros ((Hok & Hst & Hal) & Hf & Ho). unfold on_build, wait_for_signal.
  assert (forall o', Os.opened o' = Os.opened o -> Os.signals o' = Os.signals o -> serving cap fds opened (srv, (e, (o', m)))) as Hs.
  { intros o' E Eg. cbn [fst snd] in *. split; [split_and!|]; [|done| |split; [done|by cbn [fst snd]; congruence]].
    - by eapply server_ok_same; [exact Hok|..|exact (sv_threads _ _ _ _ _ Hok)|].
    - unfold alert. cbn [fst snd]. rewrite Eg. exact Hal. }
  apply wp_on_snd, wp_on_snd, wp_bind, wp_on_fst. unfold wp, Os.call.
  destruct (Os.calls o) as [|[] fs] eqn:Hc; cbn [fst snd negb].
  - split; [by apply Hs|done].
  - split_and!; [by apply Hs|right; by eexists|by rewrite Hc].
  - split; [by apply Hs|done].
Qed.

(** [serve] without the message. *)
Definition served (before after : list activity) : M CacheServer.state unit :=
  start hash last ;;
  on_build (on_snd may_alloc) ;;
  act_all hash before ;;
  on_build wait_for_signal ;;
  request_stop ;;
  act_all hash after ;;
  join hash last.

Lemma bind_inv {S A B} (f : M S A) (k : A -> M S B) s b s' :
  bind f k s = (Ret b, s') -> exists a s1, f s = (Ret a, s1) /\ k a s1 = (Ret b, s').
Proof. unfold bind. destruct (f s) as [[a|x|] s1]; [by eauto|done|done]. Qed.

Lemma on_snd_inv {L T A} (f : M T A) (l : L) s a s' :
  on_snd f (l, s) = (Ret a, s') -> exists t, f s = (Ret a, t) /\ s' = (l, t).
Proof. unfold on_snd. cbn [fst snd]. destruct (f s) as [r t]. intros [= -> <-]. by exists t. Qed.

Lemma on_fst_inv {L T A} (f : M L A) (l : L) (t : T) a s' :
  on_fst f (l, t) = (Ret a, s') -> exists l', s' = (l', t).
Proof. unfold on_fst. cbn [fst snd]. destruct (f l) as [r l']. intros [= -> <-]. by exists l'. Qed.

Lemma serve_served before after lg s s' :
  serve hash last before after (lg, s) = (Ret tt, s') -> served before after s = (Ret tt, s'.2).
Proof.
  unfold serve, served. intros H.
  apply bind_inv in H as ([] & ? & (s1 & E1 & ->)%on_snd_inv & H). rewrite (bind_run _ _ _ _ _ E1).
  apply bind_inv in H as (? & ? & (? & [= <- <-] & ->)%on_snd_inv & H).
  apply bind_inv in H as ([] & ? & (s2 & E2 & ->)%on_snd_inv & H). rewrite (bind_run _ _ _ _ _ E2).
  apply bind_inv in H as ([] & ? & (lg' & ->)%on_fst_inv & H).
  apply bind_inv in H as ([] & ? & (s3 & E3 & ->)%on_snd_inv & H). rewrite (bind_run _ _ _ _ _ E3).
  apply bind_inv in H as ([] & ? & (s4 & E4 & ->)%on_snd_inv & H). rewrite (bind_run _ _ _ _ _ E4).
  apply bind_inv in H as ([] & ? & (s5 & E5 & ->)%on_snd_inv & H). rewrite (bind_run _ _ _ _ _ E5).
  apply bind_inv in H as ([] & ? & (s6 & E6 & ->)%on_snd_inv & H). rewrite (bind_run _ _ _ _ _ E6).
  by apply on_snd_inv in H as (s7 & E7 & ->).
Qed.

(** How a run of the server ends. *)
Definition run_done (cap : Z) fds opened level text (before after : list activity) (s : CacheServer.state)
    (s' : Logger.t * CacheServer.state) : Prop :=
  serving cap fds opened s'.2 /\ exists e srv b line, served before after s = (Ret tt, (srv, (e, b))) /\
    final_metrics cap e line /\ s'.1 = logged level [text; line; stopped].

Definition run_failed (cap : Z) fds opened level text (calls_ok : Prop) (x : exn)
    (s' : Logger.t * CacheServer.state) : Prop :=
  serving cap fds opened s'.2 /\ (setup_exn x \/ x = thread_error) /\ (s'.1 = logged level [] \/ s'.1 = logged level [text]) /\
  (calls_ok -> x = bad_alloc /\ s'.1 = logged level [text]).

Lemma program_serve_wp cap fds opened level before after srv e o m :
  serving cap fds opened (srv, (e, (o, m))) -> ever_started_ srv = false ->
  wp (serve hash last before after) (logged level [], (srv, (e, (o, m)))) (post
    (fun _ s' => serving cap fds opened s'.2 /\ s'.1 = logged level [startup srv e])
    (run_failed cap fds opened level (startup srv e) (Os.calls o = [] /\ quiet m))).
Proof.
  intros Hs Hev. unfold serve.
  eapply wp_bind, wp_on_snd, wp_mono; [by apply start_serving|]. intros [[]|x|] s1; [..|done]; cbn [post]; cycle 1.
  { intros (H1 & Hx & Hc). split_and!; [done|done|by left|]. by intros [? _]. }
  intros (H1 & srv1 & o1 & -> & Hst & C1). apply wp_bind, wp_on_snd, wp_read. cbn beta iota. cbn [fst snd].
  rewrite (startup_started srv srv1 e Hst). apply wp_bind. eapply text_wp; [exact H1|]. intros s2 H2 E2.
  split; cbn beta iota; cycle 1.
  { intros Hq. split_and!; [done|by left; left|by left|]. by intros [_ ?]. }
  apply wp_bind, log_info_wp. cbn beta iota. cbn [app]. set (text := startup srv e). cbn [fst snd] in E2.
  apply wp_bind, wp_on_snd. eapply wp_mono; [by apply (act_all_wp cap fds opened)|]. intros [[]|x|] s3; [..|done|done].
  intros [[H3 _] C3]. rewrite E2 in C3.
  apply wp_bind, wp_on_snd. eapply wp_mono; [by apply wait_serving|]. intros [[]|x|] s4; [..|done]; cycle 1.
  { intros (H4 & Hx & C4). split_and!; [done|by left|by right|]. intros [? _]. destruct C4. rewrite C3. by apply C1. }
  intros [H4 _]. apply wp_bind, wp_on_snd. eapply wp_mono; [by apply request_stop_serving|]. intros [[]|x|] s5; [|done..]. intros [H5 S5].
  apply wp_bind, wp_on_snd. eapply wp_mono; [by apply (act_all_wp cap fds opened)|]. intros [[]|x|] s6; [|done..]. intros [[H6 S6] _].
  apply wp_on_snd. eapply wp_mono; [apply join_serving; [done|congruence]|]. intros [[]|x|] s7; [|done..]. intros H7. by split.
Qed.

Lemma run_server_wp cap fds opened level before after srv e o m :
  serving cap fds opened (srv, (e, (o, m))) -> ever_started_ srv = false ->
  wp (run_server hash last before after) (logged level [], (srv, (e, (o, m)))) (post
    (fun _ => run_done cap fds opened level (startup srv e) before after (srv, (e, (o, m))))
    (run_failed cap fds opened level (startup srv e) (Os.calls o = [] /\ quiet m))).
Proof.
  intros Hs Hev. pose proof (program_serve_wp cap fds opened level before after srv e o m Hs Hev) as Hserve.
  pose proof (serve_served before after (logged level []) (srv, (e, (o, m)))) as Hsame.
  unfold run_server. apply wp_bind. unfold wp in Hserve. unfold wp at 1.
  destruct (serve _ _ _ _ _) as [[[]|x|] [lg7 s7]]; [|exact Hserve|done]. cbn [post fst snd] in Hserve |- *.
  destruct Hserve as [H7 ->]. specialize (Hsame _ eq_refl). cbn [fst snd] in *.
  destruct s7 as [srv7 [e7 b7]]. pose proof H7 as ((Hok & _) & _). destruct (sv_engine _ _ _ _ _ Hok) as [ls He].
  destruct (engine_totals_exact hash cap _ ls He) as (T1 & T2 & T3 & _ & a & T4 & T5). cbn [fst snd] in *.
  apply wp_bind. eapply on_engine_run; [exact T4|]. apply wp_bind. eapply on_engine_run; [exact T3|].
  apply wp_bind. eapply on_engine_run; [exact T1|]. apply wp_bind. eapply text_wp; [exact H7|]. intros s8 H8 _.
  split; cbn beta iota; cycle 1. { intros _. split_and!; [done|by left; left|by right|done]. }
  apply wp_bind, log_info_wp. cbn beta iota. cbn [app]. apply log_info_wp. split; [done|].
  eexists e7, srv7, b7, _. split; [exact Hsame|]. split; [|done]. by exists ls, a.
Qed.

(** ** The configured program *)

(** A configuration that [Config] can return. *)
Definition config_ok (c : Config.t) : Prop :=
  0 <= Config.port c <= 65535 /\ 1 <= Config.worker_threads c <= 1024 /\
  1 <= Config.shard_count c <= 1024 /\ 1 <= Config.cache_capacity_bytes c <= u64_max.

(** The line that reports configuration [c] on port [p]. *)
Definition startup_of (c : Config.t) (p : Z) : bytes :=
  lit "HighCache listening on " ++ Config.host c ++ lit ":" ++ to_decimal p ++ lit " with " ++
  to_decimal (Config.worker_threads c) ++ lit " workers, " ++ to_decimal (Config.shard_count c) ++
  lit " cache shards, and " ++ backend_to_string (Config.allocator_backend c) ++ lit " value allocation".

Variable inet_pton : bytes -> Z.
Variable schedule : Z -> list bool.
Variable ctl : nat -> list bool.
Variables before after : list activity.

(** [e] is the engine that started as [e0], after a server on it has served. *)
Definition served_by (c : Config.t) (e0 e : CacheEngine.t) (s : build) : Prop :=
  exists srv b srv' b', make inet_pton ctl (options_of c) s = (Ret srv, b) /\
    served before after (srv, (e0, b)) = (Ret tt, (srv', (e, b'))).

(** [e] is the engine of the program when the threads of its server have ended. *)
Definition final_engine (c : Config.t) (o : Os.t) (m : env) (e : CacheEngine.t) : Prop :=
  exists o1 m1 e0 m2, block_shutdown_signals (o, m) = (Ret tt, (o1, m1)) /\
    CacheEngine.create (Config.cache_capacity_bytes c) (Config.shard_count c) (Config.allocator_backend c) schedule m1 = (Ret e0, m2) /\
    served_by c e0 e (o1, m2).

(** Why a configured server does not come up, or does not go on. *)
Definition stopped_by (c : Config.t) (x : exn) : Prop :=
  setup_exn x \/ x = thread_error \/
  inet_pton (Config.host c) <> 1 /\ x = invalid (lit "server host must be an IPv4 address").

Definition program_done (c : Config.t) (o : Os.t) (is_final : CacheEngine.t -> Prop) (lg : Logger.t) : Prop :=
  inet_pton (Config.host c) = 1 /\ exists e line, is_final e /\ final_metrics (Config.cache_capacity_bytes c) e line /\
  lg = logged (Config.log_level c) [startup_of c (chosen_port (Config.port c) o); line; stopped].

(** Nothing fails until the server runs: then only memory can run out. *)
Definition well_supplied (c : Config.t) (o : Os.t) (m : env) : Prop :=
  supplied (4 + 2 * Z.to_nat (Config.worker_threads c)) (o, m) /\ inet_pton (Config.host c) = 1.

Definition program_failed (c : Config.t) (o : Os.t) (m : env) (x : exn) (lg : Logger.t) : Prop :=
  stopped_by c x /\ (lg = logged (Config.log_level c) [] \/
    lg = logged (Config.log_level c) [startup_of c (chosen_port (Config.port c) o)]) /\
  (well_supplied c o m -> x = bad_alloc /\ lg = logged (Config.log_level c) [startup_of c (chosen_port (Config.port c) o)]).

Lemma startup_created c o srv e s' :
  config_ok c -> created inet_pton o (options_of c) srv s' ->
  CacheEngine.shard_count e = Config.shard_count c -> CacheEngine.allocator_backend e = Config.allocator_backend c ->
  startup srv e = startup_of c (chosen_port (Config.port c) o).
Proof.
  intros (_ & Hw & _) (_ & _ & (Ho & _ & Hl & _) & Hp & _) Hs Hb. unfold startup, startup_of, server_host, worker_count.
  rewrite Hp, Hs, Hb, Ho, Hl. cbn [options_of host port worker_threads]. by rewrite Z2Nat.id by lia.
Qed.

Lemma created_serving cap c o srv e ls o1 m1 :
  config_ok c -> created inet_pton o (options_of c) srv (o1, m1) -> engine_holds hash cap e ls ->
  serving cap (server_fds srv) (Os.opened o1) (srv, (e, (o1, m1))) /\ ever_started_ srv = false /\
  Os.opened o1 ∖ list_to_set (server_fds srv) = Os.opened o.
Proof.
  intros Hc Hcr He. split_and!.
  - split_and!; [|done|done]. apply made_good. exists inet_pton, o, (options_of c), ls. cbn [fst snd].
    split; [exact Hcr|]. destruct Hc as (_ & Hw & _). cbn [options_of pending_output_limit worker_threads default_options].
    split; [lia|]. split; [lia|exact He].
  - by destruct Hcr as (_ & _ & (_ & _ & _ & _ & ? & _) & _).
  - destruct Hcr as (_ & (_ & Hop & _ & Hd & _) & _). cbn [fst] in Hop. rewrite Hop. apply set_eq. intros fd.
    rewrite elem_of_difference, elem_of_union, elem_of_list_to_set. split; [tauto|]. intros Hin. split; [by right|].
    intros Hf. by destruct (Hd fd Hf).
Qed.

Lemma with_server_wp c o m e ls :
  config_ok c -> fresh_opens o -> 0 <= Os.assigned o < 65536 ->
  engine_holds hash (Config.cache_capacity_bytes c) e ls ->
  CacheEngine.shard_count e = Config.shard_count c -> CacheEngine.allocator_backend e = Config.allocator_backend c ->
  wp (with_server hash inet_pton ctl last before after c) (logged (Config.log_level c) [], (e, (o, m))) (post
    (fun _ s' => Os.opened s'.2.2.1 = Os.opened o /\ (exists ls', engine_holds hash (Config.cache_capacity_bytes c) s'.2.1 ls') /\
       program_done c o (fun e' => served_by c e e' (o, m)) s'.1)
    (fun x s' => Os.opened s'.2.2.1 = Os.opened o /\ (exists ls', engine_holds hash (Config.cache_capacity_bytes c) s'.2.1 ls') /\
       program_failed c o m x s'.1)).
Proof.
  intros Hc Hf Ha He Hsc Hb. unfold with_server. pose proof Hc as (Hport & Hwt & _).
  pose proof (server_make_wp inet_pton ctl o (options_of c) m ltac:(cbn [options_of port]; lia) Ha Hf) as Hnew.
  assert (well_supplied c o m -> match make inet_pton ctl (options_of c) (o, m) with
    (Ret _, s') => supplied 0 s' | (Throw _, _) => False | _ => True end) as Hcalm.
  { intros [Hsup Hin]. apply (make_calm inet_pton ctl (options_of c)); [cbn [options_of worker_threads]; lia|by vm_compute|exact Hin|exact Hsup]. }
  apply wp_bind, wp_on_snd, wp_on_snd. unfold wp at 1. unfold wp in Hnew.
  destruct (make _ _ _ _) as [[srv|x|] [o1 m1]] eqn:Hmk; [..|done]; cbn [post fst snd] in *; cycle 1.
  { destruct Hnew as ((_ & Hop & _) & Hx). cbn [fst snd] in *. split_and!; [rewrite Hop; set_solver|by eexists|].
    split; [|split; [by left|by intros ?%Hcalm]]. destruct Hx as [->|Hx]; [by left; left|]. unfold create_refused in Hx.
    cbn [options_of worker_threads pending_output_limit default_options] in Hx. rewrite (proj2 (Z.eqb_neq _ 0)) in Hx by lia.
    change (4 * 1024 * 1024 <? Protocol.response_header_size) with false in Hx.
    destruct Hx as [Hx|Hx]; [by left|by right; right]. }
  rename Hnew into Hcr. destruct (created_serving _ c o srv e ls o1 m1 Hc Hcr He) as (Hs & Hev & Hfd).
  apply wp_local. cbn [fst snd].
  assert (forall (lg : Logger.t) s, serving (Config.cache_capacity_bytes c) (server_fds srv) (Os.opened o1) s ->
    wp (on_snd (CacheServer.destroy hash last)) (lg, s) (post (fun _ s' => (Os.opened s'.2.2.2.1 = Os.opened o /\
      exists ls', engine_holds hash (Config.cache_capacity_bytes c) s'.2.2.1 ls') /\ s'.1 = lg) (fun _ _ => False))) as Hdes.
  { intros lg s Hsv. apply wp_on_snd. eapply wp_mono; [by eapply destroy_serving|]. intros [[]|x|] s'; [|done..].
    intros [H1 H2]. cbn [post fst snd]. split_and!; [by rewrite H1|done|done]. }
  set (freed := fun (s' : Logger.t * CacheServer.state) => Os.opened s'.2.2.2.1 = Os.opened o /\
    exists ls', engine_holds hash (Config.cache_capacity_bytes c) s'.2.2.1 ls') in *.
  eapply wp_mono; [eapply (wp_finally _ _ _ _ (fun _ s' => freed s' /\ exists e' srv' b' line, served before after (srv, (e, (o1, m1))) = (Ret tt, (srv', (e', b'))) /\
      final_metrics (Config.cache_capacity_bytes c) e' line /\ s'.1 = logged (Config.log_level c) [startup srv e; line; stopped])
    _ (fun x s' => freed s' /\ (setup_exn x \/ x = thread_error) /\ (s'.1 = logged (Config.log_level c) [] \/
      s'.1 = logged (Config.log_level c) [startup srv e]) /\
      (Os.calls o1 = [] /\ quiet m1 -> x = bad_alloc /\ s'.1 = logged (Config.log_level c) [startup srv e]))); [by apply run_server_wp|..]|].
  - intros [] [lg s] (Hsv & Hl). eapply wp_post_mono; [by apply Hdes| |done]. intros [] s' [H1 H2]. cbn [fst] in *.
    rewrite <- H2 in Hl. exact (conj H1 Hl).
  - intros x [lg s] (Hsv & Hl). eapply wp_post_mono; [by apply Hdes| |done]. intros [] s' [H1 H2]. cbn [fst] in *.
    rewrite <- H2 in Hl. exact (conj H1 Hl).
  - rewrite (startup_created c o srv e _ Hc Hcr Hsc Hb). intros [[]|x|] s'; [..|done]; cbn [post fst snd].
    + intros ((H1 & H2) & e' & srv' & b' & line & Hsd & H3 & H4). split_and!; [done|done|]. split; [apply Hcr|].
      exists e', line. split_and!; [|done|done]. by exists srv, (o1, m1), srv', b'.
    + intros ((H1 & H2) & Hx & H3 & H4). split_and!; [done|done|]. split; [unfold stopped_by; tauto|]. split; [done|].
      intros (Hc1 & Hq1 & _)%Hcalm. by apply H4.
Qed.

Lemma signal_call_leaves o s (what : bytes) :
  leaves o [] s ->
  wp (b <- on_fst Os.call ;; if b : bool then ret tt else error network what) s (post
    (fun _ s' => leaves o [] s') (fun x s' => leaves o [] s' /\ setup_exn x)).
Proof.
  intros Hl. destruct s as [o1 m1]. apply wp_bind, wp_on_fst. unfold wp, Os.call.
  destruct (Os.calls o1) as [|[] fs]; cbn [fst snd negb]; [done| |done]. split; [done|]. right. by eexists.
Qed.

Lemma block_signals_wp o s :
  leaves o [] s ->
  wp block_shutdown_signals s (post (fun _ s' => leaves o [] s') (fun x s' => leaves o [] s' /\ setup_exn x)).
Proof.
  intros Hl. unfold block_shutdown_signals, prepare.
  do 3 (eapply wp_bind_post; [by apply signal_call_leaves| |done]; intros [] ? ?).
  by apply signal_call_leaves.
Qed.

Lemma signal_call_calm n (what : bytes) :
  calm (supplied n) (b <- on_fst Os.call ;; if b : bool then ret tt else error network what) (supplied n).
Proof. intros [o m] Hs. pose proof Hs as (H1 & _). unfold bind, on_fst, Os.call. cbn [fst snd] in *. by rewrite H1. Qed.

Lemma block_signals_calm n : calm (supplied n) block_shutdown_signals (supplied n).
Proof.
  unfold block_shutdown_signals, prepare. do 3 (eapply calm_bind; [apply signal_call_calm|]; intros []). apply signal_call_calm.
Qed.

Lemma create_engine_calm cap n backend sched : 0 < n -> calm quiet (CacheEngine.create cap n backend sched) quiet.
Proof.
  intros Hn. unfold CacheEngine.create. rewrite (proj2 (Z.eqb_neq n 0)) by lia.
  assert (calm quiet may_alloc quiet) as Hma by (intros [h fs] Hq; unfold quiet in Hq; simpl in Hq; by subst).
  eapply calm_bind; [exact Hma|]. intros []. eapply calm_bind; [|intros ?; apply calm_ret].
  generalize 0 as i. induction (Z.to_nat n) as [|k IH]; intros i; cbn [CacheEngine.make_shards]; [apply calm_ret|].
  eapply calm_bind; [exact Hma|]. intros []. eapply calm_bind; [apply IH|]. intros ?. apply calm_ret.
Qed.

Lemma engine_block_wp c o m e0 shards ls :
  config_ok c -> fresh_opens o -> 0 <= Os.assigned o < 65536 ->
  engine_holds hash (Config.cache_capacity_bytes c) e0 ls ->
  CacheEngine.shard_count e0 = Config.shard_count c -> CacheEngine.allocator_backend e0 = Config.allocator_backend c ->
  wp (local_engine e0 (finally (with_server hash inet_pton ctl last before after c) (on_snd (on_fst CacheEngine.destroy))))
    (logged (Config.log_level c) [], (shards, (o, m))) (post
    (fun _ s' => (Os.opened s'.2.2.1 = Os.opened o /\ Forall shard_freed s'.2.1) /\ program_done c o (fun e' => served_by c e0 e' (o, m)) s'.1)
    (fun x s' => (Os.opened s'.2.2.1 = Os.opened o /\ Forall shard_freed s'.2.1) /\ program_failed c o m x s'.1)).
Proof.
  intros Hc Hf Ha He Hsc Hb. apply wp_local_engine.
  assert (forall (lg : Logger.t) (s : CacheEngine.t * build), (exists ls, engine_holds hash (Config.cache_capacity_bytes c) s.1 ls) ->
    wp (on_snd (on_fst CacheEngine.destroy)) (lg, s) (post (fun _ s' => s'.1 = lg /\ s'.2.2 = s.2 /\
      Forall shard_freed (CacheEngine.shards_ s'.2.1)) (fun _ _ => False))) as Hdes.
  { intros lg [e1 b] [ls1 Hls]. apply wp_on_snd, wp_on_fst. eapply wp_mono; [by eapply engine_destroy_wp|]. by intros [[]|x|] e'. }
  eapply wp_mono; [eapply (wp_finally _ _ _ _
      (fun _ s' => (Os.opened s'.2.2.1 = Os.opened o /\ Forall shard_freed (CacheEngine.shards_ s'.2.1)) /\
        program_done c o (fun e' => served_by c e0 e' (o, m)) s'.1)
    _ (fun x s' => (Os.opened s'.2.2.1 = Os.opened o /\ Forall shard_freed (CacheEngine.shards_ s'.2.1)) /\ program_failed c o m x s'.1));
    [by eapply with_server_wp|..]|].
  - intros [] [lg s] (H1 & H2 & H3). eapply wp_post_mono; [by apply Hdes| |done].
    intros [] [lg' [e' b']] (E1 & E2 & E3). cbn [fst snd] in *. by subst.
  - intros x [lg s] (H1 & H2 & H3). eapply wp_post_mono; [by apply Hdes| |done].
    intros [] [lg' [e' b']] (E1 & E2 & E3). cbn [fst snd] in *. by subst.
  - intros [[]|x|] s'; [done|done|done].
Qed.

Lemma with_engine_wp c o m :
  config_ok c -> fresh_opens o -> 0 <= Os.assigned o < 65536 ->
  wp (with_engine hash inet_pton schedule ctl last before after c) (logged (Config.log_level c) [], ([], (o, m))) (post
    (fun _ s' => (Os.opened s'.2.2.1 = Os.opened o /\ Forall shard_freed s'.2.1) /\ program_done c o (final_engine c o m) s'.1)
    (fun x s' => (Os.opened s'.2.2.1 = Os.opened o /\ Forall shard_freed s'.2.1) /\ program_failed c o m x s'.1)).
Proof.
  intros Hc Hf Ha. unfold with_engine. set (n := (4 + 2 * Z.to_nat (Config.worker_threads c))%nat).
  assert (forall x s', leaves o [] s' -> setup_exn x -> ~ well_supplied c o m ->
    (Os.opened s'.1 = Os.opened o /\ Forall shard_freed []) /\ program_failed c o m x (logged (Config.log_level c) [])) as Hfail.
  { intros x s' (_ & Hop & _) Hx Hn. split; [split; [rewrite Hop; set_solver|constructor]|]. split; [by left|]. split; [by left|done]. }
  pose proof (block_signals_wp o (o, m) (leaves_start o m Hf)) as Hblock. pose proof (block_signals_calm n (o, m)) as Hbc.
  apply wp_bind, wp_on_snd, wp_on_snd. unfold wp at 1. unfold wp in Hblock.
  destruct (block_shutdown_signals (o, m)) as [[[]|x|] [o1 m1]] eqn:Hsig; [..|done]; cbn [fst snd post] in *;
    [rename Hblock into Hl|destruct Hblock; apply (Hfail _ (o1, m1)); [done|done|by intros [? _]; apply Hbc]].
  pose proof Hc as (_ & _ & Hsh & Hcap). unfold u64_max in Hcap. apply wp_bind, wp_on_snd, wp_on_snd, wp_on_snd.
  pose proof (create_engine_wp hash (Config.cache_capacity_bytes c) (Config.shard_count c) (Config.allocator_backend c) schedule m1
    ltac:(lia) ltac:(lia)) as Hnew.
  pose proof (create_engine_calm (Config.cache_capacity_bytes c) (Config.shard_count c) (Config.allocator_backend c) schedule
    ltac:(lia) m1) as Hec.
  assert (well_supplied c o m -> quiet m1) as Hq1 by (by intros [(_ & Hq & _)%Hbc _]).
  unfold wp at 1. unfold wp in Hnew. destruct (CacheEngine.create _ _ _ _ m1) as [[e|x|] m2] eqn:Hmake; [..|done]; cbn [fst snd post] in *;
    [destruct Hnew as (He & Hsc & Hb)|subst; apply (Hfail _ (o1, m1)); [done|by left|by intros ?%Hq1%Hec]].
  assert (well_supplied c o m -> well_supplied c o1 m2) as Hsup.
  { intros Hw. destruct (Hbc (proj1 Hw)) as (B1 & _ & B2). split; [|apply Hw]. split_and!; [exact B1|by apply Hec, Hq1|exact B2]. }
  destruct Hl as (Hf1 & Hop & _ & _ & Has). cbn [fst snd] in *. rewrite list_to_set_nil, union_empty_l_L in Hop.
  assert (chosen_port (Config.port c) o1 = chosen_port (Config.port c) o) as Hport by (unfold chosen_port; by rewrite Has).
  eapply wp_post_mono; [eapply engine_block_wp; [done|done|by rewrite Has|exact He|done|done]|..].
  - intros [] s' [[H1 H2] (H3 & e' & line & H4 & H5 & H6)]. rewrite Hop in H1. rewrite Hport in H6. split; [done|]. split; [done|].
    exists e', line. split_and!; [|done|done]. by exists o1, m1, e, m2.
  - unfold program_failed. rewrite Hport, Hop. intros x s' (H1 & H2 & H3 & H4). by split_and!; [apply H1..|done|done|auto].
Qed.

(** ** [main] *)

Variable open_file : bytes -> option (bytes * bool).

Lemma init_config_ok : config_ok Config.init.
Proof. unfold config_ok, u64_max. vm_compute. intuition discriminate. Qed.

(** The configurations [configure] returns are usable. *)
Lemma configure_ok argv c : configure open_file argv = Ret c -> config_ok c.
Proof.
  unfold configure. destruct argv as [|a [|path [|b argv]]]; try (intros [= <-]; exact init_config_ok).
  unfold Config.from_file. destruct (open_file path) as [[text []]|]; cbn [fmap option_fmap option_map fst snd]; [..|done].
  - intros H. pose proof (broken_stream_total path text) as Ht. rewrite H in Ht. done.
  - rewrite from_stream_lines.
    destruct (process_lines_cases path (text_lines text) 0 []) as [[Hok Hp]|(i & d & Hi & Hok & Hbad & Hp)];
      [constructor|change (progress_of []) with Config.start in Hp; rewrite Hp..]; [|done].
    intros [= <-]. apply config_of_ranges.
Qed.

Lemma configure_defined argv : configure open_file argv <> Undefined.
Proof.
  unfold configure. destruct argv as [|a [|path [|b argv]]]; try done.
  unfold Config.from_file. destruct (open_file path) as [[text []]|]; cbn [fmap option_fmap option_map fst snd]; [..|done].
  - intros H. pose proof (broken_stream_total path text) as Ht. by rewrite H in Ht.
  - rewrite from_stream_lines.
    destruct (process_lines_cases path (text_lines text) 0 []) as [[Hok Hp]|(i & d & Hi & Hok & Hbad & Hp)];
      [constructor|change (progress_of []) with Config.start in Hp; rewrite Hp..]; done.
Qed.

End main.
