(* ===== verification/ServerTheorems.v ===== *)
(** * What the server guarantees

    The server and all its workers: construction, threads started and stopped,
    sockets accepted and dealt, the engine aged by the timer, and shutdown. *)
From S2P Require Import Prelude ErrorModel Effects MemoryModel ProgressFacts BufferModel ProtocolModel LruSpec.
From S2P Require Import CacheEngineModel CacheEngineFacts EngineTheorems ConnectionModel ConnectionFacts.
From S2P Require Import WorkerModel WorkerFacts WorkerInstallFacts WorkerRunFacts.
From S2P Require Import ServerModel ServerFacts ServerRunFacts ServerStartFacts ServerAcceptFacts ServerSystemFacts.
From S2P Require Import SampleStates.
Import Memory.
Import CacheServer.

(** ** Construction *)

(** C15: the constructor opens everything or nothing. Options with no workers, with an
    output limit below a response header, or with a host that is not an IPv4 address
    are refused with [invalid_argument]; if any system call or allocation fails, it
    throws and every descriptor it had opened is closed again. Otherwise the server
    owns exactly its own descriptors, all distinct, the acceptor is registered for
    the three it waits on, it listens on the port asked for (or the one the system
    chose for port 0), the stop event is not set, and there are as many idle workers as
    asked for. *)
Theorem server_create_correct inet_pton ctl o options e :
  0 <= port options < 65536 -> 0 <= Os.assigned o < 65536 -> fresh_opens o ->
  wp (create inet_pton ctl options) (o, e)
    (post (created inet_pton o options) (fun x s' => leaves o [] s' /\ create_refused inet_pton options x)).
Proof. apply server_create_wp. Qed.

Section server.
Variable hash : bytes -> Z.

(** ** The acceptor *)

(** C31: the timer ages the whole engine: when [read] reports [n] expirations, every
    item of every shard has [n] seconds less to live afterwards, provided no
    allocation fails. If a tick throws, the rest of the expirations is dropped:
    some shards have aged once more than the others, and the acceptor goes on. *)
Theorem server_timer_ages cap results srv e o m ls :
  engine_holds hash cap e ls ->
  wp (handle_timer results) (srv, (e, (o, m)))
    (post (fun _ => ticked hash cap (expirations results) srv e o m ls) (fun _ _ => False)).
Proof. apply handle_timer_wp. Qed.


(** C30: accepted sockets are dealt to the workers in turn: if nothing fails and no stop
    was requested, worker [j] of [n] gets exactly the sockets whose turn number is
    [j] modulo [n], in the order they were accepted, behind those already queued;
    interrupted and aborted calls of [accept4] are retried. *)
Theorem server_deals_in_turn cap results srv e o m :
  server_ok hash cap srv e o -> NoDup (taken results) -> (forall fd, fd ∈ taken results -> free_fd fd srv) -> dealing srv m ->
  exists srv' m', accept_connections results (srv, (e, (o, m))) = (Ret tt, (srv', (e, (o, m')))) /\
    server_ok hash cap srv' e o /\ next_worker_ srv' = u64 (next_worker_ srv + zlen (taken results)) /\
    forall j w, workers_ srv !! j = Some w -> exists w', workers_ srv' !! j = Some w' /\
      Worker.pending_ (worker_ w') = Worker.pending_ (worker_ w) ++
        (UniqueFd.MkUniqueFd <$> deal (zlen (workers_ srv)) (next_worker_ srv) (taken results) (Z.of_nat j)).
Proof.
  intros Hok Hnd Hfree Hd. destruct (wp_run _ _ _ _ (accept_connections_wp hash cap results srv e o m Hok Hnd Hfree))
    as [([] & s' & H & srv' & m' & -> & H1 & _ & _ & _ & H2 & H3)|(x & s' & _ & [])].
  exists srv', m'. split_and!; [done|done|by apply H2|]. intros j w Hj. destruct (H3 j w Hj) as (w' & G1 & _ & G2).
  exists w'. auto.
Qed.

(** ** The life of the server *)

(** C9: in every state the server can reach, whatever its threads' calls of
    [epoll_wait] returned, failures included, and whatever calls of [epoll_ctl] and
    allocations failed: every worker is consistent and its sockets are those of its queue
    and its connections; no descriptor is owned by two workers or by a worker and the
    server; all descriptors of the server are open and distinct. A worker in its loop has
    been told of the sockets that wait for it and of a request to stop, and so has the
    acceptor. While the acceptor is in its loop no worker has been joined; a worker whose
    thread has left [run], or was not started, has no connections. If no call of
    [epoll_wait] fails (with an error other than [EINTR]), such a worker has no sockets at
    all, and a thread that has left [run] was asked to. *)
Theorem server_invariant cap unbroken s s' :
  server_made hash cap s -> server_reaches hash cap unbroken s s' ->
  server_ok hash cap s'.1 s'.2.1 s'.2.2.1 /\ settled unbroken s'.1 /\ alert s'.1 s'.2.2.1.
Proof. apply server_reaches_good. Qed.

(** C29: [start] starts everything or nothing. Once per server: a second call throws
    [invalid_argument] and changes nothing. When it returns, the timer is armed for
    every second, every worker and the acceptor run and [running] holds; when it
    throws because the timer or a thread could not be had, the threads it had
    started have been stopped and joined, and the engine is unchanged unless a worker
    had connections. *)
Theorem server_start_all_or_nothing last cap srv e o m :
  server_ok hash cap srv e o ->
  wp (start hash last) (srv, (e, (o, m))) (post
    (fun _ s' => exists srv' o', s' = (srv', (e, (o', m))) /\ server_ok hash cap srv' e o' /\ server_started srv srv' /\
       Os.opened o' = Os.opened o /\ Os.armed o' = Some (1, 1) /\ Os.signals o' = Os.signals o)
    (fun x s' => exists srv' e' o' m', s' = (srv', (e', (o', m'))) /\ server_ok hash cap srv' e' o' /\ start_undone srv srv' /\
       Os.opened o' = Os.opened o /\ Os.signals o' = Os.signals o /\ (idle srv -> e' = e) /\
       (ever_started_ srv = true -> s' = (srv, (e, (o, m))) /\ x = invalid (lit "cache server can only be started once")) /\
       (ever_started_ srv = false -> setup_exn x \/ x = thread_error))).
Proof. apply start_wp. Qed.

(** What [join] leaves of the worker [w], which was in its loop or not. *)
Definition worker_joined (unbroken : bool) (w w' : slot) : Prop :=
  thread_ w' = no_thread /\ Worker.connections_ (worker_ w') = ∅ /\
  (thread_ w = a_thread \/ unbroken = true -> Kernel.sockets (kernel_ w') = ∅) /\
  (thread_ w <> a_thread -> Kernel.sockets (kernel_ w') = Kernel.sockets (kernel_ w) /\
     Worker.pending_ (worker_ w') = Worker.pending_ (worker_ w)).

(** C20: [join] after [request_stop] returns, from every state the server can reach and
    however the calls of [epoll_wait] end in which the threads are: the stop event wakes
    the acceptor, and each worker's wake-up event wakes the worker, which then finds that
    it is to stop. No thread is left, [running] is false and every connection is closed;
    a worker that was in its loop has closed the sockets in its queue too. A worker that
    had left its loop before keeps the sockets that were queued since; there are none if
    no call of [epoll_wait] failed. *)
Theorem server_join_returns last cap unbroken s s' :
  server_made hash cap s -> server_reaches hash cap unbroken s s' ->
  exists s'', (request_stop ;; join hash last) s' = (Ret tt, s'') /\ running_ s''.1 = false /\ acceptor_thread_ s''.1 = no_thread /\
    server_fds s''.1 = server_fds s'.1 /\ Os.opened s''.2.2.1 = Os.opened s'.2.2.1 /\
    length (workers_ s''.1) = length (workers_ s'.1) /\
    forall j w, workers_ s'.1 !! j = Some w -> exists w', workers_ s''.1 !! j = Some w' /\ worker_joined unbroken w w'.
Proof.
  intros Hm Hr. pose proof (server_reaches_good _ _ _ _ _ Hm Hr) as Hg. destruct s' as [srv [e [o m]]].
  pose proof (request_stop_good hash cap unbroken srv e o m Hg) as H1. unfold wp in H1. unfold bind.
  destruct (request_stop (srv, (e, (o, m)))) as [[[]|x|] s1]; cbn [fst snd post] in H1; [|done|done].
  destruct H1 as (Hg1 & o1 & -> & Ho1).
  destruct (wp_run _ _ _ _ (join_good hash last cap unbroken _ _ _ _ Hg1 ltac:(done))) as [([] & s2 & H2 & Hg2 & Hj)|(x & s2 & _ & [])].
  destruct Hj as (srv2 & e2 & o2 & m2 & -> & _ & J1 & J2 & J3 & _ & _ & J4 & J5 & _ & _ & J6).
  eexists. split; [exact H2|]. cbn [fst snd] in *. split_and!; [exact J2|exact J1|exact J3|congruence|exact J4|].
  intros j w Hw. destruct (J6 j w Hw) as (w' & Hw' & (Q1 & _ & _ & Q2 & Q3)). exists w'. split; [done|].
  destruct Hg2 as (_ & Hs2 & _). destruct (Hs2 j w' Hw') as [_ _ W3 W4 _]. rewrite Q1 in W3, W4. split_and!; [done|by apply W3|..].
  - intros [Ht|Hu]; [by apply Q2|by apply W4].
  - intros Ht. destruct (Q3 Ht) as [E1 E2]. by rewrite E2.
Qed.

(** C19: destroying the server, in whatever state it is, leaks nothing and closes
    nothing twice: the threads end, every socket of every worker closes, and of the
    descriptors open before exactly those of the server and its workers are closed. The
    engine is left consistent. *)
Theorem server_destroy_closes_all last cap unbroken s srv e o m :
  server_made hash cap s -> server_reaches hash cap unbroken s (srv, (e, (o, m))) ->
  exists srv' e' o' m' ls, destroy hash last (srv, (e, (o, m))) = (Ret tt, (srv', (e', (o', m')))) /\ engine_holds hash cap e' ls /\
    Os.opened o' = Os.opened o ∖ list_to_set (server_fds srv) /\ acceptor_thread_ srv' = no_thread /\
    forall j w, workers_ srv' !! j = Some w -> thread_ w = no_thread /\ Kernel.sockets (kernel_ w) = ∅.
Proof.
  intros Hm Hr. pose proof (server_reaches_good _ _ _ _ _ Hm Hr) as Hg.
  destruct (wp_run _ _ _ _ (server_destroy_wp hash last cap unbroken srv e o m Hg))
    as [([] & s' & H & srv' & e' & o' & m' & ls & -> & H1 & H2 & H3 & H4)|(x & s' & _ & [])].
  by exists srv', e', o', m', ls.
Qed.

(** In every state the server can reach, no operation goes wrong: the rounds of
    the acceptor and of the workers end without an exception, [request_stop] too, and
    [start] ends with success or an exception. *)
Theorem server_never_fails cap s srv e o m :
  server_made hash cap s -> server_reaches hash cap false s (srv, (e, (o, m))) ->
  (forall x, acceptor_thread_ srv = a_thread -> acceptable false srv x ->
    exists s', acceptor_round x (srv, (e, (o, m))) = (Ret tt, s')) /\
  (forall i w x, workers_ srv !! i = Some w -> thread_ w = a_thread ->
    exists s', worker_round hash i x (srv, (e, (o, m))) = (Ret tt, s')) /\
  (exists s', request_stop (srv, (e, (o, m))) = (Ret tt, s')) /\
  (forall last, exists r s', start hash last (srv, (e, (o, m))) = (r, s') /\ r <> Undefined).
Proof.
  intros Hm Hr. pose proof (server_reaches_good _ _ _ _ _ Hm Hr) as Hg. split_and!.
  - intros x Ha Hv. destruct (wp_run _ _ _ _ (acceptor_round_good hash cap false x srv e o m Hg Ha Hv)) as [([] & s' & H & _)|(y & s' & _ & [])].
    by exists s'.
  - intros i w x Hi Ht. destruct (wp_run _ _ _ _ (worker_round_good hash cap false i w x srv e o m Hg Hi Ht ltac:(done)))
      as [([] & s' & H & _)|(y & s' & _ & [])]. by exists s'.
  - destruct (wp_run _ _ _ _ (request_stop_good hash cap false srv e o m Hg)) as [([] & s' & H & _)|(x & s' & _ & [])]. by exists s'.
  - intros last. destruct (wp_run _ _ _ _ (start_good hash last cap false srv e o m Hg)) as [([] & s' & H & _)|(x & s' & H & _)]; by eexists _, _.
Qed.

End server.

(** Turns are fair: as long as the turn counter does not wrap around, no worker is
    given more than one socket more than another, whatever turn it starts from. *)
Theorem dealing_is_fair n next fds i j :
  0 < n -> 0 <= i < n -> 0 <= j < n -> 0 <= next -> next + zlen fds <= 2 ^ 64 ->
  zlen (deal n next fds i) <= zlen (deal n next fds j) + 1.
Proof.
  intros Hn Hi Hj Hx Hb. rewrite !deal_length by done.
  pose proof (below_fair n i next (zlen fds) Hn ltac:(lia)). pose proof (below_fair n j next (zlen fds) Hn ltac:(lia)). lia.
Qed.

(** ** Instances *)

(** Two workers on a port the system chooses; descriptors 0 to 2 are in use. *)
Definition sample_options : ServerOptions := MkServerOptions (lit "127.0.0.1") 0 2 4096.
Definition sample_os : Os.t := Os.MkOs {[0; 1; 2]} ∅ (Some <$> [3; 4; 5; 6; 7; 8; 9; 10]) [] 40000 None 0 (lit "error").
Definition any_address (host : bytes) : Z := 1.
Definition no_ctl (i : nat) : list bool := [].

(** The server the constructor makes of them, and the descriptors it has opened. *)
Definition sample_slot (epoll wakeup : Z) : slot :=
  MkSlot epoll (Worker.init 4096 wakeup) (Worker.init_kernel wakeup [] (lit "error")) no_thread.
Definition sample_server : t :=
  MkServer sample_options (MkListenSocket 3 40000) 4 5 6 [sample_slot 7 8; sample_slot 9 10] no_thread false false false 0.
Definition sample_opened : Os.t :=
  Os.MkOs ({[10]} ∪ ({[9]} ∪ ({[8]} ∪ ({[7]} ∪ ({[6]} ∪ ({[5]} ∪ ({[4]} ∪ ({[3]} ∪ {[0; 1; 2]}))))))))
    (<[6 := Connection.EPOLLIN]> (<[5 := Connection.EPOLLIN]> (<[3 := Connection.EPOLLIN]> ∅))) [] [] 40000 None 0 (lit "error").
Definition sample_state : state := (sample_server, (sample_engine, (sample_opened, sample_env))).

Lemma sample_fresh : fresh_opens sample_os.
Proof.
  split; [apply (bool_decide_unpack _); vm_compute; exact I|]. intros fd Hin. unfold coming in Hin. simpl in Hin.
  repeat (apply elem_of_cons in Hin as [->|Hin]; [split; [lia|unfold sample_os; simpl; set_solver]|]). by apply elem_of_nil in Hin.
Qed.

Lemma sample_create : create any_address no_ctl sample_options (sample_os, sample_env) = (Ret sample_server, (sample_opened, sample_env)).
Proof. vm_compute. reflexivity. Qed.

Lemma sample_created : created any_address sample_os sample_options sample_server (sample_opened, sample_env).
Proof.
  pose proof (server_create_wp any_address no_ctl sample_os sample_options sample_env ltac:(simpl; lia) ltac:(simpl; lia) sample_fresh) as H.
  destruct (wp_run _ _ _ _ H) as [(srv & s' & Heq & Hc)|(x & s' & Heq & _)]; rewrite sample_create in Heq; [|discriminate Heq].
  injection Heq as <- <-. exact Hc.
Qed.

Lemma sample_server_made : server_made sample_hash 201 sample_state.
Proof.
  exists any_address, sample_os, sample_options, [[]; []]. split; [exact sample_created|].
  split; [simpl; lia|]. split; [simpl; lia|exact sample_engine_holds].
Qed.

Lemma sample_server_ok : server_ok sample_hash 201 sample_server sample_engine sample_opened.
Proof. exact (proj1 (made_good sample_hash 201 true sample_state sample_server_made)). Qed.

Lemma server_create_correct_witness :
  exists srv s', create any_address no_ctl sample_options (sample_os, sample_env) = (Ret srv, s') /\
    server_port srv = 40000 /\ length (workers_ srv) = 2%nat.
Proof.
  pose proof (server_create_correct any_address no_ctl sample_os sample_options sample_env ltac:(simpl; lia) ltac:(simpl; lia) sample_fresh) as H.
  destruct (wp_run _ _ _ _ H) as [(srv & s' & Heq & Hc)|(x & s' & Heq & _)].
  - exists srv, s'. split; [exact Heq|]. destruct Hc as (_ & _ & (_ & _ & Hl & _) & Hp & _). split; [exact Hp|exact Hl].
  - exfalso. rewrite sample_create in Heq. discriminate Heq.
Defined.

(** The timer reports two expirations, after an interruption. *)
Lemma server_timer_ages_witness :
  exists s', handle_timer [timer_interrupted; expired 2] sample_state = (Ret tt, s').
Proof.
  pose proof (server_timer_ages sample_hash 201 [timer_interrupted; expired 2] sample_server sample_engine sample_opened sample_env
    [[]; []] sample_engine_holds) as H.
  destruct (wp_run _ _ _ _ H) as [([] & s' & Heq & _)|(x & s' & _ & [])]. exists s'. exact Heq.
Defined.

(** Three sockets in turn, with an interrupted call between. *)
Definition sample_results : list accept_result :=
  [accepted 20 (Socket.MkSocket [] [] []); interrupted; accepted 21 (Socket.MkSocket [] [] []); accepted 22 (Socket.MkSocket [] [] [])].

Lemma server_empty fd j w : workers_ sample_server !! j = Some w -> ~ has_socket fd w.
Proof.
  intros Hj [v Hv]. destruct sample_created as (_ & _ & (_ & Hall & _) & _).
  destruct (Forall_lookup_1 _ _ _ _ Hall Hj) as (ctl & text & _ & Hk & _). rewrite Hk in Hv. simpl in Hv. by apply lookup_empty_Some in Hv.
Qed.

Lemma sample_free fd : (11 <=? fd) = true -> free_fd fd sample_server.
Proof.
  intros Hfd. zsimp. split_and!; [lia| |intros i w; apply server_empty].
  assert (server_fds sample_server = [8; 7; 10; 9; 6; 5; 4; 3]) as -> by (vm_compute; reflexivity).
  intros Hin. repeat (apply elem_of_cons in Hin as [->|Hin]; [lia|]). by apply elem_of_nil in Hin.
Qed.

Lemma sample_dealing : dealing sample_server sample_env.
Proof.
  split_and!; [vm_compute; reflexivity|vm_compute; reflexivity|]. intros j w Hj.
  destruct sample_created as (_ & _ & (_ & Hall & _) & _).
  by destruct (Forall_lookup_1 _ _ _ _ Hall Hj) as (ctl & text & -> & _).
Qed.

Lemma sample_results_valid : NoDup (taken sample_results) /\ forall fd, fd ∈ taken sample_results -> free_fd fd sample_server.
Proof.
  split; [apply (bool_decide_unpack _); vm_compute; exact I|]. intros fd Hin. simpl in Hin.
  repeat (apply elem_of_cons in Hin as [->|Hin]; [by apply sample_free|]). by apply elem_of_nil in Hin.
Qed.

Lemma server_deals_in_turn_witness :
  exists srv' m', accept_connections sample_results sample_state = (Ret tt, (srv', (sample_engine, (sample_opened, m')))) /\
    exists w', workers_ srv' !! 0%nat = Some w' /\ Worker.pending_ (worker_ w') = UniqueFd.MkUniqueFd <$> [20; 22].
Proof.
  destruct (server_deals_in_turn sample_hash 201 sample_results sample_server sample_engine sample_opened sample_env sample_server_ok
    (proj1 sample_results_valid) (proj2 sample_results_valid) sample_dealing) as (srv' & m' & H1 & _ & _ & H2).
  exists srv', m'. split; [exact H1|].
  destruct (workers_ sample_server !! 0%nat) as [w|] eqn:Hw; [|exfalso; vm_compute in Hw; discriminate Hw].
  destruct (H2 0%nat w Hw) as (w' & G1 & G2). exists w'. split; [exact G1|]. rewrite G2.
  destruct sample_created as (_ & _ & (_ & Hall & Hlen & _ & _ & _ & _ & Hn) & _). rewrite Hlen, Hn.
  destruct (Forall_lookup_1 _ _ _ _ Hall Hw) as (ctl & text & -> & _). reflexivity.
Defined.

(** When the threads are joined, the first worker's [epoll_wait] reports its wake-up
    event, the second worker's fails, and the acceptor's reports the stop event. *)
Definition sample_last : last_waits :=
  MkLastWaits (fun i => match i with O => wait_ready [(8, Connection.EPOLLIN)] | _ => wait_failed end)
    (wait_ready [MkEvent 5 [] []]).

(** The server has been started; [epoll_wait] of the second worker has failed, and the
    acceptor has then dealt a socket to each. *)
Definition sample_running : state := (start sample_hash sample_last sample_state).2.
Definition sample_broken : state := (worker_round sample_hash 1 wait_failed sample_running).2.
Definition sample_dealt : waited event :=
  wait_ready [MkEvent 3 [] [accepted 20 (Socket.MkSocket [] [] []); accepted 21 (Socket.MkSocket [] [] [])]].
Definition sample_waiting : state := (acceptor_round sample_dealt sample_broken).2.

Lemma sample_started unbroken : server_reaches sample_hash 201 unbroken sample_state sample_running.
Proof.
  eapply server_reaches_step; [apply server_reaches_refl|]. apply (sstep_start _ _ _ sample_last _ (start sample_hash sample_last sample_state).1).
  apply surjective_pairing.
Qed.

Lemma sample_breaks : server_reaches sample_hash 201 false sample_state sample_broken.
Proof.
  destruct (workers_ sample_running.1 !! 1%nat) as [w|] eqn:Hw; [|exfalso; vm_compute in Hw; discriminate Hw].
  eapply server_reaches_step; [apply sample_started|].
  apply (sstep_worker _ _ _ 1 w wait_failed _ (worker_round sample_hash 1 wait_failed sample_running).1); [exact Hw| |done|apply surjective_pairing].
  assert (thread_ <$> workers_ sample_running.1 !! 1%nat = Some a_thread) as E by (vm_compute; reflexivity).
  rewrite Hw in E. by injection E.
Qed.

Lemma sample_deals : server_reaches sample_hash 201 false sample_state sample_waiting.
Proof.
  eapply server_reaches_step; [apply sample_breaks|].
  apply (sstep_acceptor _ _ _ sample_dealt _ (acceptor_round sample_dealt sample_broken).1); [vm_compute; reflexivity| |apply surjective_pairing].
  split; [apply (bool_decide_unpack _); vm_compute; exact I|]. intros fd Hin.
  assert (batch_taken [MkEvent 3 [] [accepted 20 (Socket.MkSocket [] [] []); accepted 21 (Socket.MkSocket [] [] [])]] = [20; 21]) as E
    by reflexivity.
  rewrite E in Hin. clear E.
  assert (server_fds sample_broken.1 = [8; 7; 10; 9; 6; 5; 4; 3]) as E by (vm_compute; reflexivity).
  assert ((fun w => Kernel.sockets (kernel_ w)) <$> workers_ sample_broken.1 = [∅; ∅]) as E2 by (vm_compute; reflexivity).
  split_and!.
  - repeat (apply elem_of_cons in Hin as [->|Hin]; [lia|]). by apply elem_of_nil in Hin.
  - rewrite E. intros Hf. repeat (apply elem_of_cons in Hin as [->|Hin]; [set_solver|]). by apply elem_of_nil in Hin.
  - intros i w Hi [v Hv]. apply (f_equal (fun l => l !! i)) in E2. rewrite list_lookup_fmap, Hi in E2. simpl in E2.
    destruct i as [|[|i]]; simpl in E2; [..|done]; injection E2 as E2; rewrite E2 in Hv; by apply lookup_empty_Some in Hv.
Qed.

Lemma server_invariant_witness :
  server_ok sample_hash 201 sample_waiting.1 sample_waiting.2.1 sample_waiting.2.2.1 /\
  thread_ <$> workers_ sample_waiting.1 = [a_thread; ended_thread] /\
  (fun w => Worker.pending_ (worker_ w)) <$> workers_ sample_waiting.1 = [[UniqueFd.MkUniqueFd 20]; [UniqueFd.MkUniqueFd 21]].
Proof.
  split; [exact (proj1 (server_invariant sample_hash 201 false sample_state _ sample_server_made sample_deals))|].
  split; vm_compute; reflexivity.
Defined.

(** A worker whose [epoll_wait] fails leaves [run], but nothing tells the acceptor,
    which goes on dealing sockets to it: they are neither served nor closed, not even
    by [join]. *)
Theorem broken_worker_keeps_sockets :
  server_reaches sample_hash 201 false sample_state sample_waiting /\
  (fun w => (thread_ w, Worker.stop_requested_ (worker_ w), Worker.pending_ (worker_ w))) <$> workers_ sample_waiting.1 !! 1%nat =
    Some (ended_thread, false, [UniqueFd.MkUniqueFd 21]) /\
  (fun w => (map_to_list (Kernel.sockets (kernel_ w))).*1) <$>
    workers_ ((request_stop ;; join sample_hash sample_last) sample_waiting).2.1 !! 1%nat = Some [21].
Proof. split; [exact sample_deals|]. split; vm_compute; reflexivity. Qed.

Lemma server_start_all_or_nothing_witness :
  exists srv' o', start sample_hash sample_last sample_state = (Ret tt, (srv', (sample_engine, (o', sample_env)))) /\ running_ srv' = true.
Proof.
  pose proof (server_start_all_or_nothing sample_hash sample_last 201 sample_server sample_engine sample_opened sample_env sample_server_ok) as H.
  assert ((start sample_hash sample_last sample_state).1 = Ret tt) as E by (vm_compute; reflexivity).
  destruct (wp_run _ _ _ _ H) as [([] & s' & Heq & srv' & o' & -> & _ & (_ & _ & Hr & _) & _)|(x & s' & Heq & _)].
  - exists srv', o'. split; [exact Heq|exact Hr].
  - unfold sample_state in E. rewrite Heq in E. discriminate E.
Defined.

(** The socket queued for the worker that left its loop survives [join]. *)
Lemma server_join_returns_witness :
  exists s'', (request_stop ;; join sample_hash sample_last) sample_waiting = (Ret tt, s'') /\ running_ s''.1 = false /\
    (fun w => (map_to_list (Kernel.sockets (kernel_ w))).*1) <$> workers_ s''.1 = [[]; [21]].
Proof.
  destruct (server_join_returns sample_hash sample_last 201 false sample_state _ sample_server_made sample_deals) as (s'' & H1 & H2 & _).
  exists s''. split; [exact H1|]. split; [exact H2|].
  assert (s'' = ((request_stop ;; join sample_hash sample_last) sample_waiting).2) as -> by (by rewrite H1). vm_compute. reflexivity.
Defined.

Lemma sample_deals_parts :
  server_reaches sample_hash 201 false sample_state
    (sample_waiting.1, (sample_waiting.2.1, (sample_waiting.2.2.1, sample_waiting.2.2.2))).
Proof. rewrite <- !surjective_pairing. exact sample_deals. Qed.

Lemma server_destroy_closes_all_witness :
  exists srv' e' o' m', destroy sample_hash sample_last (sample_waiting.1, (sample_waiting.2.1, (sample_waiting.2.2.1, sample_waiting.2.2.2))) =
      (Ret tt, (srv', (e', (o', m')))) /\
    Os.opened o' = Os.opened sample_waiting.2.2.1 ∖ list_to_set (server_fds sample_waiting.1).
Proof.
  destruct (server_destroy_closes_all sample_hash sample_last 201 false sample_state _ _ _ _ sample_server_made sample_deals_parts)
    as (srv' & e' & o' & m' & ls & H1 & _ & H2 & _).
  exists srv', e', o', m'. split; [exact H1|exact H2].
Defined.

Lemma server_never_fails_witness :
  exists s', request_stop (sample_waiting.1, (sample_waiting.2.1, (sample_waiting.2.2.1, sample_waiting.2.2.2))) = (Ret tt, s').
Proof. exact (proj1 (proj2 (proj2 (server_never_fails sample_hash 201 sample_state _ _ _ _ sample_server_made sample_deals_parts)))). Defined.

Lemma dealing_is_fair_witness : zlen (deal 3 7 [20; 21; 22; 23] 1) <= zlen (deal 3 7 [20; 21; 22; 23] 2) + 1.
Proof. apply (dealing_is_fair 3 7 [20; 21; 22; 23] 1 2); simpl; lia. Defined.
