(* ===== verification/LoopModel.v ===== *)
(** * The loops of the threads ([Worker::run], [Impl::run_acceptor])

    The bodies of the loops are [Worker.run_once] and [CacheServer.run_acceptor_once];
    here are the loops around them. What happens while a thread waits in [epoll_wait]
    is a list: calls that other threads make, and how [epoll_wait] returns. When the
    list is exhausted the thread still waits. *)
From S2P Require Import Prelude ErrorModel Effects MemoryModel CacheEngineModel ConnectionModel WorkerModel ServerModel.
From S2P Require Import WorkerTheorems ServerRunFacts ServerSystemFacts ServerMainModel.
Import Memory.

#[export] Instance unused_dec fd w k : Decision (unused fd w k).
Proof. unfold unused. apply _. Defined.

Module WorkerLoop.
Import Worker.

Inductive wait :=
| ready (events : list (Z * Z))         (** [epoll_wait] returns these events *)
| interrupted                           (** it fails with [EINTR] *)
| failed                                (** it fails otherwise *)
| handed (fd : Z) (sock : Socket.t)     (** the acceptor calls [enqueue] *)
| stop_asked.                           (** [request_stop] is called *)

Section loop.
Variable hash : bytes -> Z.

(** The acceptor's call, with its handler; the kernel gives no descriptor in use. *)
Definition hand_over (fd : Z) (sock : Socket.t) : M state unit := fun s =>
  let '(w, (e, (k, m))) := s in
  if decide (unused fd w k)
  then try_catch (enqueue (UniqueFd.MkUniqueFd fd)) (fun _ => ret tt) (w, (e, (accepted fd sock k, m)))
  else (Ret tt, s).

(** From [epoll_wait] on: whether [run] returned. *)
Fixpoint run_waiting (waits : list wait) : M state bool :=
  let continue waits :=
    w <- on_worker read ;;
    if stop_requested_ w then run_end ;; ret true else run_waiting waits in
  match waits with
  | [] => ret false
  | ready events :: waits => run_once hash events ;; continue waits
  | interrupted :: waits => continue waits
  | failed :: _ => run_end ;; ret true
  | handed fd sock :: waits => hand_over fd sock ;; run_waiting waits
  | stop_asked :: waits => request_stop ;; run_waiting waits
  end.

(** [Worker::run]. *)
Definition run (waits : list wait) : M state bool :=
  w <- on_worker read ;;
  if stop_requested_ w then run_end ;; ret true else run_waiting waits.

End loop.

(** Whether the loop ends: when [epoll_wait] fails, or returns after a stop request. *)
Fixpoint ends (stopped : bool) (waits : list wait) : bool :=
  match waits with
  | [] => false
  | (ready _ | interrupted) :: waits => stopped || ends stopped waits
  | failed :: _ => true
  | handed _ _ :: waits => ends stopped waits
  | stop_asked :: waits => ends true waits
  end.

End WorkerLoop.

Module AcceptorLoop.
Import CacheServer.

Inductive wait :=
| ready (events : list event)
| interrupted
| failed
| stop_asked.

(** The batch that [epoll_wait] reported; the kernel gives no descriptor in use. *)
Definition batch (events : list event) : M state unit :=
  srv <- on_server read ;;
  if decide (valid_events events srv) then run_acceptor_once events else ret tt.

(** The end of [run_acceptor]. *)
Definition finish : M state bool := on_server (modify (set_running false)) ;; ret true.

(** From [epoll_wait] on: whether [run_acceptor] returned. *)
Fixpoint run_waiting (waits : list wait) : M state bool :=
  let continue waits :=
    srv <- on_server read ;;
    if stop_requested_ srv then finish else run_waiting waits in
  match waits with
  | [] => ret false
  | ready events :: waits => batch events ;; continue waits
  | interrupted :: waits => continue waits
  | failed :: _ => finish
  | stop_asked :: waits => request_stop ;; run_waiting waits
  end.

(** [Impl::run_acceptor]. *)
Definition run_acceptor (waits : list wait) : M state bool :=
  srv <- on_server read ;;
  if stop_requested_ srv then finish else run_waiting waits.

Fixpoint ends (stopped : bool) (waits : list wait) : bool :=
  match waits with
  | [] => false
  | (ready _ | interrupted) :: waits => stopped || ends stopped waits
  | failed :: _ => true
  | stop_asked :: waits => ends true waits
  end.

End AcceptorLoop.
