(* ===== verification/LoopTheorems.v ===== *)
(** * What the loops of the threads guarantee *)
From S2P Require Import Prelude ErrorModel Effects MemoryModel CacheEngineModel CacheEngineFacts ConnectionModel WorkerModel ServerModel.
From S2P Require Import ProgressFacts WorkerFacts WorkerInstallFacts WorkerRunFacts WorkerTheorems SampleStates.
From S2P Require Import ServerFacts ServerRunFacts ServerAcceptFacts ServerSystemFacts ServerTheorems ServerMainModel LoopModel.
Import Memory.

(** ** The worker *)

Section worker.
Import Worker WorkerLoop.
Variable hash : bytes -> Z.

Definition alive (cap : Z) (s : Worker.state) : Prop := worker_ok hash cap s.1 s.2.1 s.2.2.1.

(** The worker has ended: it owns nothing any more. *)
Definition gone (s : Worker.state) : Prop :=
  Kernel.sockets s.2.2.1 = ∅ /\ connections_ s.1 = ∅ /\ pending_ s.1 = [].

Lemma hand_over_wp cap fd sock s :
  alive cap s -> wp (hand_over fd sock) s (post
    (fun _ s' => alive cap s' /\ stop_requested_ s'.1 = stop_requested_ s.1) (fun _ _ => False)).
Proof.
  destruct s as [w [e [k m]]]. intros Hok. unfold wp, hand_over. destruct (decide (unused fd w k)) as [Hu|_]; [|done].
  pose proof (enqueue_wp hash cap fd w e (accepted fd sock k) m (accepted_holds hash cap fd sock w e k (proj1 Hok) Hu) (proj1 (proj2 Hok))) as H.
  unfold wp, try_catch in *. destruct (enqueue _ _) as [[[]|x|] s']; cbn [fst snd post] in *; [..|done].
  - destruct s' as [w' r']. destruct H as (([H _] & Han & _) & Hs & _). split; [split; [exact H|by apply Han, Hok]|]. cbn [fst] in *. destruct (stop_requested_ w) eqn:E; destruct Hs as [-> _]; cbn; congruence.
  - destruct s' as [w' r']. destruct H as (_ & ([H _] & Han & _) & [E _] & _). cbn [fst] in *. subst.
    split; [split; [exact H|by apply Han, Hok]|done].
Qed.

Definition run_left (cap : Z) (b : bool) (b' : bool) (s' : Worker.state) : Prop :=
  b' = b /\ if b then gone s' else alive cap s'.

Lemma end_run_wp cap s : worker_holds hash cap [] s.1 s.2.1 s.2.2.1 -> wp (run_end ;; ret true) s (post (run_left cap true) (fun _ _ => False)).
Proof.
  destruct s as [w [e [k m]]]. intros Hok. eapply wp_bind_post; [by apply (run_end_wp hash cap)| |done].
  intros [] s' (H1 & H2 & H3 & _). apply wp_ret. by split.
Qed.

Lemma run_waiting_wp cap waits s :
  alive cap s -> wp (run_waiting hash waits) s (post (run_left cap (ends (stop_requested_ s.1) waits)) (fun _ _ => False)).
Proof.
  revert s. induction waits as [|[events| | |fd sock|] waits IH]; intros s Hs; cbn [run_waiting ends].
  - by apply wp_ret.
  - destruct s as [w [e [k m]]]. eapply wp_bind_post; [by apply (run_once_wp hash cap), worker_ok_sound| |done].
    intros [] [w1 r1] ([H1 _] & Han & _ & H2 & _). apply wp_bind, wp_on_fst, wp_read. cbn [fst] in *. rewrite <- H2.
    destruct (stop_requested_ w1) eqn:E; [by apply end_run_wp|]. pose proof (IH (w1, r1)) as G. cbn [fst] in G. rewrite E in G. apply G.
    split; [done|]. apply Han; [apply Hs|by rewrite <- H2].
  - destruct s as [w r]. apply wp_bind, wp_on_fst, wp_read. cbn [fst].
    destruct (stop_requested_ w) eqn:E; [apply end_run_wp, Hs|]. pose proof (IH (w, r)) as G. cbn [fst] in G. rewrite E in G. by apply G.
  - apply end_run_wp, Hs.
  - eapply wp_bind_post; [by apply (hand_over_wp cap)| |done]. intros [] s1 [H1 <-]. by apply IH.
  - destruct s as [w [e [k m]]]. eapply wp_bind_post; [by apply (request_stop_wp hash cap), worker_ok_sound| |done].
    intros [] s1 (H1 & H2 & _). replace true with (stop_requested_ s1.1) by (by rewrite H2). by apply IH.
Qed.

(** C32: [Worker::run] as a whole, among the calls of other threads: it throws nothing
    and reaches no undefined behaviour; it returns exactly when it is already to stop,
    when [epoll_wait] fails, or when [epoll_wait] returns after a stop request, and
    then it has closed every socket, has no connection and an empty queue. Until then
    its invariant holds, whatever was handed over and reported. *)
Theorem worker_run_correct cap waits s :
  worker_ok hash cap s.1 s.2.1 s.2.2.1 ->
  exists b s', run hash waits s = (Ret b, s') /\ b = stop_requested_ s.1 || ends (stop_requested_ s.1) waits /\
    if b then gone s' else worker_ok hash cap s'.1 s'.2.1 s'.2.2.1.
Proof.
  intros Hs. assert (wp (run hash waits) s (post
    (run_left cap (stop_requested_ s.1 || ends (stop_requested_ s.1) waits)) (fun _ _ => False))) as H.
  { destruct s as [w r]. unfold run. apply wp_bind, wp_on_fst, wp_read. cbn [fst].
    destruct (stop_requested_ w) eqn:E; [apply end_run_wp, Hs|]. pose proof (run_waiting_wp cap waits (w, r)) as G. cbn [fst] in G. rewrite E in G. by apply G. }
  destruct (wp_run _ _ _ _ H) as [(b & s' & H1 & -> & H2)|(x & s' & _ & [])]. by eexists _, _.
Qed.

End worker.

(** ** The acceptor *)

Section acceptor.
Import CacheServer AcceptorLoop.
Variable hash : bytes -> Z.

(** What holds while the acceptor handles a batch: it may have drained the stop event. *)
Definition accepting (cap : Z) (unbroken : bool) (s : state) : Prop :=
  server_ok hash cap s.1 s.2.1 s.2.2.1 /\ settled unbroken s.1 /\ 0 <= Os.signals s.2.2.1.

Lemma batch_wp cap unbroken events s :
  accepting cap unbroken s -> acceptor_thread_ s.1 = a_thread ->
  wp (batch events) s (post
    (fun _ s' => (accepting cap unbroken s' /\ acceptor_thread_ s'.1 = a_thread) /\ stop_requested_ s'.1 = stop_requested_ s.1)
    (fun _ _ => False)).
Proof.
  destruct s as [srv [e [o m]]]. intros (Hok & Hs & Hg) Ha. unfold batch. apply wp_bind, wp_on_fst, wp_read. cbn beta iota.
  destruct (decide _) as [Hv|_]; [|by apply wp_ret]. cbn [fst snd] in *.
  eapply wp_post_mono; [exact (run_acceptor_once_wp hash cap events srv e o m Hok Hg Hv)| |done].
  intros [] s' Hleft. pose proof (fed_settled hash unbroken _ _ _ _ _ Hs Ha Hleft) as Hs'.
  destruct Hleft as (srv' & e' & o' & m' & -> & H0 & [_ H3] & _ & H1 & _ & H2 & _). cbn [fst snd] in *. rewrite H1. by split_and!.
Qed.

Definition accept_left (cap : Z) (unbroken : bool) (b b' : bool) (s' : state) : Prop :=
  b' = b /\ accepting cap unbroken s' /\ (b = true -> running_ s'.1 = false).

Lemma finish_wp cap unbroken s : accepting cap unbroken s -> wp finish s (post (accept_left cap unbroken true) (fun _ _ => False)).
Proof.
  destruct s as [srv [e [o m]]]. intros (Hok & Hs & Hg). unfold finish. apply wp_bind, wp_on_fst, wp_modify. cbn beta iota.
  apply wp_ret. split_and!; [done|split_and!|done]; cbn [fst snd] in *; [|by apply (settled_same unbroken srv)|done].
  eapply server_ok_same; [exact Hok|done|done|done|done|exact (sv_threads _ _ _ _ _ Hok)|done].
Qed.

Lemma acceptor_waiting_wp cap unbroken waits s :
  accepting cap unbroken s -> acceptor_thread_ s.1 = a_thread ->
  wp (run_waiting waits) s (post (accept_left cap unbroken (ends (stop_requested_ s.1) waits)) (fun _ _ => False)).
Proof.
  revert s. induction waits as [|[events| | |] waits IH]; intros s Hs Ha; cbn [run_waiting ends].
  - by apply wp_ret.
  - eapply wp_bind_post; [by apply (batch_wp cap unbroken)| |done]. intros [] [srv1 r1] [[H1 A1] H2]. apply wp_bind, wp_on_fst, wp_read.
    cbn [fst] in *. rewrite <- H2. destruct (stop_requested_ srv1) eqn:E; [by apply finish_wp|]. pose proof (IH (srv1, r1)) as G. cbn [fst] in G. rewrite E in G. by apply G.
  - destruct s as [srv r]. apply wp_bind, wp_on_fst, wp_read. cbn [fst] in *.
    destruct (stop_requested_ srv) eqn:E; [by apply finish_wp|]. pose proof (IH (srv, r)) as G. cbn [fst] in G. rewrite E in G. by apply G.
  - by apply finish_wp.
  - destruct s as [srv [e [o m]]]. destruct Hs as (Hok & Hs & Hg).
    eapply wp_bind_post; [by apply (stop_request_wp hash cap unbroken)| |done].
    intros [] s1 ((H1 & H2 & H3) & o1 & -> & _). apply (IH (set_stop_requested srv, (e, (o1, m)))); [|done].
    split_and!; [exact H1|exact H2|apply H3].
Qed.

(** [Impl::run_acceptor] as a whole: in a running server it throws nothing and
    reaches no undefined behaviour, whatever the timer and [accept4] report; it
    returns exactly when a stop was requested before, when [epoll_wait] fails, or when
    [epoll_wait] returns after a stop request, and then [running] is false. The
    invariant of the server holds throughout. *)
Theorem acceptor_run_correct cap unbroken waits s :
  server_ok hash cap s.1 s.2.1 s.2.2.1 -> settled unbroken s.1 -> 0 <= Os.signals s.2.2.1 -> acceptor_thread_ s.1 = a_thread ->
  exists b s', run_acceptor waits s = (Ret b, s') /\ b = stop_requested_ s.1 || ends (stop_requested_ s.1) waits /\
    server_ok hash cap s'.1 s'.2.1 s'.2.2.1 /\ settled unbroken s'.1 /\ 0 <= Os.signals s'.2.2.1 /\ (b = true -> running_ s'.1 = false).
Proof.
  intros Hok Hst Hsig Ha. assert (accepting cap unbroken s) as Hg by (by split_and!).
  assert (wp (run_acceptor waits) s (post
    (accept_left cap unbroken (stop_requested_ s.1 || ends (stop_requested_ s.1) waits)) (fun _ _ => False))) as H.
  { destruct s as [srv r]. unfold run_acceptor. apply wp_bind, wp_on_fst, wp_read. cbn [fst] in *.
    destruct (stop_requested_ srv) eqn:E; [by apply finish_wp|]. pose proof (acceptor_waiting_wp cap unbroken waits (srv, r)) as G. cbn [fst] in G. rewrite E in G. by apply G. }
  destruct (wp_run _ _ _ _ H) as [(b & s' & H1 & -> & (H2 & H3 & H4) & H5)|(x & s' & _ & [])]. by eexists _, _.
Qed.

End acceptor.

(** ** Instances *)

(** A socket is handed over and served; then the worker is asked to stop, and the
    wake-up is reported. *)
Definition sample_waits : list WorkerLoop.wait :=
  [WorkerLoop.handed 5 sample_peer; WorkerLoop.ready [(9, Worker.EPOLLIN)]; WorkerLoop.interrupted;
   WorkerLoop.ready [(5, Worker.EPOLLIN)]; WorkerLoop.stop_asked; WorkerLoop.ready [(9, Worker.EPOLLIN)]].

Lemma worker_run_correct_witness :
  exists s', WorkerLoop.run sample_hash sample_waits sample_start = (Ret true, s') /\
    Kernel.sockets s'.2.2.1 = ∅.
Proof.
  destruct (worker_run_correct sample_hash 201 sample_waits sample_start
    (starts_ok sample_hash 201 _ sample_starts)) as (b & s' & H1 & Hb & H2).
  assert (b = true) as E by (rewrite Hb; reflexivity). rewrite E in H1, H2. exists s'. split; [exact H1|exact (proj1 H2)].
Defined.

Definition sample_accepting : list AcceptorLoop.wait :=
  [AcceptorLoop.ready [CacheServer.MkEvent 6 [CacheServer.expired 1] []; CacheServer.MkEvent 3 [] sample_results];
   AcceptorLoop.stop_asked; AcceptorLoop.ready [CacheServer.MkEvent 5 [] []]].

Lemma acceptor_run_correct_witness :
  exists s', AcceptorLoop.run_acceptor sample_accepting sample_running = (Ret true, s') /\ CacheServer.running_ s'.1 = false.
Proof.
  destruct (server_reaches_good sample_hash 201 true _ _ sample_server_made (sample_started true)) as (Hok & Hst & Hg & _).
  assert (CacheServer.acceptor_thread_ sample_running.1 = CacheServer.a_thread) as Ha by (vm_compute; reflexivity).
  assert (CacheServer.stop_requested_ sample_running.1 = false) as Hs by (vm_compute; reflexivity).
  destruct (acceptor_run_correct sample_hash 201 true sample_accepting _ Hok Hst Hg Ha) as (b & s' & H1 & Hb & _ & _ & _ & H2).
  rewrite Hs in Hb. assert (b = true) as E by (rewrite Hb; reflexivity). rewrite E in H1.
  exists s'. split; [exact H1|exact (H2 E)].
Defined.
