(* ===== verification/ServerMainTheorems.v ===== *)
(** * What the server executable guarantees *)
From S2P Require Import Prelude ErrorModel Effects MemoryModel AllocatorModel ValueAllocatorModel LruSpec.
From S2P Require Import CacheShardModel CacheEngineModel CacheEngineFacts TextModel LoggerModel ConfigModel ProtocolModel ConnectionModel.
From S2P Require Import WorkerModel ServerModel ServerFacts ServerStartFacts ProgressFacts SampleStates.
From S2P Require Import ServerMainModel ServerSupplyFacts ServerMainFacts.
Import Memory.
Import ServerMain.

Section main.
Variable hash : bytes -> Z.
Variable inet_pton : bytes -> Z.
Variable open_file : bytes -> option (bytes * bool).
Variable schedule : Z -> list bool.
Variable ctl : nat -> list bool.
Variable last : CacheServer.last_waits.
Variables before after : list activity.

(** The command line asks for help. *)
Definition asks_help (argv : list bytes) : Prop := argv !! 1%nat = Some (lit "--help") /\ length argv = 2%nat.

(** The command line asks for a server. *)
Definition asks_server (argv : list bytes) : Prop := ~ asks_help argv /\ (length argv <= 2)%nat.

(** How the program may end. *)
Inductive main_outcome (argv : list bytes) (o : Os.t) (m : env) : result -> Prop :=
| outcome_help : asks_help argv -> main_outcome argv o m (MkResult 0 (usage_text ++ [Byte.x0a]) [] [] [])
| outcome_usage : (2 < length argv)%nat ->
    main_outcome argv o m (MkResult 1 [] [] (reported (invalid usage_text)) [])
| outcome_config x : asks_server argv -> configure open_file argv = Throw x -> main_outcome argv o m (MkResult 1 [] [] (reported x) [])
| outcome_served c e line shards :
    asks_server argv -> configure open_file argv = Ret c -> inet_pton (Config.host c) = 1 ->
    final_engine hash last inet_pton schedule ctl before after c o m e ->
    final_metrics hash (Config.cache_capacity_bytes c) e line ->
    main_outcome argv o m (MkResult 0 []
      (info_lines (Config.log_level c) [startup_of c (chosen_port (Config.port c) o); line; stopped]) [] shards)
| outcome_failed c x messages shards :
    asks_server argv -> configure open_file argv = Ret c -> stopped_by inet_pton c x ->
    messages = [] \/ messages = [startup_of c (chosen_port (Config.port c) o)] ->
    (well_supplied inet_pton c o m -> x = bad_alloc /\
       info_lines (Config.log_level c) messages = info_lines (Config.log_level c) [startup_of c (chosen_port (Config.port c) o)]) ->
    main_outcome argv o m (MkResult 1 [] (info_lines (Config.log_level c) messages) (reported x) shards).

Lemma server_main_wp argv o m :
  fresh_opens o -> 0 <= Os.assigned o < 65536 ->
  wp (main hash inet_pton open_file schedule ctl last before after argv) (o, m) (post
    (fun res s' => (Os.opened s'.1 = Os.opened o /\ Forall shard_freed (remains res)) /\ main_outcome argv o m res) (fun _ _ => False)).
Proof.
  intros Hf Ha. unfold wp, main, main_body. destruct (decide _) as [Hh|Hh].
  { split; [split; [done|constructor]|]. by apply outcome_help. }
  destruct (decide _) as [Hl|Hl]; [split; [split; [done|constructor]|by apply outcome_usage]|].
  assert (asks_server argv) as Hs by (split; [done|lia]).
  unfold bind at 1. destruct (configure open_file argv) as [c|x|] eqn:Hc; cbn [fst snd];
    [|split; [split; [done|constructor]|by apply outcome_config]|by destruct (configure_defined open_file argv)].
  pose proof (with_engine_wp hash last inet_pton schedule ctl before after c o m (configure_ok _ _ _ Hc) Hf Ha) as H.
  unfold with_logger, bind. cbn [fst snd]. unfold wp in H.
  assert (Logger.create [] (Config.log_level c) = logged (Config.log_level c) []) as ->.
  { unfold logged, info_lines. by destruct (_ <? _). }
  destruct (with_engine _ _ _ _ _ _ _ _ _) as [[[]|x|] [lg [shards [o' m']]]]; cbn [fst snd post] in *; [..|done].
  - destruct H as (Ho & Hin & e & line & He & Hm & ->). split; [done|]. by eapply outcome_served.
  - destruct H as (Ho & Hx & [-> | ->] & Hx'); (split; [done|]); (eapply outcome_failed; [done|done|done|auto|]);
      intros Hw; destruct (Hx' Hw) as [-> E]; (split; [done|]); [|done]. by injection E.
Qed.

(** C1: the server program ends cleanly in every case: whatever the command line, the
    configuration file, the peers, the timing, the way calls of [epoll_wait] return and
    the failures of other system calls (the workers' [epoll_ctl] included) and of
    allocations, [main] returns, no descriptor it opened stays open, and the engine is
    destroyed: nothing is left on the heap of any of its shards. Help goes to standard
    output with status 0; a bad command line or configuration is reported with its error
    code and status 1. With a valid configuration the log names host, port, workers,
    shards and allocator as configured, and, after the signal to stop, the number of items
    and of bytes in the engine that served, in the state in which the last thread left it,
    with status 0; if something fails, the reason is on standard error and the status
    is 1. *)
Theorem server_main_correct argv o m :
  fresh_opens o -> 0 <= Os.assigned o < 65536 ->
  exists res o' m', main hash inet_pton open_file schedule ctl last before after argv (o, m) = (Ret res, (o', m')) /\
    Os.opened o' = Os.opened o /\ Forall shard_freed (remains res) /\ main_outcome argv o m res.
Proof.
  intros Hf Ha. destruct (wp_run _ _ _ _ (server_main_wp argv o m Hf Ha)) as [(res & [o' m'] & H & [H1 H2] & H3)|(x & s' & _ & [])].
  by exists res, o', m'.
Qed.

(** C16: a valid configuration is served: when the address is good, no system call
    fails, enough descriptors can be opened and memory does not run out while the
    server is set up, the server comes up and logs so; it then ends with status 0
    unless memory runs out while it runs. *)
Theorem server_main_serves argv c o m :
  fresh_opens o -> 0 <= Os.assigned o < 65536 -> asks_server argv ->
  configure open_file argv = Ret c -> well_supplied inet_pton c o m ->
  exists res s', main hash inet_pton open_file schedule ctl last before after argv (o, m) = (Ret res, s') /\
    (exists rest, log res = info_lines (Config.log_level c) [startup_of c (chosen_port (Config.port c) o)] ++ rest) /\
    (status res = 0 \/ status res = 1 /\ err res = reported bad_alloc).
Proof.
  intros Hf Ha [Hh Hl] Hc Hs. destruct (wp_run _ _ _ _ (server_main_wp argv o m Hf Ha)) as [(res & s' & H & _ & Hout)|(x & s' & _ & [])].
  exists res, s'. split; [done|].
  destruct Hout as [?|?|x _ Hx|c' e line sh _ Hc' _ _ _|c' x ms sh _ Hc' _ _ Hx]; [done|lia|congruence|..]; rewrite Hc in Hc'; injection Hc' as <-; cbn [log status err].
  - split; [|by left]. eexists. apply info_lines_cons.
  - destruct (Hx Hs) as [-> ->]. split; [|by right]. exists []. by rewrite app_nil_r.
Qed.

End main.

(** ** Instances *)

(** A configuration file with two shards and one worker on a port the system chooses. *)
Definition sample_config : bytes :=
  lit "worker_threads = 1" ++ [Byte.x0a] ++ lit "shard_count=2" ++ [Byte.x0a] ++ lit "port=0" ++ [Byte.x0a].
Definition sample_files (path : bytes) : option (bytes * bool) := Some (sample_config, false).
Definition sample_process : Os.t :=
  Os.MkOs {[0; 1; 2]} ∅ (Some <$> [3; 4; 5; 6; 7; 8]) [] 40000 None 0 (lit "error").
Definition sample_argv : list bytes := [lit "highcache_server"; lit "server.conf"].

(** A peer that stores a value and then closes: the acceptor takes its socket, the
    worker installs it and then serves it. *)
Definition sample_peer : Socket.t :=
  let frame := Protocol.request_frame (Protocol.MkRequest Protocol.op_set 7 (lit "key") (lit "value") 0) in
  match frame with
  | b :: bs => Socket.MkSocket [Socket.chunk b bs] [Socket.room 4096] []
  | [] => Socket.MkSocket [] [] []
  end.
Definition sample_activity : list activity :=
  [acceptor_turn (CacheServer.wait_ready [CacheServer.MkEvent 3 [] [CacheServer.accepted 9 sample_peer]]);
   worker_turn 0 (CacheServer.wait_ready [(8, Connection.EPOLLIN)]); worker_turn 0 CacheServer.wait_interrupted;
   worker_turn 0 (CacheServer.wait_ready [(9, Connection.EPOLLIN)]);
   worker_turn 0 (CacheServer.wait_ready [(9, Connection.EPOLLOUT)])].

(** The threads are woken by their events when they are joined. *)
Definition sample_joins : CacheServer.last_waits :=
  CacheServer.MkLastWaits (fun _ => CacheServer.wait_ready [(8, Connection.EPOLLIN)])
    (CacheServer.wait_ready [CacheServer.MkEvent 5 [] []]).

Definition sample_main : outcome result * CacheServer.build :=
  main sample_hash (fun _ => 1) sample_files (fun _ => []) (fun _ => []) sample_joins sample_activity [] sample_argv (sample_process, sample_env).

(** The program as a whole, run: one item is in the cache at the end. *)
Lemma sample_main_run :
  match sample_main.1 with Ret res => Some (status res, out res, log res, err res) | _ => None end = Some (0, [],
    lit "[INFO] HighCache listening on 127.0.0.1:40000 with 1 workers, 2 cache shards, and slab value allocation" ++ [Byte.x0a] ++
     lit "[INFO] Cache metrics: entries=1 logical_bytes=8 allocator_reserved_bytes=1048576 allocator_used_bytes=5 allocator_fragmentation_bytes=59 allocator_allocations=1 allocator_deallocations=0 allocator_slabs=1" ++ [Byte.x0a] ++
     lit "[INFO] HighCache stopped" ++ [Byte.x0a], []).
Proof. vm_compute. reflexivity. Qed.

Lemma sample_process_fresh : fresh_opens sample_process.
Proof.
  split; [apply (bool_decide_unpack _); vm_compute; exact I|]. intros fd Hin. unfold coming in Hin. simpl in Hin.
  repeat (apply elem_of_cons in Hin as [->|Hin]; [split; [lia|unfold sample_process; simpl; set_solver]|]). by apply elem_of_nil in Hin.
Qed.

Lemma sample_main_shards res s' : sample_main = (Ret res, s') -> length (remains res) = 2%nat.
Proof.
  intros H. assert (match sample_main.1 with Ret r => length (remains r) | _ => 0%nat end = 2%nat) as E by (vm_compute; reflexivity).
  rewrite H in E. exact E.
Qed.

Lemma server_main_correct_witness :
  exists res o' m', sample_main = (Ret res, (o', m')) /\ Os.opened o' = {[0; 1; 2]} /\
    length (remains res) = 2%nat /\ Forall shard_freed (remains res).
Proof.
  destruct (server_main_correct sample_hash (fun _ => 1) sample_files (fun _ => []) (fun _ => []) sample_joins sample_activity [] sample_argv
    sample_process sample_env sample_process_fresh ltac:(vm_compute; intuition discriminate)) as (res & o' & m' & H1 & H2 & H3 & _).
  exists res, o', m'. split; [exact H1|]. split; [exact H2|]. split; [|exact H3].
  apply (sample_main_shards res (o', m')). exact H1.
Defined.

Lemma server_main_serves_witness :
  exists res s', sample_main = (Ret res, s') /\ (status res = 0 \/ status res = 1 /\ err res = reported bad_alloc).
Proof.
  destruct (configure sample_files sample_argv) as [c|x|] eqn:Hc; [|exfalso; revert Hc; vm_compute; discriminate..].
  assert (Config.worker_threads c = 1) as Hw by (vm_compute in Hc; injection Hc as <-; reflexivity).
  destruct (server_main_serves sample_hash (fun _ => 1) sample_files (fun _ => []) (fun _ => []) sample_joins sample_activity [] sample_argv c sample_process sample_env
    sample_process_fresh ltac:(vm_compute; intuition discriminate)) as (res & s' & H1 & _ & H2).
  - split; [|simpl; lia]. intros [H _]. vm_compute in H. discriminate H.
  - exact Hc.
  - split; [|reflexivity]. rewrite Hw. split; [reflexivity|]. split; [reflexivity|]. exists [3; 4; 5; 6; 7; 8]. split; [reflexivity|simpl; lia].
  - exists res, s'. split; [exact H1|exact H2].
Defined.
