(* ===== verification/BenchmarkModel.v ===== *)
(** * The load generator ([benchmark/benchmark.h], [benchmark/benchmark.cpp])

    Each thread of the benchmark sends its share of a plan of operations over its
    connections, with so many requests under way on each, matches the responses to them
    and counts. As for the server, what the kernel does is a schedule: the outcomes of
    the calls, the events that [epoll_wait] reports, and with each event what the calls
    on its socket will find. The clock is a sequence of readings. The
    allocations of the main thread are left out. *)
From S2P Require Import Prelude ErrorModel Effects MemoryModel BufferModel ProtocolModel.
From S2P Require Import CacheModel ConnectionModel WorkerModel ServerModel TextModel NumberModel.
Import Memory.

(** [Operation]. *)
Record Operation := MkOperation {
  opcode : Protocol.Opcode;
  key_index : Z;
  request_id : Z
}.

Module Statistics.

Record t := MkStatistics {
  successful_ : Z;
  failed_ : Z;
  get_hits_ : Z;
  get_misses_ : Z;
  latencies_ : list Z;
  errors_ : list bytes
}.

Definition init : t := MkStatistics 0 0 0 0 [] [].

(** What [record_response] counts, after the latency. *)
Definition count (opcode : Protocol.Opcode) (status : Protocol.WireStatus) (s : t) : t :=
  match opcode, status with
  | Protocol.op_get, Protocol.ws_ok =>
      MkStatistics (u64 (successful_ s + 1)) (failed_ s) (u64 (get_hits_ s + 1)) (get_misses_ s) (latencies_ s) (errors_ s)
  | Protocol.op_get, Protocol.ws_not_found =>
      MkStatistics (u64 (successful_ s + 1)) (failed_ s) (get_hits_ s) (u64 (get_misses_ s + 1)) (latencies_ s) (errors_ s)
  | Protocol.op_set, Protocol.ws_ok =>
      MkStatistics (u64 (successful_ s + 1)) (failed_ s) (get_hits_ s) (get_misses_ s) (latencies_ s) (errors_ s)
  | _, _ =>
      MkStatistics (successful_ s) (u64 (failed_ s + 1)) (get_hits_ s) (get_misses_ s) (latencies_ s) (errors_ s)
  end.

Definition add_latency (latency : Z) (s : t) : t :=
  MkStatistics (successful_ s) (failed_ s) (get_hits_ s) (get_misses_ s) (latencies_ s ++ [latency]) (errors_ s).

(** [record_response]; [push_back] may allocate. *)
Definition record_response (opcode : Protocol.Opcode) (status : Protocol.WireStatus) (latency : Z) :
    M (t * env) unit :=
  on_snd may_alloc ;;
  on_fst (modify (fun s => count opcode status (add_latency latency s))).

Definition record_failures (n : Z) (s : t) : t :=
  MkStatistics (successful_ s) (u64 (failed_ s + n)) (get_hits_ s) (get_misses_ s) (latencies_ s) (errors_ s).

(** [record_error]: the argument and the element are strings. *)
Definition record_error (message : bytes) : M (t * env) unit :=
  on_snd may_alloc ;;
  on_snd may_alloc ;;
  on_fst (modify (fun s =>
    MkStatistics (successful_ s) (failed_ s) (get_hits_ s) (get_misses_ s) (latencies_ s) (errors_ s ++ [message]))).

(** [merge]. *)
Definition merge (other s : t) : t :=
  MkStatistics (u64 (successful_ s + successful_ other)) (u64 (failed_ s + failed_ other))
    (u64 (get_hits_ s + get_hits_ other)) (u64 (get_misses_ s + get_misses_ other))
    (latencies_ s ++ latencies_ other) (errors_ s ++ errors_ other).

Definition handled (s : t) : Z := u64 (successful_ s + failed_ s).

End Statistics.

Module RequestTracker.

(** [pending_]: the opcode of a request and when it was started. *)
Definition t : Type := gmap Z (Protocol.Opcode * Z).

(** [add]: [emplace] makes a node first. *)
Definition add (request_id : Z) (opcode : Protocol.Opcode) (start : Z) : M (t * env) unit :=
  on_snd may_alloc ;;
  pending <- on_fst read ;;
  match pending !! request_id with
  | Some _ => throw (std_runtime_error (lit "duplicate benchmark request_id"))
  | None => on_fst (modify (fun pending => <[request_id := (opcode, start)]> pending))
  end.

(** [complete]. *)
Definition complete (response : Protocol.Response) (finish : Z) : M (t * (Statistics.t * env)) unit :=
  pending <- on_fst read ;;
  match pending !! Protocol.r_request_id response with
  | None => throw (std_runtime_error (lit "response has unknown benchmark request_id"))
  | Some (opcode, start) =>
      on_snd (Statistics.record_response opcode (Protocol.status response) (finish - start)) ;;
      on_fst (modify (fun pending => delete (Protocol.r_request_id response) pending))
  end.

Definition count (pending : t) : Z := Z.of_nat (size pending).

(** [fail_all]: how many failed. *)
Definition fail_all : M (t * Statistics.t) Z :=
  pending <- on_fst read ;;
  on_snd (modify (Statistics.record_failures (count pending))) ;;
  on_fst (modify (fun _ => ∅)) ;;
  ret (count pending).

End RequestTracker.

Module ClientWorker.

Definition EPOLLERR : Z := 0x008.
Definition EPOLLHUP : Z := 0x010.
Definition read_chunk_size : Z := 64 * 1024.

(** [ClientConnection], and what will happen on its socket. *)
Record connection := MkConnection {
  socket : Z;                    (** [-1]: closed *)
  input : Buffer.t;
  output : Buffer.t;
  tracker : RequestTracker.t;
  active : bool;
  stream : Socket.t
}.

Record t := MkClientWorker {
  next_ : Z;
  epoll_ : Z;
  connections_ : list connection;
  connection_indexes_ : gmap Z nat;
  statistics_ : Statistics.t;
  readings : nat                 (** of the clock, so far *)
}.

Definition state : Type := t * (Os.t * env).

Definition on_os {A} (f : M Os.t A) : M state A := on_snd (on_fst f).
Definition on_env {A} (f : M env A) : M state A := on_snd (on_snd f).

Definition set_next (n : Z) (w : t) : t :=
  MkClientWorker n (epoll_ w) (connections_ w) (connection_indexes_ w) (statistics_ w) (readings w).
Definition set_connections (cs : list connection) (w : t) : t :=
  MkClientWorker (next_ w) (epoll_ w) cs (connection_indexes_ w) (statistics_ w) (readings w).
Definition set_statistics (st : Statistics.t) (w : t) : t :=
  MkClientWorker (next_ w) (epoll_ w) (connections_ w) (connection_indexes_ w) st (readings w).
Definition set_readings (n : nat) (w : t) : t :=
  MkClientWorker (next_ w) (epoll_ w) (connections_ w) (connection_indexes_ w) (statistics_ w) n.

Definition set_input (b : Buffer.t) (c : connection) : connection :=
  MkConnection (socket c) b (output c) (tracker c) (active c) (stream c).
Definition set_output (b : Buffer.t) (c : connection) : connection :=
  MkConnection (socket c) (input c) b (tracker c) (active c) (stream c).
Definition set_tracker (tr : RequestTracker.t) (c : connection) : connection :=
  MkConnection (socket c) (input c) (output c) tr (active c) (stream c).
Definition set_stream (k : Socket.t) (c : connection) : connection :=
  MkConnection (socket c) (input c) (output c) (tracker c) (active c) k.
Definition deactivate (c : connection) : connection :=
  MkConnection (socket c) (input c) (output c) (tracker c) false (stream c).
Definition drop_socket (c : connection) : connection :=
  MkConnection (-1) (input c) (output c) (tracker c) (active c) (stream c).

(** An operation on a part of the connection that a reference denotes. *)
Definition on_part {P A} (get : connection -> P) (put : P -> connection -> connection) (i : nat) (f : M P A) :
    M state A := fun s =>
  match connections_ s.1 !! i with
  | None => (Undefined, s)
  | Some c =>
      let '(o, p) := f (get c) in (o, (set_connections (<[i := put p c]> (connections_ s.1)) s.1, s.2))
  end.

Definition on_connection {A} (i : nat) (f : M connection A) : M state A :=
  on_part (fun c => c) (fun c _ => c) i f.
Definition on_stream {A} (i : nat) (f : M Socket.t A) : M state A := on_part stream set_stream i f.

(** One with the memory. *)
Definition on_part_env {P A} (get : connection -> P) (put : P -> connection -> connection) (i : nat)
    (f : M (P * env) A) : M state A := fun s =>
  match connections_ s.1 !! i with
  | None => (Undefined, s)
  | Some c =>
      let '(o, (p, e)) := f (get c, s.2.2) in
      (o, (set_connections (<[i := put p c]> (connections_ s.1)) s.1, (s.2.1, e)))
  end.

Definition on_input {A} (i : nat) (f : M (Buffer.t * env) A) : M state A := on_part_env input set_input i f.
Definition on_output {A} (i : nat) (f : M (Buffer.t * env) A) : M state A := on_part_env output set_output i f.
Definition on_tracker {A} (i : nat) (f : M (RequestTracker.t * env) A) : M state A :=
  on_part_env tracker set_tracker i f.

Definition on_statistics {A} (f : M (Statistics.t * env) A) : M state A := fun s =>
  let '(o, (st, e)) := f (statistics_ s.1, s.2.2) in (o, (set_statistics st s.1, (s.2.1, e))).

(** [connection.tracker] and [statistics_] together. *)
Definition on_counts {A} (i : nat) (f : M (RequestTracker.t * (Statistics.t * env)) A) : M state A := fun s =>
  match connections_ s.1 !! i with
  | None => (Undefined, s)
  | Some c =>
      let '(o, (tr, (st, e))) := f (tracker c, (statistics_ s.1, s.2.2)) in
      (o, (set_statistics st (set_connections (<[i := set_tracker tr c]> (connections_ s.1)) s.1), (s.2.1, e)))
  end.

(** [throw_system_error]. *)
Definition throw_system_error {A} (operation : bytes) : M state A :=
  o <- on_os read ;;
  on_env may_alloc ;;
  throw (std_runtime_error (operation ++ lit ": " ++ Os.error_text o)).

(** A call whose failure is thrown. *)
Definition checked (operation : bytes) : M state unit :=
  b <- on_os Os.call ;;
  if b then ret tt else throw_system_error operation.

(** [UniqueFd::reset] of the socket of a connection. *)
Definition reset_socket (i : nat) : M state unit :=
  c <- on_connection i read ;;
  (if 0 <=? socket c then on_os (Os.close (socket c)) else ret tt) ;;
  on_connection i (modify drop_socket).

Section worker.
Variable pipeline : Z.                 (** [options_.pipeline] *)
Variable plan : list Operation.
Variable keys : list bytes.
Variable value : bytes.
Variables begin_ end_ : Z.
Variable clock : nat -> Z.             (** readings of the steady clock, in nanoseconds *)

(** [RequestTracker::Clock::now()]. *)
Definition now : M state Z :=
  w <- on_fst read ;;
  on_fst (modify (set_readings (S (readings w)))) ;;
  ret (clock (readings w)).

(** [active_connection_count]. *)
Definition active_connection_count (w : t) : nat := length (filter (fun c => active c = true) (connections_ w)).

(** [interest] and [update_interest]. *)
Definition interest (c : connection) : Z :=
  let events := Z.lor Connection.EPOLLIN Connection.EPOLLRDHUP in
  if Buffer.empty (output c) then events else Z.lor events Connection.EPOLLOUT.

Definition update_interest (i : nat) : M state unit :=
  c <- on_connection i read ;;
  checked (lit "epoll_ctl modify failed") ;;
  on_os (modify (Os.register (socket c) (interest c))).

(** The request of an operation; its strings are copies. *)
Definition make_request (operation : Operation) : M state Protocol.Request :=
  match keys !! Z.to_nat (key_index operation) with
  | None => undefined
  | Some key =>
      on_env may_alloc ;;
      match opcode operation with
      | Protocol.op_set =>
          on_env may_alloc ;;
          ret (Protocol.MkRequest Protocol.op_set (request_id operation) key value 0)
      | op => ret (Protocol.MkRequest op (request_id operation) key [] 0)
      end
  end.

(** The loop of [fill_pipeline]; each round takes an operation of the plan. *)
Fixpoint fill_rounds (n : nat) (i : nat) : M state unit :=
  c <- on_connection i read ;;
  w <- on_fst read ;;
  if (RequestTracker.count (tracker c) <? pipeline) && (next_ w <? end_)
  then
    match n with
    | O => undefined
    | S n =>
        match plan !! Z.to_nat (next_ w) with
        | None => undefined
        | Some operation =>
            on_fst (modify (set_next (u64 (next_ w + 1)))) ;;
            request <- make_request operation ;;
            frame <- on_env (Protocol.encode_request request) ;;
            start <- now ;;
            on_output i (Buffer.append frame) ;;
            on_tracker i (RequestTracker.add (request_id operation) (opcode operation) start) ;;
            fill_rounds n i
        end
    end
  else ret tt.

Definition fill_pipeline (i : nat) : M state unit :=
  w <- on_fst read ;;
  fill_rounds (Z.to_nat (end_ - next_ w)) i.

(** The loop of [handle_writable]; each round uses up one outcome of [send]. *)
Fixpoint write_rounds (n : nat) (i : nat) : M state bool :=
  c <- on_connection i read ;;
  if Buffer.empty (output c) then ret true
  else
    match n with
    | O => undefined
    | S n =>
        result <- on_stream i (Socket.send (Buffer.readable_view (output c))) ;;
        match result with
        | Socket.taken k =>
            if 0 <? k
            then
              on_connection i (modify_opt (fun c =>
                match Buffer.retrieve k (output c) with
                | Some b => Some (set_output b c)
                | None => None
                end)) ;;
              write_rounds n i
            else ret false
        | Socket.send_error e =>
            if decide (e = Socket.EINTR) then write_rounds n i
            else if decide (e = Socket.EAGAIN \/ e = Socket.EWOULDBLOCK) then ret true
            else ret false
        end
    end.

Definition handle_writable (i : nat) : M state bool :=
  c <- on_connection i read ;;
  write_rounds (S (length (Socket.departures (stream c)))) i.

(** The loop of [decode_responses]; each round but the last removes a frame. *)
Fixpoint decode_rounds (n : nat) (i : nat) : M state unit :=
  match n with
  | O => undefined
  | S n =>
      c <- on_connection i read ;;
      if Buffer.empty (input c) then ret tt
      else
        decoded <- on_input i Protocol.decode_response ;;
        match decoded with
        | Protocol.incomplete => ret tt
        | Protocol.error e =>
            on_env may_alloc ;;
            throw (std_runtime_error (lit "invalid benchmark response: " ++ Protocol.message e))
        | Protocol.complete response =>
            finish <- now ;;
            on_counts i (RequestTracker.complete response finish) ;;
            decode_rounds n i
        end
  end.

Definition decode_responses (i : nat) : M state unit :=
  c <- on_connection i read ;;
  decode_rounds (S (length (Buffer.readable_view (input c)))) i.

(** The loop of [handle_readable]; each round uses up some of what arrived. *)
Fixpoint read_rounds (n : nat) (i : nat) : M state bool :=
  match n with
  | O => undefined
  | S n =>
      result <- on_stream i (Socket.recv read_chunk_size) ;;
      match result with
      | Socket.got bs =>
          on_input i (Buffer.append bs) ;;
          decode_responses i ;;
          read_rounds n i
      | Socket.eof => ret false
      | Socket.recv_error e =>
          if decide (e = Socket.EINTR) then read_rounds n i
          else if decide (e = Socket.EAGAIN \/ e = Socket.EWOULDBLOCK) then ret true
          else ret false
      end
  end.

Definition handle_readable (i : nat) : M state bool :=
  c <- on_connection i read ;;
  read_rounds (S (Socket.recv_calls (stream c))) i.

(** An operation of [tracker] and [statistics_] that does not allocate. *)
Definition without_env {P A} (f : M (P * Statistics.t) A) : M (P * (Statistics.t * env)) A := fun s =>
  let '(o, (p, st)) := f (s.1, s.2.1) in (o, (p, (st, s.2.2))).

(** [fail_connection]. *)
Definition fail_connection (i : nat) (error : bytes) : M state unit :=
  c <- on_connection i read ;;
  if negb (active c) then ret tt
  else
    failed <- on_counts i (without_env RequestTracker.fail_all) ;;
    (if negb (failed =? 0)
     then try_catch (on_statistics (Statistics.record_error error)) (fun _ => ret tt)
     else ret tt) ;;
    _ <- on_os Os.call ;;
    reset_socket i ;;
    on_connection i (modify deactivate).

(** [fail_unissued]. *)
Definition fail_unissued : M state unit :=
  on_fst (modify (fun w =>
    if next_ w <? end_
    then set_next end_ (set_statistics (Statistics.record_failures (u64 (end_ - next_ w)) (statistics_ w)) w)
    else w)).

(** The loop of [fail_everything] from connection [i] on. *)
Fixpoint fail_from (i n : nat) : M state unit :=
  match n with
  | O => ret tt
  | S n =>
      c <- on_connection i read ;;
      (if active c
       then
         _ <- on_counts i (without_env RequestTracker.fail_all) ;;
         on_connection i (modify deactivate) ;;
         reset_socket i
       else ret tt) ;;
      fail_from (S i) n
  end.

Definition fail_everything : M state unit :=
  w <- on_fst read ;;
  fail_from 0 (length (connections_ w)) ;;
  fail_unissued.

(** An event, and what the calls on its socket will find. *)
Record event := MkEvent {
  ev_fd : Z;
  ev_events : Z;
  ev_arrivals : list Socket.arrival;
  ev_departures : list Socket.departure
}.

Inductive wait :=
| ready (events : list event)
| interrupted
| timed_out
| wait_failed.

Definition has (events flag : Z) : bool := negb (Z.land events flag =? 0).

Definition arrive (ev : event) (k : Socket.t) : Socket.t :=
  Socket.MkSocket (Socket.arrivals k ++ ev_arrivals ev) (Socket.departures k ++ ev_departures ev) (Socket.sent k).

(** The [try] block of the loop over the events. *)
Definition serve_event (i : nat) (events : Z) : M state unit :=
  let keep := negb (has events EPOLLERR) in
  keep <- (if keep && has events Connection.EPOLLOUT then handle_writable i else ret keep) ;;
  keep <- (if keep && has events (Z.lor Connection.EPOLLIN (Z.lor Connection.EPOLLRDHUP EPOLLHUP))
           then handle_readable i else ret keep) ;;
  let keep := if keep && has events (Z.lor Connection.EPOLLRDHUP EPOLLHUP) then false else keep in
  if negb keep then fail_connection i (lit "benchmark connection closed")
  else
    fill_pipeline i ;;
    update_interest i.

Definition handle_event (ev : event) : M state unit :=
  w <- on_fst read ;;
  match connection_indexes_ w !! ev_fd ev with
  | None => ret tt
  | Some i =>
      c <- on_connection i read ;;
      if negb (active c) then ret tt
      else
        on_stream i (modify (arrive ev)) ;;
        try_catch (serve_event i (ev_events ev)) (fun x => fail_connection i (what x))
  end.

Fixpoint handle_events (evs : list event) : M state unit :=
  match evs with
  | [] => ret tt
  | ev :: evs => handle_event ev ;; handle_events evs
  end.

(** The first loop of [run], from connection [i] on. *)
Fixpoint fill_all (i n : nat) : M state unit :=
  match n with
  | O => ret tt
  | S n =>
      fill_pipeline i ;;
      update_interest i ;;
      fill_all (S i) n
  end.

Definition handled_all (w : t) : bool := negb (Statistics.handled (statistics_ w) <? u64 (end_ - begin_)).

(** The second one; when nothing more happens, [epoll_wait] times out. *)
Fixpoint serve (waits : list wait) : M state unit :=
  w <- on_fst read ;;
  if handled_all w then ret tt
  else if (active_connection_count w =? 0)%nat then fail_unissued
  else
    match waits with
    | [] | timed_out :: _ => throw (std_runtime_error (lit "benchmark I/O timed out"))
    | wait_failed :: _ => throw_system_error (lit "benchmark epoll_wait failed")
    | interrupted :: waits => serve waits
    | ready evs :: waits => handle_events evs ;; serve waits
    end.

(** [run]; an exception that leaves it terminates the program. *)
Definition run (waits : list wait) : M state Statistics.t :=
  try_catch
    (w <- on_fst read ;;
     fill_all 0 (length (connections_ w)) ;;
     serve waits)
    (fun x =>
       on_statistics (Statistics.record_error (what x)) ;;
       fail_everything) ;;
  w <- on_fst read ;;
  ret (statistics_ w).

End worker.

(** ** Construction and destruction *)

Definition build : Type := CacheServer.build.

Definition system_error {A} (operation : bytes) : M build A :=
  o <- on_fst read ;;
  on_snd may_alloc ;;
  throw (std_runtime_error (operation ++ lit ": " ++ Os.error_text o)).

Definition checked_call (operation : bytes) : M build unit :=
  b <- on_fst Os.call ;;
  if b then ret tt else system_error operation.

Definition opened_or_error (operation : bytes) : M build Z :=
  r <- on_fst Os.open_fd ;;
  match r with Some fd => ret fd | None => system_error operation end.

(** [create_epoll] and [add_to_epoll]. *)
Definition create_epoll : M build Z := opened_or_error (lit "epoll_create1 failed").

Definition add_to_epoll (fd events : Z) : M build unit :=
  checked_call (lit "epoll_ctl add failed") ;;
  on_fst (modify (Os.register fd events)).

(** The destructors: the connections, then the epoll instance. *)
Fixpoint close_sockets (cs : list connection) : M build unit :=
  match cs with
  | [] => ret tt
  | c :: cs => (if 0 <=? socket c then CacheServer.close_fd (socket c) else ret tt) ;; close_sockets cs
  end.

Definition destroy (w : t) : M build unit :=
  close_sockets (connections_ w) ;;
  CacheServer.close_fd (epoll_ w).

Section construction.
Variable inet_pton : bytes -> Z.
Variable host : bytes.

(** [connect_socket]. *)
Definition connect_socket : M build Z :=
  fd <- opened_or_error (lit "socket failed") ;;
  on_throw
    (checked_call (lit "setsockopt TCP_NODELAY failed") ;;
     (if inet_pton host =? 1 then ret tt
      else throw (std_invalid_argument (lit "benchmark host must be an IPv4 address"))) ;;
     checked_call (lit "connect failed") ;;
     checked_call (lit "fcntl O_NONBLOCK failed") ;;
     checked_call (lit "fcntl O_NONBLOCK failed") ;;
     ret fd)
    (CacheServer.close_fd fd).

(** [ClientConnection(descriptor)]: the buffers are made after the socket is owned. *)
Definition make_connection (fd : Z) : M build connection :=
  on_throw
    (input <- on_snd (Buffer.create 4096) ;;
     output <- on_snd (Buffer.create 4096) ;;
     ret (MkConnection fd input output ∅ true (Socket.MkSocket [] [] [])))
    (CacheServer.close_fd fd).

(** The loop of the constructor, [n] more connections. *)
Fixpoint connect_all (n : nat) (w : t) : M build t :=
  match n with
  | O => ret w
  | S n =>
      w <- on_throw
        (fd <- connect_socket ;;
         c <- make_connection fd ;;
         let w := MkClientWorker (next_ w) (epoll_ w) (connections_ w ++ [c]) (connection_indexes_ w) (statistics_ w) (readings w) in
         ret w) (destroy w) ;;
      w <- on_throw
        (c <- (match last (connections_ w) with Some c => ret c | None => undefined end) ;;
         on_snd may_alloc ;;
         add_to_epoll (socket c) (Z.lor Connection.EPOLLIN Connection.EPOLLRDHUP) ;;
         ret (MkClientWorker (next_ w) (epoll_ w) (connections_ w)
                (<[socket c := Nat.pred (length (connections_ w))]> (connection_indexes_ w)) (statistics_ w) (readings w)))
        (destroy w) ;;
      connect_all n w
  end.

(** [ClientWorker(options, plan, keys, value, begin, end, connection_count)]. *)
Definition create (begin_ connection_count : Z) : M build t :=
  epoll <- create_epoll ;;
  on_throw (on_snd may_alloc) (CacheServer.close_fd epoll) ;;
  connect_all (Z.to_nat connection_count) (MkClientWorker begin_ epoll [] ∅ Statistics.init 0).

End construction.

End ClientWorker.

(** ** [execute_plan] *)
Module Benchmark.

(** The keys and the operations that fill the cache. *)
Definition key_name (index : Z) : bytes := lit "highcache-bench-" ++ to_decimal index.

Fixpoint keys_from (index : Z) (n : nat) : list bytes :=
  match n with
  | O => []
  | S n => key_name index :: keys_from (index + 1) n
  end.

Definition make_keys (key_space : Z) : list bytes := keys_from 0 (Z.to_nat key_space).

Fixpoint preload_from (index : Z) (n : nat) : list Operation :=
  match n with
  | O => []
  | S n => MkOperation Protocol.op_set index (u64 (index + 1)) :: preload_from (index + 1) n
  end.

Definition make_preload (key_space : Z) : list Operation := preload_from 0 (Z.to_nat key_space).

(** The part of the plan and the connections of thread [thread_index]. *)
Definition plan_begin (plan_size threads thread_index : Z) : Z := u64 (plan_size * thread_index) / threads.
Definition plan_end (plan_size threads thread_index : Z) : Z := u64 (plan_size * u64 (thread_index + 1)) / threads.
Definition connection_count (connections threads thread_index : Z) : Z :=
  u64 (connections / threads + (if thread_index <? connections mod threads then 1 else 0)).

(** [Options]. *)
Record Options := MkOptions {
  o_host : bytes;
  o_port : Z;
  o_threads : Z;
  o_connections : Z;
  o_requests : Z;
  o_get_ratio : Double.t;
  o_value_size : Z;
  o_key_space : Z;
  o_seed : Z;
  o_warmup_requests : Z;
  o_pipeline : Z;
  o_csv : bool;
  o_help : bool
}.

(** [validate_options]. *)
Definition maximum_id_count : Z := u64_max - 1.

Definition validate_options (options : Options) : outcome unit :=
  let refuse text := Throw (std_invalid_argument (lit text)) in
  if bool_decide (o_host options = []) then refuse "--host must not be empty"
  else if o_port options =? 0 then refuse "--port must be between 1 and 65535"
  else if o_threads options =? 0 then refuse "--threads must be greater than zero"
  else if (o_connections options =? 0) || (o_connections options <? o_threads options)
  then refuse "--connections must be at least the thread count"
  else if o_requests options =? 0 then refuse "--requests must be greater than zero"
  else if Double.lt (o_get_ratio options) Double.zero || Double.lt (Double.of_Z 1) (o_get_ratio options) then refuse "--get-ratio must be between 0 and 1"
  else if o_value_size options >? Cache.max_value_length then refuse "--value-size exceeds the cache maximum"
  else if o_key_space options =? 0 then refuse "--key-space must be greater than zero"
  else if (o_pipeline options =? 0) || (o_pipeline options >? 1024) then refuse "--pipeline must be between 1 and 1024"
  else if (o_key_space options >? maximum_id_count)
    || (o_warmup_requests options >? u64 (maximum_id_count - o_key_space options))
    || (o_requests options >? u64 (u64 (maximum_id_count - o_key_space options) - o_warmup_requests options))
  then refuse "benchmark request_id range overflows"
  else Ret tt.

(** The loop of [generate_workload], on the shuffled opcodes and the key indexes drawn. *)
Fixpoint workload_from (first_request_id : Z) (draws : list (Protocol.Opcode * Z)) : list Operation :=
  match draws with
  | [] => []
  | (op, key) :: draws => MkOperation op key first_request_id :: workload_from (u64 (first_request_id + 1)) draws
  end.

(** What a thread meets: its descriptors and failures, its memory, and its events. *)
Record world := MkWorld {
  os : Os.t;
  heap : env;
  waits : list ClientWorker.wait;
  times : nat -> Z
}.

Section execute.
Variable inet_pton : bytes -> Z.
Variable options : Options.
Variable plan : list Operation.
Variable keys : list bytes.
Variable value : bytes.

(** The body of a thread: the worker is destroyed after its run; the handler records
    the whole part as failed. *)
Definition thread_body (thread_index : Z) (w : world) : M ClientWorker.build Statistics.t :=
  let begin_ := plan_begin (zlen plan) (o_threads options) thread_index in
  let end_ := plan_end (zlen plan) (o_threads options) thread_index in
  try_catch
    (worker <- ClientWorker.create inet_pton (o_host options) begin_
                 (connection_count (o_connections options) (o_threads options) thread_index) ;;
     r <- (fun s =>
        let '(o, (worker', s')) :=
          ClientWorker.run (o_pipeline options) plan keys value begin_ end_ (times w) (waits w) (worker, s) in
        (match o with Ret st => Ret (st, worker') | Throw _ | Undefined => Undefined end, s')) ;;
     ClientWorker.destroy r.2 ;;
     ret r.1)
    (fun x =>
       on_snd may_alloc ;; on_snd may_alloc ;;
       let st := Statistics.record_failures (u64 (end_ - begin_)) Statistics.init in
       ret (Statistics.MkStatistics (Statistics.successful_ st) (Statistics.failed_ st) (Statistics.get_hits_ st)
              (Statistics.get_misses_ st) (Statistics.latencies_ st) [what x])).

(** All threads, and the sum of their counts; an exception that leaves a thread
    terminates the program. *)
Fixpoint run_threads (thread_index : Z) (ws : list world) (combined : Statistics.t) : outcome Statistics.t :=
  match ws with
  | [] => Ret combined
  | w :: ws =>
      match thread_body thread_index w (os w, heap w) with
      | (Ret st, _) => run_threads (thread_index + 1) ws (Statistics.merge st combined)
      | (Throw _, _) | (Undefined, _) => Undefined
      end
  end.

Definition execute_plan (ws : list world) : outcome Statistics.t := run_threads 0 ws Statistics.init.

End execute.

(** [require_success]. *)
Definition require_success (st : Statistics.t) (phase : bytes) : outcome unit :=
  if negb (Statistics.failed_ st =? 0)
  then Throw (std_runtime_error (phase ++ lit " failed for " ++ to_decimal (Statistics.failed_ st) ++ lit " requests"))
  else Ret tt.

End Benchmark.
