(* ===== verification/BenchmarkMainModel.v ===== *)
(** * The load generator as a program ([benchmark/benchmark.cpp], [benchmark/main.cpp])

    Options from the command line, the workload drawn at random, the phases of a run, the
    summary of the latencies, the report and [main]; and how the main thread and the worker
    threads of [execute_plan] meet, as interleaving steps. *)
From stdpp Require Import sorting.
From S2P Require Import Prelude ErrorModel Effects MemoryModel ProtocolModel.
From S2P Require Import CacheModel ServerModel TextModel NumberModel BenchmarkModel.
Import Memory.

Definition and_then {A B} (o : outcome A) (k : A -> outcome B) : outcome B :=
  match o with Ret a => k a | Throw x => Throw x | Undefined => Undefined end.

(** ** The command line *)
Module CommandLine.
Import Benchmark.

Definition default_options : Options :=
  MkOptions (lit "127.0.0.1") 11211 8 128 1000000 (Double.of_decimal false 8 (-1)) 256 100000 12345 10000 1 false false.

(** [parse_unsigned] and [parse_ratio]; [checked_size] does nothing where [std::size_t]
    has 64 bits. *)
Definition parse_unsigned (value option : bytes) : outcome Z :=
  match whole_number u64_max value with
  | Some v => Ret v
  | None => Throw (std_invalid_argument (option ++ lit " expects an unsigned integer"))
  end.

Definition parse_ratio (value option : bytes) : outcome Double.t :=
  match Double.from_chars_finite value with
  | Some x => Ret x
  | None => Throw (std_invalid_argument (option ++ lit " expects a finite decimal number"))
  end.

(** What an option that takes a value does with it; nothing for an unknown option. *)
Definition set_field (name : bytes) : option (bytes -> Options -> outcome Options) :=
  let number (put : Z -> Options -> Options) (value : bytes) (o : Options) :=
    and_then (parse_unsigned value name) (fun v => Ret (put v o)) in
  if decide (name = lit "--host") then Some (fun value o => Ret
    (MkOptions value (o_port o) (o_threads o) (o_connections o) (o_requests o) (o_get_ratio o) (o_value_size o)
      (o_key_space o) (o_seed o) (o_warmup_requests o) (o_pipeline o) (o_csv o) (o_help o)))
  else if decide (name = lit "--port") then Some (fun value o =>
    and_then (parse_unsigned value name) (fun port =>
      if (port =? 0) || (port >? 65535) then Throw (std_invalid_argument (lit "--port must be between 1 and 65535"))
      else Ret
        (MkOptions (o_host o) port (o_threads o) (o_connections o) (o_requests o) (o_get_ratio o) (o_value_size o)
          (o_key_space o) (o_seed o) (o_warmup_requests o) (o_pipeline o) (o_csv o) (o_help o))))
  else if decide (name = lit "--threads") then Some (number (fun v o =>
    MkOptions (o_host o) (o_port o) v (o_connections o) (o_requests o) (o_get_ratio o) (o_value_size o)
      (o_key_space o) (o_seed o) (o_warmup_requests o) (o_pipeline o) (o_csv o) (o_help o)))
  else if decide (name = lit "--connections") then Some (number (fun v o =>
    MkOptions (o_host o) (o_port o) (o_threads o) v (o_requests o) (o_get_ratio o) (o_value_size o)
      (o_key_space o) (o_seed o) (o_warmup_requests o) (o_pipeline o) (o_csv o) (o_help o)))
  else if decide (name = lit "--requests") then Some (number (fun v o =>
    MkOptions (o_host o) (o_port o) (o_threads o) (o_connections o) v (o_get_ratio o) (o_value_size o)
      (o_key_space o) (o_seed o) (o_warmup_requests o) (o_pipeline o) (o_csv o) (o_help o)))
  else if decide (name = lit "--get-ratio") then Some (fun value o =>
    and_then (parse_ratio value name) (fun ratio => Ret
      (MkOptions (o_host o) (o_port o) (o_threads o) (o_connections o) (o_requests o) ratio (o_value_size o)
        (o_key_space o) (o_seed o) (o_warmup_requests o) (o_pipeline o) (o_csv o) (o_help o))))
  else if decide (name = lit "--value-size") then Some (number (fun v o =>
    MkOptions (o_host o) (o_port o) (o_threads o) (o_connections o) (o_requests o) (o_get_ratio o) v
      (o_key_space o) (o_seed o) (o_warmup_requests o) (o_pipeline o) (o_csv o) (o_help o)))
  else if decide (name = lit "--key-space") then Some (number (fun v o =>
    MkOptions (o_host o) (o_port o) (o_threads o) (o_connections o) (o_requests o) (o_get_ratio o) (o_value_size o)
      v (o_seed o) (o_warmup_requests o) (o_pipeline o) (o_csv o) (o_help o)))
  else if decide (name = lit "--seed") then Some (number (fun v o =>
    MkOptions (o_host o) (o_port o) (o_threads o) (o_connections o) (o_requests o) (o_get_ratio o) (o_value_size o)
      (o_key_space o) v (o_warmup_requests o) (o_pipeline o) (o_csv o) (o_help o)))
  else if decide (name = lit "--warmup-requests") then Some (number (fun v o =>
    MkOptions (o_host o) (o_port o) (o_threads o) (o_connections o) (o_requests o) (o_get_ratio o) (o_value_size o)
      (o_key_space o) (o_seed o) v (o_pipeline o) (o_csv o) (o_help o)))
  else if decide (name = lit "--pipeline") then Some (number (fun v o =>
    MkOptions (o_host o) (o_port o) (o_threads o) (o_connections o) (o_requests o) (o_get_ratio o) (o_value_size o)
      (o_key_space o) (o_seed o) (o_warmup_requests o) v (o_csv o) (o_help o)))
  else None.

Definition set_csv (o : Options) : Options :=
  MkOptions (o_host o) (o_port o) (o_threads o) (o_connections o) (o_requests o) (o_get_ratio o) (o_value_size o)
    (o_key_space o) (o_seed o) (o_warmup_requests o) (o_pipeline o) true (o_help o).

Definition set_help (o : Options) : Options :=
  MkOptions (o_host o) (o_port o) (o_threads o) (o_connections o) (o_requests o) (o_get_ratio o) (o_value_size o)
    (o_key_space o) (o_seed o) (o_warmup_requests o) (o_pipeline o) (o_csv o) true.

(** The loop of [parse_options]. *)
Fixpoint parse_arguments (args : list bytes) (o : Options) : outcome Options :=
  match args with
  | [] => Ret o
  | argument :: rest =>
      if decide (argument = lit "--help") then parse_arguments rest (set_help o)
      else if decide (argument = lit "--csv") then parse_arguments rest (set_csv o)
      else
        match set_field argument with
        | None => Throw (std_invalid_argument (lit "unknown benchmark option: " ++ argument))
        | Some put =>
            match rest with
            | [] => Throw (std_invalid_argument (argument ++ lit " requires a value"))
            | value :: rest => and_then (put value o) (parse_arguments rest)
            end
        end
  end.

Definition parse_options (args : list bytes) : outcome Options :=
  and_then (parse_arguments args default_options) (fun o =>
    if o_help o then Ret o else and_then (validate_options o) (fun _ => Ret o)).

End CommandLine.

(** ** The workload *)
Module Workload.
Section workload.
Context {R : Random}.

(** The key indexes, drawn one after the other. *)
Fixpoint draw_keys (key_space : Z) (opcodes : list Protocol.Opcode) (g : Mt19937.t) : list (Protocol.Opcode * Z) :=
  match opcodes with
  | [] => []
  | op :: opcodes =>
      let '(key, g) := uniform_int (u64 (key_space - 1)) g in (op, key) :: draw_keys key_space opcodes g
  end.

(** [generate_workload]; filling more opcodes than there are is undefined. The vector
    of opcodes is allocated before it is filled; that allocation, like the others of
    the main thread, is taken to succeed. *)
Definition generate_workload (request_count : Z) (get_ratio : Double.t) (key_space seed first_request_id : Z) :
    outcome (list Operation) :=
  if (key_space =? 0) || Double.lt get_ratio Double.zero || Double.lt (Double.of_Z 1) get_ratio || negb (Double.is_finite get_ratio)
  then Throw (std_invalid_argument (lit "invalid workload generation parameters"))
  else if negb (request_count =? 0) && (first_request_id >? u64_max - (request_count - 1))
  then Throw (std_invalid_argument (lit "workload request_id range overflows"))
  else
    match Double.llround (Double.mul (Double.of_Z request_count) get_ratio) with
    | None => Undefined
    | Some rounded =>
        let get_count := u64 rounded in
        if get_count <=? request_count
        then
          let opcodes := replicate (Z.to_nat get_count) Protocol.op_get ++
            replicate (Z.to_nat (request_count - get_count)) Protocol.op_set in
          let '(opcodes, g) := shuffle (Mt19937.create seed) opcodes in
          Ret (Benchmark.workload_from first_request_id (draw_keys key_space opcodes g))
        else Undefined
    end.

End workload.

(** [make_value]. *)
Fixpoint value_from (n : nat) (g : Mt19937.t) : bytes :=
  match n with
  | O => []
  | S n => let '(x, g) := Mt19937.next g in Protocol.byte_of_Z (Z.land x 0xff) :: value_from n g
  end.

Definition make_value (size seed : Z) : bytes :=
  value_from (Z.to_nat size) (Mt19937.create (Z.lxor seed 0x56414C5545554C4C)).

End Workload.

(** ** Latencies *)
Module Latency.

Record LatencySummary := MkLatencySummary {
  average_us : Double.t;
  p50_us : Double.t;
  p95_us : Double.t;
  p99_us : Double.t
}.

(** [std::chrono::duration<double, std::micro>(latency).count()]. *)
Definition microseconds (ns : Z) : Double.t := Double.div (Double.of_Z ns) (Double.of_Z 1000).

(** [std::accumulate]: the sum of 64-bit numbers, undefined if it overflows. *)
Fixpoint accumulate (total : Z) (l : list Z) : option Z :=
  match l with
  | [] => Some total
  | x :: l => if (- 2 ^ 63 <=? total + x) && (total + x <=? i64_max) then accumulate (total + x) l else None
  end.

(** The rank of a quantile among [n], and the latency there. *)
Definition rank (quantile : Double.t) (n : Z) : option Z :=
  option_map (fun c => Z.max 1 c) (Double.ceil (Double.mul quantile (Double.of_Z n))).

Definition percentile (sorted : list Z) (quantile : Double.t) : option Double.t :=
  r ← rank quantile (zlen sorted);
  microseconds <$> sorted !! Z.to_nat (r - 1).

(** [summarize_latencies]; nothing where the behaviour is undefined. *)
Definition summarize_latencies (latencies : list Z) : option LatencySummary :=
  match latencies with
  | [] => Some (MkLatencySummary Double.zero Double.zero Double.zero Double.zero)
  | _ =>
      let sorted := merge_sort Z.le latencies in
      total ← accumulate 0 sorted;
      p50 ← percentile sorted (Double.of_decimal false 50 (-2));
      p95 ← percentile sorted (Double.of_decimal false 95 (-2));
      p99 ← percentile sorted (Double.of_decimal false 99 (-2));
      Some (MkLatencySummary (Double.div (microseconds total) (Double.of_Z (zlen sorted))) p50 p95 p99)
  end.

End Latency.

(** ** The run *)
Module Run.
Import Benchmark.

Record Result := MkResult {
  requests : Z;
  successful : Z;
  failed : Z;
  get_hits : Z;
  get_misses : Z;
  duration : Double.t;
  throughput_rps : Double.t;
  latency : Latency.LatencySummary;
  errors : list bytes
}.

(** [Statistics::finish]. *)
Definition finish (st : Statistics.t) (seconds : Double.t) : option Result :=
  summary ← Latency.summarize_latencies (Statistics.latencies_ st);
  Some (MkResult (Statistics.handled st) (Statistics.successful_ st) (Statistics.failed_ st) (Statistics.get_hits_ st)
    (Statistics.get_misses_ st) seconds
    (if Double.lt Double.zero seconds then Double.div (Double.of_Z (Statistics.handled st)) seconds else Double.zero)
    summary (Statistics.errors_ st)).

(** [hit_ratio]. *)
Definition hit_ratio (r : Result) : Double.t :=
  let gets := u64 (get_hits r + get_misses r) in
  if gets =? 0 then Double.zero else Double.div (Double.of_Z (get_hits r)) (Double.of_Z gets).

(** What the threads of each phase meet, and how long the measured phase takes, in
    nanoseconds. *)
Record phases := MkPhases {
  preload_worlds : list world;
  warmup_worlds : list world;
  measured_worlds : list world;
  elapsed : Z
}.

Section run.
Context {R : Random}.
Variable inet_pton : bytes -> Z.
Variable options : Options.

Let keys : list bytes := make_keys (o_key_space options).
Let value : bytes := Workload.make_value (o_value_size options) (o_seed options).

(** [require_success(execute_plan(...), phase)]. *)
Definition required (plan : list Operation) (ws : list world) (phase : bytes) : outcome unit :=
  and_then (execute_plan inet_pton options plan keys value ws) (fun st => require_success st phase).

(** The warm-up. *)
Definition warm_up (warmup_first_id : Z) (ws : list world) : outcome unit :=
  if negb (o_warmup_requests options =? 0)
  then
    and_then (Workload.generate_workload (o_warmup_requests options) (o_get_ratio options) (o_key_space options)
                (Z.lxor (o_seed options) 0x5741524D55504C4C) warmup_first_id)
      (fun warmup => required warmup ws (lit "warmup"))
  else Ret tt.

(** [run_benchmark]. *)
Definition run_benchmark (p : phases) : outcome Result :=
  and_then (validate_options options) (fun _ =>
  and_then (required (make_preload (o_key_space options)) (preload_worlds p) (lit "preload")) (fun _ =>
  let warmup_first_id := u64 (o_key_space options + 1) in
  and_then (warm_up warmup_first_id (warmup_worlds p)) (fun _ =>
  let measured_first_id := u64 (warmup_first_id + o_warmup_requests options) in
  and_then (Workload.generate_workload (o_requests options) (o_get_ratio options) (o_key_space options) (o_seed options)
              measured_first_id) (fun measured =>
  and_then (execute_plan inet_pton options measured keys value (measured_worlds p)) (fun st =>
  match finish st (Double.div (Double.of_Z (elapsed p)) (Double.of_Z 1000000000)) with
  | Some r => Ret r
  | None => Undefined
  end))))).

End run.
End Run.

(** ** The report and [main] *)
Module BenchmarkMain.
Import Benchmark.

Definition newline : bytes := [Byte.x0a].

Definition csv_header : list bytes :=
  lit <$> ["requests"; "successful"; "failed"; "threads"; "connections"; "value_size"; "get_ratio"; "duration_seconds";
    "throughput_rps"; "avg_us"; "p50_us"; "p95_us"; "p99_us"; "get_hits"; "get_misses"; "hit_ratio"; "key_space"; "seed";
    "pipeline"; "warmup_requests"; "error_count"]%string.

Definition csv_row (o : Options) (r : Run.Result) : list bytes :=
  [to_decimal (Run.requests r); to_decimal (Run.successful r); to_decimal (Run.failed r);
   to_decimal (o_threads o); to_decimal (o_connections o); to_decimal (o_value_size o);
   Double.to_fixed3 (o_get_ratio o); Double.to_fixed3 (Run.duration r); Double.to_fixed3 (Run.throughput_rps r);
   Double.to_fixed3 (Latency.average_us (Run.latency r)); Double.to_fixed3 (Latency.p50_us (Run.latency r));
   Double.to_fixed3 (Latency.p95_us (Run.latency r)); Double.to_fixed3 (Latency.p99_us (Run.latency r));
   to_decimal (Run.get_hits r); to_decimal (Run.get_misses r); Double.to_fixed3 (Run.hit_ratio r);
   to_decimal (o_key_space o); to_decimal (o_seed o); to_decimal (o_pipeline o); to_decimal (o_warmup_requests o);
   to_decimal (zlen (Run.errors r))].

(** Fields with commas between them. *)
Fixpoint comma_separated (fields : list bytes) : bytes :=
  match fields with
  | [] => []
  | [field] => field
  | field :: fields => field ++ lit "," ++ comma_separated fields
  end.

Definition line (label value : bytes) : bytes := label ++ value ++ newline.

(** [print_result]. *)
Definition print_result (o : Options) (r : Run.Result) : bytes :=
  if o_csv o
  then comma_separated csv_header ++ newline ++ comma_separated (csv_row o r) ++ newline
  else
    line (lit "Requests: ") (to_decimal (Run.requests r)) ++
    line (lit "Successful: ") (to_decimal (Run.successful r)) ++
    line (lit "Failed: ") (to_decimal (Run.failed r)) ++
    line (lit "Threads: ") (to_decimal (o_threads o)) ++
    line (lit "Connections: ") (to_decimal (o_connections o)) ++
    line (lit "Value Size: ") (to_decimal (o_value_size o)) ++
    line (lit "GET Ratio: ") (Double.to_fixed3 (o_get_ratio o)) ++
    line (lit "Duration: ") (Double.to_fixed3 (Run.duration r) ++ lit " s") ++
    line (lit "Throughput: ") (Double.to_fixed3 (Run.throughput_rps r) ++ lit " req/s") ++ newline ++
    line (lit "Latency:") [] ++
    line (lit "  AVG: ") (Double.to_fixed3 (Latency.average_us (Run.latency r)) ++ lit " us") ++
    line (lit "  P50: ") (Double.to_fixed3 (Latency.p50_us (Run.latency r)) ++ lit " us") ++
    line (lit "  P95: ") (Double.to_fixed3 (Latency.p95_us (Run.latency r)) ++ lit " us") ++
    line (lit "  P99: ") (Double.to_fixed3 (Latency.p99_us (Run.latency r)) ++ lit " us") ++ newline ++
    line (lit "GET:") [] ++
    line (lit "  Hits: ") (to_decimal (Run.get_hits r)) ++
    line (lit "  Misses: ") (to_decimal (Run.get_misses r)) ++
    line (lit "  Hit Ratio: ") (Double.to_fixed3 (Run.hit_ratio r)) ++
    concat (line (lit "Error: ") <$> Run.errors r).

(** [print_usage]. *)
Definition usage : bytes :=
  concat ((fun text => line (lit text) []) <$> ["usage: highcache_benchmark [options]"; "  --host HOST"; "  --port PORT";
    "  --threads COUNT"; "  --connections COUNT"; "  --requests COUNT"; "  --get-ratio RATIO"; "  --value-size BYTES";
    "  --key-space COUNT"; "  --seed VALUE"; "  --warmup-requests COUNT"; "  --pipeline DEPTH"; "  --csv"]%string).

(** The end of the program: its status and what it wrote to the standard streams. *)
Record ending := MkEnding { status : Z; out : bytes; err : bytes }.

(** [main], on its arguments without the name of the program. *)
Definition main {R : Random} (inet_pton : bytes -> Z) (args : list bytes) (p : Run.phases) : outcome ending :=
  match
    and_then (CommandLine.parse_options args) (fun options =>
      if o_help options then Ret (MkEnding 0 usage [])
      else
        and_then (Run.run_benchmark inet_pton options p) (fun result =>
          Ret (MkEnding (if Run.failed result =? 0 then 0 else 2) (print_result options result) [])))
  with
  | Throw x => Ret (MkEnding 1 [] (lit "highcache_benchmark: " ++ what x ++ newline))
  | o => o
  end.

End BenchmarkMain.

(** ** The threads of [execute_plan]

    The two [std::barrier]s, the clock that is read between them, and the joins. What a
    thread computes is [Benchmark.thread_body]; here its steps are those that others can
    see, in all interleavings. *)

(** [std::barrier]: the arrivals of the current phase, and how many phases have ended. *)
Module Barrier.

Record t := MkBarrier { expected : nat; arrived : nat; phase : nat }.

Definition create (n : nat) : t := MkBarrier n 0 0.

(** [arrive]: the token is the phase; the last arrival ends it. *)
Definition arrive (b : t) : nat * t :=
  (phase b,
   if (S (arrived b) =? expected b)%nat then MkBarrier (expected b) 0 (S (phase b))
   else MkBarrier (expected b) (S (arrived b)) (phase b)).

(** Whether [wait] with a token returns. *)
Definition passed (token : nat) (b : t) : bool := negb (phase b =? token)%nat.

End Barrier.

Module ExecutePlan.
Section plan.
Variable n : nat.   (** [options.threads] *)

(** Where a worker thread is; [built] says that its worker was constructed. The handler of
    its exceptions takes it through the same two barriers. *)
Inductive thread_pc :=
| building
| at_ready (built : bool)
| in_ready (built : bool) (token : nat)
| at_start (built : bool)
| in_start (built : bool) (token : nat)
| running
| finished.

(** Where the main thread is. *)
Inductive main_pc :=
| creating (i : nat)
| m_at_ready
| m_in_ready (token : nat)
| read_started
| m_at_start
| m_in_start (token : nat)
| joining (i : nat)
| read_finished
| returned.

Record state := MkState { ready : Barrier.t; start : Barrier.t; threads : list thread_pc; main : main_pc }.

Definition init : state := MkState (Barrier.create (S n)) (Barrier.create (S n)) [] (creating 0).

(** A step of a thread; [built] is whether its construction succeeds. *)
Definition thread_step (built : bool) (r st : Barrier.t) (pc : thread_pc) : option (Barrier.t * Barrier.t * thread_pc) :=
  match pc with
  | building => Some (r, st, at_ready built)
  | at_ready built => let '(token, r) := Barrier.arrive r in Some (r, st, in_ready built token)
  | in_ready built token => if Barrier.passed token r then Some (r, st, at_start built) else None
  | at_start built => let '(token, st) := Barrier.arrive st in Some (r, st, in_start built token)
  | in_start built token =>
      if Barrier.passed token st then Some (r, st, if built : bool then running else finished) else None
  | running => Some (r, st, finished)
  | finished => None
  end.

(** A step of the main thread. *)
Definition main_step (s : state) : option state :=
  let '(MkState r st ts m) := s in
  match m with
  | creating i => if (i <? n)%nat then Some (MkState r st (ts ++ [building]) (creating (S i))) else Some (MkState r st ts m_at_ready)
  | m_at_ready => let '(token, r) := Barrier.arrive r in Some (MkState r st ts (m_in_ready token))
  | m_in_ready token => if Barrier.passed token r then Some (MkState r st ts read_started) else None
  | read_started => Some (MkState r st ts m_at_start)
  | m_at_start => let '(token, st) := Barrier.arrive st in Some (MkState r st ts (m_in_start token))
  | m_in_start token => if Barrier.passed token st then Some (MkState r st ts (joining 0)) else None
  | joining i =>
      if (i <? n)%nat
      then match ts !! i with Some finished => Some (MkState r st ts (joining (S i))) | _ => None end
      else Some (MkState r st ts read_finished)
  | read_finished => Some (MkState r st ts returned)
  | returned => None
  end.

Inductive step : state -> state -> Prop :=
| step_main s s' : main_step s = Some s' -> step s s'
| step_thread i built r st ts m pc r' st' pc' :
    ts !! i = Some pc -> thread_step built r st pc = Some (r', st', pc') ->
    step (MkState r st ts m) (MkState r' st' (<[i := pc']> ts) m).

End plan.
End ExecutePlan.
