(* ===== verification/BenchmarkFacts.v ===== *)
(** * The load generator counts every operation

    The invariant of a worker: each operation of its part of the plan has been
    answered, is waiting for its answer on one connection, or has not been sent. *)
From S2P Require Import Prelude ErrorModel Effects MemoryModel ProgressFacts BufferModel ProtocolModel.
From S2P Require Import ProtocolFacts ResponseFacts CacheModel ConnectionModel WorkerModel ServerModel ServerFacts.
From S2P Require Import ConnectionIOFacts TextModel BenchmarkModel.
Import Memory.
Import ClientWorker.

(** ** What every operation keeps, however it ends *)

Definition stays {S A} (P : S -> Prop) (m : M S A) : Prop := forall s, P s -> P (m s).2.

Create HintDb stays discriminated.

Lemma stays_ret {S A} (P : S -> Prop) (a : A) : stays P (ret a).
Proof. by intros s. Qed.

Lemma stays_throw {S A} (P : S -> Prop) x : stays P (@throw S A x).
Proof. by intros s. Qed.

Lemma stays_undefined {S A} (P : S -> Prop) : stays P (@undefined S A).
Proof. by intros s. Qed.

Lemma stays_read {S} (P : S -> Prop) : stays P read.
Proof. by intros s. Qed.

Lemma stays_bind {S A B} (P : S -> Prop) (m : M S A) (k : A -> M S B) :
  stays P m -> (forall a, stays P (k a)) -> stays P (bind m k).
Proof.
  intros Hm Hk s Hs. specialize (Hm s Hs). unfold bind. destruct (m s) as [[a|x|] s']; [by apply Hk|done|done].
Qed.

Lemma stays_on_fst {S T A} (P : T -> Prop) (m : M S A) : stays (at_snd P) (on_fst m).
Proof. intros s Hs. unfold on_fst, at_snd. by destruct (m s.1). Qed.

Lemma stays_on_snd {S T A} (P : T -> Prop) (m : M T A) : stays P m -> stays (at_snd (S := S) P) (on_snd m).
Proof. intros Hm s Hs. specialize (Hm s.2 Hs). unfold on_snd, at_snd in *. by destruct (m s.2). Qed.

Lemma stays_may_alloc : stays quiet may_alloc.
Proof. intros e He. unfold may_alloc. by rewrite He. Qed.

#[export] Hint Resolve stays_ret stays_throw stays_undefined stays_read stays_on_fst stays_may_alloc : stays.

Ltac stays_step :=
  repeat first
    [ progress (cbn beta iota zeta)
    | solve [auto with stays]
    | (apply stays_bind; [|intros ?])
    | apply stays_on_snd
    | match goal with |- stays _ (match ?x with _ => _ end) => destruct x end ].

(** A verified operation, with what it keeps. *)
Lemma wp_stays {S A} (P : S -> Prop) (m : M S A) s Q :
  stays P m -> P s -> wp m s Q -> wp m s (fun o s' => Q o s' /\ P s').
Proof. intros Hm Hs Hw. split; [exact Hw|by apply Hm]. Qed.

Lemma wp_conj {S A} (m : M S A) s Q R : wp m s Q -> wp m s R -> wp m s (fun o s' => Q o s' /\ R o s').
Proof. by split. Qed.

Lemma decode_response_stays : stays (at_snd quiet) Protocol.decode_response.
Proof. unfold Protocol.decode_response, Protocol.fail, Protocol.assign. stays_step. Qed.

Lemma reserve_stays n : stays (at_snd quiet) (CharVector.reserve n).
Proof. unfold CharVector.reserve. stays_step. Qed.

Lemma resize_stays n : stays (at_snd quiet) (CharVector.resize n).
Proof. unfold CharVector.resize. stays_step. Qed.

Lemma on_storage_stays {A} (f : M (CharVector.t * env) A) :
  stays (at_snd quiet) f -> stays (at_snd quiet) (Buffer.on_storage f).
Proof.
  intros Hf s Hs. specialize (Hf (Buffer.storage_ s.1, s.2) Hs). unfold Buffer.on_storage, at_snd in *.
  by destruct (f _) as [o [v e]].
Qed.

Lemma append_stays bs : stays (at_snd quiet) (Buffer.append bs).
Proof.
  assert (forall n, stays (at_snd quiet) (Buffer.prepare_append n)) as Hp.
  { intros n. unfold Buffer.prepare_append. stays_step; [apply on_storage_stays, resize_stays|].
    generalize (u64 (Buffer.readable_bytes a + n) `max` (if CharVector.capacity (Buffer.storage_ a) <=? u64_max `div` 2
      then u64 (CharVector.capacity (Buffer.storage_ a) * 2) else CharVector.max_size)). intros k s Hs.
    pose proof (reserve_stays k (CharVector.MkCharVector [] 0, s.2) Hs) as H.
    by destruct (CharVector.reserve k _) as [[u|x|] [v e]]. }
  unfold Buffer.append, Buffer.append_raw. stays_step. apply on_storage_stays, resize_stays.
Qed.

#[export] Hint Resolve decode_response_stays append_stays : stays.

(** ** A buffer far from the limits of a vector takes what is appended *)

Definition small (b : Buffer.t) : Prop := CharVector.capacity (Buffer.storage_ b) <= 2 ^ 60.

Lemma reserve_returns n e :
  quiet e -> 0 < n <= CharVector.max_size ->
  CharVector.reserve n (CharVector.MkCharVector [] 0, e) = (Ret tt, (CharVector.MkCharVector [] n, e)).
Proof.
  intros He Hn. unfold CharVector.reserve. rewrite Z.gtb_ltb, (proj2 (Z.ltb_ge _ _)) by lia.
  unfold bind, on_fst, on_snd, read, modify, may_alloc. cbn [fst snd CharVector.capacity].
  rewrite Z.gtb_ltb, (proj2 (Z.ltb_lt _ _)) by lia. cbn [fst snd]. by rewrite He.
Qed.

Lemma prepare_append_small n b e :
  Buffer.buffer_ok b -> quiet e -> small b -> 0 <= n -> zlen (Buffer.readable_view b) + n <= 2 ^ 59 ->
  wp (Buffer.prepare_append n) (b, e) (post
    (fun _ s => small s.1) (fun _ _ => False)).
Proof.
  intros Hb He Hs Hn Hl. pose proof Hb as [H1 H2]. unfold small in *.
  assert (zlen (Buffer.readable_view b) = CharVector.size (Buffer.storage_ b) - Buffer.reader_index_ b) as Hlen.
  { unfold Buffer.readable_view, CharVector.size in *. rewrite length_drop. lia. }
  unfold Buffer.prepare_append. apply wp_bind, wp_on_fst, wp_read. cbn beta iota zeta.
  rewrite (Buffer.readable_bytes_view b Hb). unfold Buffer.writable_bytes, CharVector.max_size in *.
  rewrite !(u64_small) by lia. rewrite Z.gtb_ltb, (proj2 (Z.ltb_ge _ _)) by lia.
  destruct (Z.leb_spec n (CharVector.capacity (Buffer.storage_ b) - CharVector.size (Buffer.storage_ b))) as [Hw|Hw].
  { by apply wp_ret. }
  destruct (Z.leb_spec n (Buffer.reader_index_ b + (CharVector.capacity (Buffer.storage_ b) - CharVector.size (Buffer.storage_ b)))) as [Hr|Hr].
  - apply wp_bind, wp_on_fst. eapply wp_modify_opt.
    { unfold CharVector.write_at. rewrite (proj2 (Z.leb_le _ _)) by lia. reflexivity. }
    cbn beta iota. apply wp_bind, Buffer.wp_on_storage, Buffer.resize_wp; simpl; [lia| |by apply wp_on_fst, wp_modify].
    unfold CharVector.size in *. simpl. rewrite length_app, length_drop. lia.
  - rewrite (proj2 (Z.leb_le _ (u64_max / 2))) by (unfold u64_max; change ((2 ^ 64 - 1) / 2) with (2 ^ 63 - 1); lia).
    unfold wp. rewrite reserve_returns by (try done; unfold CharVector.max_size; lia). simpl. lia.
Qed.

Lemma append_small bs b e :
  Buffer.buffer_ok b -> quiet e -> small b -> zlen (Buffer.readable_view b) + zlen bs <= 2 ^ 59 ->
  wp (Buffer.append bs) (b, e) (post
    (fun _ s => Buffer.buffer_ok s.1 /\ Buffer.readable_view s.1 = Buffer.readable_view b ++ bs /\ small s.1 /\ quiet s.2)
    (fun _ _ => False)).
Proof.
  intros Hb He Hs Hl.
  assert (wp (Buffer.append bs) (b, e) (post (fun _ s => small s.1) (fun _ _ => False))) as Hsm.
  { unfold Buffer.append, Buffer.append_raw. destruct (zlen bs =? 0); [by apply wp_ret|].
    pose proof (Buffer.prepare_append_wp (zlen bs) b e Hb ltac:(lia)) as H1.
    pose proof (prepare_append_small (zlen bs) b e Hb He Hs ltac:(lia) Hl) as H2.
    apply wp_bind. eapply wp_mono; [exact (wp_conj _ _ _ _ H1 H2)|]. clear H1 H2.
    intros [[]|x|] [b1 e1] [H1 H2]; cbn [fst snd post] in *; [|done..].
    destruct H1 as (Hb1 & Hv1 & Hroom & _). apply wp_bind, wp_on_fst, wp_read. cbn beta iota zeta.
    pose proof Hb1 as [G1 G2]. unfold CharVector.max_size in *. rewrite u64_small by lia.
    apply wp_bind, Buffer.wp_on_storage, Buffer.resize_wp; [lia|lia|]. cbn beta iota. apply wp_on_fst.
    unfold CharVector.size in *. rewrite take_ge by lia.
    replace (Z.to_nat (zlen (CharVector.elements (Buffer.storage_ b1)) + zlen bs - zlen (CharVector.elements (Buffer.storage_ b1))))
      with (length bs) by lia.
    eapply wp_modify_opt.
    { unfold CharVector.write_at, CharVector.size. simpl.
      rewrite length_app, length_replicate, (proj2 (Z.leb_le _ _)) by lia. reflexivity. }
    exact H2. }
  pose proof (Buffer.append_wp bs b e Hb) as Hw. pose proof (append_stays bs (b, e) He) as Hq. unfold wp, at_snd in *.
  destruct (Buffer.append bs (b, e)) as [[[]|x|] [b1 e1]]; cbn [fst snd post] in *; [|done..]. naive_solver.
Qed.

(** ** References to connections *)

Lemma on_part_wp {P A} get put i (f : M P A) (s : state) c Q :
  connections_ s.1 !! i = Some c ->
  wp f (get c) (fun o p => Q o (set_connections (<[i := put p c]> (connections_ s.1)) s.1, s.2)) ->
  wp (on_part get put i f) s Q.
Proof. intros Hi. unfold wp, on_part. rewrite Hi. by destruct (f (get c)). Qed.

Lemma on_part_env_wp {P A} get put i (f : M (P * env) A) (s : state) c Q :
  connections_ s.1 !! i = Some c ->
  wp f (get c, s.2.2) (fun o p => Q o (set_connections (<[i := put p.1 c]> (connections_ s.1)) s.1, (s.2.1, p.2))) ->
  wp (on_part_env get put i f) s Q.
Proof. intros Hi. unfold wp, on_part_env. rewrite Hi. by destruct (f (get c, s.2.2)) as [o [p e]]. Qed.

Lemma on_counts_wp {A} i (f : M (RequestTracker.t * (Statistics.t * env)) A) (s : state) c Q :
  connections_ s.1 !! i = Some c ->
  wp f (tracker c, (statistics_ s.1, s.2.2)) (fun o p =>
    Q o (set_statistics p.2.1 (set_connections (<[i := set_tracker p.1 c]> (connections_ s.1)) s.1), (s.2.1, p.2.2))) ->
  wp (on_counts i f) s Q.
Proof. intros Hi. unfold wp, on_counts. rewrite Hi. by destruct (f _) as [o [tr [st e]]]. Qed.

Lemma on_statistics_wp {A} (f : M (Statistics.t * env) A) (s : state) Q :
  wp f (statistics_ s.1, s.2.2) (fun o p => Q o (set_statistics p.1 s.1, (s.2.1, p.2))) ->
  wp (on_statistics f) s Q.
Proof. unfold wp, on_statistics. by destruct (f _) as [o [st e]]. Qed.

Lemma same_connection (w : t) i c : connections_ w !! i = Some c -> set_connections (<[i := c]> (connections_ w)) w = w.
Proof. intros Hi. destruct w. unfold set_connections. simpl in *. by rewrite list_insert_id. Qed.

Lemma read_connection_wp i (s : state) c Q :
  connections_ s.1 !! i = Some c -> Q (Ret c) s -> wp (on_connection i read) s Q.
Proof.
  intros Hi HQ. eapply on_part_wp; [exact Hi|]. apply wp_read. cbn beta. rewrite same_connection by done. by destruct s.
Qed.

Lemma on_os_wp {A} (f : M Os.t A) (s : state) Q :
  wp f s.2.1 (fun o os => Q o (s.1, (os, s.2.2))) -> wp (on_os f) s Q.
Proof. destruct s as [w [os e]]. intros H. by apply wp_on_snd, wp_on_fst. Qed.

Lemma bench_on_env_wp {A} (f : M env A) (s : state) Q :
  wp f s.2.2 (fun o e => Q o (s.1, (s.2.1, e))) -> wp (on_env f) s Q.
Proof. destruct s as [w [os e]]. intros H. by apply wp_on_snd, wp_on_snd. Qed.

Lemma on_worker_wp {A} (f : M t A) (s : state) Q :
  wp f s.1 (fun o w => Q o (w, s.2)) -> wp (on_fst f) s Q.
Proof. destruct s. apply wp_on_fst. Qed.

Lemma quiet_alloc_wp (e : env) Q : quiet e -> Q (Ret tt) e -> wp may_alloc e Q.
Proof. intros He HQ. unfold wp, may_alloc. by rewrite He. Qed.

(** ** The invariant of a worker *)

(** The open sockets of connections. *)
Definition sockets (cs : list connection) : list Z := filter (fun fd => 0 <= fd) (socket <$> cs).

Record stats_ok (span : Z) (st : Statistics.t) : Prop := {
  st_signs : 0 <= Statistics.successful_ st /\ 0 <= Statistics.failed_ st /\
    0 <= Statistics.get_hits_ st /\ 0 <= Statistics.get_misses_ st;
  st_gets : Statistics.get_hits_ st + Statistics.get_misses_ st <= Statistics.successful_ st;
  st_answers : Statistics.successful_ st <= zlen (Statistics.latencies_ st) <=
    Statistics.successful_ st + Statistics.failed_ st;
  st_span : Forall (fun latency => 0 <= latency <= span) (Statistics.latencies_ st)
}.

(** Operations whose fate is known. *)
Definition done_count (st : Statistics.t) : Z := Statistics.successful_ st + Statistics.failed_ st.

Definition pending_count (cs : list connection) : Z := zsum (fun c => RequestTracker.count (tracker c)) cs.

(** Recording the answer to a request. *)
Lemma count_response span op status latency st :
  stats_ok span st -> done_count st < 2 ^ 36 -> 0 <= latency <= span ->
  let st' := Statistics.count op status (Statistics.add_latency latency st) in
  stats_ok span st' /\ done_count st' = done_count st + 1.
Proof.
  intros [H1 H2 H3 H4] Hd Hl st'. unfold done_count in *.
  assert (forall x, 0 <= x <= 2 ^ 36 -> u64 (x + 1) = x + 1) as Hu by (intros x Hx; apply u64_small; lia).
  subst st'. destruct st as [su fa gh gm la er]. cbn [Statistics.successful_ Statistics.failed_ Statistics.get_hits_
    Statistics.get_misses_ Statistics.latencies_] in *.
  destruct op, status; cbn [Statistics.count Statistics.add_latency Statistics.successful_ Statistics.failed_
    Statistics.get_hits_ Statistics.get_misses_ Statistics.latencies_ Statistics.errors_];
    rewrite !Hu by lia; (split; [constructor; cbn [Statistics.successful_ Statistics.failed_ Statistics.get_hits_
      Statistics.get_misses_ Statistics.latencies_]; rewrite ?length_app, ?length_cons, ?length_nil; try lia|lia]);
    (apply Forall_app; split; [done|by apply Forall_singleton]).
Qed.

Lemma record_response_wp op status latency st e Q :
  quiet e -> Q (Ret tt) (Statistics.count op status (Statistics.add_latency latency st), e) ->
  wp (Statistics.record_response op status latency) (st, e) Q.
Proof.
  intros He HQ. unfold Statistics.record_response. apply wp_bind, wp_on_snd, quiet_alloc_wp; [done|].
  by apply wp_on_fst, wp_modify.
Qed.

Lemma count_failures span n st :
  stats_ok span st -> 0 <= n -> done_count st + n <= 2 ^ 36 ->
  stats_ok span (Statistics.record_failures n st) /\ done_count (Statistics.record_failures n st) = done_count st + n.
Proof.
  intros [H1 H2 H3 H4] Hn Hd. unfold done_count, Statistics.record_failures in *. simpl. rewrite u64_small by lia.
  split; [constructor; simpl; try lia; done|lia].
Qed.

Lemma record_error_wp span message st e :
  quiet e -> stats_ok span st -> wp (Statistics.record_error message) (st, e) (post
    (fun _ s => stats_ok span s.1 /\ done_count s.1 = done_count st /\ s.2 = e) (fun _ _ => False)).
Proof.
  intros He [H1 H2 H3 H4]. unfold Statistics.record_error. apply wp_bind, wp_on_snd, quiet_alloc_wp; [done|]. cbn beta iota.
  apply wp_bind, wp_on_snd, quiet_alloc_wp; [done|]. cbn beta iota. apply wp_on_fst, wp_modify.
  split; [by constructor|done].
Qed.

Section worker.
Variable pipeline : Z.
Variable plan : list Operation.
Variable keys : list bytes.
Variable value : bytes.
Variables begin_ end_ : Z.
Variable clock : nat -> Z.
Variable span : Z.      (** the longest time between two readings of the clock *)
Variable o0 : Os.t.     (** the descriptors when the worker was made *)

(** The request of an operation. *)
Definition request_of (key : bytes) (op : Operation) : Protocol.Request :=
  match opcode op with
  | Protocol.op_set => Protocol.MkRequest Protocol.op_set (request_id op) key value 0
  | o => Protocol.MkRequest o (request_id op) key [] 0
  end.

(** A plan that can be sent: distinct ids, and requests the protocol carries. *)
Record plan_ok : Prop := {
  pl_range : 0 <= begin_ <= end_ /\ end_ <= zlen plan;
  pl_size : zlen plan <= 2 ^ 36;
  pl_pipeline : 0 < pipeline;
  pl_ids : NoDup (request_id <$> plan);
  pl_requests : forall op, op ∈ plan -> exists key,
    keys !! Z.to_nat (key_index op) = Some key /\ Protocol.request_refusal (request_of key op) = None
}.

Definition frame_bound : Z := 2 ^ 21.

(** The operation with this id has been taken from the plan. *)
Definition taken_id (next id : Z) : Prop :=
  exists j op, begin_ <= Z.of_nat j < next /\ plan !! j = Some op /\ request_id op = id.

Record conn_ok (next : Z) (rd : nat) (c : connection) : Prop := {
  cn_input : Buffer.buffer_ok (input c);
  cn_output : Buffer.buffer_ok (output c);
  cn_small : small (output c);
  cn_queued : zlen (Buffer.readable_view (output c)) <= (next - begin_) * frame_bound;
  cn_pipeline : RequestTracker.count (tracker c) <= pipeline;
  cn_inactive : active c = false -> tracker c = ∅;
  cn_ids : forall id op start, tracker c !! id = Some (op, start) ->
    taken_id next id /\ exists k, (k < rd)%nat /\ start = clock k
}.

Record worker_ok (s : state) : Prop := {
  wk_next : begin_ <= next_ s.1 <= end_;
  wk_conns : Forall (conn_ok (next_ s.1) (readings s.1)) (connections_ s.1);
  wk_index : forall fd i, connection_indexes_ s.1 !! fd = Some i -> (i < length (connections_ s.1))%nat;
  wk_stats : stats_ok span (statistics_ s.1);
  wk_sum : done_count (statistics_ s.1) + pending_count (connections_ s.1) + (end_ - next_ s.1) = end_ - begin_;
  wk_fds : leaves o0 (epoll_ s.1 :: sockets (connections_ s.1)) s.2;
  wk_quiet : quiet s.2.2
}.

Hypothesis Hplan : plan_ok.
Hypothesis Hclock : forall i j, (i <= j)%nat -> 0 <= clock j - clock i <= span.

(** Replacing a connection and the statistics. *)
Lemma worker_put (w : t) (r : Os.t * env) i c c' st :
  worker_ok (w, r) -> connections_ w !! i = Some c -> socket c' = socket c -> conn_ok (next_ w) (readings w) c' -> stats_ok span st ->
  done_count st + RequestTracker.count (tracker c') = done_count (statistics_ w) + RequestTracker.count (tracker c) ->
  worker_ok (set_statistics st (set_connections (<[i := c']> (connections_ w)) w), r).
Proof.
  intros [H1 H2 H3 H4 H5 H6 H7] Hi Hs Hc Hst Hsum. simpl in *. constructor; simpl.
  - done.
  - by apply Forall_insert.
  - intros fd j Hj. rewrite length_insert. by eapply H3.
  - done.
  - unfold pending_count in *. rewrite (zsum_insert _ _ _ _ _ Hi). lia.
  - unfold sockets in *. rewrite list_fmap_insert, Hs, list_insert_id; [done|]. by rewrite list_lookup_fmap, Hi.
  - done.
Qed.

Lemma set_same_statistics (w : t) : set_statistics (statistics_ w) w = w.
Proof. by destruct w. Qed.

Lemma worker_put_connection (w : t) (r : Os.t * env) i c c' :
  worker_ok (w, r) -> connections_ w !! i = Some c -> socket c' = socket c -> conn_ok (next_ w) (readings w) c' ->
  tracker c' = tracker c -> worker_ok (set_connections (<[i := c']> (connections_ w)) w, r).
Proof.
  intros Hw Hi Hs Hc Ht. pose proof (worker_put w r i c c' (statistics_ w) Hw Hi Hs Hc (wk_stats _ Hw)) as H.
  rewrite <- (set_same_statistics (set_connections _ w)). apply H. by rewrite Ht.
Qed.

Lemma worker_connection (s : state) i c : worker_ok s -> connections_ s.1 !! i = Some c -> conn_ok (next_ s.1) (readings s.1) c.
Proof. intros Hw Hi. exact (Forall_lookup_1 _ _ _ _ (wk_conns _ Hw) Hi). Qed.

(** The environment changes without opening or closing anything. *)
Lemma worker_env (w : t) (r r' : Os.t * env) :
  worker_ok (w, r) -> leaves o0 (epoll_ w :: sockets (connections_ w)) r' -> quiet r'.2 -> worker_ok (w, r').
Proof. intros [H1 H2 H3 H4 H5 H6 H7] Hl Hq. by constructor. Qed.

Lemma worker_memory (w : t) os e e' : worker_ok (w, (os, e)) -> quiet e' -> worker_ok (w, (os, e')).
Proof. intros Hw Hq. eapply worker_env; [exact Hw|exact (wk_fds _ Hw)|done]. Qed.


Lemma pending_nonneg cs : 0 <= pending_count cs.
Proof. apply zsum_nonneg. intros c _. unfold RequestTracker.count. lia. Qed.

(** All counts are far below 2^64. *)
Lemma worker_bounds s : worker_ok s -> 0 <= done_count (statistics_ s.1) <= 2 ^ 36 /\ 0 <= begin_ <= 2 ^ 36 /\ 0 <= end_ <= 2 ^ 36.
Proof.
  intros Hw. pose proof (wk_sum _ Hw) as Hs. pose proof (pending_nonneg (connections_ s.1)). pose proof (wk_next _ Hw).
  destruct Hplan as [[? ?] ? _ _ _]. destruct (wk_stats _ Hw) as [? _ _]. unfold done_count in *. lia.
Qed.

(** ** Sending operations *)

Definition actives (s : state) : list bool := active <$> connections_ s.1.

Lemma actives_put (w : t) i c c' :
  connections_ w !! i = Some c -> active c' = active c ->
  active <$> <[i := c']> (connections_ w) = active <$> connections_ w.
Proof. intros Hi Ha. rewrite list_fmap_insert, Ha, list_insert_id; [done|]. by rewrite list_lookup_fmap, Hi. Qed.

Lemma frame_bounded key op :
  Protocol.request_refusal (request_of key op) = None -> zlen (Protocol.request_frame (request_of key op)) <= frame_bound.
Proof.
  intros H. apply request_refusal_none in H as (_ & Hk & Hv & _). rewrite length_request_frame.
  unfold Protocol.request_header_size, Cache.max_key_length, Cache.max_value_length, frame_bound in *. lia.
Qed.

Lemma taken_id_mono n n' id : n <= n' -> taken_id n id -> taken_id n' id.
Proof. intros Hn (j & op & Hj & Hop). exists j, op. split; [lia|done]. Qed.

Lemma conn_ok_mono n n' rd rd' c : n <= n' -> (rd <= rd')%nat -> conn_ok n rd c -> conn_ok n' rd' c.
Proof.
  intros Hn Hrd [H1 H2 H3 H4 H5 H6 H7]. constructor; [done..| |done|done|].
  - unfold frame_bound in *. lia.
  - intros id op start Hid. destruct (H7 _ _ _ Hid) as (Ht & k & Hk & ->). split; [by eapply taken_id_mono|].
    exists k. split; [lia|done].
Qed.

Lemma worker_readings (w : t) r n : worker_ok (w, r) -> (readings w <= n)%nat -> worker_ok (set_readings n w, r).
Proof.
  intros [H1 H2 H3 H4 H5 H6 H7] Hn. constructor; try done. simpl in *. eapply Forall_impl; [exact H2|].
  intros c Hc. eapply conn_ok_mono; [|exact Hn|exact Hc]. lia.
Qed.

(** The ids still to come are not waiting anywhere. *)
Lemma fresh_id (s : state) i c op :
  worker_ok s -> connections_ s.1 !! i = Some c -> plan !! Z.to_nat (next_ s.1) = Some op ->
  tracker c !! request_id op = None.
Proof.
  intros Hw Hi Hop. apply eq_None_not_Some. intros [[o start] Hid].
  destruct (cn_ids _ _ _ (worker_connection _ _ _ Hw Hi) _ _ _ Hid) as ((j & op' & Hj & Hop' & Heq) & _).
  assert (j = Z.to_nat (next_ s.1)); [|lia].
  eapply (NoDup_lookup (request_id <$> plan)); [apply Hplan|..]; rewrite list_lookup_fmap.
  - by rewrite Hop'.
  - rewrite Hop. simpl. by rewrite Heq.
Qed.

(** One operation moves from the plan to a connection. *)
Lemma worker_issue (w : t) (r : Os.t * env) i c b op :
  worker_ok (w, r) -> connections_ w !! i = Some c -> active c = true -> next_ w < end_ ->
  plan !! Z.to_nat (next_ w) = Some op -> RequestTracker.count (tracker c) < pipeline ->
  Buffer.buffer_ok b -> small b -> zlen (Buffer.readable_view b) <= zlen (Buffer.readable_view (output c)) + frame_bound ->
  worker_ok (set_connections (<[i := set_tracker (<[request_id op := (opcode op, clock (readings w))]> (tracker c)) (set_output b c)]>
    (connections_ w)) (set_readings (S (readings w)) (set_next (next_ w + 1) w)), r).
Proof.
  intros Hw Hi Ha Hn Hop Hp Hb Hsm Hv. pose proof (fresh_id _ _ _ _ Hw Hi Hop) as Hfr. simpl in Hfr.
  pose proof (worker_connection _ _ _ Hw Hi) as Hc. destruct Hw as [H1 H2 H3 H4 H5 H6 H7]. simpl in *.
  assert (RequestTracker.count (<[request_id op := (opcode op, clock (readings w))]> (tracker c)) = RequestTracker.count (tracker c) + 1) as Hcount.
  { unfold RequestTracker.count. pose proof (map_size_insert_None (request_id op) (opcode op, clock (readings w)) (tracker c) Hfr) as Hz.
    unfold RequestTracker.t in *. rewrite Hz. lia. }
  constructor; simpl.
  - lia.
  - apply Forall_insert; [eapply Forall_impl; [exact H2|]; intros c' Hc'; eapply conn_ok_mono; [| |exact Hc']; lia|].
    destruct Hc as [C1 C2 C3 C4 C5 C6 C7]. constructor; simpl; [done|done|done| |lia|by rewrite Ha|].
    + unfold frame_bound in *. lia.
    + intros id o start. unfold RequestTracker.t in *. destruct (decide (id = request_id op)) as [->|Hne].
      * rewrite lookup_insert_eq. intros [= <- <-]. split; [|exists (readings w); split; [lia|done]].
        destruct Hplan as [[? ?] _ _ _ _]. exists (Z.to_nat (next_ w)), op. split_and!; [lia|lia|done|done].
      * rewrite lookup_insert_ne by done. intros Hid. destruct (C7 _ _ _ Hid) as (Ht & k & Hk & ->).
        split; [eapply taken_id_mono; [|exact Ht]; lia|]. exists k. split; [lia|done].
  - intros fd j Hj. rewrite length_insert. by eapply H3.
  - done.
  - unfold pending_count in *. rewrite (zsum_insert _ _ _ _ _ Hi). simpl. lia.
  - unfold sockets in *. rewrite list_fmap_insert. simpl. rewrite list_insert_id; [done|]. by rewrite list_lookup_fmap, Hi.
  - done.
Qed.

Lemma make_request_wp op key (s : state) Q :
  keys !! Z.to_nat (key_index op) = Some key -> quiet s.2.2 -> Q (Ret (request_of key op)) s ->
  wp (make_request keys value op) s Q.
Proof.
  intros Hk Hq HQ. unfold make_request. rewrite Hk. destruct s as [w [os e]].
  apply wp_bind, bench_on_env_wp, quiet_alloc_wp; [done|]. cbn beta iota.
  unfold request_of in HQ. destruct (opcode op); try (by apply wp_ret).
  apply wp_bind, bench_on_env_wp, quiet_alloc_wp; [done|]. by apply wp_ret.
Qed.

Lemma now_wp (s : state) Q :
  Q (Ret (clock (readings s.1))) (set_readings (S (readings s.1)) s.1, s.2) -> wp (now clock) s Q.
Proof.
  intros HQ. unfold now. destruct s as [w r]. apply wp_bind, wp_on_fst, wp_read. cbn beta iota.
  by apply wp_bind, wp_on_fst, wp_modify, wp_ret.
Qed.

Lemma tracker_add_wp id op start (tr : RequestTracker.t) e Q :
  tr !! id = None -> quiet e -> Q (Ret tt) (<[id := (op, start)]> tr, e) ->
  wp (RequestTracker.add id op start) (tr, e) Q.
Proof.
  intros Hid He HQ. unfold RequestTracker.add. apply wp_bind, wp_on_snd, quiet_alloc_wp; [done|]. cbn beta iota.
  apply wp_bind, wp_on_fst, wp_read. cbn beta iota. rewrite Hid. by apply wp_on_fst, wp_modify.
Qed.

(** What a step of the worker keeps: the invariant, and which connections are open. *)
Definition kept (s s' : state) : Prop := worker_ok s' /\ actives s' = actives s.

Lemma kept_lookup s s' i c :
  kept s s' -> connections_ s.1 !! i = Some c ->
  exists c', connections_ s'.1 !! i = Some c' /\ active c' = active c.
Proof.
  intros [_ Ha] Hi. assert (actives s' !! i = Some (active c)) as H.
  { rewrite Ha. unfold actives. by rewrite list_lookup_fmap, Hi. }
  unfold actives in H. rewrite list_lookup_fmap in H. destruct (connections_ s'.1 !! i) as [c'|]; [|done].
  exists c'. split; [done|]. by injection H.
Qed.

Lemma fill_rounds_wp n i s c :
  worker_ok s -> connections_ s.1 !! i = Some c -> active c = true -> (Z.to_nat (end_ - next_ s.1) <= n)%nat ->
  wp (fill_rounds pipeline plan keys value end_ clock n i) s (post (fun _ s' => kept s s') (fun _ _ => False)).
Proof.
  revert s c. induction n as [|n IH]; intros [w r] c Hw Hi Ha Hn; cbn [fill_rounds];
    apply wp_bind; (eapply read_connection_wp; [exact Hi|]); cbn beta iota;
    apply wp_bind, on_worker_wp, wp_read; cbn [fst snd] in *; cbn beta iota;
    (destruct (Z.ltb_spec (RequestTracker.count (tracker c)) pipeline) as [Hp|Hp]; [|by apply wp_ret]);
    (destruct (Z.ltb_spec (next_ w) end_) as [He|He]; [|by apply wp_ret]); [lia|]; cbn [andb].
  pose proof (worker_bounds _ Hw) as (_ & B1 & B2). pose proof (wk_next _ Hw) as Hx. cbn [fst] in *.
  destruct (lookup_lt_is_Some_2 plan (Z.to_nat (next_ w))) as [op Hop]; [destruct Hplan as [[? ?] _ _ _ _]; lia|].
  rewrite Hop. destruct (pl_requests Hplan op ltac:(by eapply list_elem_of_lookup_2)) as (key & Hk & Hr).
  pose proof (wk_quiet _ Hw) as Hq. destruct r as [os e]. cbn [fst snd] in *.
  apply wp_bind, on_worker_wp, wp_modify. cbn [fst snd]. rewrite u64_small by lia.
  apply wp_bind. eapply make_request_wp; [exact Hk|done|]. cbn beta iota.
  apply wp_bind, bench_on_env_wp. unfold Protocol.encode_request. rewrite Hr.
  apply wp_bind, quiet_alloc_wp; [done|]. cbn beta iota. apply wp_ret. cbn beta iota.
  apply wp_bind, now_wp. cbn [fst snd]. apply wp_bind. eapply on_part_env_wp; [exact Hi|]. cbn [fst snd].
  pose proof (worker_connection _ _ _ Hw Hi) as Hc. cbn [fst] in Hc.
  pose proof (frame_bounded _ _ Hr) as Hf. pose proof (cn_queued _ _ _ Hc) as Hqd.
  eapply wp_mono; [apply append_small; [apply Hc|done|apply Hc|]|].
  { unfold frame_bound in *. lia. }
  intros [[]|x|] [b e'] HP; cbn [post fst snd] in HP; [|done..]. destruct HP as (Hb & Hv & Hsm & Hq'). cbn [fst snd].
  apply wp_bind. eapply on_part_env_wp.
  { cbn [fst connections_ set_connections]. rewrite list_lookup_insert_eq; [done|]. by eapply lookup_lt_Some. }
  cbn [fst snd tracker set_output]. apply tracker_add_wp; [by eapply (fresh_id _ _ _ _ Hw Hi)|done|].
  cbn [fst snd connections_ set_connections]. rewrite list_insert_insert_eq.
  assert (worker_ok (set_connections (<[i := set_tracker (<[request_id op := (opcode op, clock (readings w))]>
    (tracker c)) (set_output b c)]> (connections_ w)) (set_readings (S (readings w)) (set_next (next_ w + 1) w)), (os, e'))) as Hw'.
  { eapply worker_issue; try done; [by eapply worker_memory|]. rewrite Hv, length_app. lia. }
  eapply wp_post_mono; [eapply IH; [exact Hw'|..]|..].
  - cbn [fst connections_ set_connections set_readings set_next]. rewrite list_lookup_insert_eq; [done|]. by eapply lookup_lt_Some.
  - done.
  - cbn [fst next_ set_connections set_readings set_next]. lia.
  - intros [] s' [K1 K2]. split; [done|]. rewrite K2. unfold actives. cbn [fst connections_ set_connections].
    by eapply (actives_put w).
  - done.
Qed.

(** ** The sockets *)

Definition keeps {A} (s : state) : outcome A -> state -> Prop := post (fun _ s' => kept s s') (fun _ s' => kept s s').

Lemma kept_refl s : worker_ok s -> kept s s.
Proof. done. Qed.

Lemma kept_trans s1 s2 s3 : kept s1 s2 -> kept s2 s3 -> kept s1 s3.
Proof. intros [_ H2] [H3 H4]. split; [done|congruence]. Qed.

Lemma keeps_from {A} (m : M state A) s1 s2 : kept s1 s2 -> wp m s2 (keeps s2) -> wp m s2 (keeps s1).
Proof. intros Hk Hm. eapply wp_post_mono; [exact Hm|..]; intros; by eapply kept_trans. Qed.

(** A connection changes but for its socket, its requests and whether it is open. *)
Lemma kept_put (w : t) r i c c' :
  worker_ok (w, r) -> connections_ w !! i = Some c -> socket c' = socket c -> tracker c' = tracker c ->
  active c' = active c -> conn_ok (next_ w) (readings w) c' ->
  kept (w, r) (set_connections (<[i := c']> (connections_ w)) w, r).
Proof. intros Hw Hi Hs Ht Ha Hc. split; [by eapply worker_put_connection|by eapply (actives_put w)]. Qed.

Lemma conn_ok_stream next rd c k : conn_ok next rd c -> conn_ok next rd (set_stream k c).
Proof. intros [H1 H2 H3 H4 H5 H6 H7]. by constructor. Qed.

Lemma conn_ok_input next rd c b : conn_ok next rd c -> Buffer.buffer_ok b -> conn_ok next rd (set_input b c).
Proof. intros [H1 H2 H3 H4 H5 H6 H7] Hb. by constructor. Qed.

Lemma conn_ok_output next rd c n b :
  conn_ok next rd c -> Buffer.retrieve n (output c) = Some b -> 0 <= n <= zlen (Buffer.readable_view (output c)) ->
  conn_ok next rd (set_output b c).
Proof.
  intros [H1 H2 H3 H4 H5 H6 H7] Hb Hn. destruct (Buffer.retrieve_spec _ _ H2 Hn) as (b' & Hb' & Hok & Hv).
  rewrite Hb in Hb'. injection Hb' as <-. constructor; simpl; [done|done| | |done|done|done].
  - unfold Buffer.retrieve in Hb. unfold small in *. repeat case_match; simplify_eq; simpl; done.
  - rewrite Hv, length_drop. lia.
Qed.

Lemma inserted_lookup (cs : list connection) i c c' : cs !! i = Some c -> <[i := c']> cs !! i = Some c'.
Proof. intros Hi. apply list_lookup_insert_eq. by eapply lookup_lt_Some. Qed.

Lemma set_connections_twice cs cs' (w : t) : set_connections cs (set_connections cs' w) = set_connections cs w.
Proof. done. Qed.

Lemma bench_write_rounds_wp n i s c :
  worker_ok s -> connections_ s.1 !! i = Some c -> (length (Socket.departures (stream c)) < n)%nat ->
  wp (write_rounds n i) s (keeps s).
Proof.
  revert s c. induction n as [|n IH]; intros [w r] c Hw Hi Hn; [lia|]. cbn [write_rounds].
  apply wp_bind. eapply read_connection_wp; [exact Hi|]. cbn beta iota. cbn [fst] in Hi.
  destruct (Buffer.empty (output c)); [by apply wp_ret, kept_refl|].
  apply wp_bind. eapply on_part_wp; [exact Hi|]. cbn [fst snd]. unfold wp at 1, Socket.send.
  pose proof (worker_connection _ _ _ Hw Hi) as Hc. cbn [fst] in Hc.
  assert (forall k, kept (w, r) (set_connections (<[i := set_stream k c]> (connections_ w)) w, r)) as Hk.
  { intros k. eapply kept_put; [done|exact Hi|done..|]. by apply conn_ok_stream. }
  destruct (Socket.departures (stream c)) as [|[m|er] ds] eqn:Hd; cbn [fst snd].
  - rewrite decide_False, decide_True by (done || by left). apply wp_ret, Hk.
  - set (k := Z.max 0 (Z.min m (zlen (Buffer.readable_view (output c))))).
    destruct (Z.ltb_spec 0 k) as [Hpos|_]; [|apply wp_ret, Hk].
    destruct (Buffer.retrieve_spec (output c) k (cn_output _ _ _ Hc) ltac:(lia)) as (b & Hb & _).
    apply wp_bind. eapply on_part_wp; [cbn [fst connections_ set_connections]; by eapply inserted_lookup|].
    eapply wp_modify_opt; [cbn [output set_stream]; by rewrite Hb|]. cbn [fst snd connections_ set_connections].
    rewrite list_insert_insert_eq, set_connections_twice. eapply keeps_from; [|eapply IH].
    + eapply kept_put; [done|exact Hi|done..|]. eapply (conn_ok_output _ _ (set_stream _ c)); [by apply conn_ok_stream|exact Hb|simpl; lia].
    + eapply kept_put; [done|exact Hi|done..|]. eapply (conn_ok_output _ _ (set_stream _ c)); [by apply conn_ok_stream|exact Hb|simpl; lia].
    + cbn [fst connections_ set_connections]. by eapply inserted_lookup.
    + simpl in *. lia.
  - destruct (decide (er = Socket.EINTR)); [|destruct (decide _); apply wp_ret, Hk].
    eapply keeps_from; [apply Hk|]. eapply IH; [apply Hk|cbn [fst connections_ set_connections]; by eapply inserted_lookup|].
    simpl in *. lia.
Qed.

Lemma bench_writable_wp i s c :
  worker_ok s -> connections_ s.1 !! i = Some c -> wp (handle_writable i) s (keeps s).
Proof.
  intros Hw Hi. unfold handle_writable. apply wp_bind. eapply read_connection_wp; [exact Hi|]. cbn beta iota.
  eapply bench_write_rounds_wp; [done|exact Hi|lia].
Qed.

(** An operation on the memory and the input of a connection. *)
Lemma input_wp {A} (f : M (Buffer.t * env) A) i s c R :
  worker_ok s -> connections_ s.1 !! i = Some c -> stays (at_snd quiet) f ->
  wp f (input c, s.2.2) (post (fun a p => Buffer.buffer_ok p.1 /\ R a p.1) (fun _ p => p.1 = input c)) ->
  wp (on_input i f) s (post
    (fun a s' => kept s s' /\ exists b, connections_ s'.1 !! i = Some (set_input b c) /\ R a b)
    (fun _ s' => kept s s')).
Proof.
  intros Hw Hi Hf Hm. destruct s as [w [os e]]. eapply on_part_env_wp; [exact Hi|]. cbn [fst snd] in *.
  pose proof (worker_connection _ _ _ Hw Hi) as Hc. cbn [fst] in Hc.
  assert (forall b e', Buffer.buffer_ok b -> quiet e' ->
    kept (w, (os, e)) (set_connections (<[i := set_input b c]> (connections_ w)) w, (os, e'))) as Hput.
  { intros b e' Hb He'. eapply (kept_put w (os, e')); [by eapply worker_memory|exact Hi|done..|]. by apply conn_ok_input. }
  eapply wp_mono; [exact (wp_stays (at_snd quiet) f (input c, e) _ Hf (wk_quiet _ Hw) Hm)|].
  intros [a|x|] [b e'] [H1 H2]; cbn [post fst snd] in *; [|subst b; apply Hput; [apply Hc|done]|done].
  destruct H1 as [Hb HR]. split; [by apply Hput|]. exists b. split; [|done].
  cbn [fst connections_ set_connections]. by eapply inserted_lookup.
Qed.

(** The requests of a connection change, and the counts with them. *)
Lemma kept_counts (w : t) r i c tr st :
  worker_ok (w, r) -> connections_ w !! i = Some c -> conn_ok (next_ w) (readings w) (set_tracker tr c) -> stats_ok span st ->
  done_count st + RequestTracker.count tr = done_count (statistics_ w) + RequestTracker.count (tracker c) ->
  kept (w, r) (set_statistics st (set_connections (<[i := set_tracker tr c]> (connections_ w)) w), r).
Proof. intros Hw Hi Hc Hst Hsum. split; [by eapply worker_put|by eapply (actives_put w)]. Qed.

Lemma pending_bound s i c :
  worker_ok s -> connections_ s.1 !! i = Some c ->
  0 <= RequestTracker.count (tracker c) /\ done_count (statistics_ s.1) + RequestTracker.count (tracker c) <= 2 ^ 36.
Proof.
  intros Hw Hi. pose proof (pending_nonneg (<[i := set_tracker ∅ c]> (connections_ s.1))) as H.
  unfold pending_count in H. rewrite (zsum_insert _ _ _ _ _ Hi) in H.
  change (RequestTracker.count (tracker (set_tracker ∅ c))) with 0 in H. pose proof (wk_sum _ Hw) as Hs.
  pose proof (wk_next _ Hw). destruct Hplan as [[? ?] ? _ _ _]. unfold pending_count, RequestTracker.count in *. lia.
Qed.

(** A response takes its request from the pending ones. *)
Lemma complete_wp response k i s c :
  worker_ok s -> connections_ s.1 !! i = Some c -> (readings s.1 <= S k)%nat ->
  wp (on_counts i (RequestTracker.complete response (clock k))) s (post
    (fun _ s' => kept s s' /\ exists tr, connections_ s'.1 !! i = Some (set_tracker tr c)) (fun _ s' => kept s s')).
Proof.
  intros Hw Hi Hrd. destruct s as [w [os e]]. eapply on_counts_wp; [exact Hi|]. cbn [fst snd] in *.
  pose proof (worker_connection _ _ _ Hw Hi) as Hc. pose proof (wk_quiet _ Hw) as Hq. cbn [fst snd] in *.
  unfold RequestTracker.complete. apply wp_bind, wp_on_fst, wp_read. cbn beta iota.
  destruct (tracker c !! Protocol.r_request_id response) as [[op start]|] eqn:Hid.
  2: { unfold wp, throw. cbn [fst snd post]. replace (set_tracker (tracker c) c) with c by (by destruct c).
       rewrite (same_connection _ _ _ Hi), set_same_statistics. by apply kept_refl. }
  apply wp_bind, wp_on_snd, record_response_wp; [done|]. cbn beta iota. apply wp_on_fst, wp_modify. cbn [fst snd post].
  pose proof (map_size_delete_Some (Protocol.r_request_id response) (tracker c) ltac:(by eexists)) as Hz.
  assert (size (tracker c) <> 0%nat) as Hnz by (intros H%map_size_empty_inv; by rewrite H in Hid).
  pose proof (pending_bound _ _ _ Hw Hi) as [_ B]. cbn [fst] in B. unfold RequestTracker.count in B.
  destruct (cn_ids _ _ _ Hc _ _ _ Hid) as (_ & k' & Hk' & ->). pose proof (Hclock k' k ltac:(lia)) as Hl.
  destruct (count_response span op (Protocol.status response) (clock k - clock k') (statistics_ w) (wk_stats _ Hw) ltac:(lia) Hl) as [Hst Hd].
  split; [|eexists; cbn [fst connections_ set_connections set_statistics]; by eapply inserted_lookup].
  eapply kept_counts; [done|exact Hi| |done|].
  - destruct Hc as [C1 C2 C3 C4 C5 C6 C7]. unfold RequestTracker.count in *. constructor; simpl; [done|done|done|done| | |].
    + unfold RequestTracker.count, RequestTracker.t in *. lia.
    + intros Hi'. by rewrite (C6 Hi') in Hid.
    + intros id o start. unfold RequestTracker.t in *. rewrite lookup_delete_Some. intros [_ H]. by eapply C7.
  - rewrite Hd. unfold RequestTracker.count, RequestTracker.t in *. lia.
Qed.

Lemma kept_readings s s' n : kept s s' -> (readings s'.1 <= n)%nat -> kept s (set_readings n s'.1, s'.2).
Proof. destruct s' as [w r]. intros [Hw Ha] Hn. split; [by apply worker_readings|done]. Qed.

Lemma decode_rounds_wp n i s c :
  worker_ok s -> connections_ s.1 !! i = Some c -> (length (Buffer.readable_view (input c)) < n)%nat ->
  wp (decode_rounds clock n i) s (post
    (fun _ s' => kept s s' /\ exists c', connections_ s'.1 !! i = Some c' /\ stream c' = stream c) (fun _ s' => kept s s')).
Proof.
  revert s c. induction n as [|n IH]; intros s c Hw Hi Hn; [lia|]. cbn [decode_rounds].
  apply wp_bind. eapply read_connection_wp; [exact Hi|]. cbn beta iota.
  pose proof (cn_input _ _ _ (worker_connection _ _ _ Hw Hi)) as Hb. rewrite (Buffer.empty_view _ Hb).
  destruct (bool_decide_reflect (Buffer.readable_view (input c) = [])) as [_|Hne]; [apply wp_ret; split; [done|by eexists]|].
  eapply wp_bind_post with (E := fun _ s' => kept s s').
  { eapply (input_wp _ _ _ _ (fun r b => Buffer.readable_view b =
      drop (consumed_response r) (Buffer.readable_view (input c)))); [done|exact Hi|auto with stays|].
    eapply wp_post_mono; [apply (decode_response_wp _ _ Hb)|naive_solver|naive_solver]. }
  2: { by intros x s' Hk. }
  intros r s1 (K1 & b & Hi1 & Hv). destruct r as [|q|er]; cbn beta iota.
  - apply wp_ret. split; [done|]. eexists. split; [exact Hi1|done].
  - apply wp_bind, now_wp. cbn beta. pose proof (kept_readings s s1 (S (readings s1.1)) K1 ltac:(lia)) as K2.
    eapply wp_bind_post; [eapply complete_wp; [apply K2|exact Hi1|done]|..].
    + intros [] s2 (K3 & tr & Hi2). eapply wp_post_mono; [eapply IH; [apply K3|exact Hi2|]|..].
      * cbn [input set_tracker set_input]. rewrite Hv, length_drop. pose proof (length_response_frame q) as Hl.
        unfold Protocol.response_header_size in Hl. cbn [consumed_response].
        destruct (Buffer.readable_view (input c)); [done|]. cbn [length] in *. lia.
      * intros [] s3 (K4 & c' & Hi3 & Hst). split; [|by exists c'].
        by eapply kept_trans, kept_trans; [..|exact K4].
      * intros x s3 K4. by eapply kept_trans, kept_trans; [..|exact K4].
    + intros x s2 K3. by eapply kept_trans.
  - destruct s1 as [w1 [os1 e1]]. apply wp_bind, bench_on_env_wp, quiet_alloc_wp; [apply K1|]. done.
Qed.

Lemma decode_responses_wp i s c :
  worker_ok s -> connections_ s.1 !! i = Some c ->
  wp (decode_responses clock i) s (post
    (fun _ s' => kept s s' /\ exists c', connections_ s'.1 !! i = Some c' /\ stream c' = stream c) (fun _ s' => kept s s')).
Proof.
  intros Hw Hi. unfold decode_responses. apply wp_bind. eapply read_connection_wp; [exact Hi|]. cbn beta iota.
  eapply decode_rounds_wp; [done|exact Hi|lia].
Qed.

Lemma bench_read_rounds_wp n i s c :
  worker_ok s -> connections_ s.1 !! i = Some c -> (Socket.recv_calls (stream c) < n)%nat ->
  wp (read_rounds clock n i) s (keeps s).
Proof.
  revert s c. induction n as [|n IH]; intros s c Hw Hi Hn; [lia|]. cbn [read_rounds].
  assert (forall k, kept s (set_connections (<[i := set_stream k c]> (connections_ s.1)) s.1, s.2)) as Hk.
  { intros k. destruct s as [w r]. eapply kept_put; [done|exact Hi|done..|].
    by apply conn_ok_stream, (worker_connection _ _ _ Hw Hi). }
  assert (forall k, connections_ (set_connections (<[i := set_stream k c]> (connections_ s.1)) s.1) !! i = Some (set_stream k c)) as Hik.
  { intros k. cbn [connections_ set_connections]. by eapply inserted_lookup. }
  apply wp_bind. eapply on_part_wp; [exact Hi|].
  apply recv_wp; [done| |apply wp_ret, Hk|].
  - intros bs k _ _ _ Hc _ _. cbn beta iota. set (s1 := (_, _)) in *.
    eapply wp_bind_post with (E := fun _ s' => kept s1 s'); [eapply (input_wp _ _ _ _ (fun _ _ => True)); [apply Hk|apply Hik|auto with stays|]|..].
    + eapply wp_post_mono; [apply Buffer.append_wp|..].
      * apply (worker_connection _ _ _ (proj1 (Hk k)) (Hik k)).
      * naive_solver.
      * naive_solver.
    + intros [] s2 (K2 & b & Hi2 & _). eapply wp_bind_post; [eapply decode_responses_wp; [apply K2|exact Hi2]|..].
      * intros [] s3 (K3 & c3 & Hi3 & Hst). eapply keeps_from; [|eapply IH; [apply K3|exact Hi3|]].
        -- eapply kept_trans; [apply (Hk k)|]. by eapply kept_trans.
        -- rewrite Hst. simpl. lia.
      * intros x s3 K3. eapply kept_trans; [apply (Hk k)|]. by eapply kept_trans.
    + intros x s2 K2. by eapply kept_trans; [apply (Hk k)|].
  - intros e k _ Hcalls _ _. cbn beta iota. destruct (decide (e = Socket.EINTR)) as [->|_].
    + eapply keeps_from; [apply Hk|]. eapply IH; [apply Hk|apply Hik|]. destruct Hcalls as [[? _]|?]; [done|]. simpl. lia.
    + destruct (decide _); apply wp_ret, Hk.
Qed.

Lemma bench_readable_wp i s c :
  worker_ok s -> connections_ s.1 !! i = Some c -> wp (handle_readable clock i) s (keeps s).
Proof.
  intros Hw Hi. unfold handle_readable. apply wp_bind. eapply read_connection_wp; [exact Hi|]. cbn beta iota.
  eapply bench_read_rounds_wp; [done|exact Hi|lia].
Qed.

(** ** Closing connections *)

Lemma sockets_drop (cs : list connection) i c :
  cs !! i = Some c ->
  sockets cs ≡ₚ (if 0 <=? socket c then [socket c] else []) ++ sockets (<[i := drop_socket c]> cs).
Proof.
  intros Hi. rewrite insert_take_drop by (by eapply lookup_lt_Some). rewrite <- (take_drop_middle _ _ _ Hi) at 1.
  unfold sockets. rewrite !fmap_app, !fmap_cons, !filter_app, !filter_cons. cbn [socket drop_socket].
  rewrite (decide_False (P := 0 <= -1)) by lia. destruct (Z.leb_spec 0 (socket c)).
  - rewrite decide_True by done. cbn [app]. by rewrite <- Permutation_middle.
  - by rewrite decide_False by lia.
Qed.

Lemma conn_ok_socket next rd c : conn_ok next rd c -> conn_ok next rd (drop_socket c).
Proof. intros [H1 H2 H3 H4 H5 H6 H7]. by constructor. Qed.

Lemma reset_socket_wp i s c :
  worker_ok s -> connections_ s.1 !! i = Some c ->
  wp (reset_socket i) s (post
    (fun _ s' => kept s s' /\ connections_ s'.1 = <[i := drop_socket c]> (connections_ s.1)) (fun _ _ => False)).
Proof.
  intros Hw Hi. unfold reset_socket. apply wp_bind. eapply read_connection_wp; [exact Hi|]. cbn beta iota.
  destruct s as [w r]. pose proof (wk_fds _ Hw) as Hl. cbn [fst snd] in *.
  eapply (leaves_perm _ _ ((if 0 <=? socket c then [socket c] else []) ++ epoll_ w :: sockets (<[i := drop_socket c]> (connections_ w)))) in Hl.
  2: { rewrite (sockets_drop _ _ _ Hi) at 1. by rewrite Permutation_middle. }
  assert (forall r', leaves o0 (epoll_ w :: sockets (<[i := drop_socket c]> (connections_ w))) r' -> quiet r'.2 ->
    wp (on_connection i (modify drop_socket)) (w, r') (post (fun _ s' => kept (w, r) s' /\
      connections_ s'.1 = <[i := drop_socket c]> (connections_ w)) (fun _ _ => False))) as Hend.
  { intros r' Hl' Hq. eapply on_part_wp; [exact Hi|]. apply wp_modify. cbn [fst snd post]. split; [|done].
    split; [|by eapply (actives_put w)]. pose proof (worker_connection _ _ _ Hw Hi) as Hc.
    destruct Hw as [H1 H2 H3 H4 H5 H6 H7]. constructor; simpl in *; try done.
    - apply Forall_insert; [done|by apply conn_ok_socket].
    - intros fd j. rewrite length_insert. apply H3.
    - unfold pending_count in *. rewrite (zsum_insert _ _ _ _ _ Hi). simpl. lia. }
  destruct (0 <=? socket c).
  - apply wp_bind. destruct r as [os e]. apply wp_on_snd. pose proof (close_fd_wp o0 _ _ (os, e) Hl) as Hcl.
    eapply wp_mono; [exact (wp_stays (at_snd quiet) _ (os, e) _ (stays_on_fst _ _) (wk_quiet _ Hw) Hcl)|].
    intros [[]|x|] r' [H1 H2]; cbn [post] in H1; [|done..]. by apply Hend.
  - apply wp_bind, wp_ret. apply Hend; [done|apply Hw].
Qed.

(** A call of the kernel that opens and closes nothing. *)
Lemma bench_call_wp (s : state) Q :
  worker_ok s -> (forall b s', worker_ok s' -> s'.1 = s.1 -> Q (Ret b) s') -> wp (on_os Os.call) s Q.
Proof.
  intros Hw HQ. destruct s as [w [os e]]. apply on_os_wp. unfold wp, Os.call. cbn [fst snd].
  pose proof (wk_fds _ Hw) as Hl. pose proof (wk_quiet _ Hw) as Hq. cbn [fst snd] in *.
  destruct (Os.calls os); cbn [fst snd]; apply HQ; try done. by eapply worker_env.
Qed.

(** The pending requests of a connection fail. *)
Lemma fail_all_wp i s c :
  worker_ok s -> connections_ s.1 !! i = Some c ->
  wp (on_counts i (without_env RequestTracker.fail_all)) s (post
    (fun _ s' => kept s s' /\ connections_ s'.1 = <[i := set_tracker ∅ c]> (connections_ s.1)) (fun _ _ => False)).
Proof.
  intros Hw Hi. destruct s as [w [os e]]. eapply on_counts_wp; [exact Hi|]. cbn [fst snd].
  unfold wp, without_env, RequestTracker.fail_all, bind, on_fst, on_snd, read, modify, ret. cbn [fst snd post]. split; [|done].
  destruct (pending_bound _ _ _ Hw Hi) as [B1 B2]. cbn [fst] in *.
  destruct (count_failures _ _ _ (wk_stats _ Hw) B1 B2) as [Hst Hd]. cbn [fst] in Hst, Hd.
  eapply kept_counts; [done|exact Hi| |done|].
  - destruct (worker_connection _ _ _ Hw Hi) as [C1 C2 C3 C4 C5 C6 C7]. constructor; simpl; [done|done|done|done| |done|].
    + change (RequestTracker.count ∅) with 0. pose proof (pl_pipeline Hplan). lia.
    + intros id o start. unfold RequestTracker.t. by rewrite lookup_empty.
  - rewrite Hd. change (RequestTracker.count ∅) with 0. lia.
Qed.

Definition closes (i : nat) (s s' : state) : Prop := worker_ok s' /\ actives s' = <[i := false]> (actives s).

(** Closing a connection that waits for nothing. *)
Lemma deactivate_wp i s c Q :
  worker_ok s -> connections_ s.1 !! i = Some c -> tracker c = ∅ ->
  (forall s', closes i s s' -> connections_ s'.1 = <[i := deactivate c]> (connections_ s.1) -> Q (Ret tt) s') ->
  wp (on_connection i (modify deactivate)) s Q.
Proof.
  intros Hw Hi Ht HQ. destruct s as [w r]. eapply on_part_wp; [exact Hi|]. apply wp_modify. cbn [fst snd] in *. apply HQ; [|done].
  split; [|unfold actives; cbn [fst connections_ set_connections]; by rewrite list_fmap_insert].
  eapply worker_put_connection; [done|exact Hi|done| |done].
  destruct (worker_connection _ _ _ Hw Hi) as [C1 C2 C3 C4 C5 C6 C7]. by constructor.
Qed.

Lemma closes_from i s1 s2 s3 : kept s1 s2 -> closes i s2 s3 -> closes i s1 s3.
Proof. intros [_ H1] [H2 H3]. split; [done|]. by rewrite H3, H1. Qed.

Lemma record_error_kept message s :
  worker_ok s -> wp (on_statistics (Statistics.record_error message)) s (post
    (fun _ s' => kept s s' /\ connections_ s'.1 = connections_ s.1) (fun _ _ => False)).
Proof.
  intros Hw. destruct s as [w [os e]]. apply on_statistics_wp. cbn [fst snd].
  eapply wp_mono; [apply record_error_wp; [apply (wk_quiet _ Hw)|apply (wk_stats _ Hw)]|]. cbn [fst].
  intros [[]|x|] [st e'] H; cbn [post fst snd] in *; [|done..]. destruct H as (Hst & Hd & ->). split; [|done].
  split; [|done]. destruct Hw as [H1 H2 H3 H4 H5 H6 H7]. simpl in *. constructor; simpl; try done. lia.
Qed.

Lemma fail_connection_wp i error s c :
  worker_ok s -> connections_ s.1 !! i = Some c -> active c = true ->
  wp (fail_connection i error) s (post (fun _ s' => closes i s s') (fun _ _ => False)).
Proof.
  intros Hw Hi Ha. unfold fail_connection. apply wp_bind. eapply read_connection_wp; [exact Hi|]. cbn beta iota.
  rewrite Ha. cbn [negb]. eapply wp_bind_post; [by eapply fail_all_wp| |by intros]. intros failed s1 [K1 C1].
  eapply wp_bind_post with (R := fun _ s' => kept s s' /\ connections_ s'.1 = connections_ s1.1) (E := fun _ _ => False); [..|by intros].
  { destruct (negb (failed =? 0)); [|by apply wp_ret].
    eapply wp_try_catch; [apply record_error_kept, K1|..]; cbn beta; [|by intros].
    intros [] s2 [K2 C2]. split; [by eapply kept_trans|done]. }
  intros [] s2 [K2 C2]. apply wp_bind, bench_call_wp; [apply K2|]. intros b s3 W3 E3. cbn beta iota.
  assert (kept s s3) as K3 by (split; [done|]; unfold actives; rewrite E3; apply K2).
  assert (connections_ s3.1 !! i = Some (set_tracker ∅ c)) as Hi3.
  { rewrite E3, C2, C1. by eapply inserted_lookup. }
  eapply wp_bind_post; [by eapply reset_socket_wp| |by intros]. intros [] s4 [K4 C4].
  eapply deactivate_wp; [apply K4|rewrite C4; by eapply inserted_lookup|done|]. intros s5 Hcl _.
  eapply closes_from; [|exact Hcl]. by eapply kept_trans.
Qed.

(** What has not been sent fails. *)
Lemma fail_unissued_wp s :
  worker_ok s -> wp (fail_unissued end_) s (post (fun _ s' => kept s s' /\ next_ s'.1 = end_) (fun _ _ => False)).
Proof.
  intros Hw. destruct s as [w r]. unfold fail_unissued. apply on_worker_wp, wp_modify. cbn [fst snd].
  pose proof (worker_bounds _ Hw) as (B1 & B2 & B3). pose proof (wk_next _ Hw) as Hn. pose proof (wk_sum _ Hw) as Hs.
  pose proof (pending_nonneg (connections_ w)) as Hp. cbn [fst snd] in *.
  destruct (Z.ltb_spec (next_ w) end_) as [Hlt|Hge]; [|split; [done|simpl; lia]].
  rewrite u64_small by lia. destruct (count_failures span (end_ - next_ w) (statistics_ w) (wk_stats _ Hw)) as [Hst Hd]; [lia|lia|].
  split; [|done]. split; [|done]. destruct Hw as [H1 H2 H3 H4 H5 H6 H7]. simpl in *. constructor; simpl; try done.
  - lia.
  - eapply Forall_impl; [exact H2|]. intros c Hc. eapply conn_ok_mono; [| |exact Hc]; lia.
  - lia.
Qed.

Lemma fail_from_wp n i s :
  worker_ok s -> (i + n)%nat = length (connections_ s.1) -> Forall (eq false) (take i (actives s)) ->
  wp (fail_from i n) s (post (fun _ s' => worker_ok s' /\ Forall (eq false) (actives s')) (fun _ _ => False)).
Proof.
  revert i s. induction n as [|n IH]; intros i s Hw Hlen Hf; cbn [fail_from].
  { apply wp_ret. split; [done|]. by rewrite take_ge in Hf by (unfold actives; rewrite length_fmap; lia). }
  destruct (lookup_lt_is_Some_2 (connections_ s.1) i ltac:(lia)) as [c Hi].
  assert (forall s', worker_ok s' -> actives s' = <[i := false]> (actives s) ->
    wp (fail_from (S i) n) s' (post (fun _ s' => worker_ok s' /\ Forall (eq false) (actives s')) (fun _ _ => False))) as Hnext.
  { intros s' W' A'. assert (length (connections_ s'.1) = length (connections_ s.1)) as Hl.
    { pose proof (f_equal length A') as H. unfold actives in H. by rewrite length_insert, !length_fmap in H. }
    apply IH; [done|lia|]. rewrite A', (take_S_r _ i false).
    - apply Forall_app. rewrite take_insert_ge by lia. split; [done|by constructor].
    - apply list_lookup_insert_eq. unfold actives. rewrite length_fmap. lia. }
  apply wp_bind. eapply read_connection_wp; [exact Hi|]. cbn beta iota. destruct (active c) eqn:Ha.
  - apply wp_bind. eapply wp_bind_post; [by eapply fail_all_wp| |by intros]. intros failed s1 [K1 C1].
    apply wp_bind. eapply deactivate_wp; [apply K1|rewrite C1; by eapply inserted_lookup|done|]. intros s2 Hcl C2. cbn beta iota.
    eapply wp_mono; [eapply reset_socket_wp; [apply Hcl|rewrite C2; eapply inserted_lookup; rewrite C1; by eapply inserted_lookup]|].
    intros [[]|x|] s3 H3; cbn [post] in H3; [|done..]. destruct H3 as [K3 _]. apply Hnext; [apply K3|].
    destruct (closes_from _ _ _ _ K1 Hcl) as [_ A2]. destruct K3 as [_ A3]. congruence.
  - apply wp_bind, wp_ret. apply Hnext; [done|]. rewrite list_insert_id; [done|]. unfold actives.
    by rewrite list_lookup_fmap, Hi, <- Ha.
Qed.

(** With every connection closed and nothing left to send, all are counted. *)
Definition finished (s : state) : Prop := worker_ok s /\ done_count (statistics_ s.1) = end_ - begin_.

Lemma all_closed s : worker_ok s -> Forall (eq false) (actives s) -> next_ s.1 = end_ -> finished s.
Proof.
  intros Hw Hf Hn. split; [done|]. pose proof (wk_sum _ Hw) as Hs.
  assert (pending_count (connections_ s.1) = 0); [|lia].
  unfold pending_count. rewrite (zsum_ext _ (fun _ => 0)).
  - clear. induction (connections_ s.1) as [|c cs IH]; [done|]. unfold zsum in *. simpl. lia.
  - intros c Hc. apply list_elem_of_lookup in Hc as [i Hi]. rewrite (cn_inactive _ _ _ (worker_connection _ _ _ Hw Hi)); [done|].
    unfold actives in Hf. rewrite Forall_fmap, Forall_forall in Hf. symmetry. apply Hf. by eapply list_elem_of_lookup_2.
Qed.

Lemma fail_everything_wp s :
  worker_ok s -> wp (fail_everything end_) s (post (fun _ s' => finished s') (fun _ _ => False)).
Proof.
  intros Hw. destruct s as [w r]. unfold fail_everything. apply wp_bind, on_worker_wp, wp_read. cbn beta iota. cbn [fst snd].
  eapply wp_bind_post; [apply fail_from_wp; [done|done|constructor]| |by intros]. intros [] s1 [W1 F1].
  eapply wp_mono; [by apply fail_unissued_wp|]. intros [[]|x|] s2 H2; cbn [post] in *; [|done..].
  destruct H2 as [[W2 A2] N2]. apply all_closed; [done|by rewrite A2|done].
Qed.

(** ** The loops *)

Lemma system_error_wp {A} operation s :
  worker_ok s -> wp (@throw_system_error A operation) s (post (fun _ _ => False) (fun _ s' => kept s s')).
Proof.
  intros Hw. destruct s as [w [os e]]. unfold throw_system_error. apply wp_bind, on_os_wp, wp_read. cbn beta iota.
  by apply wp_bind, bench_on_env_wp, quiet_alloc_wp; [apply (wk_quiet _ Hw)|].
Qed.

Lemma update_interest_wp i s c :
  worker_ok s -> connections_ s.1 !! i = Some c -> wp (update_interest i) s (keeps s).
Proof.
  intros Hw Hi. unfold update_interest. apply wp_bind. eapply read_connection_wp; [exact Hi|]. cbn beta iota.
  eapply wp_bind_post with (R := fun _ s' => kept s s') (E := fun _ s' => kept s s'); [..|by intros].
  - unfold checked. apply wp_bind, bench_call_wp; [done|]. intros b s1 W1 E1. cbn beta iota.
    assert (kept s s1) as K1 by (split; [done|]; unfold actives; by rewrite E1).
    destruct b; [by apply wp_ret|]. eapply wp_post_mono; [by apply system_error_wp|by intros|].
    intros x s2 K2. by eapply kept_trans.
  - intros [] [w1 [os1 e1]] [W1 A1]. apply on_os_wp, wp_modify. split; [|done].
    eapply worker_env; [exact W1|exact (wk_fds _ W1)|exact (wk_quiet _ W1)].
Qed.

Lemma fill_pipeline_wp i s c :
  worker_ok s -> connections_ s.1 !! i = Some c -> active c = true ->
  wp (fill_pipeline pipeline plan keys value end_ clock i) s (post (fun _ s' => kept s s') (fun _ _ => False)).
Proof.
  intros Hw Hi Ha. destruct s as [w r]. unfold fill_pipeline. apply wp_bind, on_worker_wp, wp_read. cbn beta iota.
  by eapply fill_rounds_wp.
Qed.

(** Sending what fits and saying what to wait for. *)
Lemma refill_wp i s c :
  worker_ok s -> connections_ s.1 !! i = Some c -> active c = true ->
  wp (fill_pipeline pipeline plan keys value end_ clock i ;; update_interest i) s (keeps s).
Proof.
  intros Hw Hi Ha. eapply wp_bind_post; [by eapply fill_pipeline_wp| |by intros]. intros [] s1 K1.
  destruct (kept_lookup _ _ _ _ K1 Hi) as (c1 & Hi1 & _). eapply keeps_from; [exact K1|]. by eapply update_interest_wp; [apply K1|].
Qed.

Lemma kept_if (b : bool) (m : M state bool) s0 s :
  kept s0 s -> wp m s (keeps s) -> wp (if b then m else ret b) s (keeps s0).
Proof. intros Hk Hm. destruct b; [by eapply keeps_from|by apply wp_ret]. Qed.

Lemma serve_event_wp i events s c :
  worker_ok s -> connections_ s.1 !! i = Some c -> active c = true ->
  wp (serve_event pipeline plan keys value end_ clock i events) s (post (fun _ s' => worker_ok s') (fun _ s' => kept s s')).
Proof.
  intros Hw Hi Ha. unfold serve_event. cbn zeta.
  eapply wp_bind_post with (R := fun _ s' => kept s s') (E := fun _ s' => kept s s'); [..|by intros].
  { destruct (_ && _); [by eapply bench_writable_wp|by apply wp_ret]. }
  intros keep1 s1 K1. destruct (kept_lookup _ _ _ _ K1 Hi) as (c1 & Hi1 & Ha1).
  eapply wp_bind_post with (R := fun _ s' => kept s s') (E := fun _ s' => kept s s'); [..|by intros].
  { destruct (_ && _); [|by apply wp_ret]. eapply keeps_from; [exact K1|]. by eapply bench_readable_wp; [apply K1|]. }
  intros keep2 s2 K2. destruct (kept_lookup _ _ _ _ K2 Hi) as (c2 & Hi2 & Ha2). rewrite Ha in Ha2.
  destruct (negb (if _ : bool then false else keep2)).
  - eapply wp_post_mono; [eapply fail_connection_wp; [apply K2|exact Hi2|done]|..]; [|by intros]. intros [] s3 H3. apply H3.
  - eapply wp_post_mono; [eapply refill_wp; [apply K2|exact Hi2|done]|..].
    + intros [] s3 H3. apply H3.
    + intros x s3 H3. by eapply kept_trans.
Qed.

Lemma bench_handle_event_wp ev s :
  worker_ok s ->
  wp (handle_event pipeline plan keys value end_ clock ev) s (post (fun _ s' => worker_ok s') (fun _ _ => False)).
Proof.
  intros Hw. destruct s as [w r]. unfold handle_event. apply wp_bind, on_worker_wp, wp_read. cbn beta iota. cbn [fst snd].
  destruct (connection_indexes_ w !! ev_fd ev) as [i|] eqn:Hx; [|by apply wp_ret].
  destruct (lookup_lt_is_Some_2 (connections_ w) i (wk_index _ Hw _ _ Hx)) as [c Hi].
  apply wp_bind. eapply read_connection_wp; [exact Hi|]. cbn beta iota.
  destruct (active c) eqn:Ha; cbn [negb]; [|by apply wp_ret].
  apply wp_bind. eapply on_part_wp; [exact Hi|]. apply wp_modify. cbn beta iota. cbn [fst snd].
  assert (worker_ok (set_connections (<[i := set_stream (arrive ev (stream c)) c]> (connections_ w)) w, r)) as Hw1.
  { eapply worker_put_connection; [done|exact Hi|done| |done]. by apply conn_ok_stream, (worker_connection _ _ _ Hw Hi). }
  assert (<[i := set_stream (arrive ev (stream c)) c]> (connections_ w) !! i = Some (set_stream (arrive ev (stream c)) c)) as Hi1.
  { by eapply inserted_lookup. }
  eapply wp_try_catch; [by eapply serve_event_wp|by intros|]. intros x s2 K2. cbn beta.
  destruct (kept_lookup _ _ _ _ K2 Hi1) as (c2 & Hi2 & Ha2). cbn [active set_stream] in Ha2. rewrite Ha in Ha2.
  eapply wp_post_mono; [eapply fail_connection_wp; [apply K2|exact Hi2|done]|..]; [|by intros]. intros [] s3 H3. apply H3.
Qed.

Lemma bench_handle_events_wp evs s :
  worker_ok s ->
  wp (handle_events pipeline plan keys value end_ clock evs) s (post (fun _ s' => worker_ok s') (fun _ _ => False)).
Proof.
  revert s. induction evs as [|ev evs IH]; intros s Hw; [by apply wp_ret|].
  eapply wp_bind_post; [by apply bench_handle_event_wp| |by intros]. intros [] s1 W1. by apply IH.
Qed.

Lemma fill_all_wp n i s :
  worker_ok s -> (i + n)%nat = length (connections_ s.1) -> Forall (eq true) (actives s) ->
  wp (fill_all pipeline plan keys value end_ clock i n) s (post (fun _ s' => worker_ok s') (fun _ s' => worker_ok s')).
Proof.
  revert i s. induction n as [|n IH]; intros i s Hw Hlen Hf; cbn [fill_all]; [by apply wp_ret|].
  destruct (lookup_lt_is_Some_2 (connections_ s.1) i ltac:(lia)) as [c Hi].
  assert (active c = true) as Ha.
  { unfold actives in Hf. rewrite Forall_fmap in Hf. symmetry. apply (Forall_lookup_1 _ _ _ _ Hf Hi). }
  eapply wp_bind_post; [by eapply fill_pipeline_wp| |by intros]. intros [] s1 K1.
  destruct (kept_lookup _ _ _ _ K1 Hi) as (c1 & Hi1 & _).
  eapply wp_bind_post; [eapply update_interest_wp; [apply K1|exact Hi1]|..]; [|by intros x s2 [H _]].
  intros [] s2 K2. pose proof (kept_trans _ _ _ K1 K2) as [W2 A2]. apply IH; [done| |by rewrite A2].
  pose proof (f_equal length A2) as H. unfold actives in H. rewrite !length_fmap in H. lia.
Qed.

Lemma no_active s : active_connection_count s.1 = 0%nat -> Forall (eq false) (actives s).
Proof.
  unfold active_connection_count, actives. intros H%nil_length_inv. rewrite Forall_fmap, Forall_forall. intros c Hc.
  destruct (active c) eqn:Ha; [|done]. assert (c ∈ filter (fun c => active c = true) (connections_ s.1)) as Hin.
  { by apply list_elem_of_filter. } by rewrite H in Hin; apply elem_of_nil in Hin.
Qed.

Lemma handled_finished s : worker_ok s -> handled_all begin_ end_ s.1 = true -> finished s.
Proof.
  intros Hw Hh. split; [done|]. unfold handled_all, Statistics.handled in Hh. pose proof (worker_bounds _ Hw) as (B1 & B2 & B3).
  pose proof (wk_sum _ Hw). pose proof (pending_nonneg (connections_ s.1)). pose proof (wk_next _ Hw).
  fold (done_count (statistics_ s.1)) in Hh. rewrite !u64_small in Hh by lia. apply negb_true_iff, Z.ltb_ge in Hh. lia.
Qed.

(** The tests at the head of the loop. *)
Lemma serve_head_wp (k : M state unit) s :
  worker_ok s -> wp k s (post (fun _ s' => finished s') (fun _ s' => worker_ok s')) ->
  wp (w <- on_fst read ;;
      if handled_all begin_ end_ w then ret tt
      else if (active_connection_count w =? 0)%nat then fail_unissued end_ else k) s
    (post (fun _ s' => finished s') (fun _ s' => worker_ok s')).
Proof.
  intros Hw Hk. destruct s as [w r]. apply wp_bind, on_worker_wp, wp_read. cbn beta iota. cbn [fst snd].
  destruct (handled_all begin_ end_ w) eqn:Hh; [by apply wp_ret, handled_finished|].
  destruct (Nat.eqb_spec (active_connection_count w) 0) as [H0|_]; [|done].
  eapply wp_post_mono; [by apply fail_unissued_wp| |by intros]. intros [] s1 [[W1 A1] N1].
  apply all_closed; [done|rewrite A1; by apply no_active|done].
Qed.

Lemma serve_wp waits s :
  worker_ok s ->
  wp (serve pipeline plan keys value begin_ end_ clock waits) s (post (fun _ s' => finished s') (fun _ s' => worker_ok s')).
Proof.
  revert s. induction waits as [|[evs| | |] waits IH]; intros s Hw; apply serve_head_wp; try done.
  - eapply wp_bind_post; [by apply bench_handle_events_wp| |by intros]. intros [] s1 W1. by apply IH.
  - by apply IH.
  - eapply wp_post_mono; [by apply system_error_wp|by intros|by intros x s1 [? _]].
Qed.

(** However the network behaves, [run] returns with every operation counted. *)
Lemma run_wp waits s :
  worker_ok s -> Forall (eq true) (actives s) ->
  wp (run pipeline plan keys value begin_ end_ clock waits) s (post
    (fun st s' => finished s' /\ st = statistics_ s'.1) (fun _ _ => False)).
Proof.
  intros Hw Hf. unfold run. eapply wp_bind_post with (R := fun _ s' => finished s') (E := fun _ _ => False); [..|by intros].
  - eapply wp_try_catch with (E := fun _ s' => worker_ok s') (R := fun _ s' => finished s'); [|by intros|].
    + destruct s as [w r]. apply wp_bind, on_worker_wp, wp_read. cbn beta iota. cbn [fst snd].
      eapply wp_bind_post; [by apply fill_all_wp| |by intros]. intros [] s1 W1. by apply serve_wp.
    + intros x s1 W1. cbn beta. eapply wp_bind_post; [by apply record_error_kept| |by intros].
      intros [] s2 [[W2 _] _]. by apply fail_everything_wp.
  - intros [] [w1 r1] F1. by apply wp_bind, on_worker_wp, wp_read, wp_ret.
Qed.

End worker.
