(* ===== verification/BenchmarkBuildFacts.v ===== *)
(** * Making and discarding the workers of the load generator

    The constructor of a worker either gives back every descriptor it opened or
    leaves the worker in its invariant; the destructor closes what is still open;
    and the counts of the threads add up. *)
From S2P Require Import Prelude ErrorModel Effects MemoryModel ProgressFacts BufferModel ProtocolModel ProtocolFacts.
From S2P Require Import CacheModel ConnectionModel WorkerModel ServerModel ServerFacts.
From S2P Require Import TextModel NumberModel BenchmarkModel BenchmarkFacts.
Import Memory.
Import ClientWorker.

(** ** The calls of the constructor *)

Section calls.
Context (o : Os.t).

Lemma bench_error_wp {A} op l s (R : A -> build -> Prop) :
  leaves o l s -> wp (system_error op) s (post R (fun _ s' => leaves o l s')).
Proof.
  intros Hl. destruct s as [o1 e1]. unfold system_error. apply wp_bind, wp_on_fst, wp_read. cbn beta iota.
  by apply wp_bind, wp_on_snd, wp_may_alloc; intros fs.
Qed.

Lemma bench_opened_wp op l s :
  leaves o l s -> wp (opened_or_error op) s (post
    (fun fd s' => leaves o (fd :: l) s') (fun _ s' => leaves o l s')).
Proof.
  intros Hl. eapply wp_bind_post; [by apply open_fd_wp| |by intros].
  intros [fd|] s1 [_ H1]; [by apply wp_ret|by apply bench_error_wp].
Qed.

Lemma bench_checked_wp op l s :
  leaves o l s -> wp (checked_call op) s (post (fun _ s' => leaves o l s') (fun _ s' => leaves o l s')).
Proof.
  intros Hl. destruct s as [o1 e1]. unfold checked_call. apply wp_bind, wp_on_fst. unfold wp, Os.call.
  destruct (Os.calls o1) as [|[] fs]; cbn [fst snd negb]; [done| |done]. by apply bench_error_wp.
Qed.

Lemma bench_alloc_wp l s :
  leaves o l s -> wp (on_snd may_alloc) s (post (fun _ s' => leaves o l s') (fun _ s' => leaves o l s')).
Proof. intros Hl. destruct s as [o1 e1]. by apply wp_on_snd, wp_may_alloc; intros fs. Qed.

(** An operation that fails after a descriptor was opened closes it. *)
Lemma bench_guarded_wp {A} (m : M build A) fd l s R :
  wp m s (post R (fun _ s' => leaves o (fd :: l) s')) ->
  wp (on_throw m (CacheServer.close_fd fd)) s (post R (fun _ s' => leaves o l s')).
Proof. intros Hm. eapply wp_on_throw; [exact Hm|]. intros x s' Hl. by apply close_fd_wp. Qed.

Lemma bench_add_wp fd events l s :
  leaves o l s -> wp (add_to_epoll fd events) s (post (fun _ s' => leaves o l s') (fun _ s' => leaves o l s')).
Proof.
  intros Hl. unfold add_to_epoll. eapply wp_bind_post; [by apply bench_checked_wp| |by intros].
  intros [] [o1 e1] H1. by apply wp_on_fst, wp_modify.
Qed.

Lemma connect_socket_wp inet_pton host l s :
  leaves o l s -> wp (connect_socket inet_pton host) s (post
    (fun fd s' => leaves o (fd :: l) s') (fun _ s' => leaves o l s')).
Proof.
  intros Hl. unfold connect_socket. eapply wp_bind_post; [by apply bench_opened_wp| |by intros]. intros fd s1 H1.
  apply bench_guarded_wp.
  eapply wp_bind_post; [exact (bench_checked_wp _ (fd :: l) _ H1)| |by intros]. intros [] s2 H2.
  apply wp_bind. destruct (inet_pton host =? 1); [apply wp_ret|done].
  eapply wp_bind_post; [exact (bench_checked_wp _ (fd :: l) _ H2)| |by intros]. intros [] s3 H3.
  eapply wp_bind_post; [exact (bench_checked_wp _ (fd :: l) _ H3)| |by intros]. intros [] s4 H4.
  eapply wp_bind_post; [exact (bench_checked_wp _ (fd :: l) _ H4)| |by intros]. intros [] s5 H5. by apply wp_ret.
Qed.

(** A connection that was just made. *)
Definition new_connection (c : connection) : Prop :=
  Buffer.buffer_ok (input c) /\ Buffer.buffer_ok (output c) /\ small (output c) /\
  Buffer.readable_view (output c) = [] /\ tracker c = ∅ /\ active c = true.

Lemma buffer_of_4096 l s :
  leaves o l s -> wp (on_snd (Buffer.create 4096)) s (post
    (fun b s' => leaves o l s' /\ Buffer.buffer_ok b /\ Buffer.readable_view b = [] /\ small b) (fun _ s' => leaves o l s')).
Proof.
  intros Hl. destruct s as [o1 e1]. apply wp_on_snd.
  assert (wp (Buffer.create 4096) e1 (post (fun b _ => small b) (fun _ _ => True))) as Hs.
  { assert (wp (CharVector.reserve 4096) (CharVector.MkCharVector [] 0, e1)
      (post (fun _ s => CharVector.capacity s.1 = 4096) (fun _ _ => True))) as Hr.
    { apply wp_bind, wp_on_fst, wp_read. cbn beta iota. apply wp_bind, wp_on_snd, wp_may_alloc; intros fs; [|done].
      by apply wp_on_fst, wp_modify. }
    unfold wp, Buffer.create in *. destruct (CharVector.reserve 4096 _) as [[[]|x|] [v e2]]; cbn [fst snd post] in *; [|done..].
    unfold small. simpl. lia. }
  eapply wp_mono; [exact (wp_conj _ _ _ _ (Buffer.create_buffer_wp 4096 e1 ltac:(done)) Hs)|].
  intros [b|x|] e2 [H1 H2]; cbn [post] in *; [|done|done]. by destruct H1 as (? & ? & _).
Qed.

Lemma bench_make_connection_wp fd l s :
  leaves o (fd :: l) s -> wp (make_connection fd) s (post
    (fun c s' => leaves o (fd :: l) s' /\ socket c = fd /\ new_connection c) (fun _ s' => leaves o l s')).
Proof.
  intros Hl. apply bench_guarded_wp. eapply wp_bind_post; [by apply buffer_of_4096| |by intros].
  intros b1 s1 (H1 & B1 & _). eapply wp_bind_post; [by apply buffer_of_4096| |by intros].
  intros b2 s2 (H2 & B2 & V2 & S2). by apply wp_ret.
Qed.

Lemma close_sockets_wp cs l s :
  leaves o (sockets cs ++ l) s -> wp (close_sockets cs) s (post (fun _ s' => leaves o l s') (fun _ _ => False)).
Proof.
  revert s. induction cs as [|c cs IH]; intros s Hl; cbn [close_sockets]; [by apply wp_ret|].
  unfold sockets in Hl. rewrite fmap_cons, filter_cons in Hl. destruct (Z.leb_spec 0 (socket c)) as [H0|H0].
  - rewrite decide_True in Hl by done. eapply wp_bind_post; [apply (close_fd_wp o _ _ _ Hl)| |by intros]. by intros [].
  - rewrite decide_False in Hl by lia. apply wp_bind, wp_ret. by apply IH.
Qed.

Lemma bench_destroy_wp w s :
  leaves o (epoll_ w :: sockets (connections_ w)) s -> wp (destroy w) s (post (fun _ s' => leaves o [] s') (fun _ _ => False)).
Proof.
  intros Hl. unfold destroy. eapply wp_bind_post; [apply (close_sockets_wp _ [epoll_ w])| |by intros].
  - eapply leaves_perm; [|exact Hl]. by rewrite Permutation_app_comm.
  - intros [] s1 H1. by apply close_fd_wp.
Qed.

(** What the constructor has made so far. *)
Record made (begin_ : Z) (w : t) : Prop := {
  md_next : next_ w = begin_;
  md_conns : Forall new_connection (connections_ w);
  md_index : forall fd i, connection_indexes_ w !! fd = Some i -> (i < length (connections_ w))%nat;
  md_stats : statistics_ w = Statistics.init
}.

Lemma destroyed_wp {A} (m : M build A) w s R :
  wp m s (post R (fun _ s' => leaves o (epoll_ w :: sockets (connections_ w)) s')) ->
  wp (on_throw m (destroy w)) s (post R (fun _ s' => leaves o [] s')).
Proof. intros Hm. eapply wp_on_throw; [exact Hm|]. intros x s' Hl. by apply bench_destroy_wp. Qed.

Lemma connect_all_wp inet_pton host begin_ n w s :
  made begin_ w -> leaves o (epoll_ w :: sockets (connections_ w)) s ->
  wp (connect_all inet_pton host n w) s (post
    (fun w' s' => made begin_ w' /\ leaves o (epoll_ w' :: sockets (connections_ w')) s') (fun _ s' => leaves o [] s')).
Proof.
  revert w s. induction n as [|n IH]; intros w s Hm Hl; cbn [connect_all]; [by apply wp_ret|].
  eapply wp_bind_post with (E := fun _ s' => leaves o [] s') (R := fun w' s' =>
    made begin_ w' /\ connections_ w' <> [] /\ leaves o (epoll_ w' :: sockets (connections_ w')) s'); [..|by intros].
  - apply destroyed_wp. eapply wp_bind_post; [exact (connect_socket_wp _ _ _ _ Hl)| |by intros]. intros fd s1 H1.
    eapply wp_bind_post; [exact (bench_make_connection_wp _ _ _ H1)| |by intros]. intros c s2 (H2 & Hs & Hc).
    apply wp_ret. destruct Hm as [M1 M2 M3 M4]. split_and!.
    + constructor; simpl; [done| | |done].
      * apply Forall_app. split; [done|by constructor].
      * intros fd' i Hi. rewrite length_app. apply M3 in Hi. simpl. lia.
    + simpl. by intros [_ ?]%app_nil.
    + simpl. destruct H2 as (F1 & F2 & F3 & F4 & F5). assert (0 <= fd) by (apply F4; left).
      eapply leaves_perm; [|exact (conj F1 (conj F2 (conj F3 (conj F4 F5))))].
      unfold sockets. rewrite fmap_app, filter_app. cbn [fmap list_fmap]. rewrite filter_cons, Hs, decide_True by done.
      rewrite filter_nil, Permutation_app_comm. cbn [app]. apply perm_swap.
  - intros w1 s1 (M1 & Hne & H1).
    eapply wp_bind_post with (E := fun _ s' => leaves o [] s') (R := fun w' s' =>
      made begin_ w' /\ leaves o (epoll_ w' :: sockets (connections_ w')) s'); [..|by intros].
    + apply destroyed_wp. destruct (last (connections_ w1)) as [c|] eqn:Hlast; [|by apply last_None in Hlast].
      apply wp_bind, wp_ret. eapply wp_bind_post; [exact (bench_alloc_wp _ _ H1)| |by intros]. intros [] s2 H2.
      eapply wp_bind_post; [exact (bench_add_wp _ _ _ _ H2)| |by intros]. intros [] s3 H3. apply wp_ret. split; [|done].
      destruct M1 as [M1 M2 M3 M4]. constructor; simpl; try done. intros fd i.
      rewrite lookup_insert_Some. intros [[_ <-]|[_ Hi]]; [|by eapply M3]. destruct (connections_ w1); [done|simpl; lia].
    + intros w2 s2 [M2 H2]. by apply IH.
Qed.

Lemma bench_create_wp inet_pton host begin_ count s :
  leaves o [] s ->
  wp (create inet_pton host begin_ count) s (post
    (fun w s' => made begin_ w /\ leaves o (epoll_ w :: sockets (connections_ w)) s') (fun _ s' => leaves o [] s')).
Proof.
  intros Hl. unfold create. eapply wp_bind_post; [by apply bench_opened_wp| |by intros]. intros fd s1 H1.
  eapply wp_bind_post; [apply bench_guarded_wp, bench_alloc_wp, H1| |by intros]. intros [] s2 H2.
  by apply connect_all_wp.
Qed.

End calls.

(** ** Memory *)

Lemma stays_on_throw {S A} (P : S -> Prop) (m : M S A) (cleanup : M S unit) :
  stays P m -> stays P cleanup -> stays P (on_throw m cleanup).
Proof.
  intros Hm Hc s Hs. specialize (Hm s Hs). unfold on_throw. destruct (m s) as [[a|x|] s1]; [done| |done].
  specialize (Hc s1 Hm). by destruct (cleanup s1) as [[[]|y|] s2].
Qed.

Lemma buffer_create_stays n : stays quiet (Buffer.create n).
Proof.
  intros e He. unfold Buffer.create. pose proof (reserve_stays n (CharVector.MkCharVector [] 0, e) He) as H.
  by destruct (CharVector.reserve n _) as [o [v e']].
Qed.

Lemma destroy_stays w : stays (at_snd quiet) (destroy w).
Proof.
  unfold destroy, CacheServer.close_fd. apply stays_bind; [|auto with stays].
  induction (connections_ w) as [|c cs IH]; cbn [close_sockets]; [auto with stays|].
  apply stays_bind; [|auto with stays]. unfold CacheServer.close_fd. destruct (0 <=? socket c); auto with stays.
Qed.

#[export] Hint Resolve stays_on_throw buffer_create_stays destroy_stays : stays.

Lemma checked_call_stays op : stays (at_snd quiet) (checked_call op).
Proof. unfold checked_call, system_error. stays_step. Qed.

Lemma opened_stays op : stays (at_snd quiet) (opened_or_error op).
Proof. unfold opened_or_error, system_error. stays_step. Qed.

#[export] Hint Resolve checked_call_stays opened_stays : stays.

Lemma bench_create_stays inet_pton host begin_ count : stays (at_snd quiet) (create inet_pton host begin_ count).
Proof.
  unfold create, create_epoll, CacheServer.close_fd. stays_step; [apply stays_on_throw; stays_step|].
  generalize (MkClientWorker begin_ a [] ∅ Statistics.init 0). induction (Z.to_nat count) as [|n IH]; intros w; cbn [connect_all].
  { stays_step. }
  stays_step; apply stays_on_throw; unfold connect_socket, make_connection, add_to_epoll, CacheServer.close_fd; stays_step;
    try (apply stays_on_throw); stays_step.
Qed.

(** ** A thread *)

Lemma made_ok pipeline plan keys value begin_ end_ clock span o w s :
  plan_ok pipeline plan keys value begin_ end_ -> made begin_ w -> leaves o (epoll_ w :: sockets (connections_ w)) s -> quiet s.2 ->
  worker_ok pipeline plan begin_ end_ clock span o (w, s) /\ Forall (eq true) (actives (w, s)).
Proof.
  intros Hp [M1 M2 M3 M4] Hl Hq. pose proof (pl_pipeline _ _ _ _ _ _ Hp). destruct (pl_range _ _ _ _ _ _ Hp) as [? _].
  split; [constructor; cbn [fst snd]; rewrite ?M1, ?M4; try done|].
  - lia.
  - eapply Forall_impl; [exact M2|]. intros c (C1 & C2 & C3 & C4 & C5 & C6).
    constructor; rewrite ?C4, ?C5; try done; [unfold frame_bound; simpl; lia|change (RequestTracker.count ∅) with 0; lia].
  - change (done_count Statistics.init) with 0. assert (pending_count (connections_ w) = 0) as ->; [|lia].
    clear -M2. induction M2 as [|c cs (_ & _ & _ & _ & C5 & _) _ IH]; [done|]. unfold pending_count, zsum in *. simpl.
    rewrite C5. change (RequestTracker.count ∅) with 0. lia.
  - unfold actives. rewrite Forall_fmap. eapply Forall_impl; [exact M2|]. intros c (_ & _ & _ & _ & _ & C6). by simpl.
Qed.

Section thread.
Variable inet_pton : bytes -> Z.
Variable options : Benchmark.Options.
Variable plan : list Operation.
Variable keys : list bytes.
Variable value : bytes.

Let first (i : Z) : Z := Benchmark.plan_begin (zlen plan) (Benchmark.o_threads options) i.
Let last (i : Z) : Z := Benchmark.plan_end (zlen plan) (Benchmark.o_threads options) i.

(** The counts of a thread, whatever its descriptors, its events and its clock. *)
Lemma thread_body_wp span i (w : Benchmark.world) :
  plan_ok (Benchmark.o_pipeline options) plan keys value (first i) (last i) ->
  fresh_opens (Benchmark.os w) -> quiet (Benchmark.heap w) ->
  (forall i j, (i <= j)%nat -> 0 <= Benchmark.times w j - Benchmark.times w i <= span) ->
  wp (Benchmark.thread_body inet_pton options plan keys value i w) (Benchmark.os w, Benchmark.heap w) (post
    (fun st s' => stats_ok span st /\ done_count st = last i - first i /\ leaves (Benchmark.os w) [] s') (fun _ _ => False)).
Proof.
  intros Hp Hf Hq Hclock. unfold Benchmark.thread_body. fold (first i) (last i). cbn zeta.
  set (o := Benchmark.os w) in *. pose proof (leaves_start o (Benchmark.heap w) Hf) as Hl.
  eapply wp_try_catch with (E := fun _ s' => leaves o [] s' /\ quiet s'.2)
    (R := fun st s' => stats_ok span st /\ done_count st = last i - first i /\ leaves o [] s'); [|by intros|].
  - eapply wp_bind_post with (E := fun _ s' => leaves o [] s' /\ quiet s'.2)
      (R := fun wk s' => (made (first i) wk /\ leaves o (epoll_ wk :: sockets (connections_ wk)) s') /\ quiet s'.2); [..|by intros].
    { eapply wp_mono; [eapply wp_stays; [apply bench_create_stays|exact Hq|apply bench_create_wp, Hl]|].
      intros [wk|x|] s1 [H1 H2]; done. }
    intros wk s1 [[Hm H1] Q1]. destruct (made_ok _ _ _ _ _ _ (Benchmark.times w) span _ _ _ Hp Hm H1 Q1) as [W1 A1].
    pose proof (run_wp _ _ _ _ _ _ (Benchmark.times w) span _ Hp Hclock (Benchmark.waits w) _ W1 A1) as Hr.
    eapply wp_bind_post with (E := fun _ _ => False) (R := fun r s' =>
      leaves o (epoll_ r.2 :: sockets (connections_ r.2)) s' /\ stats_ok span r.1 /\ done_count r.1 = last i - first i); [..|by intros].
    { unfold wp in *. destruct (run _ _ _ _ _ _ _ _ _) as [[st|x|] [wk' s']]; cbn [fst snd post] in *; [|done..].
      destruct Hr as ((W & D) & ->). split_and!; [exact (wk_fds _ _ _ _ _ _ _ _ W)|exact (wk_stats _ _ _ _ _ _ _ _ W)|exact D]. }
    intros [st wk'] s2 (H2 & H3 & H4). cbn [fst snd] in *.
    eapply wp_bind_post; [exact (bench_destroy_wp o wk' s2 H2)| |by intros]. intros [] s3 H5. by apply wp_ret.
  - intros x [o1 e1] [H1 Q1]. cbn beta. apply wp_bind, wp_on_snd, quiet_alloc_wp; [done|]. cbn beta iota.
    apply wp_bind, wp_on_snd, quiet_alloc_wp; [done|]. cbn beta iota zeta. apply wp_ret.
    destruct (pl_range _ _ _ _ _ _ Hp) as [? ?]. pose proof (pl_size _ _ _ _ _ _ Hp).
    rewrite u64_small by lia. destruct (count_failures span (last i - first i) Statistics.init) as [S1 S2]; [by constructor|lia|change (done_count Statistics.init) with 0; lia|].
    split_and!; [|exact S2|done]. destruct S1 as [? ? ? ?]. by constructor.
Qed.

End thread.

(** ** The parts of the plan *)

Section split.
Variables n threads : Z.
Hypothesis Hn : 0 <= n.
Hypothesis Ht : 0 < threads.
Hypothesis Hfits : n * threads <= u64_max.

Lemma plan_begin_value i : 0 <= i <= threads -> Benchmark.plan_begin n threads i = n * i / threads.
Proof. intros Hi. unfold Benchmark.plan_begin. unfold u64_max in Hfits. rewrite u64_small; [done|]. nia. Qed.

Lemma plan_end_value i : 0 <= i < threads -> threads <= u64_max -> Benchmark.plan_end n threads i = n * (i + 1) / threads.
Proof.
  intros Hi Hm. unfold Benchmark.plan_end. unfold u64_max in *. rewrite (u64_small (i + 1)) by lia. rewrite u64_small; [done|]. nia.
Qed.

Lemma bound_mono i j : i <= j -> n * i / threads <= n * j / threads.
Proof. intros Hij. apply Z.div_le_mono; nia. Qed.

Lemma bound_zero : n * 0 / threads = 0.
Proof. by rewrite Z.mul_0_r, Z.div_0_l by lia. Qed.

Lemma bound_all : n * threads / threads = n.
Proof. apply Z.div_mul. lia. Qed.

(** Some part holds position [j]. *)
Lemma bound_covers j k : 0 <= j < n * Z.of_nat k / threads -> exists i, 0 <= i < Z.of_nat k /\ n * i / threads <= j < n * (i + 1) / threads.
Proof.
  induction k as [|k IH]; intros Hj; [change (Z.of_nat 0) with 0 in Hj; rewrite bound_zero in Hj; lia|].
  destruct (Z.lt_ge_cases j (n * Z.of_nat k / threads)) as [Hlt|Hge].
  - destruct IH as (i & ? & ?); [lia|]. exists i. split; [lia|done].
  - exists (Z.of_nat k). split; [lia|]. replace (Z.of_nat k + 1) with (Z.of_nat (S k)) by lia. lia.
Qed.

(** The connections dealt to the first [k] threads. *)
Lemma connections_dealt connections k :
  0 <= connections <= u64_max -> Z.of_nat k <= threads ->
  zsum (fun i => Benchmark.connection_count connections threads (Z.of_nat i)) (seq 0 k) =
  Z.of_nat k * (connections / threads) + Z.min (Z.of_nat k) (connections mod threads).
Proof.
  intros Hc. pose proof (Z.mod_pos_bound connections threads ltac:(lia)) as Hm.
  pose proof (Z.div_mod connections threads ltac:(lia)) as Hd.
  assert (0 <= connections / threads) by (apply Z.div_pos; lia). unfold u64_max in Hc.
  induction k as [|k IH]; intros Hk; [simpl; lia|].
  rewrite seq_S, zsum_app, IH by lia. unfold zsum. simpl. unfold Benchmark.connection_count.
  assert (connections / threads <= connections - connections mod threads) by nia.
  destruct (Z.ltb_spec (Z.of_nat k) (connections mod threads)); rewrite u64_small by lia; lia.
Qed.

End split.

(** ** All threads *)

Lemma merge_counts span st acc :
  stats_ok span st -> stats_ok span acc -> done_count acc + done_count st <= 2 ^ 36 ->
  stats_ok span (Statistics.merge st acc) /\ done_count (Statistics.merge st acc) = done_count acc + done_count st.
Proof.
  intros [S1 S2 S3 S4] [A1 A2 A3 A4] Hd. unfold done_count, Statistics.merge in *.
  assert (forall x, 0 <= x <= 2 ^ 37 -> u64 x = x) as Hu by (intros; apply u64_small; lia).
  cbn [Statistics.successful_ Statistics.failed_]. rewrite !Hu by lia.
  split; [|lia]. constructor; cbn [Statistics.successful_ Statistics.failed_ Statistics.get_hits_ Statistics.get_misses_ Statistics.latencies_];
    rewrite ?length_app; try lia. by apply Forall_app.
Qed.

Section execution.
Variable inet_pton : bytes -> Z.
Variable options : Benchmark.Options.
Variable plan : list Operation.
Variable keys : list bytes.
Variable value : bytes.

(** Options and a plan of which every request can be sent. *)
Record sendable : Prop := {
  sd_threads : 0 < Benchmark.o_threads options <= u64_max;
  sd_fits : zlen plan * Benchmark.o_threads options <= u64_max;
  sd_plan : plan_ok (Benchmark.o_pipeline options) plan keys value 0 (zlen plan)
}.

Hypothesis Hsend : sendable.

Lemma part_ok i :
  0 <= i < Benchmark.o_threads options ->
  plan_ok (Benchmark.o_pipeline options) plan keys value
    (Benchmark.plan_begin (zlen plan) (Benchmark.o_threads options) i)
    (Benchmark.plan_end (zlen plan) (Benchmark.o_threads options) i).
Proof.
  intros Hi. destruct Hsend as [[T1 T2] F [P1 P2 P3 P4 P5]]. constructor; try done.
  rewrite plan_begin_value, plan_end_value by lia.
  pose proof (bound_mono (zlen plan) _ ltac:(lia) T1 0 i ltac:(lia)) as H1. rewrite bound_zero in H1 by lia.
  pose proof (bound_mono (zlen plan) _ ltac:(lia) T1 i (i + 1) ltac:(lia)) as H2.
  pose proof (bound_mono (zlen plan) _ ltac:(lia) T1 (i + 1) (Benchmark.o_threads options) ltac:(lia)) as H3.
  rewrite bound_all in H3 by lia. lia.
Qed.

(** The world of a thread: descriptors that are not in use, no allocation failures, and a
    clock that does not go back nor further than [span] while it runs. *)
Definition world_ok (span : Z) (w : Benchmark.world) : Prop :=
  fresh_opens (Benchmark.os w) /\ quiet (Benchmark.heap w) /\
  forall i j, (i <= j)%nat -> 0 <= Benchmark.times w j - Benchmark.times w i <= span.

Lemma run_threads_counts span i ws acc :
  0 <= i -> i + zlen ws = Benchmark.o_threads options -> Forall (world_ok span) ws -> stats_ok span acc ->
  done_count acc = zlen plan * i / Benchmark.o_threads options ->
  exists st, Benchmark.run_threads inet_pton options plan keys value i ws acc = Ret st /\
    stats_ok span st /\ done_count st = zlen plan.
Proof.
  destruct Hsend as [[T1 T2] F P]. intros Hi Hlen Hws. revert i acc Hi Hlen.
  induction Hws as [|w ws (Hf & Hq & Hclock) _ IH]; intros i acc Hi Hlen Hacc Hd; cbn [Benchmark.run_threads].
  { exists acc. split; [done|]. split; [done|]. simpl in Hlen. rewrite Hd. replace i with (Benchmark.o_threads options) by lia.
    by apply bound_all. }
  cbn [length] in Hlen. pose proof (thread_body_wp inet_pton _ _ _ _ span _ w (part_ok i ltac:(lia)) Hf Hq Hclock) as H. unfold wp in H.
  destruct (Benchmark.thread_body _ _ _ _ _ _ _ _) as [[st|x|] s']; cbn [fst snd post] in H; [|done..].
  destruct H as (Hst & Hc & _). rewrite plan_begin_value, plan_end_value in Hc by lia.
  pose proof (bound_mono (zlen plan) _ ltac:(lia) T1 (i + 1) (Benchmark.o_threads options) ltac:(lia)) as H3.
  rewrite bound_all in H3 by lia. pose proof (pl_size _ _ _ _ _ _ P).
  destruct (merge_counts span st acc Hst Hacc ltac:(lia)) as [M1 M2].
  apply IH; [lia|lia|done|]. lia.
Qed.

End execution.

(** ** The plan that fills the cache *)

Lemma keys_from_lookup index n (j : nat) :
  (j < n)%nat -> Benchmark.keys_from index n !! j = Some (Benchmark.key_name (index + Z.of_nat j)).
Proof.
  revert index j. induction n as [|n IH]; intros index j Hj; [lia|]. destruct j as [|j]; cbn [Benchmark.keys_from lookup].
  - simpl. by rewrite Z.add_0_r.
  - change ((Benchmark.keys_from (index + 1) n) !! j = Some (Benchmark.key_name (index + Z.of_nat (S j)))).
    rewrite IH by lia. do 2 f_equal. lia.
Qed.

Lemma preload_from_lookup index n (j : nat) :
  (j < n)%nat -> Benchmark.preload_from index n !! j =
    Some (MkOperation Protocol.op_set (index + Z.of_nat j) (u64 (index + Z.of_nat j + 1))).
Proof.
  revert index j. induction n as [|n IH]; intros index j Hj; [lia|]. destruct j as [|j].
  - simpl. by rewrite Z.add_0_r.
  - change ((Benchmark.preload_from (index + 1) n) !! j =
      Some (MkOperation Protocol.op_set (index + Z.of_nat (S j)) (u64 (index + Z.of_nat (S j) + 1)))).
    rewrite IH by lia. by replace (index + 1 + Z.of_nat j) with (index + Z.of_nat (S j)) by lia.
Qed.

Lemma length_preload ks : 0 <= ks -> zlen (Benchmark.make_preload ks) = ks.
Proof.
  intros Hks. unfold Benchmark.make_preload. rewrite <- (Z2Nat.id ks) at 2 by done. f_equal.
  generalize 0. induction (Z.to_nat ks) as [|n IH]; intros index; [done|]. simpl. by rewrite IH.
Qed.

Lemma preload_lookup ks (j : nat) op :
  Benchmark.make_preload ks !! j = Some op ->
  0 <= Z.of_nat j < ks /\ op = MkOperation Protocol.op_set (Z.of_nat j) (u64 (Z.of_nat j + 1)).
Proof.
  intros Hj. pose proof (lookup_lt_Some _ _ _ Hj) as Hl.
  assert (0 <= ks) as Hks by (destruct ks; [done|done|simpl in Hl; lia]).
  pose proof (length_preload ks Hks) as Hlen. unfold Benchmark.make_preload in *.
  rewrite preload_from_lookup in Hj by lia. simplify_eq. split; [lia|done].
Qed.

Lemma digits_length fuel n acc : (length (digits fuel n acc) <= fuel + length acc)%nat.
Proof.
  revert n acc. induction fuel as [|fuel IH]; intros n acc; simpl; [lia|]. destruct (n <? 10); simpl; [lia|].
  specialize (IH (n / 10) (digit (n mod 10) :: acc)). simpl in IH. lia.
Qed.

Lemma key_name_fits i : zlen (Benchmark.key_name i) <= Cache.max_key_length.
Proof.
  unfold Benchmark.key_name. rewrite length_app. pose proof (digits_length 20 i []) as H.
  fold (to_decimal i) in H. change (length (lit "highcache-bench-")) with 16%nat. cbn [length] in H.
  unfold Cache.max_key_length. lia.
Qed.

Lemma key_request_ok ks value op :
  zlen value <= Cache.max_value_length -> opcode op = Protocol.op_get \/ opcode op = Protocol.op_set -> 0 <= key_index op < ks ->
  exists key, Benchmark.make_keys ks !! Z.to_nat (key_index op) = Some key /\
    Protocol.request_refusal (request_of value key op) = None.
Proof.
  intros Hv Hop Hk. exists (Benchmark.key_name (key_index op)). split.
  - unfold Benchmark.make_keys. rewrite keys_from_lookup by lia. do 2 f_equal. lia.
  - apply request_refusal_none. unfold request_of. pose proof (key_name_fits (key_index op)).
    destruct Hop as [-> | ->]; cbn [Protocol.opcode Protocol.key Protocol.value Protocol.ttl_ms Protocol.is_bare];
      (split_and!; [by auto|done| |by auto|done]); [by unfold Cache.max_value_length|done].
Qed.

Lemma preload_ok pipeline ks value :
  0 <= ks <= 2 ^ 36 -> 0 < pipeline -> zlen value <= Cache.max_value_length ->
  plan_ok pipeline (Benchmark.make_preload ks) (Benchmark.make_keys ks) value 0 (zlen (Benchmark.make_preload ks)).
Proof.
  intros Hks Hp Hv. constructor; rewrite ?length_preload by lia; [lia|lia|done|..].
  - apply NoDup_alt. intros i j id. rewrite !list_lookup_fmap, !fmap_Some.
    intros (op1 & H1 & ->) (op2 & H2 & He). apply preload_lookup in H1 as [? ->]. apply preload_lookup in H2 as [? ->].
    cbn [request_id] in He. rewrite !u64_small in He by lia. lia.
  - intros op [j Hj]%list_elem_of_lookup. apply preload_lookup in Hj as [Hj ->]. apply key_request_ok; [done|by right|done].
Qed.

(** ** Generated plans *)

Definition draws_ok (ks : Z) (draws : list (Protocol.Opcode * Z)) : Prop :=
  Forall (fun d => (d.1 = Protocol.op_get \/ d.1 = Protocol.op_set) /\ 0 <= d.2 < ks) draws.

Lemma length_workload first draws : zlen (Benchmark.workload_from first draws) = zlen draws.
Proof. f_equal. revert first. induction draws as [|[op key] draws IH]; intros first; [done|]. simpl. by rewrite IH. Qed.

Lemma workload_lookup first draws (j : nat) :
  0 <= first -> first + zlen draws <= u64_max + 1 ->
  Benchmark.workload_from first draws !! j = (fun d => MkOperation d.1 d.2 (first + Z.of_nat j)) <$> draws !! j.
Proof.
  revert first j. induction draws as [|[op key] draws IH]; intros first j Hf Hl; [done|]. cbn [length] in Hl. destruct j as [|j].
  - simpl. by rewrite Z.add_0_r.
  - change (Benchmark.workload_from (u64 (first + 1)) draws !! j = (fun d => MkOperation d.1 d.2 (first + Z.of_nat (S j))) <$> draws !! j).
    destruct draws as [|d draws]; [done|]. cbn [length] in *. unfold u64_max in *. rewrite u64_small by lia.
    rewrite IH by lia. by replace (first + 1 + Z.of_nat j) with (first + Z.of_nat (S j)) by lia.
Qed.

Lemma workload_ok pipeline ks value first draws :
  0 <= first -> first + zlen draws <= u64_max -> zlen draws <= 2 ^ 36 -> 0 < pipeline ->
  zlen value <= Cache.max_value_length -> draws_ok ks draws ->
  plan_ok pipeline (Benchmark.workload_from first draws) (Benchmark.make_keys ks) value 0 (zlen (Benchmark.workload_from first draws)).
Proof.
  intros Hf Hl Hd Hp Hv Hdr. constructor; rewrite ?length_workload; [lia|lia|done|..].
  - apply NoDup_alt. intros i j id. rewrite !list_lookup_fmap, !workload_lookup by lia.
    destruct (draws !! i), (draws !! j); simpl; intros; simplify_eq. lia.
  - intros op [j Hj]%list_elem_of_lookup. rewrite workload_lookup in Hj by lia. apply fmap_Some in Hj as (d & Hj & ->).
    destruct (Forall_lookup_1 _ _ _ _ Hdr Hj) as [H1 H2]. by apply key_request_ok.
Qed.

(** ** Options *)

Lemma validate_options_ok options :
  0 <= Benchmark.o_threads options -> 0 <= Benchmark.o_pipeline options -> 0 <= Benchmark.o_key_space options ->
  (Benchmark.validate_options options = Ret tt /\ 0 < Benchmark.o_threads options /\ 0 < Benchmark.o_pipeline options /\
    Benchmark.o_threads options <= Benchmark.o_connections options /\
    Benchmark.o_value_size options <= Cache.max_value_length /\ 0 < Benchmark.o_key_space options /\
    Double.lt (Benchmark.o_get_ratio options) Double.zero = false /\
    Double.lt (Double.of_Z 1) (Benchmark.o_get_ratio options) = false) \/
  exists text, Benchmark.validate_options options = Throw (std_invalid_argument text).
Proof.
  intros Ht Hp Hks. unfold Benchmark.validate_options. rewrite !Z.gtb_ltb. cbn zeta.
  repeat match goal with
  | |- context [if ?b then Throw ?x else _] => destruct b eqn:?; [right; by eexists|]
  end.
  left. repeat match goal with
  | H : (_ || _)%bool = false |- _ => apply orb_false_iff in H as [? ?]
  | H : (_ =? _) = false |- _ => apply Z.eqb_neq in H
  | H : (_ <? _) = false |- _ => apply Z.ltb_ge in H
  end. split_and!; (done || lia).
Qed.
