(* ===== verification/BenchmarkMainFacts.v ===== *)
(** * Facts about latencies, workloads and options of the load generator *)
From Stdlib Require Import SpecFloat.
From stdpp Require Import sorting.
From S2P Require Import Prelude ErrorModel Effects ProtocolModel CacheModel TextModel.
From S2P Require Import NumberModel FloatFacts BenchmarkModel BenchmarkMainModel BenchmarkFacts BenchmarkBuildFacts.

(** ** Percentiles *)

(** How many latencies satisfy a test. *)
Definition count_if (f : Z -> bool) (l : list Z) : Z := zlen (filter f l).

(** A [p]-th percentile of [l]: one of its elements, with at least [p] percent of the
    elements not above it, and less than [p] percent below it. *)
Definition is_percentile (p : Z) (l : list Z) (a : Z) : Prop :=
  a ∈ l /\ p * zlen l <= 100 * count_if (fun x => x <=? a) l /\ 100 * count_if (fun x => x <? a) l < p * zlen l.

Lemma count_if_perm f l k : l ≡ₚ k -> count_if f l = count_if f k.
Proof. intros H. unfold count_if. by rewrite H. Qed.

Lemma count_if_app f l k : count_if f (l ++ k) = count_if f l + count_if f k.
Proof. unfold count_if. rewrite filter_app, length_app. lia. Qed.

Lemma count_if_range f l : 0 <= count_if f l <= zlen l.
Proof. unfold count_if. pose proof (length_filter f l). lia. Qed.

Lemma count_if_all f l : Forall (fun x => f x = true) l -> count_if f l = zlen l.
Proof. unfold count_if. induction 1 as [|x l Hx _ IH]; [done|]. rewrite filter_cons_True by (by rewrite Hx). simpl. lia. Qed.

Lemma count_if_none f l : Forall (fun x => f x = false) l -> count_if f l = 0.
Proof. unfold count_if. induction 1 as [|x l Hx _ IH]; [done|]. rewrite filter_cons_False by (rewrite Hx; tauto). done. Qed.

Lemma percentile_perm p l k a : l ≡ₚ k -> is_percentile p l a -> is_percentile p k a.
Proof. intros H (H1 & H2 & H3). unfold is_percentile. by rewrite <- !(count_if_perm _ _ _ H), <- H. Qed.

(** The element at the nearest rank of a sorted list. *)
Lemma nearest_rank_percentile p l r a :
  StronglySorted Z.le l -> 100 * (r - 1) < p * zlen l <= 100 * r -> 1 <= r -> l !! Z.to_nat (r - 1) = Some a -> is_percentile p l a.
Proof.
  intros Hs Hr H1 Ha. pose proof (lookup_lt_Some _ _ _ Ha) as Hlt. split; [by eapply list_elem_of_lookup_2|].
  rewrite <- (take_drop_middle _ _ _ Ha) in Hs. pose proof (take_drop_middle _ _ _ Ha) as Hsplit.
  set (front := take (Z.to_nat (r - 1)) l) in *. set (back := drop (S (Z.to_nat (r - 1))) l) in *.
  assert (zlen front = r - 1) as Hf by (unfold front; rewrite length_take; lia).
  apply StronglySorted_app in Hs as (Hfa & _ & Hback). apply StronglySorted_cons in Hback as [Hb _].
  assert (Forall (fun x => x <= a) front) as Hle by (apply Forall_forall; intros x Hx; apply Hfa; [done|by left]).
  rewrite <- Hsplit, !count_if_app, Hsplit. cbn [app]. change (a :: back) with ([a] ++ back). rewrite !count_if_app.
  rewrite (count_if_all (fun x => x <=? a) front) by (eapply Forall_impl; [exact Hle|]; intros; by apply Z.leb_le).
  rewrite (count_if_all (fun x => x <=? a) [a]) by (apply Forall_singleton, Z.leb_refl).
  rewrite (count_if_none (fun x => x <? a) [a]) by (apply Forall_singleton, Z.ltb_irrefl).
  rewrite (count_if_none (fun x => x <? a) back) by (eapply Forall_impl; [exact Hb|]; intros; by apply Z.ltb_ge).
  pose proof (count_if_range (fun x => x <=? a) back). pose proof (count_if_range (fun x => x <? a) front).
  change (zlen [a]) with 1. lia.
Qed.

Lemma ceil_div_rank p n : 0 < p < 100 -> 0 < n ->
  100 * (Double.ceil_div (p * n) 100 - 1) < p * n <= 100 * Double.ceil_div (p * n) 100 /\
  1 <= Double.ceil_div (p * n) 100 <= n.
Proof.
  intros Hp Hn. unfold Double.ceil_div. pose proof (Z.div_mod (- (p * n)) 100 ltac:(lia)).
  pose proof (Z.mod_pos_bound (- (p * n)) 100 ltac:(lia)). nia.
Qed.

(** [percentile], for a quantile whose double is at or just below [p] hundredths. *)
Lemma percentile_value p mq l :
  Double.of_decimal false p (-2) = S754_finite false mq (-53) -> 0 < p < 100 -> 0 <= p * 2 ^ 53 - 100 * Zpos mq <= 100 ->
  StronglySorted Z.le l -> 0 < zlen l <= 2 ^ 40 ->
  exists a, Latency.percentile l (Double.of_decimal false p (-2)) = Some (Latency.microseconds a) /\ is_percentile p l a.
Proof.
  intros Hq Hp Hm Hs Hl. unfold Latency.percentile, Latency.rank. rewrite Hq, (quantile_rank _ _ _ Hp Hm Hl). cbn.
  destruct (ceil_div_rank p (zlen l) Hp ltac:(lia)) as [H1 H2]. rewrite Z.max_r by lia.
  destruct (lookup_lt_is_Some_2 l (Z.to_nat (Double.ceil_div (p * zlen l) 100 - 1)) ltac:(lia)) as [a Ha].
  rewrite Ha. exists a. split; [done|]. eapply nearest_rank_percentile; [done|exact H1|lia|done].
Qed.

Lemma accumulate_value span total l :
  Forall (fun x => 0 <= x <= span) l -> 0 <= total -> total + span * zlen l <= i64_max ->
  Latency.accumulate total l = Some (total + foldr Z.add 0 l).
Proof.
  intros H. revert total. induction H as [|x l Hx _ IH]; intros total Ht Hb; cbn [Latency.accumulate foldr]; [f_equal; lia|].
  cbn [length] in Hb. assert (0 <= span * zlen l) by nia.
  destruct (Z.leb_spec (- 2 ^ 63) (total + x)); [|lia]. destruct (Z.leb_spec (total + x) i64_max); [|nia]. cbn [andb].
  rewrite IH by lia. f_equal. lia.
Qed.

Lemma foldr_add_perm l k : l ≡ₚ k -> foldr Z.add 0 l = foldr Z.add 0 k.
Proof. induction 1; simpl; lia. Qed.

Lemma summarize_value span l :
  Forall (fun x => 0 <= x <= span) l -> 0 < zlen l <= 2 ^ 40 -> span * zlen l <= i64_max ->
  exists a50 a95 a99,
    Latency.summarize_latencies l =
      Some (Latency.MkLatencySummary (Double.div (Latency.microseconds (foldr Z.add 0 l)) (Double.of_Z (zlen l)))
              (Latency.microseconds a50) (Latency.microseconds a95) (Latency.microseconds a99)) /\
    is_percentile 50 l a50 /\ is_percentile 95 l a95 /\ is_percentile 99 l a99.
Proof.
  intros Hl Hn Hsum. unfold Latency.summarize_latencies. destruct l as [|x l']; [simpl in Hn; lia|].
  set (l := x :: l') in *. cbn zeta. pose proof (merge_sort_Permutation Z.le l) as Hp.
  assert (StronglySorted Z.le (merge_sort Z.le l)) as Hs.
  { apply Sorted_StronglySorted; [intros ???; lia|]. apply Sorted_merge_sort. intros a b. lia. }
  set (sorted := merge_sort Z.le l) in *. assert (zlen sorted = zlen l) as Hlen by (by rewrite Hp).
  rewrite (accumulate_value span) by (rewrite ?Hlen; try lia; by rewrite Hp). cbn [mbind option_bind].
  destruct (percentile_value 50 4503599627370496 sorted) as (a50 & -> & P50); [by vm_compute|lia|lia|done|lia|].
  destruct (percentile_value 95 8556839292003942 sorted) as (a95 & -> & P95); [by vm_compute|lia|lia|done|lia|].
  destruct (percentile_value 99 8917127262193582 sorted) as (a99 & -> & P99); [by vm_compute|lia|lia|done|lia|].
  exists a50, a95, a99. cbn [mbind option_bind]. rewrite Hlen, (foldr_add_perm _ _ Hp), Z.add_0_l.
  split; [done|]. split_and!; by eapply percentile_perm.
Qed.

(** ** Numbers of GETs *)

(** [c] is [n] times the ratio [x], rounded to the nearest, up to the error of one product. *)
Definition near_share (c n : Z) (x : Double.t) : Prop :=
  match x with
  | S754_zero _ => c = 0
  | S754_finite false m e => 2 ^ 53 * Z.abs (c * 2 ^ (- e) - n * Zpos m) <= (2 ^ 52 + n + 1) * 2 ^ (- e)
  | _ => False
  end.

(** Doubles between zero and one. *)
Lemma ratio_cases x :
  is_double x -> Double.is_finite x = true -> Double.lt x Double.zero = false -> Double.lt (Double.of_Z 1) x = false ->
  (exists s, x = S754_zero s) \/
  exists m e, x = S754_finite false m e /\ Zpos m < 2 ^ 53 /\ -1074 <= e <= -52 /\ Zpos m <= 2 ^ (- e).
Proof.
  intros Hd Hf H0 H1. destruct x as [s|s| |[] m e]; try done; [by left; exists s|right; exists m, e].
  destruct Hd as [Hm He]. split; [done|]. split; [done|].
  assert (exists one, Double.of_Z 1 = S754_finite false one (-52) /\ Zpos one = 2 ^ 52) as (one & Hone & Hv) by (by eexists).
  rewrite Hone in H1. unfold Double.lt, SFltb, SFcompare in H1. destruct (Z.compare_spec (-52) e) as [<-|Hlt|Hlt]; [|discriminate H1|].
  - split; [lia|]. change (- -52) with 52. rewrite <- Hv.
    destruct (Pos.compare_cont Eq one m) eqn:E; [|discriminate H1|]; fold (Pos.compare one m) in E.
    + apply Pos.compare_eq_iff in E. lia.
    + apply Pos.compare_gt_iff in E. lia.
  - split; [lia|]. assert (2 ^ 53 <= 2 ^ (- e)) by (apply Z.pow_le_mono_r; lia). lia.
Qed.

(** The number of GETs of a workload. *)
Lemma get_count_ok x n :
  is_double x -> Double.is_finite x = true -> Double.lt x Double.zero = false -> Double.lt (Double.of_Z 1) x = false ->
  0 <= n < 2 ^ 53 ->
  exists c, Double.llround (Double.mul (Double.of_Z n) x) = Some c /\ 0 <= c <= n /\ near_share c n x.
Proof.
  intros Hd Hf H0 H1 Hn. destruct (ratio_cases x Hd Hf H0 H1) as [[s ->]|(m & e & -> & Hm & He & Hone)].
  - exists 0. split; [|split; [lia|done]]. destruct (Z.eq_dec n 0) as [->|Hn0]; [done|].
    destruct (of_Z_spec n ltac:(lia)) as (mn & en & -> & _). done.
  - destruct (Z.eq_dec n 0) as [->|Hn0].
    { exists 0. split; [done|]. split; [lia|]. cbn [near_share]. pose proof (pow2_pos (- e) ltac:(lia)). lia. }
    destruct (share_count m e n ltac:(lia) Hm ltac:(lia) Hone) as (c & Hc & Hr & Hclose). exists c. split; [done|]. split; [done|].
    cbn [near_share]. assert (2 ^ 52 <= 2 ^ (- e)) by (apply Z.pow_le_mono_r; lia). nia.
Qed.

(** ** Workloads *)

Definition is_get (op : Protocol.Opcode) : bool := match op with Protocol.op_get => true | _ => false end.

(** The number of GETs among some operations. *)
Definition get_count (ops : list Operation) : Z := zlen (filter (fun op => is_get (opcode op)) ops).

Section workload.
Context {R : Random} {HR : RandomLaws R}.

Lemma draw_keys_opcodes ks opcodes g : (Workload.draw_keys ks opcodes g).*1 = opcodes.
Proof.
  revert g. induction opcodes as [|op opcodes IH]; intros g; [done|]. cbn [Workload.draw_keys].
  destruct (uniform_int _ g) as [key g']. rewrite fmap_cons. f_equal. apply IH.
Qed.

Lemma draw_keys_range ks opcodes g :
  0 < ks <= u64_max -> Forall (fun d => 0 <= d.2 < ks) (Workload.draw_keys ks opcodes g).
Proof.
  intros Hks. revert g. induction opcodes as [|op opcodes IH]; intros g; [constructor|]. cbn [Workload.draw_keys].
  pose proof (uniform_int_range (u64 (ks - 1)) g) as Hu. unfold u64_max in Hks. rewrite u64_small in * by lia.
  destruct (uniform_int _ g) as [key g']. cbn [fst snd] in Hu. constructor; [cbn [snd]; lia|apply IH].
Qed.

Lemma workload_opcodes first draws : opcode <$> Benchmark.workload_from first draws = draws.*1.
Proof.
  revert first. induction draws as [|[op key] draws IH]; intros first; [done|]. cbn [Benchmark.workload_from].
  rewrite !fmap_cons. f_equal. apply IH.
Qed.

Lemma get_count_opcodes ops : get_count ops = zlen (filter is_get (opcode <$> ops)).
Proof.
  unfold get_count. f_equal. induction ops as [|op ops IH]; [done|]. rewrite fmap_cons.
  destruct (is_get (opcode op)) eqn:E; [rewrite !filter_cons_True by (by rewrite E); simpl; by f_equal|].
  rewrite !filter_cons_False by (rewrite E; tauto). done.
Qed.

Lemma opcodes_gets a b :
  zlen (filter is_get (replicate a Protocol.op_get ++ replicate b Protocol.op_set)) = Z.of_nat a.
Proof.
  rewrite filter_app, length_app. f_equal.
  assert (filter is_get (replicate a Protocol.op_get) = replicate a Protocol.op_get) as ->.
  { induction a as [|a IH]; [done|]. cbn [replicate]. rewrite filter_cons_True by done. by rewrite IH. }
  assert (filter is_get (replicate b Protocol.op_set) = []) as ->.
  { induction b as [|b IH]; [done|]. cbn [replicate]. by rewrite filter_cons_False by (intros []). }
  rewrite length_replicate. simpl. lia.
Qed.

(** [generate_workload] on a ratio between zero and one and identifiers that fit. *)
Lemma generate_workload_ok n x ks seed first :
  is_double x -> Double.is_finite x = true -> Double.lt x Double.zero = false -> Double.lt (Double.of_Z 1) x = false ->
  0 <= n < 2 ^ 53 -> 0 < ks <= u64_max -> 0 <= first -> first + n <= u64_max + 1 ->
  exists draws, Workload.generate_workload n x ks seed first = Ret (Benchmark.workload_from first draws) /\
    zlen draws = n /\ draws_ok ks draws /\
    exists c, get_count (Benchmark.workload_from first draws) = c /\ 0 <= c <= n /\ near_share c n x.
Proof.
  intros Hd Hf H0 H1 Hn Hks Hfirst Hfits. destruct (get_count_ok x n Hd Hf H0 H1 Hn) as (c & Hc & Hr & Hs).
  unfold Workload.generate_workload. rewrite H0, H1, Hf, Hc. destruct (Z.eqb_spec ks 0); [lia|]. cbn [orb negb].
  assert (negb (n =? 0) && (first >? u64_max - (n - 1)) = false) as -> by (apply andb_false_iff; right; lia).
  rewrite u64_small by lia. destruct (Z.leb_spec c n); [|lia]. cbn zeta.
  set (opcodes := replicate (Z.to_nat c) Protocol.op_get ++ replicate (Z.to_nat (n - c)) Protocol.op_set).
  pose proof (shuffle_perm _ (Mt19937.create seed) opcodes) as Hp. destruct (shuffle _ opcodes) as [shuffled g]. cbn [fst] in Hp.
  exists (Workload.draw_keys ks shuffled g). split; [done|].
  pose proof (draw_keys_opcodes ks shuffled g) as Ho. split; [|split].
  - rewrite <- (length_fmap fst), Ho, Hp. unfold opcodes. rewrite length_app, !length_replicate. lia.
  - pose proof (draw_keys_range ks shuffled g Hks) as Hrange. apply Forall_forall. intros d Hin. split; [|by eapply Forall_forall in Hrange].
    assert (d.1 ∈ shuffled) as Hdin by (rewrite <- Ho; by apply list_elem_of_fmap_2).
    rewrite Hp in Hdin. unfold opcodes in Hdin. rewrite elem_of_app, !elem_of_replicate in Hdin. tauto.
  - exists c. split; [|done]. rewrite get_count_opcodes, workload_opcodes, Ho, Hp. unfold opcodes. rewrite opcodes_gets. lia.
Qed.

End workload.

Lemma length_make_value size seed : 0 <= size -> zlen (Workload.make_value size seed) = size.
Proof.
  intros Hs. unfold Workload.make_value. rewrite <- (Z2Nat.id size) at 2 by done. f_equal. generalize (Mt19937.create (Z.lxor seed 0x56414C5545554C4C)).
  induction (Z.to_nat size) as [|n IH]; intros g; [done|]. cbn [Workload.value_from]. destruct (Mt19937.next g). cbn [length]. by rewrite IH.
Qed.

(** ** Options *)

(** What the types of the fields say, and that the ratio is a finite number. *)
Record options_typed (o : Benchmark.Options) : Prop := {
  ot_port : 0 <= Benchmark.o_port o <= 65535;
  ot_sizes : Forall (fun v => 0 <= v <= u64_max)
    [Benchmark.o_threads o; Benchmark.o_connections o; Benchmark.o_requests o; Benchmark.o_value_size o;
     Benchmark.o_key_space o; Benchmark.o_seed o; Benchmark.o_warmup_requests o; Benchmark.o_pipeline o];
  ot_ratio : is_double (Benchmark.o_get_ratio o) /\ Double.is_finite (Benchmark.o_get_ratio o) = true
}.

Lemma default_options_typed : options_typed CommandLine.default_options.
Proof.
  constructor; [simpl; lia| |].
  - cbn. rewrite !Forall_cons. unfold u64_max. split_and!; try lia. constructor.
  - split; [apply of_decimal_valid|by vm_compute].
Qed.

Lemma parse_unsigned_typed value name v : CommandLine.parse_unsigned value name = Ret v -> 0 <= v <= u64_max.
Proof. unfold CommandLine.parse_unsigned. case_match eqn:E; [|done]. intros [= <-]. by eapply whole_number_range. Qed.

Lemma set_field_typed name put value o o' :
  CommandLine.set_field name = Some put -> options_typed o -> put value o = Ret o' -> options_typed o'.
Proof.
  intros Hput [O1 O2 [O3 O4]] Hp. unfold CommandLine.set_field in Hput. cbn zeta in Hput. rewrite !Forall_cons in O2.
  destruct O2 as (? & ? & ? & ? & ? & ? & ? & ? & _).
  repeat (case_decide; [injection Hput as <-|]); [..|done];
    (try (destruct (CommandLine.parse_unsigned value name) as [v|x|] eqn:Ev; cbn [and_then] in Hp; [|done..];
          apply parse_unsigned_typed in Ev));
    (try (destruct (CommandLine.parse_ratio value name) as [v|x|] eqn:Ev; cbn [and_then] in Hp; [|done..]));
    try (destruct (_ || _)%bool eqn:Eport; [done|]; apply orb_false_iff in Eport as [? ?]);
    injection Hp as <-; constructor; cbn; rewrite ?Forall_cons; split_and!; try done; try lia.
  all: unfold CommandLine.parse_ratio in Ev; case_match eqn:E; [|done]; injection Ev as <-; by apply from_chars_valid in E as [? ?].
Qed.

Lemma parse_arguments_typed args o o' :
  options_typed o -> CommandLine.parse_arguments args o = Ret o' -> options_typed o'.
Proof.
  remember (length args) as n eqn:Hn. revert args o Hn. induction n as [n IH] using lt_wf_ind. intros args o -> Ho Hp.
  destruct args as [|argument rest]; cbn [CommandLine.parse_arguments] in Hp; [by injection Hp as <-|].
  case_decide; [eapply (IH (length rest)); [simpl; lia|done| |exact Hp]; destruct Ho; by constructor|].
  case_decide; [eapply (IH (length rest)); [simpl; lia|done| |exact Hp]; destruct Ho; by constructor|].
  destruct (CommandLine.set_field argument) as [put|] eqn:E; [|done]. destruct rest as [|value rest]; [done|].
  destruct (put value o) as [o1|x|] eqn:E1; cbn [and_then] in Hp; [|done..].
  eapply (IH (length rest)); [simpl; lia|done| |exact Hp]; by eapply set_field_typed.
Qed.

(** What [parse_options] returns, without [--help], is typed and valid. *)
Lemma parse_options_typed args o :
  CommandLine.parse_options args = Ret o ->
  options_typed o /\ (Benchmark.o_help o = true \/ Benchmark.validate_options o = Ret tt).
Proof.
  unfold CommandLine.parse_options. destruct (CommandLine.parse_arguments args _) as [o1|x|] eqn:E; cbn [and_then]; [|done..].
  apply parse_arguments_typed in E; [|apply default_options_typed]. destruct (Benchmark.o_help o1) eqn:Eh.
  - intros [= <-]. split; [done|by left].
  - destruct (Benchmark.validate_options o1) as [[]|x|] eqn:Ev; cbn [and_then]; [|done..]. intros [= <-]. split; [done|by right].
Qed.

(** ** Phases *)

Lemma finish_value span st seconds :
  stats_ok span st -> done_count st <= 2 ^ 36 -> 0 <= span -> span * done_count st <= i64_max ->
  exists r, Run.finish st seconds = Some r /\ Run.requests r = done_count st /\
    Run.successful r = Statistics.successful_ st /\ Run.failed r = Statistics.failed_ st.
Proof.
  intros [S1 S2 S3 S4] Hd Hspan Hsum. unfold Run.finish.
  assert (exists summary, Latency.summarize_latencies (Statistics.latencies_ st) = Some summary) as [summary ->].
  { destruct (Statistics.latencies_ st) as [|x l] eqn:E; [by eexists|]. rewrite <- E in *. unfold done_count in *.
    destruct (summarize_value span (Statistics.latencies_ st)) as (a50 & a95 & a99 & -> & _); [done| |nia|by eexists].
    rewrite E. cbn [length]. rewrite E in S3. cbn [length] in S3. lia. }
  cbn [mbind option_bind]. eexists. split; [done|]. cbn [Run.requests Run.successful Run.failed]. unfold Statistics.handled.
  fold (done_count st). by rewrite u64_small by (unfold done_count in *; lia).
Qed.

Lemma plan_sendable options value plan :
  0 < Benchmark.o_threads options <= 2 ^ 16 ->
  plan_ok (Benchmark.o_pipeline options) plan (Benchmark.make_keys (Benchmark.o_key_space options)) value 0 (zlen plan) ->
  sendable options plan (Benchmark.make_keys (Benchmark.o_key_space options)) value.
Proof.
  intros Ht Hp. pose proof (pl_size _ _ _ _ _ _ Hp). constructor; [unfold u64_max; lia|unfold u64_max; nia|done].
Qed.

(** Options of a size that leaves room for the counters and the queues. *)
Definition options_small (o : Benchmark.Options) : Prop :=
  Benchmark.o_threads o <= 2 ^ 16 /\ Benchmark.o_key_space o <= 2 ^ 36 /\
  Benchmark.o_warmup_requests o <= 2 ^ 36 /\ Benchmark.o_requests o <= 2 ^ 36.

Record options_sized (o : Benchmark.Options) : Prop := {
  oz_typed : options_typed o;
  oz_small : options_small o
}.

(** The worlds of a phase: one for each thread. *)
Definition worlds_ok (options : Benchmark.Options) (span : Z) (ws : list Benchmark.world) : Prop :=
  zlen ws = Benchmark.o_threads options /\ Forall (world_ok span) ws.

(** The worlds of a run; the latencies add up within 64 bits. *)
Record phases_ok (options : Benchmark.Options) (span : Z) (p : Run.phases) : Prop := {
  ph_worlds : Forall (worlds_ok options span) [Run.preload_worlds p; Run.warmup_worlds p; Run.measured_worlds p];
  ph_span : 0 <= span /\ span * Benchmark.o_requests options <= i64_max
}.

Section phases.
Variable inet_pton : bytes -> Z.
Variable options : Benchmark.Options.
Variable span : Z.
Hypothesis Hsized : options_sized options.
Hypothesis Hvalid : Benchmark.validate_options options = Ret tt.

Let keys : list bytes := Benchmark.make_keys (Benchmark.o_key_space options).
Let value : bytes := Workload.make_value (Benchmark.o_value_size options) (Benchmark.o_seed options).

Lemma sized_bounds :
  0 < Benchmark.o_threads options <= 2 ^ 16 /\ 0 < Benchmark.o_pipeline options /\
  0 < Benchmark.o_key_space options <= 2 ^ 36 /\ 0 <= Benchmark.o_warmup_requests options <= 2 ^ 36 /\
  0 <= Benchmark.o_requests options <= 2 ^ 36 /\ zlen value <= Cache.max_value_length /\
  Double.lt (Benchmark.o_get_ratio options) Double.zero = false /\
  Double.lt (Double.of_Z 1) (Benchmark.o_get_ratio options) = false.
Proof.
  destruct Hsized as [[_ Hs _] (Z1 & Z2 & Z3 & Z4)]. rewrite !Forall_cons in Hs. destruct Hs as (? & ? & ? & ? & ? & ? & ? & ? & _).
  destruct (validate_options_ok options) as [(_ & V1 & V2 & _ & V3 & V4 & V5 & V6)|[text E]]; [lia..| |by rewrite E in Hvalid].
  unfold value. rewrite length_make_value by lia. split_and!; (done || lia).
Qed.

Lemma preload_sendable : sendable options (Benchmark.make_preload (Benchmark.o_key_space options)) keys value.
Proof. destruct sized_bounds as (? & ? & ? & _ & _ & ? & _). apply plan_sendable; [lia|]. apply preload_ok; (done || lia). Qed.

(** All threads of a phase. *)
Lemma execute_plan_counts plan ws :
  sendable options plan keys value -> worlds_ok options span ws ->
  exists st, Benchmark.execute_plan inet_pton options plan keys value ws = Ret st /\ stats_ok span st /\ done_count st = zlen plan.
Proof.
  intros Hs [Hl Hw]. apply run_threads_counts; [done|done|lia|done|by constructor|].
  by rewrite bound_zero by apply (sd_threads _ _ _ _ Hs).
Qed.

(** A phase that must succeed ends well only if every operation of its plan did. *)
Lemma required_sound plan ws phase :
  sendable options plan keys value -> worlds_ok options span ws ->
  exists st, Benchmark.execute_plan inet_pton options plan keys value ws = Ret st /\
    (Run.required inet_pton options plan ws phase = Ret tt /\ Statistics.successful_ st = zlen plan \/
     0 < Statistics.failed_ st /\ exists text, Run.required inet_pton options plan ws phase = Throw (std_runtime_error text)).
Proof.
  intros Hs Hw. destruct (execute_plan_counts plan ws Hs Hw) as (st & Hr & [S1 S2 S3 S4] & Hd).
  exists st. split; [done|]. unfold Run.required. fold keys value. rewrite Hr. cbn [and_then].
  unfold Benchmark.require_success, done_count in *. destruct (Z.eqb_spec (Statistics.failed_ st) 0); cbn [negb].
  - left. split; [done|lia].
  - right. split; [lia|by eexists].
Qed.

Context {R : Random} {HR : RandomLaws R}.

Lemma workload_sendable n seed first :
  0 <= n <= 2 ^ 36 -> 0 <= first <= 2 ^ 38 ->
  exists plan, Workload.generate_workload n (Benchmark.o_get_ratio options) (Benchmark.o_key_space options) seed first = Ret plan /\
    zlen plan = n /\ sendable options plan keys value.
Proof.
  intros Hn Hf. destruct sized_bounds as (? & ? & ? & _ & _ & ? & ? & ?). destruct (ot_ratio _ (oz_typed _ Hsized)) as [Hr1 Hr2].
  destruct (generate_workload_ok n (Benchmark.o_get_ratio options) (Benchmark.o_key_space options) seed first)
    as (draws & -> & Hl & Hd & _); try (done || lia || (unfold u64_max; lia)).
  eexists. split; [done|]. rewrite length_workload. split; [done|]. apply plan_sendable; [lia|].
  apply workload_ok; (done || (unfold u64_max; lia)).
Qed.

Lemma warm_up_cases first ws :
  0 <= first <= 2 ^ 38 -> worlds_ok options span ws ->
  Run.warm_up inet_pton options first ws = Ret tt \/
  exists text, Run.warm_up inet_pton options first ws = Throw (std_runtime_error text).
Proof.
  intros Hf Hw. unfold Run.warm_up. destruct (negb _); [|by left]. destruct sized_bounds as (_ & _ & _ & ? & _).
  destruct (workload_sendable (Benchmark.o_warmup_requests options) (Z.lxor (Benchmark.o_seed options) 0x5741524D55504C4C) first)
    as (plan & -> & _ & Hs); [lia|lia|]. cbn [and_then].
  destruct (required_sound plan ws (lit "warmup") Hs Hw) as (st & _ & [[-> _]|(_ & text & ->)]); eauto.
Qed.

End phases.

(** The keys and the value of a run. *)
Definition run_keys (options : Benchmark.Options) : list bytes := Benchmark.make_keys (Benchmark.o_key_space options).
Definition run_value (options : Benchmark.Options) : bytes :=
  Workload.make_value (Benchmark.o_value_size options) (Benchmark.o_seed options).

(** A report on all requests, after a preload that set every key. *)
Record reported (inet_pton : bytes -> Z) (options : Benchmark.Options) (p : Run.phases) (r : Run.Result) : Prop := {
  rp_requests : Run.requests r = Benchmark.o_requests options;
  rp_counts : Run.successful r + Run.failed r = Run.requests r /\ 0 <= Run.successful r /\ 0 <= Run.failed r;
  rp_preload : exists st, Benchmark.execute_plan inet_pton options (Benchmark.make_preload (Benchmark.o_key_space options))
      (run_keys options) (run_value options) (Run.preload_worlds p) = Ret st /\
    Statistics.successful_ st = Benchmark.o_key_space options
}.

Lemma run_benchmark_cases {R : Random} {HR : RandomLaws R} inet_pton options span p :
  options_sized options -> phases_ok options span p ->
  (exists text, Benchmark.validate_options options = Throw (std_invalid_argument text) /\
     Run.run_benchmark inet_pton options p = Throw (std_invalid_argument text)) \/
  Benchmark.validate_options options = Ret tt /\
    ((exists text, Run.run_benchmark inet_pton options p = Throw (std_runtime_error text)) \/
     exists r, Run.run_benchmark inet_pton options p = Ret r /\ reported inet_pton options p r).
Proof.
  intros Hz [Hw [Hs1 Hs2]]. rewrite !Forall_cons in Hw. destruct Hw as (W1 & W2 & W3 & _). unfold Run.run_benchmark.
  pose proof (ot_sizes _ (oz_typed _ Hz)) as Hs. rewrite !Forall_cons in Hs.
  destruct (validate_options_ok options) as [[Hv _]|[text ->]]; [lia..|right|left; by exists text]. clear Hs.
  rewrite Hv. split; [done|]. cbn [and_then].
  destruct (sized_bounds options Hz Hv) as (B1 & B2 & B3 & B4 & B5 & B6 & _).
  destruct (required_sound inet_pton options span _ _ (lit "preload") (preload_sendable options Hz Hv) W1)
    as (pre & Hpre & [[-> Hsucc]|(_ & text & ->)]); [|by left; eexists].
  rewrite length_preload in Hsucc by lia. cbn [and_then]. rewrite !u64_small by lia.
  destruct (warm_up_cases inet_pton options span Hz Hv (Benchmark.o_key_space options + 1) _ ltac:(lia) W2)
    as [-> |[text ->]]; [|by left; eexists]. cbn [and_then].
  destruct (workload_sendable options Hz Hv (Benchmark.o_requests options) (Benchmark.o_seed options)
    (Benchmark.o_key_space options + 1 + Benchmark.o_warmup_requests options) ltac:(lia) ltac:(lia)) as (plan & -> & Hl & Hsend).
  cbn [and_then]. destruct (execute_plan_counts inet_pton options span plan _ Hsend W3) as (st & -> & Hst & Hd). cbn [and_then].
  rewrite Hl in Hd.
  destruct (finish_value span st (Double.div (Double.of_Z (Run.elapsed p)) (Double.of_Z 1000000000)) Hst)
    as (r & -> & R1 & R2 & R3); [lia|lia|by rewrite Hd|].
  right. exists r. split; [done|]. pose proof (st_signs _ _ Hst). unfold done_count in *. constructor; [lia|lia|by exists pre].
Qed.

(** ** [main] *)

Lemma set_field_defined name put value o : CommandLine.set_field name = Some put -> put value o <> Undefined.
Proof.
  intros Hput. unfold CommandLine.set_field, CommandLine.parse_unsigned, CommandLine.parse_ratio in Hput. cbn zeta in Hput.
  repeat (case_decide; [injection Hput as <-|]); [..|done]; repeat case_match; cbn [and_then]; repeat case_match; done.
Qed.

Lemma parse_arguments_defined args o : CommandLine.parse_arguments args o <> Undefined.
Proof.
  remember (length args) as n eqn:Hn. revert args o Hn. induction n as [n IH] using lt_wf_ind. intros args o ->.
  destruct args as [|argument rest]; cbn [CommandLine.parse_arguments]; [done|].
  case_decide; [by eapply (IH (length rest)); [simpl; lia|]|]. case_decide; [by eapply (IH (length rest)); [simpl; lia|]|].
  destruct (CommandLine.set_field argument) as [put|] eqn:E; [|done]. destruct rest as [|value rest]; [done|].
  pose proof (set_field_defined argument put value o E). destruct (put value o) as [o1|x|]; cbn [and_then]; [|done..].
  by eapply (IH (length rest)); [simpl; lia|].
Qed.

Lemma parse_options_defined args : CommandLine.parse_options args <> Undefined.
Proof.
  unfold CommandLine.parse_options. pose proof (parse_arguments_defined args CommandLine.default_options).
  destruct (CommandLine.parse_arguments _ _) as [o|x|]; cbn [and_then]; [|done..]. destruct (Benchmark.o_help o); [done|].
  unfold Benchmark.validate_options. repeat case_match; cbn [and_then]; done.
Qed.

(** ** The report *)

(** The fields of a text between separators. *)
Fixpoint split_on (sep : byte) (s : bytes) : list bytes :=
  match s with
  | [] => [[]]
  | b :: s =>
      if decide (b = sep) then [] :: split_on sep s
      else match split_on sep s with field :: fields => (b :: field) :: fields | [] => [[b]] end
  end.

Definition comma : byte := Byte.x2c.

Lemma split_on_field sep f : sep ∉ f -> split_on sep f = [f].
Proof.
  induction f as [|b f IH]; intros Hf; [done|]. apply not_elem_of_cons in Hf as [Hb Hf]. cbn [split_on].
  rewrite decide_False by done. by rewrite IH.
Qed.

Lemma split_on_app sep f s : sep ∉ f -> split_on sep (f ++ sep :: s) = f :: split_on sep s.
Proof.
  induction f as [|b f IH]; intros Hf; cbn [app split_on]; [by rewrite decide_True by done|].
  apply not_elem_of_cons in Hf as [Hb Hf]. rewrite decide_False by done. by rewrite IH.
Qed.

Lemma split_comma_separated fields :
  fields <> [] -> Forall (fun f => comma ∉ f) fields -> split_on comma (BenchmarkMain.comma_separated fields) = fields.
Proof.
  intros Hne H. induction H as [|f fields Hf _ IH]; [done|]. destruct fields as [|g fields]; [by apply split_on_field|].
  change (BenchmarkMain.comma_separated (f :: g :: fields)) with (f ++ comma :: BenchmarkMain.comma_separated (g :: fields)).
  rewrite split_on_app by done. by rewrite IH.
Qed.

(** No separator in a field. *)
Definition plain (b : byte) : Prop := b <> comma /\ b <> Byte.x0a.

#[export] Instance plain_dec b : Decision (plain b).
Proof. unfold plain. apply _. Defined.

Lemma digit_plain d : 0 <= d <= 9 -> plain (digit d).
Proof. intros Hd. apply digit_value_digit in Hd. split; intros E; by rewrite E in Hd. Qed.

Lemma digits_plain fuel n acc : 0 <= n -> Forall plain acc -> Forall plain (digits fuel n acc).
Proof.
  revert n acc. induction fuel as [|fuel IH]; intros n acc Hn Hacc; [done|]. cbn [digits].
  destruct (Z.ltb_spec n 10); [constructor; [apply digit_plain; lia|done]|].
  pose proof (Z.mod_pos_bound n 10 ltac:(lia)). apply IH; [apply Z.div_pos; lia|]. constructor; [apply digit_plain; lia|done].
Qed.

Lemma to_decimal_plain n : 0 <= n -> Forall plain (to_decimal n).
Proof. intros Hn. by apply digits_plain. Qed.

Lemma round_half_even_nonneg a b : 0 <= a -> 0 < b -> 0 <= Double.round_half_even a b.
Proof.
  intros Ha Hb. unfold Double.round_half_even. assert (0 <= a / b) by (by apply Z.div_pos).
  destruct (_ ?= _); [destruct (Z.even _)| |]; lia.
Qed.

Lemma to_fixed3_plain x : Forall plain (Double.to_fixed3 x).
Proof.
  destruct x as [[]|[]| |s m e]; cbn [Double.to_fixed3]; [apply (bool_decide_unpack _); by vm_compute..|].
  set (v := if 0 <=? e then _ else _). assert (0 <= v) as Hv.
  { unfold v. destruct (Z.leb_spec 0 e); [pose proof (pow2_pos e ltac:(lia)); lia|]. apply round_half_even_nonneg; [lia|]. apply pow2_pos. lia. }
  pose proof (Z.mod_pos_bound v 1000 ltac:(lia)) as Hm. rewrite !Forall_app. split_and!.
  - destruct s; apply (bool_decide_unpack _); by vm_compute.
  - apply digits_plain; [apply Z.div_pos; lia|constructor].
  - apply (bool_decide_unpack _); by vm_compute.
  - pose proof (Z.mod_pos_bound (v mod 1000) 10 ltac:(lia)). pose proof (Z.mod_pos_bound (v mod 1000 / 10) 10 ltac:(lia)).
    assert (0 <= v mod 1000 / 100 <= 9).
    { split; [apply Z.div_pos; lia|]. apply Z.lt_succ_r, Z.div_lt_upper_bound; lia. }
    unfold Double.pad3. rewrite !Forall_cons. split_and!; [apply digit_plain; lia..|constructor].
Qed.

Lemma plain_no_comma f : Forall plain f -> comma ∉ f.
Proof. intros H Hin. eapply Forall_forall in H; [|exact Hin]. by destruct H. Qed.

Lemma comma_separated_plain fields :
  Forall (Forall plain) fields -> Byte.x0a ∉ BenchmarkMain.comma_separated fields.
Proof.
  induction 1 as [|f fields Hf _ IH]; [apply not_elem_of_nil|].
  assert (Byte.x0a ∉ f) as Hn by (intros Hin; eapply Forall_forall in Hf; [|exact Hin]; by destruct Hf).
  destruct fields as [|g fields]; [done|].
  change (BenchmarkMain.comma_separated (f :: g :: fields)) with (f ++ comma :: BenchmarkMain.comma_separated (g :: fields)).
  rewrite not_elem_of_app, not_elem_of_cons. by split_and!.
Qed.

(** The counters of a result fit their types. *)
Definition result_typed (r : Run.Result) : Prop :=
  Forall (fun v => 0 <= v <= u64_max)
    [Run.requests r; Run.successful r; Run.failed r; Run.get_hits r; Run.get_misses r; zlen (Run.errors r)].

Lemma csv_row_plain o r : options_typed o -> result_typed r -> Forall (Forall plain) (BenchmarkMain.csv_row o r).
Proof.
  intros [_ Ho _] Hr. unfold result_typed in Hr. rewrite !Forall_cons in Ho. rewrite !Forall_cons in Hr. unfold BenchmarkMain.csv_row. rewrite !Forall_cons.
  split_and!; try apply to_fixed3_plain; try (apply to_decimal_plain; lia). constructor.
Qed.
