(* ===== verification/BenchmarkTheorems.v ===== *)
(** * Properties of the load generator *)
From Stdlib Require Import SpecFloat.
From S2P Require Import Prelude ErrorModel Effects MemoryModel ProgressFacts BufferModel ProtocolModel.
From S2P Require Import CacheModel ConnectionModel WorkerModel ServerModel ServerFacts TextModel.
From S2P Require Import NumberModel FloatFacts BenchmarkModel BenchmarkMainModel.
From S2P Require Import BenchmarkFacts BenchmarkBuildFacts BenchmarkMainFacts.
Import Memory.

(** ** Dealing out the work *)

(** [execute_plan] divides the plan exactly: every position of the plan lies in
    the part of one thread and of no other, and the connections given to the threads
    add up to [options.connections]. *)
Theorem benchmark_split_correct n threads connections :
  0 <= n -> 0 < threads <= u64_max -> n * threads <= u64_max -> 0 <= connections <= u64_max ->
  (forall j, 0 <= j < n -> exists! i, 0 <= i < threads /\
     Benchmark.plan_begin n threads i <= j < Benchmark.plan_end n threads i) /\
  zsum (fun i => Benchmark.connection_count connections threads (Z.of_nat i)) (seq 0 (Z.to_nat threads)) = connections.
Proof.
  intros Hn [Ht Hm] Hf Hc. split.
  - intros j Hj. destruct (bound_covers n threads Ht j (Z.to_nat threads)) as (i & Hi & Hb).
    { rewrite Z2Nat.id, bound_all by lia. done. }
    exists i. split; [rewrite plan_begin_value, plan_end_value by lia; lia|].
    intros i' [Hi' Hb']. rewrite plan_begin_value, plan_end_value in Hb' by lia.
    destruct (Z.lt_trichotomy i i') as [H|[->|H]]; [|done|].
    + pose proof (bound_mono n threads Hn Ht (i + 1) i' ltac:(lia)). lia.
    + pose proof (bound_mono n threads Hn Ht (i' + 1) i ltac:(lia)). lia.
  - rewrite connections_dealt by lia. pose proof (Z.mod_pos_bound connections threads Ht).
    pose proof (Z.div_mod connections threads ltac:(lia)). rewrite Z2Nat.id by lia. lia.
Qed.

Lemma benchmark_split_correct_witness :
  (exists! i, 0 <= i < 3 /\ Benchmark.plan_begin 10 3 i <= 6 < Benchmark.plan_end 10 3 i) /\
  zsum (fun i => Benchmark.connection_count 5 3 (Z.of_nat i)) (seq 0 3) = 5.
Proof.
  destruct (benchmark_split_correct 10 3 5) as [H1 H2]; [lia|unfold u64_max; lia..|].
  split; [apply H1; lia|exact H2].
Defined.

(** ** Threads *)

(** A thread of the load generator, when no allocation fails, always comes to its
    end, whatever the kernel, the network and the server do: refused or broken
    connections, arbitrary bytes, timeouts. It then has counted each operation of its
    part exactly once, as answered or failed, no more GETs than answers, and it has
    closed every descriptor it opened. *)
Theorem benchmark_thread_correct inet_pton options plan keys value span i w :
  sendable options plan keys value -> 0 <= i < Benchmark.o_threads options -> world_ok span w ->
  exists st s', Benchmark.thread_body inet_pton options plan keys value i w (Benchmark.os w, Benchmark.heap w) = (Ret st, s') /\
    Statistics.handled st =
      Benchmark.plan_end (zlen plan) (Benchmark.o_threads options) i -
      Benchmark.plan_begin (zlen plan) (Benchmark.o_threads options) i /\
    Statistics.get_hits_ st + Statistics.get_misses_ st <= Statistics.successful_ st /\
    Os.opened s'.1 = Os.opened (Benchmark.os w).
Proof.
  intros Hs Hi (Hf & Hq & Hc). pose proof (part_ok _ _ _ _ Hs i Hi) as Hp.
  destruct (wp_run _ _ _ _ (thread_body_wp inet_pton _ _ _ _ span _ w Hp Hf Hq Hc)) as [(st & s' & Hr & Hst & Hd & Hl)|(x & s' & _ & [])].
  exists st, s'. destruct (pl_range _ _ _ _ _ _ Hp) as [? ?]. pose proof (pl_size _ _ _ _ _ _ Hp).
  split_and!; [done| |apply Hst|].
  - unfold Statistics.handled. fold (done_count st). rewrite u64_small by lia. done.
  - destruct Hl as (_ & -> & _). set_solver.
Qed.

(** Two threads send the operations that fill three keys; the first gets an answer to
    its request, the second is cut off after one answer of two. *)
Definition sample_options : Benchmark.Options := 
  Benchmark.MkOptions (lit "127.0.0.1") 7400 2 2 3 (Double.of_decimal false 8 (-1)) 5 3 12345 0 4 false false.

Definition answer (id : Z) : bytes := Protocol.response_frame (Protocol.MkResponse id Protocol.ws_ok []).

Definition arrived (bs : bytes) : list Socket.arrival :=
  match bs with [] => [] | b :: bs => [Socket.chunk b bs] end.

Definition answers (id : Z) (rest : list Socket.arrival) : ClientWorker.wait :=
  ClientWorker.ready [ClientWorker.MkEvent 4 (Z.lor Connection.EPOLLIN Connection.EPOLLOUT) (arrived (answer id) ++ rest) [Socket.room 4096]].

Definition sample_world (faults : list bool) (waits : list ClientWorker.wait) : Benchmark.world :=
  Benchmark.MkWorld (Os.MkOs {[0; 1; 2]} ∅ [Some 3; Some 4] [] 0 None 0 (lit "error")) (MkEnv empty_memory faults) waits
    (fun n => Z.of_nat (Nat.min n 100)).

Definition sample_worlds : list Benchmark.world :=
  [sample_world [] [ClientWorker.interrupted; answers 1 []]; sample_world [] [answers 2 [Socket.closed]]].

Lemma sample_world_ok waits : world_ok 100 (sample_world [] waits).
Proof.
  split; [|split; [done|intros i j Hij; simpl; lia]]. assert (coming (Benchmark.os (sample_world [] waits)) = [3; 4]) as Hc by done.
  split; rewrite Hc; [by apply (bool_decide_unpack _); vm_compute|].
  intros fd Hfd. assert (fd = 3 \/ fd = 4) as [-> | ->] by set_solver.
  - split; [lia|]. apply (bool_decide_unpack _). by vm_compute.
  - split; [lia|]. apply (bool_decide_unpack _). by vm_compute.
Qed.

Lemma sample_sendable : sendable sample_options (Benchmark.make_preload 3) (Benchmark.make_keys 3) (lit "value").
Proof.
  constructor; [unfold u64_max; simpl; lia| |].
  - rewrite length_preload by lia. unfold u64_max. simpl. lia.
  - apply preload_ok; [lia|done|]. unfold Cache.max_value_length. simpl. lia.
Qed.

Lemma sample_worlds_ok : Forall (world_ok 100) sample_worlds.
Proof. unfold sample_worlds. rewrite !Forall_cons. split_and!; [apply sample_world_ok..|done]. Qed.

(** What these two threads count: three operations, one of them failed. *)
Example sample_execution :
  Benchmark.execute_plan (fun _ => 1) sample_options (Benchmark.make_preload 3) (Benchmark.make_keys 3) (lit "value") sample_worlds =
  Ret (Statistics.MkStatistics 2 1 0 0 [1; 2] [lit "benchmark connection closed"]).
Proof. by vm_compute. Qed.

Lemma benchmark_thread_correct_witness :
  exists st s', Benchmark.thread_body (fun _ => 1) sample_options (Benchmark.make_preload 3) (Benchmark.make_keys 3) (lit "value") 1
      (sample_world [] [answers 2 [Socket.closed]]) (Benchmark.os (sample_world [] []), Benchmark.heap (sample_world [] [])) = (Ret st, s') /\
    Statistics.handled st = 2 /\ Os.opened s'.1 = {[0; 1; 2]}.
Proof.
  destruct (benchmark_thread_correct (fun _ => 1) sample_options (Benchmark.make_preload 3) (Benchmark.make_keys 3) (lit "value") 100 1
    (sample_world [] [answers 2 [Socket.closed]]) sample_sendable ltac:(simpl; lia) (sample_world_ok _)) as (st & s' & H1 & H2 & _ & H4).
  exists st, s'. split; [exact H1|]. split; [|exact H4]. rewrite H2. by vm_compute.
Defined.

(** ** A whole plan *)

(** [execute_plan] accounts for the whole plan: with one world for each thread, each
    without allocation failures but otherwise arbitrary, the combined statistics hold
    as many answered and failed operations as the plan has, a latency for every
    answered one, and hits and misses only of answered GETs. *)
Theorem benchmark_execute_counts inet_pton options plan keys value span ws :
  sendable options plan keys value -> zlen ws = Benchmark.o_threads options -> Forall (world_ok span) ws ->
  exists st, Benchmark.execute_plan inet_pton options plan keys value ws = Ret st /\
    Statistics.handled st = zlen plan /\
    Statistics.successful_ st <= zlen (Statistics.latencies_ st) <= zlen plan /\
    0 <= Statistics.get_hits_ st + Statistics.get_misses_ st <= Statistics.successful_ st.
Proof.
  intros Hs Hl Hw. destruct (run_threads_counts inet_pton _ _ _ _ Hs span 0 ws Statistics.init) as (st & Hr & [S1 S2 S3 S4] & Hd);
    [done|lia|done|by constructor|by rewrite bound_zero by apply (sd_threads _ _ _ _ Hs)|].
  exists st. pose proof (pl_size _ _ _ _ _ _ (sd_plan _ _ _ _ Hs)). split_and!; [done| |lia|unfold done_count in *; lia|lia|lia].
  unfold Statistics.handled. fold (done_count st). rewrite u64_small by lia. done.
Qed.

Lemma benchmark_execute_counts_witness :
  exists st, Benchmark.execute_plan (fun _ => 1) sample_options (Benchmark.make_preload 3) (Benchmark.make_keys 3) (lit "value")
    sample_worlds = Ret st /\ Statistics.handled st = 3.
Proof.
  destruct (benchmark_execute_counts (fun _ => 1) sample_options (Benchmark.make_preload 3) (Benchmark.make_keys 3) (lit "value")
    100 sample_worlds sample_sendable eq_refl) as (st & H1 & H2 & _).
  { exact sample_worlds_ok. }
  exists st. split; [exact H1|exact H2].
Defined.

(** ** Latencies *)

(** C38: [summarize_latencies] reports true percentiles. For up to 2^40 latencies
    whose sum fits, whatever their order, each of the three reported values is one
    of the latencies, with at least 50, 95 or 99 percent of the latencies not above it and
    less than that below it; the floating-point rank [ceil(quantile * size)] never rounds
    to a neighbouring element nor out of the vector. The average is the sum divided by the
    number, in microseconds. *)
Theorem benchmark_percentiles_exact span l :
  Forall (fun x => 0 <= x <= span) l -> 0 < zlen l <= 2 ^ 40 -> span * zlen l <= i64_max ->
  exists a50 a95 a99,
    Latency.summarize_latencies l =
      Some (Latency.MkLatencySummary (Double.div (Latency.microseconds (foldr Z.add 0 l)) (Double.of_Z (zlen l)))
              (Latency.microseconds a50) (Latency.microseconds a95) (Latency.microseconds a99)) /\
    is_percentile 50 l a50 /\ is_percentile 95 l a95 /\ is_percentile 99 l a99.
Proof. apply summarize_value. Qed.

Lemma benchmark_percentiles_exact_witness :
  exists a50 a95 a99,
    Latency.summarize_latencies [5000; 1000; 3000; 2000; 4000] =
      Some (Latency.MkLatencySummary (Double.of_Z 3) (Latency.microseconds a50) (Latency.microseconds a95) (Latency.microseconds a99)) /\
    is_percentile 50 [5000; 1000; 3000; 2000; 4000] a50.
Proof.
  destruct (benchmark_percentiles_exact 5000 [5000; 1000; 3000; 2000; 4000]) as (a50 & a95 & a99 & H & H50 & _);
    [rewrite !Forall_cons; split_and!; (lia || constructor)|simpl; lia|unfold i64_max; simpl; lia|].
  exists a50, a95, a99. split; [exact H|exact H50].
Defined.

(** The percentiles of five latencies. *)
Example percentiles_of_five :
  Latency.summarize_latencies [5000; 1000; 3000; 2000; 4000] =
  Some (Latency.MkLatencySummary (Double.of_Z 3) (Double.of_Z 3) (Double.of_Z 5) (Double.of_Z 5)).
Proof. by vm_compute. Qed.

(** ** Workloads *)

(** A concrete source of random numbers. *)
#[local] Instance sample_random : Random := {
  shuffle A g l := (reverse l, g);
  uniform_int bound g := let '(x, g) := Mt19937.next g in (x mod (bound + 1), g)
}.

#[local] Instance sample_random_laws : RandomLaws sample_random.
Proof.
  split.
  - intros A g l. apply reverse_Permutation.
  - intros bound g Hb. simpl. destruct (Mt19937.next g) as [x g']. cbn [fst]. pose proof (Z.mod_pos_bound x (bound + 1) ltac:(lia)). lia.
Qed.

(** C40: [generate_workload] returns the plan it is asked for. It refuses an empty
    key space, a ratio that is not between zero and one and identifiers that would overflow;
    otherwise it returns [request_count] operations with consecutive identifiers from
    [first_request_id] and keys of the key space, of which as many are GETs as the ratio
    says, to the nearest request up to the error of one floating-point product. For these
    requests it never fills more opcodes than it has. The bounds: fewer than [2 ^ 53]
    requests (beyond them the product can round above the number of requests, and filling the
    opcodes would be undefined), a ratio that is a double, a key space and a first
    identifier of 64 bits, and a random generator and distributions that keep the laws of
    the C++ library. *)
Theorem benchmark_workload_exact (R : Random) (HR : RandomLaws R) n ratio key_space seed first :
  is_double ratio -> 0 <= n < 2 ^ 53 -> 0 <= key_space <= u64_max -> 0 <= first <= u64_max ->
  match Workload.generate_workload n ratio key_space seed first with
  | Ret ops =>
      zlen ops = n /\
      (forall j op, ops !! j = Some op -> request_id op = first + Z.of_nat j /\ 0 <= key_index op < key_space /\
         (opcode op = Protocol.op_get \/ opcode op = Protocol.op_set)) /\
      0 <= get_count ops <= n /\ near_share (get_count ops) n ratio
  | Throw (std_invalid_argument _) =>
      key_space = 0 \/ Double.lt ratio Double.zero = true \/ Double.lt (Double.of_Z 1) ratio = true \/
      Double.is_finite ratio = false \/ u64_max < first + (n - 1)
  | _ => False
  end.
Proof.
  intros Hd Hn Hk Hf.
  destruct (Z.eq_dec key_space 0) as [->|Hk0]; [by left|].
  destruct (Double.lt ratio Double.zero) eqn:E1; [unfold Workload.generate_workload; rewrite E1, ?orb_true_r; cbn [orb negb]; tauto|].
  destruct (Double.lt (Double.of_Z 1) ratio) eqn:E2; [unfold Workload.generate_workload; rewrite E2, ?orb_true_r; cbn [orb negb]; tauto|].
  destruct (Double.is_finite ratio) eqn:E3; [|unfold Workload.generate_workload; rewrite E3, ?orb_true_r; cbn [orb negb]; tauto].
  destruct (Z.lt_ge_cases u64_max (first + (n - 1))) as [Hover|Hfits].
  - unfold Workload.generate_workload. rewrite E1, E2, E3. destruct (Z.eqb_spec key_space 0); [done|]. cbn [orb negb].
    destruct (Z.eqb_spec n 0); [lia|]. destruct (first >? u64_max - (n - 1)) eqn:E4; [cbn [andb negb]; tauto|lia].
  - destruct (generate_workload_ok n ratio key_space seed first) as (draws & -> & Hl & Hdr & c & Hc & Hr & Hs); try (done || lia).
    rewrite length_workload, Hc. split_and!; [done| |lia|lia|done]. intros j op Hj. rewrite workload_lookup in Hj by lia.
    apply fmap_Some in Hj as (d & Hj & ->). destruct (Forall_lookup_1 _ _ _ _ Hdr Hj) as [Hop Hkey].
    cbn [request_id key_index opcode]. split_and!; (done || lia).
Qed.

Lemma benchmark_workload_exact_witness :
  exists ops, Workload.generate_workload 10 (Double.of_decimal false 8 (-1)) 4 7 100 = Ret ops /\ zlen ops = 10 /\
    near_share (get_count ops) 10 (Double.of_decimal false 8 (-1)) /\ get_count ops = 8.
Proof.
  pose proof (benchmark_workload_exact sample_random _ 10 (Double.of_decimal false 8 (-1)) 4 7 100 (of_decimal_valid _ _ _)
    ltac:(lia) ltac:(unfold u64_max; lia) ltac:(unfold u64_max; lia)) as H.
  destruct (Workload.generate_workload 10 (Double.of_decimal false 8 (-1)) 4 7 100) as [ops|x|] eqn:E; [|exfalso; by vm_compute in E..].
  exists ops. destruct H as (H1 & _ & _ & H2). split; [done|]. split; [exact H1|]. split; [exact H2|]. vm_compute in E. by simplify_eq.
Defined.

(** ** The run *)

(** [run_benchmark], when no allocation fails, ends for every behaviour of the
    server and the network, in one of three ways. It refuses options that
    [validate_options] refuses; or the preload or the warm-up had a failed operation and
    it throws the error of that phase; or it reports on exactly [options.requests]
    operations, each answered or failed, each key having been set successfully before. It
    meets no undefined behaviour in the conversions, the sums and the indexes on the way. *)
Theorem benchmark_run_correct (R : Random) (HR : RandomLaws R) inet_pton options span p :
  options_sized options -> phases_ok options span p ->
  match Run.run_benchmark inet_pton options p with
  | Ret r => Benchmark.validate_options options = Ret tt /\ reported inet_pton options p r
  | Throw (std_invalid_argument text) => Benchmark.validate_options options = Throw (std_invalid_argument text)
  | Throw (std_runtime_error _) => Benchmark.validate_options options = Ret tt
  | _ => False
  end.
Proof.
  intros Hz Hp. destruct (run_benchmark_cases inet_pton options span p Hz Hp) as [(text & Hv & ->)|(Hv & [[text ->]|(r & -> & Hr)])]; done.
Qed.

(** One key, one request, answered. *)
Definition single_options : Benchmark.Options :=
  Benchmark.MkOptions (lit "127.0.0.1") 7400 1 1 1 (Double.of_Z 1) 5 1 12345 0 4 false false.

Definition single_phases : Run.phases :=
  Run.MkPhases [sample_world [] [answers 1 []]] [sample_world [] []] [sample_world [] [answers 2 []]] 2000000.

Lemma single_options_sized : options_sized single_options.
Proof.
  split; [|unfold options_small; simpl; lia]. constructor; [simpl; lia| |by split].
  cbn. rewrite !Forall_cons. unfold u64_max. split_and!; try lia. constructor.
Qed.

Lemma single_phases_ok : phases_ok single_options 100 single_phases.
Proof.
  constructor; [|unfold i64_max; simpl; lia]. unfold worlds_ok. rewrite !Forall_cons.
  split_and!; try done; apply Forall_singleton, sample_world_ok.
Qed.

(** What the run reports: one hit, after a nanosecond, in a run of two milliseconds. *)
Example single_report :
  match Run.run_benchmark (fun _ => 1) single_options single_phases with
  | Ret r => BenchmarkMain.comma_separated (BenchmarkMain.csv_row single_options r)
  | _ => []
  end = lit "1,1,0,1,1,5,1.000,0.002,500.000,0.001,0.001,0.001,0.001,1,0,1.000,1,12345,4,0,0".
Proof. by vm_compute. Qed.

Lemma benchmark_run_correct_witness :
  exists r, Run.run_benchmark (fun _ => 1) single_options single_phases = Ret r /\ Run.requests r = 1 /\ Run.get_hits r = 1.
Proof.
  pose proof (benchmark_run_correct sample_random _ (fun _ => 1) single_options 100 single_phases single_options_sized single_phases_ok) as H.
  destruct (Run.run_benchmark (fun _ => 1) single_options single_phases) as [r|x|] eqn:E; [|exfalso; by vm_compute in E..].
  exists r. split; [done|]. split; [exact (rp_requests _ _ _ _ (proj2 H))|]. vm_compute in E. by simplify_eq.
Defined.

(** An allocation that fails while a request is prepared makes an operation vanish:
    [fill_pipeline] has taken it from the plan and has not entered it in the tracker, so
    neither [fail_all] nor [fail_unissued] counts it. The preload of one key then ends
    with nothing sent, nothing failed, and [require_success] content. *)
Theorem benchmark_operation_lost :
  exists world st, Benchmark.execute_plan (fun _ => 1) single_options (Benchmark.make_preload 1) (run_keys single_options)
      (run_value single_options) [world] = Ret st /\
    Statistics.handled st = 0 /\ Statistics.failed_ st = 0 /\ Statistics.errors_ st = [lit "std::bad_alloc"] /\
    Run.required (fun _ => 1) single_options (Benchmark.make_preload 1) [world] (lit "preload") = Ret tt.
Proof.
  exists (sample_world [false; false; false; false; true] []), (Statistics.MkStatistics 0 0 0 0 [] [lit "std::bad_alloc"]).
  by vm_compute.
Qed.

(** ** The report and [main] *)

(** The CSV report reads back. It is two lines; split at its commas, the first
    is the header and the second has as many fields, and the counters, sizes and seed of
    the result and the options are read back from their fields by [std::from_chars]. *)
Theorem benchmark_report_roundtrip o r :
  options_typed o -> result_typed r -> Benchmark.o_csv o = true ->
  exists header row, split_on Byte.x0a (BenchmarkMain.print_result o r) = [header; row; []] /\
    split_on comma header = BenchmarkMain.csv_header /\
    length (split_on comma row) = length BenchmarkMain.csv_header /\
    Forall (fun c => (split_on comma row !! c.1) ≫= whole_number u64_max = Some c.2)
      [(0%nat, Run.requests r); (1%nat, Run.successful r); (2%nat, Run.failed r); (3%nat, Benchmark.o_threads o);
       (4%nat, Benchmark.o_connections o); (5%nat, Benchmark.o_value_size o); (13%nat, Run.get_hits r);
       (14%nat, Run.get_misses r); (16%nat, Benchmark.o_key_space o); (17%nat, Benchmark.o_seed o);
       (18%nat, Benchmark.o_pipeline o); (19%nat, Benchmark.o_warmup_requests o); (20%nat, zlen (Run.errors r))].
Proof.
  intros Ho Hr Hcsv. pose proof (csv_row_plain o r Ho Hr) as Hplain.
  assert (Forall (Forall plain) BenchmarkMain.csv_header) as Hhead by (apply (bool_decide_unpack _); by vm_compute).
  exists (BenchmarkMain.comma_separated BenchmarkMain.csv_header), (BenchmarkMain.comma_separated (BenchmarkMain.csv_row o r)).
  unfold BenchmarkMain.print_result. rewrite Hcsv. unfold BenchmarkMain.newline.
  change ([Byte.x0a] ++ ?x) with (Byte.x0a :: x).
  rewrite split_on_app by (by apply comma_separated_plain). rewrite split_on_app by (by apply comma_separated_plain).
  rewrite !(split_comma_separated BenchmarkMain.csv_header) by (done || (eapply Forall_impl; [exact Hhead|apply plain_no_comma])).
  rewrite !(split_comma_separated (BenchmarkMain.csv_row o r)) by (done || (eapply Forall_impl; [exact Hplain|apply plain_no_comma])).
  split; [done|]. split; [done|]. split; [done|]. destruct Ho as [_ Ho _]. unfold result_typed in Hr.
  rewrite !Forall_cons in Ho. rewrite !Forall_cons in Hr. rewrite !Forall_cons. cbn [fst snd].
  split_and!; try (apply whole_number_print; [lia|done]). constructor.
Qed.

Definition csv_options : Benchmark.Options := CommandLine.set_csv single_options.

Definition sample_result : Run.Result :=
  Run.MkResult 3 2 1 1 1 (Double.of_Z 2) (Double.of_decimal false 15 (-1))
    (Latency.MkLatencySummary (Double.of_Z 1) (Double.of_Z 1) (Double.of_Z 2) (Double.of_Z 2)) [lit "broken, badly"].

Lemma benchmark_report_roundtrip_witness :
  exists header row, split_on Byte.x0a (BenchmarkMain.print_result csv_options sample_result) = [header; row; []] /\
    length (split_on comma row) = 21%nat.
Proof.
  destruct (benchmark_report_roundtrip csv_options sample_result) as (header & row & H1 & _ & H2 & _).
  - destruct single_options_sized as [[] _]. by constructor.
  - unfold result_typed, u64_max. cbn. rewrite !Forall_cons. split_and!; try lia. constructor.
  - reflexivity.
  - exists header, row. split; [exact H1|exact H2].
Defined.

(** The message of [main] about an exception. *)
Definition complaint (text : bytes) : BenchmarkMain.ending :=
  BenchmarkMain.MkEnding 1 [] (lit "highcache_benchmark: " ++ text ++ BenchmarkMain.newline).

(** C37: for options of at most [2 ^ 16] threads and [2 ^ 36] keys, warm-up and measured
    requests (the hypothesis [options_small]), and a world that gives each phase one
    thread state per thread, descriptors that are not in use, no failing allocation in
    any thread (when one fails operations can be lost), and a clock that does not run
    backwards nor longer than [span], with [span] times the requests
    within 64 bits ([phases_ok]): [main] of the load generator returns, whatever the
    network does. With [--help] it prints the usage and
    returns 0; on a command line it cannot read or options out of bounds it complains and
    returns 1, as it does when the preload or the warm-up fails. Otherwise it prints a
    report on exactly the requests asked for, after a preload that set every key, and
    returns 0 if all of them succeeded and 2 if some failed. *)
Theorem benchmark_main_correct (R : Random) (HR : RandomLaws R) inet_pton args span p :
  (forall o, CommandLine.parse_options args = Ret o -> Benchmark.o_help o = false -> options_small o /\ phases_ok o span p) ->
  exists e, BenchmarkMain.main inet_pton args p = Ret e /\
    match CommandLine.parse_options args with
    | Ret o =>
        if Benchmark.o_help o then e = BenchmarkMain.MkEnding 0 BenchmarkMain.usage []
        else
          (exists text, Run.run_benchmark inet_pton o p = Throw (std_runtime_error text) /\ e = complaint text) \/
          exists r status, reported inet_pton o p r /\
            e = BenchmarkMain.MkEnding status (BenchmarkMain.print_result o r) [] /\
            (status = 0 /\ Run.successful r = Benchmark.o_requests o \/ status = 2 /\ 0 < Run.failed r)
    | Throw x => e = complaint (what x)
    | Undefined => False
    end.
Proof.
  intros Hfit. unfold BenchmarkMain.main. pose proof (parse_options_defined args) as Hdef.
  destruct (CommandLine.parse_options args) as [o|x|] eqn:E; cbn [and_then]; [|by eexists|done].
  destruct (Benchmark.o_help o) eqn:Eh; [by eexists|]. destruct (parse_options_typed args o E) as [Ht [Hh|Hv]]; [by rewrite Hh in Eh|].
  destruct (Hfit o eq_refl Eh) as [Hsmall Hp].
  destruct (run_benchmark_cases inet_pton o span p (Build_options_sized _ Ht Hsmall) Hp) as [(text & Hv' & _)|(_ & [[text ->]|(r & -> & Hr)])].
  - by rewrite Hv in Hv'.
  - eexists. split; [done|]. left. by exists text.
  - destruct (rp_counts _ _ _ _ Hr) as (H1 & H2 & H3). pose proof (rp_requests _ _ _ _ Hr). cbn [and_then].
    eexists. split; [done|]. right. eexists r, _. split; [done|]. split; [done|].
    destruct (Z.eqb_spec (Run.failed r) 0); [left; split; [done|lia]|right; split; [done|lia]].
Qed.

(** The options of [single_options], as they are typed. *)
Definition single_arguments : list bytes :=
  lit <$> ["--port"; "7400"; "--threads"; "1"; "--connections"; "1"; "--requests"; "1"; "--get-ratio"; "1.0"; "--value-size"; "5";
    "--key-space"; "1"; "--warmup-requests"; "0"; "--pipeline"; "4"]%string.

Example single_arguments_parse : CommandLine.parse_options single_arguments = Ret single_options.
Proof. by vm_compute. Qed.

(** Command lines that are refused. *)
Example arguments_refused :
  (fun args => CommandLine.parse_options (lit <$> args)) <$>
    [["--port"; "0"]; ["--get-ratio"; "1.5"]; ["--get-ratio"; "nan"]; ["--threads"]; ["--fast"]]%string =
  (fun text => Throw (std_invalid_argument (lit text))) <$>
    ["--port must be between 1 and 65535"; "--get-ratio must be between 0 and 1"; "--get-ratio expects a finite decimal number";
     "--threads requires a value"; "unknown benchmark option: --fast"]%string.
Proof. by vm_compute. Qed.

Lemma benchmark_main_correct_witness :
  exists e, BenchmarkMain.main (fun _ => 1) single_arguments single_phases = Ret e /\ BenchmarkMain.status e = 0.
Proof.
  destruct (benchmark_main_correct sample_random _ (fun _ => 1) single_arguments 100 single_phases) as (e & He & _).
  { intros o Ho _. rewrite single_arguments_parse in Ho. injection Ho as <-.
    split; [exact (oz_small _ single_options_sized)|exact single_phases_ok]. }
  exists e. split; [exact He|]. vm_compute in He. by simplify_eq.
Defined.
