(* ===== verification/BarrierTheorems.v ===== *)
(** * The barriers of [execute_plan] *)
From S2P Require Import Prelude BenchmarkMainModel.
Import ExecutePlan.

(** ** Stages

    How far a participant has come: 2 is waiting at the first barrier, 4 at the second. *)

Definition thread_stage (pc : thread_pc) : nat :=
  match pc with
  | building => 0 | at_ready _ => 1 | in_ready _ _ => 2 | at_start _ => 3 | in_start _ _ => 4 | running => 5 | finished => 6
  end.

Definition main_stage (pc : main_pc) : nat :=
  match pc with
  | creating _ => 0 | m_at_ready => 1 | m_in_ready _ => 2 | read_started | m_at_start => 3 | m_in_start _ => 4
  | joining _ | read_finished | returned => 5
  end.

Definition stages (ts : list thread_pc) (m : main_pc) : list nat := main_stage m :: (thread_stage <$> ts).

Definition waiting (w : nat) (l : list nat) : nat := length (filter (fun x => x = w) l).

(** A barrier at which participants wait in stage [w]: until its only phase ends it
    counts those who wait and nobody is beyond; afterwards all have come to it. *)
Record barrier_ok (n w : nat) (b : Barrier.t) (l : list nat) : Prop := {
  bk_expected : Barrier.expected b = S n;
  bk_phase :
    Barrier.phase b = 0%nat /\ Barrier.arrived b = waiting w l /\ (waiting w l < S n)%nat /\ Forall (fun x => (x <= w)%nat) l \/
    Barrier.phase b = 1%nat /\ Barrier.arrived b = 0%nat /\ length l = S n /\ Forall (fun x => (w <= x)%nat) l
}.

Lemma waiting_le w l : (waiting w l <= length l)%nat.
Proof. apply length_filter. Qed.

Lemma waiting_all w l : waiting w l = length l -> Forall (fun x => x = w) l.
Proof.
  unfold waiting. induction l as [|x l IH]; intros H; [constructor|]. pose proof (length_filter (fun x => x = w) l).
  destruct (decide (x = w)) as [->|Hx]; [rewrite filter_cons_True in H by done|rewrite filter_cons_False in H by done]; cbn [length] in H.
  - constructor; [done|]. apply IH. lia.
  - lia.
Qed.

Lemma waiting_split w l k x : waiting w (l ++ x :: k) = (waiting w l + waiting w k + if decide (x = w) then 1 else 0)%nat.
Proof.
  unfold waiting. rewrite filter_app, length_app. destruct (decide (x = w)).
  - rewrite filter_cons_True by done. cbn [length]. lia.
  - rewrite filter_cons_False by done. lia.
Qed.

(** One participant moves from stage [x] to stage [y]. *)
Section move.
Variables n w : nat.
Variable b : Barrier.t.
Variables l k : list nat.
Variables x y : nat.
Hypothesis Hok : barrier_ok n w b (l ++ x :: k).

(** Past the barrier only when its phase has ended. *)
Lemma move_elsewhere :
  (x < w /\ y < w \/ w < x /\ w < y \/ x = w /\ w < y /\ Barrier.phase b = 1)%nat -> barrier_ok n w b (l ++ y :: k).
Proof.
  intros Hxy. destruct Hok as [He [(H1 & H2 & H3 & H4)|(H1 & H2 & H3 & H4)]]; (split; [done|]);
    rewrite ?length_app, !Forall_app, !Forall_cons in *; cbn [length] in *.
  - left. rewrite waiting_split in *. destruct H4 as (? & ? & ?).
    destruct (decide (x = w)); [lia|]. destruct (decide (y = w)); [lia|]. split_and!; try done; lia.
  - right. split_and!; try tauto; lia.
Qed.

Lemma move_arrives :
  (x < w)%nat -> y = w -> (length (l ++ x :: k) <= S n)%nat ->
  (Barrier.arrive b).1 = 0%nat /\ barrier_ok n w (Barrier.arrive b).2 (l ++ y :: k).
Proof.
  intros Hx -> Hlen. destruct Hok as [He [(H1 & H2 & H3 & H4)|(H1 & H2 & H3 & H4)]].
  2: { rewrite !Forall_app, !Forall_cons in H4. lia. }
  split; [done|]. unfold Barrier.arrive. cbn [snd].
  pose proof (waiting_le w (l ++ w :: k)) as Hle. pose proof (waiting_split w l k x) as W1. pose proof (waiting_split w l k w) as W2.
  destruct (decide (x = w)); [lia|]. destruct (decide (w = w)); [|done].
  assert (length (l ++ w :: k) = length (l ++ x :: k)) as Hl by (by rewrite !length_app).
  destruct (Nat.eqb_spec (S (Barrier.arrived b)) (Barrier.expected b)) as [E|E]; (split; [done|]); cbn [Barrier.phase Barrier.arrived].
  - right. split_and!; [lia|done|lia|]. eapply Forall_impl; [apply (waiting_all w); lia|]. intros z ->. done.
  - left. split_and!; [done|lia|lia|]. rewrite Forall_app, Forall_cons in *. split_and!; (tauto || lia).
Qed.

End move.

(** ** The invariant *)

Definition thread_token (pc : thread_pc) : Prop :=
  match pc with in_ready _ token | in_start _ token => token = 0%nat | _ => True end.

Definition main_token (pc : main_pc) : Prop :=
  match pc with m_in_ready token | m_in_start token => token = 0%nat | _ => True end.

(** The threads that exist, and those that have been joined. *)
Definition created (n : nat) (ts : list thread_pc) (m : main_pc) : Prop :=
  match m with creating i => length ts = i /\ (i <= n)%nat | _ => length ts = n end.

Definition joined (ts : list thread_pc) (m : main_pc) : Prop :=
  match m with
  | joining i => Forall (eq finished) (take i ts)
  | read_finished | returned => Forall (eq finished) ts
  | _ => True
  end.

Record plan_state_ok (n : nat) (s : state) : Prop := {
  ps_ready : barrier_ok n 2 (ready s) (stages (threads s) (main s));
  ps_start : barrier_ok n 4 (start s) (stages (threads s) (main s));
  ps_tokens : Forall thread_token (threads s) /\ main_token (main s);
  ps_created : created n (threads s) (main s);
  ps_joined : joined (threads s) (main s)
}.

Lemma created_length n ts m : created n ts m -> (length (stages ts m) <= S n)%nat.
Proof. unfold stages. cbn [length]. rewrite length_fmap. destruct m; cbn [created]; lia. Qed.

Lemma passed_ended n w b l : barrier_ok n w b l -> Barrier.passed 0 b = true -> Barrier.phase b = 1%nat.
Proof. intros [_ [(H & _)|(H & _)]]; unfold Barrier.passed; by rewrite H. Qed.

Lemma init_ok n : plan_state_ok n (init n).
Proof.
  constructor; [..|by repeat constructor|split; [done|lia]|done].
  all: split; [done|left]; unfold waiting, stages; simpl; split_and!; try done; try lia; repeat constructor; lia.
Qed.

(** The stages around one thread. *)
Lemma stages_at ts m i pc :
  ts !! i = Some pc -> exists l k, stages ts m = l ++ thread_stage pc :: k /\
    forall pc', stages (<[i := pc']> ts) m = l ++ thread_stage pc' :: k.
Proof.
  intros Hi. pose proof (lookup_lt_Some _ _ _ Hi). exists (main_stage m :: (thread_stage <$> take i ts)), (thread_stage <$> drop (S i) ts).
  split; [|intros pc'; rewrite insert_take_drop by done]; unfold stages; cbn [app]; f_equal.
  - rewrite <- (take_drop_middle _ _ _ Hi) at 1. by rewrite fmap_app.
  - by rewrite fmap_app.
Qed.

Lemma joined_kept ts m i pc pc' : ts !! i = Some pc -> pc <> finished -> joined ts m -> joined (<[i := pc']> ts) m.
Proof.
  intros Hi Hpc. destruct m as [| | | | | |j| |]; cbn [joined]; try done.
  - intros Hj. destruct (Nat.lt_ge_cases i j); [|by rewrite take_insert_ge].
    eapply Forall_lookup_1 in Hj; [|by rewrite lookup_take_lt]. by subst.
  - intros Hj. eapply Forall_lookup_1 in Hj; [|done]. by subst.
  - intros Hj. eapply Forall_lookup_1 in Hj; [|done]. by subst.
Qed.

(** A thread's step, seen from the barriers. *)
Lemma thread_step_ok n r st ts m i ok pc r' st' pc' :
  plan_state_ok n (MkState r st ts m) -> ts !! i = Some pc -> thread_step ok r st pc = Some (r', st', pc') ->
  plan_state_ok n (MkState r' st' (<[i := pc']> ts) m).
Proof.
  intros [P1 P2 [P3 P4] P5 P6] Hi Hs. cbn [ready start threads main] in *. pose proof (created_length _ _ _ P5) as Hlen.
  pose proof (Forall_lookup_1 _ _ _ _ P3 Hi) as Ht. destruct (stages_at ts m i pc Hi) as (l & k & E & E'). rewrite E in P1, P2, Hlen.
  assert (pc <> finished) as Hne by (by intros ->).
  assert (barrier_ok n 2 r' (l ++ thread_stage pc' :: k) /\ barrier_ok n 4 st' (l ++ thread_stage pc' :: k) /\ thread_token pc') as (B1 & B2 & B3).
  { destruct pc as [|ok'|ok' token|ok'|ok' token| |]; cbn [thread_step thread_stage thread_token] in *; try done.
    - simplify_eq. split_and!; [eapply move_elsewhere; [done|]; simpl; lia..|done].
    - destruct (move_arrives n 2 r l k 1 2 P1) as [A1 A2]; [lia|done|done|]. destruct (Barrier.arrive r). cbn [fst snd] in *. simplify_eq.
      split_and!; [done|eapply move_elsewhere; [done|]; simpl; lia|done].
    - subst token. destruct (Barrier.passed 0 r) eqn:Ep; [|done]. simplify_eq. pose proof (passed_ended _ _ _ _ P1 Ep).
      split_and!; [eapply move_elsewhere; [done|]; simpl; lia..|done].
    - destruct (move_arrives n 4 st l k 3 4 P2) as [A1 A2]; [lia|done|done|]. destruct (Barrier.arrive st). cbn [fst snd] in *. simplify_eq.
      split_and!; [eapply move_elsewhere; [done|]; simpl; lia|done|done].
    - subst token. destruct (Barrier.passed 0 st) eqn:Ep; [|done]. simplify_eq. pose proof (passed_ended _ _ _ _ P2 Ep).
      destruct ok'; (split_and!; [eapply move_elsewhere; [done|]; simpl; lia..|done]).
    - simplify_eq. split_and!; [eapply move_elsewhere; [done|]; simpl; lia..|done]. }
  constructor; cbn [ready start threads main]; rewrite ?E'; try done.
  - split; [by apply Forall_insert|done].
  - destruct m; cbn [created] in *; by rewrite length_insert.
  - by eapply joined_kept.
Qed.

(** A thread more, while the main thread has not come to any barrier. *)
Lemma barrier_new_thread n w b l : (0 < w)%nat -> barrier_ok n w b (0%nat :: l) -> barrier_ok n w b (0%nat :: l ++ [0%nat]).
Proof.
  intros Hw [He [(H1 & H2 & H3 & H4)|(_ & _ & _ & H4)]]; [|rewrite Forall_cons in H4; lia]. split; [done|left].
  rewrite !app_comm_cons. rewrite waiting_split. destruct (decide (0%nat = w)); [lia|]. change (waiting w []) with 0%nat.
  split_and!; [done|lia|lia|]. apply Forall_app. split; [done|]. apply Forall_singleton. lia.
Qed.

Lemma main_step_ok n s s' : plan_state_ok n s -> main_step n s = Some s' -> plan_state_ok n s'.
Proof.
  destruct s as [r st ts m]. intros [P1 P2 [P3 P4] P5 P6] Hs. cbn [ready start threads main] in *.
  pose proof (created_length _ _ _ P5) as Hlen. unfold stages in P1, P2, Hlen.
  assert (forall w b y, barrier_ok n w b (main_stage m :: (thread_stage <$> ts)) ->
    (main_stage m < w /\ y < w \/ w < main_stage m /\ w < y \/ main_stage m = w /\ w < y /\ Barrier.phase b = 1)%nat ->
    barrier_ok n w b (y :: (thread_stage <$> ts))) as Hmove by (intros w b y Hb; exact (move_elsewhere n w b [] _ _ y Hb)).
  destruct m as [i| |token| | |token|i| |]; cbn [main_step main_stage main_token created joined] in *; try done.
  - destruct P5 as [L1 L2]. destruct (Nat.ltb_spec i n); simplify_eq; constructor; cbn [ready start threads main]; unfold stages;
      cbn [main_stage created joined main_token]; rewrite ?fmap_app; try (apply barrier_new_thread; (done || lia));
      try (apply Hmove; [done|lia]); try done; [|rewrite length_app; simpl; lia|lia].
    split; [|done]. apply Forall_app. split; [done|]. by apply Forall_singleton.
  - destruct (move_arrives n 2 r [] _ 1 2 P1) as [A1 A2]; [lia|done|done|]. destruct (Barrier.arrive r). cbn [fst snd] in *. simplify_eq.
    constructor; try done. apply Hmove; [done|simpl; lia].
  - subst token. destruct (Barrier.passed 0 r) eqn:Ep; [|done]. simplify_eq. pose proof (passed_ended _ _ _ _ P1 Ep).
    constructor; try done; apply Hmove; (done || (simpl; lia)).
  - simplify_eq. by constructor.
  - destruct (move_arrives n 4 st [] _ 3 4 P2) as [A1 A2]; [lia|done|done|]. destruct (Barrier.arrive st). cbn [fst snd] in *. simplify_eq.
    constructor; try done. apply Hmove; [done|simpl; lia].
  - subst token. destruct (Barrier.passed 0 st) eqn:Ep; [|done]. simplify_eq. pose proof (passed_ended _ _ _ _ P2 Ep).
    constructor; try done; [apply Hmove; (done || (simpl; lia))..|]. cbn [threads main joined]. constructor.
  - destruct (Nat.ltb_spec i n).
    + destruct (ts !! i) as [[]|] eqn:Ei; try done. simplify_eq. constructor; try done. cbn [threads main joined].
      rewrite (take_S_r _ _ _ Ei). apply Forall_app. split; [done|]. by apply Forall_singleton.
    + simplify_eq. constructor; try done. cbn [threads main joined]. by rewrite take_ge in P6 by lia.
  - simplify_eq. by constructor.
Qed.

Lemma reachable_ok n s : rtc (step n) (init n) s -> plan_state_ok n s.
Proof.
  revert s. apply rtc_ind_r; [apply init_ok|]. intros s s' _ Hstep IH. destruct Hstep; [by eapply main_step_ok|by eapply thread_step_ok].
Qed.

(** ** Every execution ends *)

Definition thread_left (pc : thread_pc) : nat := 6 - thread_stage pc.

Definition main_left (n : nat) (m : main_pc) : nat :=
  match m with
  | creating i => (n - i) * 7 + n + 8
  | m_at_ready => n + 7 | m_in_ready _ => n + 6 | read_started => n + 5 | m_at_start => n + 4 | m_in_start _ => n + 3
  | joining i => n - i + 2 | read_finished => 1 | returned => 0
  end.

Definition steps_left (n : nat) (s : state) : nat := main_left n (main s) + sum_list_with thread_left (threads s).

Lemma step_decreases n s s' : step n s s' -> (steps_left n s' < steps_left n s)%nat.
Proof.
  intros [s1 s2 H|i ok r st ts m pc r' st' pc' Hi H]; unfold steps_left.
  - destruct s1 as [r st ts m]. destruct m; cbn [main_step] in H; repeat case_match; simplify_eq; cbn [main threads main_left]; try lia.
    + rewrite sum_list_with_app. cbn. pose proof (Nat.ltb_lt i n). assert (i < n)%nat by tauto. nia.
    + pose proof (Nat.ltb_lt i n). assert (i < n)%nat by tauto. lia.
  - cbn [main threads]. apply Nat.add_lt_mono_l. rewrite <- (take_drop_middle _ _ _ Hi) at 2.
    rewrite insert_take_drop by (by eapply lookup_lt_Some). rewrite !sum_list_with_app. cbn [sum_list_with].
    assert (thread_left pc' < thread_left pc)%nat; [|lia].
    destruct pc; cbn [thread_step] in H; repeat case_match; simplify_eq; unfold thread_left; simpl; lia.
Qed.

(** ** Nobody waits for ever *)

Definition blocked (r st : Barrier.t) (pc : thread_pc) : Prop := thread_step true r st pc = None.

Lemma blocked_cases r st pc :
  blocked r st pc -> thread_token pc ->
  thread_stage pc = 2%nat /\ Barrier.phase r = 0%nat \/ thread_stage pc = 4%nat /\ Barrier.phase st = 0%nat \/ pc = finished.
Proof.
  intros Hb Ht. destruct pc as [|ok|ok token|ok|ok token| |]; cbn in *; try done; [left|right; left|by right; right]; subst token;
    unfold blocked, Barrier.passed in Hb; cbn [thread_step] in Hb; (split; [done|]); unfold Barrier.passed in Hb;
    [destruct (Nat.eqb_spec (Barrier.phase r) 0)|destruct (Nat.eqb_spec (Barrier.phase st) 0)]; done.
Qed.

(** A barrier at which everybody waits has been passed. *)
Lemma not_all_waiting n w b l :
  barrier_ok n w b l -> length l = S n -> Barrier.phase b = 0%nat -> Forall (fun x => x = w) l -> False.
Proof.
  intros [_ [(_ & _ & H & _)|(H & _)]] Hl Hp Hw; [|lia]. assert (waiting w l = length l) as E; [|lia].
  clear -Hw. unfold waiting. induction Hw as [|x l -> _ IH]; [done|]. rewrite filter_cons_True by done. cbn [length]. by f_equal.
Qed.

Lemma all_blocked n r st ts m :
  plan_state_ok n (MkState r st ts m) -> Forall (blocked r st) ts -> main_step n (MkState r st ts m) = None -> m = returned.
Proof.
  intros [P1 P2 [P3 P4] P5 P6] Hts Hm. cbn [ready start threads main] in *.
  assert (Forall (fun pc => thread_stage pc = 2%nat /\ Barrier.phase r = 0%nat \/ thread_stage pc = 4%nat /\ Barrier.phase st = 0%nat \/ pc = finished) ts) as Hcases.
  { apply Forall_forall. intros pc Hin. rewrite Forall_forall in Hts, P3. by apply blocked_cases; [apply Hts|apply P3]. }
  assert (forall b, Barrier.passed 0 b = false -> Barrier.phase b = 0%nat) as Hpass.
  { intros b. unfold Barrier.passed. by destruct (Nat.eqb_spec (Barrier.phase b) 0). }
  assert (length (stages ts m) = S (length ts)) as Hlen by (unfold stages; cbn [length]; by rewrite length_fmap).
  assert (forall x, Forall (fun pc => thread_stage pc = x) ts -> main_stage m = x -> Forall (fun y => y = x) (stages ts m)) as Hall.
  { intros x H1 H2. constructor; [done|]. by rewrite Forall_fmap. }
  destruct m as [i| |token| | |token|i| |]; cbn [main_step created main_token] in *; try done.
  - by destruct (i <? n)%nat.
  - subst token. destruct (Barrier.passed 0 r) eqn:Ep; [done|]. apply Hpass in Ep. exfalso.
    eapply not_all_waiting; [exact P1|lia|done|]. apply Hall; [|done]. destruct P1 as [_ [(_ & _ & _ & H)|(H & _)]]; [|lia].
    unfold stages in H. rewrite Forall_cons, Forall_fmap in H. destruct H as [_ H]. rewrite Forall_forall in *.
    intros pc Hin. specialize (H pc Hin). cbn in H. destruct (Hcases pc Hin) as [[? _]|[[? _]| ->]]; simpl in *; lia.
  - subst token. destruct (Barrier.passed 0 st) eqn:Ep; [done|]. apply Hpass in Ep. exfalso.
    eapply not_all_waiting; [exact P2|lia|done|]. apply Hall; [|done]. destruct P2 as [_ [(_ & _ & _ & H)|(H & _)]]; [|lia].
    destruct P1 as [_ [(_ & _ & _ & H')|(Hr & _)]]; [unfold stages in H'; rewrite Forall_cons in H'; simpl in H'; lia|].
    unfold stages in H. rewrite Forall_cons, Forall_fmap in H. destruct H as [_ H]. rewrite Forall_forall in *.
    intros pc Hin. specialize (H pc Hin). cbn in H. destruct (Hcases pc Hin) as [[_ ?]|[[? _]| ->]]; simpl in *; lia.
  - destruct (Nat.ltb_spec i n) as [Hi|]; [|done]. destruct (lookup_lt_is_Some_2 ts i ltac:(lia)) as [pc Hpc]. rewrite Hpc in Hm.
    destruct P1 as [_ [(_ & _ & _ & H')|(Hr & _)]]; [unfold stages in H'; rewrite Forall_cons in H'; simpl in H'; lia|].
    destruct P2 as [_ [(_ & _ & _ & H')|(Hs & _)]]; [unfold stages in H'; rewrite Forall_cons in H'; simpl in H'; lia|].
    destruct (Forall_lookup_1 _ _ _ _ Hcases Hpc) as [[_ ?]|[[_ ?]| ->]]; [lia|lia|done].
Qed.

Lemma progress n s : plan_state_ok n s -> main s = returned \/ exists s', step n s s'.
Proof.
  destruct s as [r st ts m]. intros Hok. destruct (main_step n (MkState r st ts m)) as [s'|] eqn:Em; [right; exists s'; by constructor|].
  destruct (decide (Forall (fun pc => is_Some (thread_step true r st pc) -> False) ts)) as [Hb|Hb].
  - left. eapply all_blocked; [done| |done]. eapply Forall_impl; [exact Hb|]. intros pc H. unfold blocked.
    destruct (thread_step true r st pc) eqn:E; [|done]. exfalso. apply H. by eexists.
  - right. apply not_Forall_Exists, Exists_exists in Hb as (pc & [i Hi]%list_elem_of_lookup & Hpc); [|apply _].
    destruct (thread_step true r st pc) as [[[r' st'] pc']|] eqn:E; [eexists; by eapply step_thread|].
    exfalso. apply Hpc. intros [? ?]. congruence.
Qed.

(** ** The result *)

(** C39: the threads of [execute_plan] meet as intended, for any number of threads, under
    every interleaving and whether or not their workers can be constructed. Nobody waits
    for ever at a barrier or a join: until [execute_plan] returns some thread can go on,
    and it returns after at most [8 * (threads + 1)] steps. No worker runs before the main
    thread has read the clock for [started], and when it reads it for the duration all
    [options.threads] threads have ended, so the duration covers all the work. *)
Theorem benchmark_barriers_correct n s :
  rtc (step n) (init n) s ->
  (main s = returned \/ exists s', step n s s') /\
  (forall k s', nsteps (step n) k s s' -> (k <= 8 * (n + 1))%nat) /\
  (forall i pc, threads s !! i = Some pc -> pc = running ->
     match main s with m_in_start _ | joining _ => True | _ => False end) /\
  (main s = read_finished \/ main s = returned -> threads s = replicate n finished).
Proof.
  intros Hreach. pose proof (reachable_ok n s Hreach) as Hok. split; [by apply progress|]. split; [|split].
  - assert (steps_left n s <= 8 * (n + 1))%nat as Hle.
    { clear Hok. revert s Hreach. apply rtc_ind_r; [unfold steps_left; simpl; lia|]. intros s s' _ H%step_decreases ?. lia. }
    intros k s' Hk. enough (k + steps_left n s' <= steps_left n s)%nat by lia. clear -Hk.
    induction Hk as [|k s s1 s2 H%step_decreases _ IH]; lia.
  - intros i pc Hi ->. destruct s as [r st ts m], Hok as [_ [_ P] _ C J]. cbn [threads main] in *.
    unfold stages in P. rewrite !Forall_cons, !Forall_fmap in P.
    destruct P as [(_ & _ & _ & _ & H)|(_ & _ & _ & H & _)]; [eapply Forall_lookup_1 in H; [|exact Hi]; simpl in H; lia|].
    destruct m; cbn [main_stage joined] in *; try done; try lia;
      (eapply Forall_lookup_1 in J; [|exact Hi]; done).
  - destruct s as [r st ts m], Hok as [_ _ _ C J]. cbn [threads main] in *. intros [-> | ->]; cbn [created joined] in *; subst n;
      (clear -J; induction J as [|pc ts <- _ IH]; [done|]; cbn [length replicate]; by f_equal).
Qed.

(** An execution given by who moves: the main thread, or a thread whose construction
    succeeds or not. *)
Fixpoint follow (n : nat) (moves : list (option (nat * bool))) (s : state) : option state :=
  match moves with
  | [] => Some s
  | None :: moves => main_step n s ≫= follow n moves
  | Some (i, ok) :: moves =>
      pc ← threads s !! i;
      '(r, st, pc') ← thread_step ok (ready s) (start s) pc;
      follow n moves (MkState r st (<[i := pc']> (threads s)) (main s))
  end.

Lemma follow_sound n moves s s' : follow n moves s = Some s' -> rtc (step n) s s'.
Proof.
  revert s. induction moves as [|[[i ok]|] moves IH]; intros s H; cbn [follow] in H; [by simplify_eq|..].
  - destruct (threads s !! i) as [pc|] eqn:Ei; [|done]. cbn in H.
    destruct (thread_step ok (ready s) (start s) pc) as [[[r st] pc']|] eqn:Et; [|done]. cbn in H.
    eapply rtc_l; [|by apply IH]. destruct s. by eapply step_thread.
  - destruct (main_step n s) as [s1|] eqn:Em; [|done]. eapply rtc_l; [by constructor|]. by apply IH.
Qed.

(** Two threads, of which the second cannot construct its worker. *)
Definition sample_moves : list (option (nat * bool)) :=
  [None; None; Some (0%nat, true); Some (0%nat, true); None; None; Some (1%nat, false); Some (1%nat, false);
   Some (1%nat, false); Some (1%nat, false); None; None; None; Some (0%nat, true); Some (0%nat, true); Some (0%nat, true)].

Example sample_meeting :
  match follow 2 sample_moves (init 2) with Some s => (main s, threads s) | None => (returned, []) end =
  (m_in_start 0, [running; in_start false 0]).
Proof. by vm_compute. Qed.

Lemma benchmark_barriers_correct_witness :
  exists s, rtc (step 2) (init 2) s /\ threads s !! 0%nat = Some running /\ (exists s', step 2 s s') /\
    forall k s', nsteps (step 2) k s s' -> (k <= 24)%nat.
Proof.
  destruct (follow 2 sample_moves (init 2)) as [s|] eqn:E; [|by vm_compute in E].
  pose proof (follow_sound _ _ _ _ E) as Hr. destruct (benchmark_barriers_correct 2 s Hr) as (H1 & H2 & _).
  exists s. split; [exact Hr|]. vm_compute in E. split; [by simplify_eq|]. split; [|exact H2].
  destruct H1 as [H1|H1]; [by simplify_eq|exact H1].
Defined.
