(* ===== verification/NetTheorems.v ===== *)
(** * What buffers, the protocol and connections guarantee *)
From S2P Require Import Prelude ErrorModel Effects MemoryModel AllocatorModel BufferModel CacheModel.
From S2P Require Import LruSpec CacheSteps CacheFacts CacheTickFacts CacheEngineModel CacheEngineFacts.
From S2P Require Import ProtocolModel ProtocolFacts ResponseFacts ConnectionModel ConnectionFacts ConnectionIOFacts.
From S2P Require Import SampleStates.
Import Memory.
Import Protocol(Request, MkRequest, MkResponse, complete, incomplete, error, request_frame, response_frame).

(** ** Buffers *)

Definition sample_buffer (bs : bytes) : Buffer.t := Buffer.MkBuffer (CharVector.MkCharVector bs 4096) 0.

Lemma sample_buffer_ok bs : (zlen bs <=? 4096) = true -> Buffer.buffer_ok (sample_buffer bs).
Proof. intros Hb. zsimp. constructor; unfold CharVector.size, CharVector.max_size; simpl; lia. Qed.

(** [Buffer::append] adds the bytes at the end of the readable ones and loses
    none, whether it has room, compacts or reallocates; within the reserved
    capacity the vector never reallocates; an exception leaves the buffer as it
    was. *)
Theorem buffer_append_correct bs b e :
  Buffer.buffer_ok b ->
  wp (Buffer.append bs) (b, e) (post
    (fun _ s => Buffer.buffer_ok s.1 /\ Buffer.readable_view s.1 = Buffer.readable_view b ++ bs)
    (fun x s => s.1 = b /\ io_exn x)).
Proof.
  intros Hb. eapply wp_post_mono; [by apply Buffer.append_wp|..].
  - intros _ s (H1 & H2 & _). done.
  - intros x s (H1 & _ & H2). done.
Qed.

Lemma buffer_append_correct_witness :
  exists s, Buffer.append (lit "def") (sample_buffer (lit "abc"), sample_env) = (Ret tt, s) /\
    Buffer.readable_view s.1 = lit "abcdef".
Proof.
  pose proof (buffer_append_correct (lit "def") (sample_buffer (lit "abc")) sample_env
    (sample_buffer_ok (lit "abc") eq_refl)) as H.
  witness_run H (Buffer.append (lit "def")) (sample_buffer (lit "abc"), sample_env) (Ret tt).
  exists s'. split; [reflexivity|]. exact (proj2 H).
Defined.

(** [Buffer::retrieve] removes exactly the first bytes. *)
Theorem buffer_retrieve_correct b n :
  Buffer.buffer_ok b -> 0 <= n <= zlen (Buffer.readable_view b) ->
  exists b', Buffer.retrieve n b = Some b' /\ Buffer.buffer_ok b' /\
    Buffer.readable_view b' = drop (Z.to_nat n) (Buffer.readable_view b) /\
    Buffer.readable_bytes b' = Buffer.readable_bytes b - n.
Proof.
  intros Hb Hn. destruct (Buffer.retrieve_spec b n Hb Hn) as (b' & Hr & Hb' & Hd).
  exists b'. split_and!; [done|done|done|].
  rewrite (Buffer.readable_bytes_view b' Hb'), (Buffer.readable_bytes_view b Hb), Hd, length_drop. lia.
Qed.

Lemma buffer_retrieve_correct_witness :
  exists b', Buffer.retrieve 2 (sample_buffer (lit "abc")) = Some b' /\ Buffer.readable_view b' = lit "c".
Proof.
  destruct (buffer_retrieve_correct (sample_buffer (lit "abc")) 2
    (sample_buffer_ok (lit "abc") eq_refl) ltac:(vm_compute; split; discriminate))
    as (b' & H1 & _ & H2 & _).
  exists b'. split; [exact H1|exact H2].
Defined.

(** ** The protocol *)

Definition sample_request : Request := MkRequest Protocol.op_set 7 (lit "k") (lit "v") 1000.

Lemma sample_request_ok : request_ok sample_request.
Proof. split_and!; [reflexivity|simpl; lia|simpl; lia|simpl; lia]. Qed.

(** C12: what [encode_request] writes, [decode_request] reads: from a buffer whose
    readable bytes start with the frame of a request, it returns that request and
    removes exactly its frame (or throws [std::bad_alloc] and removes nothing). *)
Theorem request_roundtrip r rest b e :
  request_ok r -> Buffer.buffer_ok b -> Buffer.readable_view b = request_frame r ++ rest ->
  wp Protocol.decode_request (b, e) (post
    (fun res s => res = complete r /\ Buffer.buffer_ok s.1 /\ Buffer.readable_view s.1 = rest)
    (fun x s => x = bad_alloc /\ s.1 = b)).
Proof.
  intros Hr Hb Hv. eapply wp_post_mono; [by apply decode_request_wp|..].
  - intros res s (-> & Hb' & _ & Hd). rewrite Hv, view_roundtrip in * by done.
    split_and!; [done|done|]. rewrite Hd. apply drop_app_length.
  - by intros x s (-> & -> & _).
Qed.

Lemma request_roundtrip_witness :
  exists s, Protocol.decode_request (sample_buffer (request_frame sample_request ++ lit "more"), sample_env) =
      (Ret (complete sample_request), s) /\ Buffer.readable_view s.1 = lit "more".
Proof.
  pose proof (request_roundtrip sample_request (lit "more")
    (sample_buffer (request_frame sample_request ++ lit "more")) sample_env sample_request_ok
    (sample_buffer_ok (request_frame sample_request ++ lit "more") eq_refl) eq_refl) as H.
  witness_run H Protocol.decode_request
    (sample_buffer (request_frame sample_request ++ lit "more"), sample_env) (Ret (complete sample_request)).
  exists s'. split; [reflexivity|]. exact (proj2 (proj2 H)).
Defined.

(** C13: the encoding is canonical: whenever [decode_request] returns a request, the
    bytes it consumed are the frame [encode_request] gives for it, which accepts
    it; no two byte sequences decode to the same request. *)
Theorem request_canonical b e :
  Buffer.buffer_ok b ->
  wp Protocol.decode_request (b, e) (post
    (fun res s => forall r, res = complete r ->
       request_ok r /\ Buffer.readable_view b = request_frame r ++ Buffer.readable_view s.1)
    (fun _ _ => True)).
Proof.
  intros Hb. eapply wp_post_mono; [by apply decode_request_wp|..]; [|done].
  intros res s (Hres & _ & _ & Hd) r ->. symmetry in Hres.
  destruct (view_canonical _ _ Hres) as (Hr & rest & Hrest). split; [done|].
  rewrite Hd, Hrest. simpl. by rewrite drop_app_length.
Qed.

Lemma request_canonical_witness :
  request_ok sample_request /\
  wp Protocol.decode_request (sample_buffer (request_frame sample_request), sample_env) (post
    (fun res s => forall r, res = complete r ->
       request_ok r /\ request_frame sample_request = request_frame r ++ Buffer.readable_view s.1)
    (fun _ _ => True)).
Proof.
  split; [exact sample_request_ok|].
  exact (request_canonical (sample_buffer (request_frame sample_request)) sample_env
    (sample_buffer_ok (request_frame sample_request) eq_refl)).
Defined.

(** Every proper prefix of a request frame is reported as incomplete, never as
    an error or another request, and is kept: a frame split anywhere decodes once
    the rest arrives. *)
Theorem request_prefix_incomplete r b e :
  request_ok r -> Buffer.buffer_ok b ->
  Buffer.readable_view b `prefix_of` request_frame r -> Buffer.readable_view b <> request_frame r ->
  wp Protocol.decode_request (b, e) (post
    (fun res s => res = incomplete /\ Buffer.readable_view s.1 = Buffer.readable_view b)
    (fun x s => x = bad_alloc /\ s.1 = b)).
Proof.
  intros Hr Hb Hp Hne. eapply wp_post_mono; [by apply decode_request_wp|..].
  - intros res s (-> & _ & _ & Hd). rewrite (view_prefix r) in * by done. done.
  - by intros x s (-> & -> & _).
Qed.

Lemma request_prefix_incomplete_witness :
  exists s, Protocol.decode_request (sample_buffer (take 33 (request_frame sample_request)), sample_env) =
      (Ret incomplete, s).
Proof.
  pose proof (request_prefix_incomplete sample_request (sample_buffer (take 33 (request_frame sample_request)))
    sample_env sample_request_ok (sample_buffer_ok (take 33 (request_frame sample_request)) eq_refl)
    (prefix_take (request_frame sample_request) 33)
    ltac:(vm_compute; discriminate)) as H.
  witness_run H Protocol.decode_request (sample_buffer (take 33 (request_frame sample_request)), sample_env)
    (Ret (@incomplete Request)).
  exists s'. reflexivity.
Defined.

(** A malformed header is an error as soon as its 32 bytes are there, whatever
    follows, and needs no more than one frame of buffering to be found: an
    incomplete request is always shorter than the largest frame. *)
Theorem decode_request_verdict b e more :
  Buffer.buffer_ok b ->
  wp Protocol.decode_request (b, e) (post
    (fun res s => (forall x, res = error x ->
         view_request (Buffer.readable_view b ++ more) = error x) /\
       (res = incomplete -> zlen (Buffer.readable_view b) < Protocol.max_request_frame_size))
    (fun x s => x = bad_alloc /\ s.1 = b)).
Proof.
  intros Hb. eapply wp_post_mono; [by apply decode_request_wp|..].
  - intros res s (Hres & _ & _ & _). split.
    + intros x ->. by apply view_error_app.
    + intros ->. by apply view_incomplete_bound.
  - by intros x s (-> & -> & _).
Qed.

Lemma decode_request_verdict_witness :
  exists s, Protocol.decode_request (sample_buffer (replicate 32 Byte.x00), sample_env) =
      (Ret (error (Protocol.MkProtocolError true 0 (lit "invalid request magic"))), s).
Proof.
  pose proof (decode_request_verdict (sample_buffer (replicate 32 Byte.x00)) sample_env []
    (sample_buffer_ok (replicate 32 Byte.x00) eq_refl)) as H.
  witness_run H Protocol.decode_request (sample_buffer (replicate 32 Byte.x00), sample_env)
    (Ret (@error Request (Protocol.MkProtocolError true 0 (lit "invalid request magic")))).
  exists s'. reflexivity.
Defined.

(** Responses round-trip: from a buffer that starts with the frame of a
    response, [decode_response] returns it and removes exactly its frame. *)
Theorem response_roundtrips r rest b e :
  response_ok r -> Buffer.buffer_ok b -> Buffer.readable_view b = response_frame r ++ rest ->
  wp Protocol.decode_response (b, e) (post
    (fun res s => res = complete r /\ Buffer.buffer_ok s.1 /\ Buffer.readable_view s.1 = rest)
    (fun x s => x = bad_alloc /\ s.1 = b)).
Proof.
  intros Hr Hb Hv. eapply wp_post_mono; [by apply decode_response_wp|..].
  - intros res s (-> & Hb' & _ & Hd). rewrite Hv, response_roundtrip in * by done.
    split_and!; [done|done|]. rewrite Hd. apply drop_app_length.
  - by intros x s (-> & -> & _).
Qed.

Definition sample_response : Protocol.Response := MkResponse 7 Protocol.ws_not_found [].

Lemma sample_response_ok : response_ok sample_response.
Proof. split_and!; [exists 1; split; [lia|reflexivity]|vm_compute; discriminate|simpl; lia|simpl; lia]. Qed.

Lemma response_roundtrips_witness :
  exists s, Protocol.decode_response (sample_buffer (response_frame sample_response ++ []), sample_env) =
      (Ret (complete sample_response), s).
Proof.
  pose proof (response_roundtrips sample_response [] (sample_buffer (response_frame sample_response ++ [])) sample_env
    sample_response_ok (sample_buffer_ok (response_frame sample_response ++ []) eq_refl) eq_refl) as H.
  witness_run H Protocol.decode_response (sample_buffer (response_frame sample_response ++ []), sample_env)
    (Ret (complete sample_response)).
  exists s'. reflexivity.
Defined.

(** ** Connections *)

Section connection_theorems.
Variable hash : bytes -> Z.

(** C4: [handle_readable] serves the stream: part of what arrived was received,
    and unless the connection is closing, the responses appended to the output are
    those of the requests in the bytes held before and received now, executed in
    order on the engine; what is left is an incomplete request, or a malformed
    header was answered with a protocol error and the connection will close. It
    never reaches undefined behaviour, and the engine stays well-formed even when
    an exception ends it. *)
Theorem connection_serves_stream cap c e k m ls :
  conn_ok c -> engine_holds hash cap e ls ->
  view_request (input_view c) = incomplete ->
  Connection.close_after_write_ c = false -> Connection.close_immediately_ c = false ->
  wp (Connection.handle_readable hash) (c, (e, (k, m))) (post
    (fun b (s : Connection.state) =>
       b = negb (Connection.close_immediately_ s.1) /\ (exists ls', engine_holds hash cap s.2.1 ls') /\
       exists stream, incoming k = stream ++ incoming s.2.2.1 /\
         (Connection.close_immediately_ s.1 = true \/
          exists rs rest bad, served hash e (input_view c ++ stream) s.2.1 rs rest bad /\
            input_view s.1 = rest /\ Connection.close_after_write_ s.1 = bad /\
            output_view s.1 = output_view c ++ concat (response_frame <$> rs)))
    (fun x (s : Connection.state) => io_exn x /\ conn_ok s.1 /\ exists ls', engine_holds hash cap s.2.1 ls')).
Proof.
  intros Hc He Hv F1 F2. eapply wp_post_mono; [by eapply (handle_readable_wp hash cap)|..].
  - intros b s [(_ & Hls & _ & _ & _ & _ & stream & Hst & H) ->]. split_and!; [done|done|].
    exists stream. split; [done|]. destruct H as [H|(_ & _ & rs & rest & bad & H1 & H2 & H3 & H4 & _)]; [by left|right].
    by exists rs, rest, bad.
  - intros x s (H1 & H2 & H3 & _). done.
Qed.

(** C26: the memory of a connection is bounded: whatever the peer sends, the input
    buffer never holds more than one frame and one read, and the output buffer
    never more than the output limit, also when an exception ends the call. *)
Theorem connection_buffers_bounded cap c e k m ls :
  conn_ok c -> engine_holds hash cap e ls ->
  view_request (input_view c) = incomplete ->
  Connection.close_after_write_ c = false -> Connection.close_immediately_ c = false ->
  wp (Connection.handle_readable hash) (c, (e, (k, m))) (fun o (s : Connection.state) =>
    o <> Undefined /\
    Buffer.readable_bytes (Connection.input_ s.1) <= Connection.max_input_buffer_size /\
    Connection.pending_output_bytes s.1 <= Connection.output_limit_ c).
Proof.
  intros Hc He Hv F1 F2. eapply wp_mono; [by eapply (handle_readable_wp hash cap)|].
  unfold Connection.pending_output_bytes.
  intros [b|x|] s; [intros [([] & _ & L & B & _) _]|intros (_ & [] & _ & L & B)|done];
    rewrite !Buffer.readable_bytes_view by done; unfold output_view in *; rewrite <- L; by split_and!.
Qed.

(** C25: how the stream is cut does not matter: two connections in the same state
    that receive the same bytes, in whatever pieces and with whatever interruptions
    between them, end with the same output, the same bytes left over, the same
    engine, and both or neither about to close. *)
Theorem connection_chunking_irrelevant cap c e ls k1 m1 s1 k2 m2 s2 :
  conn_ok c -> engine_holds hash cap e ls ->
  view_request (input_view c) = incomplete ->
  Connection.close_after_write_ c = false -> Connection.close_immediately_ c = false ->
  incoming k1 = incoming k2 ->
  Connection.handle_readable hash (c, (e, (k1, m1))) = (Ret true, s1) -> incoming s1.2.2.1 = [] ->
  Connection.handle_readable hash (c, (e, (k2, m2))) = (Ret true, s2) -> incoming s2.2.2.1 = [] ->
  output_view s1.1 = output_view s2.1 /\ input_view s1.1 = input_view s2.1 /\ s1.2.1 = s2.2.1 /\
  Connection.close_after_write_ s1.1 = Connection.close_after_write_ s2.1.
Proof.
  intros Hc He Hv F1 F2 Hk R1 I1 R2 I2.
  pose proof (handle_readable_wp hash cap c e k1 m1 ls Hc He Hv F1 F2) as H1.
  pose proof (handle_readable_wp hash cap c e k2 m2 ls Hc He Hv F1 F2) as H2.
  unfold wp in H1, H2. rewrite R1 in H1. rewrite R2 in H2. cbn [fst snd post] in H1, H2.
  destruct H1 as [(_ & _ & _ & _ & _ & _ & st1 & S1 & H1) B1], H2 as [(_ & _ & _ & _ & _ & _ & st2 & S2 & H2) B2].
  destruct H1 as [H1|(_ & _ & rs1 & rest1 & bad1 & V1 & W1 & O1 & C1 & _)]; [by rewrite H1 in B1|].
  destruct H2 as [H2|(_ & _ & rs2 & rest2 & bad2 & V2 & W2 & O2 & C2 & _)]; [by rewrite H2 in B2|].
  rewrite I1, app_nil_r in S1. rewrite I2, app_nil_r in S2. assert (st2 = st1) as -> by congruence.
  destruct (served_det hash _ _ _ _ _ _ V1 _ _ _ _ V2) as (-> & -> & -> & ->). split_and!; congruence.
Qed.

(** C27: [handle_writable] sends the queued output, in order. Of the answers [send]
    has ready it meets a first part, and what it sends is exactly as many of the
    queued bytes, from the first, as those answers have room for; the rest stays
    queued, so nothing is lost, repeated or reordered. It stops only when nothing
    is queued any more, when the socket would block (and then keeps the
    connection), or when [send] takes nothing or fails otherwise than by an
    interruption (and then closes it). With nothing queued it closes the connection
    exactly if that was to close after writing or its peer had closed. The input and the engine
    are untouched, and it throws nothing. The connection is well formed and not yet closed. *)
Theorem connection_writes_in_order c e k m :
  conn_ok c -> Connection.close_immediately_ c = false ->
  wp Connection.handle_writable (c, (e, (k, m))) (post
    (fun b (s : Connection.state) => s.2.1 = e /\ conn_ok s.1 /\
       Connection.input_ s.1 = Connection.input_ c /\
       b = negb (Connection.close_immediately_ s.1) /\
       exists used, Socket.departures k = used ++ Socket.departures s.2.2.1 /\
         Socket.sent s.2.2.1 = Socket.sent k ++ take (Z.to_nat (total_room used)) (output_view c) /\
         output_view s.1 = drop (Z.to_nat (total_room used)) (output_view c) /\
         ((output_view s.1 = [] /\ b = negb (Connection.close_after_write_ c || Connection.peer_closed_ c)) \/
          (output_view s.1 <> [] /\ b = true /\
             (Socket.departures s.2.2.1 = [] \/ exists d, last used = Some d /\ would_block d)) \/
          (output_view s.1 <> [] /\ b = false /\ exists d, last used = Some d /\ breaks d)))
    (fun _ _ => False)).
Proof.
  intros Hc F. eapply wp_post_mono; [by apply handle_writable_wp|..]; [|done].
  intros b s (-> & Hw & Hb & r & Hr & Hbr). pose proof Hw as (W1 & W2 & _). split_and!; [done|done|done|done|].
  destruct (wrote_rest _ _ _ _ _ Hw Hr) as (used & U1 & U2 & U3 & U4). exists used. split_and!; [done|done|done|].
  destruct r as [[]|]; simpl in U4; [right; left|right; right|left]; tauto.
Qed.

(** Over the wire, reads see writes: when the response to a SET is [ok], the
    response to a following GET of the key carries the value, unless the server
    ran out of memory answering it. *)
Theorem serve_read_your_write cap e ls k v ttl id1 id2 :
  engine_holds hash cap e ls ->
  request_ok (MkRequest Protocol.op_set id1 k v ttl) -> request_ok (MkRequest Protocol.op_get id2 k [] 0) ->
  let (r1, e1) := serve hash (MkRequest Protocol.op_set id1 k v ttl) e in
  let (r2, _) := serve hash (MkRequest Protocol.op_get id2 k [] 0) e1 in
  Protocol.r_request_id r1 = id1 /\ Protocol.r_request_id r2 = id2 /\
  (Protocol.status r1 = Protocol.ws_ok ->
   r2 = MkResponse id2 Protocol.ws_ok v \/ r2 = MkResponse id2 Protocol.ws_internal_error []).
Proof.
  intros He Hq1 Hq2. destruct (serve hash _ e) as [r1 e1] eqn:E1.
  destruct (serve hash _ e1) as [r2 e2] eqn:E2.
  pose proof Hq1 as (Hr & _ & Ht0). apply request_refusal_none in Hr as (_ & _ & _ & _ & Ht). simpl in Ht, Ht0.
  unfold serve, try_catch, Connection.dispatch in E1. cbn [Protocol.opcode Protocol.key Protocol.value Protocol.ttl_ms Protocol.request_id] in E1.
  assert (Connection.to_i64 ttl = ttl) as Htt by (unfold Connection.to_i64; by rewrite (proj2 (Z.leb_le _ _)) by lia).
  rewrite Htt in E1. pose proof (engine_set_wp hash cap e ls k v ttl He Ht) as Hset.
  unfold wp in Hset. unfold bind in E1.
  destruct (CacheEngine.set hash k v ttl e) as [[st|x|] e1'] eqn:Es; cbn [fst snd post ret] in *; [..|done].
  - injection E1 as <- <-. destruct Hset as (items & items' & sh & sh' & Hi & _ & _ & (Hs & _) & He1 & _).
    unfold serve, try_catch, Connection.dispatch, bind in E2. cbn [Protocol.opcode Protocol.key Protocol.request_id] in E2.
    pose proof (engine_get_wp hash cap e1' _ k [] He1) as Hget. unfold wp in Hget.
    destruct (CacheEngine.get hash k [] e1') as [[[st' v']|x|] e2'] eqn:Eg; cbn [fst snd post ret] in *; [..|done].
    + injection E2 as <- <-. cbn. split_and!; [done|done|]. intros Hst. left.
      assert (st = ok) as -> by (by destruct st).
      destruct Hget as (items1 & items2 & sh1 & sh2 & Hi1 & _ & _ & ((ov & Hg & Hv) & _) & _).
      rewrite length_insert, list_lookup_insert_eq in Hi1 by (by eapply lookup_lt_Some). injection Hi1 as <-.
      destruct (lru_set_get _ _ _ _ _ _ _ _ _ Hs Hg) as [-> ->]. subst v'. by rewrite decide_False by tauto.
    + injection E2 as <- <-. cbn. split_and!; [done|done|by right].
  - injection E1 as <- <-. cbn. split_and!; [done| |done].
    unfold serve in E2. destruct (try_catch _ _ e1') as [[a|y|] e2'']; injection E2 as <- <-; done.
Qed.

End connection_theorems.

(** ** Examples *)

(** A SET request that arrives in two pieces. *)
Definition sample_socket : Socket.t :=
  Socket.MkSocket
    [Socket.chunk Byte.x48 (take 9 (drop 1 (request_frame sample_request)));
     Socket.failed Socket.EINTR;
     Socket.chunk Byte.x00 (drop 11 (request_frame sample_request))]
    [Socket.room 5; Socket.refused Socket.EINTR; Socket.room 100] [].

Definition sample_state : Connection.state :=
  (sample_connection, (sample_engine, (sample_socket, sample_env))).

Lemma connection_serves_stream_witness :
  exists s, Connection.handle_readable sample_hash sample_state = (Ret true, s) /\
    exists rs rest bad, served sample_hash sample_engine (request_frame sample_request) s.2.1 rs rest bad /\
      output_view s.1 = concat (response_frame <$> rs).
Proof.
  pose proof (connection_serves_stream sample_hash 201 sample_connection sample_engine sample_socket sample_env
    [[]; []] sample_connection_ok sample_engine_holds eq_refl eq_refl eq_refl) as H.
  fold sample_state in H.
  witness_run H (Connection.handle_readable sample_hash) sample_state (Ret true).
  exists s'. split; [reflexivity|]. destruct H as (Hb & _ & stream & Hst & Hs).
  destruct (Connection.close_immediately_ s'.1); [discriminate Hb|].
  destruct Hs as [Hs|(rs & rest & bad & Hs & _ & _ & Ho)]; [discriminate Hs|].
  assert (incoming s'.2.2.1 = []) as Hin.
  { transitivity (incoming (Connection.handle_readable sample_hash sample_state).2.2.2.1); [by rewrite E|].
    vm_compute. reflexivity. }
  rewrite Hin, app_nil_r in Hst. exists rs, rest, bad. subst stream. split; [exact Hs|exact Ho].
Defined.

Lemma connection_buffers_bounded_witness :
  exists o s, Connection.handle_readable sample_hash sample_state = (o, s) /\
    Connection.pending_output_bytes s.1 <= 4096.
Proof.
  pose proof (connection_buffers_bounded sample_hash 201 sample_connection sample_engine sample_socket sample_env
    [[]; []] sample_connection_ok sample_engine_holds eq_refl eq_refl eq_refl) as H.
  fold sample_state in H. unfold wp in H.
  destruct (Connection.handle_readable sample_hash sample_state) as [o s].
  exists o, s. split; [reflexivity|]. exact (proj2 (proj2 H)).
Defined.

(** The same request in one piece. *)
Definition whole_socket : Socket.t :=
  Socket.MkSocket [Socket.chunk Byte.x48 (drop 1 (request_frame sample_request))] [] [].

Definition whole_state : Connection.state :=
  (sample_connection, (sample_engine, (whole_socket, sample_env))).

Lemma connection_chunking_irrelevant_witness :
  output_view (Connection.handle_readable sample_hash sample_state).2.1 =
  output_view (Connection.handle_readable sample_hash whole_state).2.1.
Proof.
  assert ((Connection.handle_readable sample_hash sample_state).1 = Ret true) as R1 by (vm_compute; reflexivity).
  assert ((Connection.handle_readable sample_hash whole_state).1 = Ret true) as R2 by (vm_compute; reflexivity).
  assert (incoming (Connection.handle_readable sample_hash sample_state).2.2.2.1 = []) as I1 by (vm_compute; reflexivity).
  assert (incoming (Connection.handle_readable sample_hash whole_state).2.2.2.1 = []) as I2 by (vm_compute; reflexivity).
  apply (connection_chunking_irrelevant sample_hash 201 sample_connection sample_engine [[]; []]
    sample_socket sample_env (Connection.handle_readable sample_hash sample_state).2
    whole_socket sample_env (Connection.handle_readable sample_hash whole_state).2
    sample_connection_ok sample_engine_holds eq_refl eq_refl eq_refl eq_refl).
  - fold sample_state. rewrite <- R1. apply surjective_pairing.
  - exact I1.
  - fold whole_state. rewrite <- R2. apply surjective_pairing.
  - exact I2.
Defined.

Lemma connection_writes_in_order_witness :
  let k := Socket.MkSocket [] [Socket.room 3; Socket.refused Socket.EINTR; Socket.room 100] [] in
  exists s, Connection.handle_writable
      (Connection.set_output (sample_buffer (lit "response")) sample_connection,
       (sample_engine, (k, sample_env))) = (Ret true, s) /\
    Socket.sent s.2.2.1 = lit "response" /\ output_view s.1 = [].
Proof.
  intros k. assert (conn_ok (Connection.set_output (sample_buffer (lit "response")) sample_connection)) as Hc.
  { pose proof sample_connection_ok as [C1 C2 C3 C4].
    constructor; [exact C1|exact (sample_buffer_ok (lit "response") eq_refl)|exact C3|vm_compute; discriminate]. }
  pose proof (connection_writes_in_order _ sample_engine k sample_env Hc eq_refl) as H.
  witness_run H Connection.handle_writable
    (Connection.set_output (sample_buffer (lit "response")) sample_connection,
       (sample_engine, (k, sample_env))) (Ret true).
  exists s'. split; [reflexivity|]. destruct H as (_ & _ & _ & _ & used & U1 & U2 & U3 & U4).
  assert (used = Socket.departures k) as ->.
  { assert (Socket.departures s'.2.2.1 = []) as Hd; [|by rewrite Hd, app_nil_r in U1].
    destruct used as [|d1 [|d2 [|d3 used]]]; simpl in U1.
    - exfalso. destruct U4 as [[U4 _]|[(_ & _ & [U4|(? & ? & _)])|(_ & [=] & _)]]; [|by rewrite U4 in U1|done].
      rewrite U3 in U4. vm_compute in U4. discriminate U4.
    - exfalso. injection U1 as <- U1. destruct U4 as [[U4 _]|[(_ & _ & [U4|(d & [= <-] & U4)])|(_ & [=] & _)]].
      + rewrite U3 in U4. vm_compute in U4. discriminate U4.
      + by rewrite U4 in U1.
      + by destruct U4.
    - exfalso. injection U1 as <- <- U1. destruct U4 as [[U4 _]|[(_ & _ & [U4|(d & [= <-] & U4)])|(_ & [=] & _)]].
      + rewrite U3 in U4. vm_compute in U4. discriminate U4.
      + by rewrite U4 in U1.
      + by destruct U4.
    - injection U1 as _ _ _ U1. by destruct used; simpl in U1. }
  split; [rewrite U2; vm_compute; reflexivity|rewrite U3; vm_compute; reflexivity].
Defined.

Lemma serve_read_your_write_witness :
  let (r1, e1) := serve sample_hash sample_request sample_engine in
  let (r2, _) := serve sample_hash (MkRequest Protocol.op_get 8 (lit "k") [] 0) e1 in
  Protocol.status r1 = Protocol.ws_ok ->
  r2 = MkResponse 8 Protocol.ws_ok (lit "v") \/ r2 = MkResponse 8 Protocol.ws_internal_error [].
Proof.
  assert (request_ok (MkRequest Protocol.op_get 8 (lit "k") [] 0)) as Hg
    by (split_and!; [reflexivity|simpl; lia|simpl; lia|simpl; lia]).
  pose proof (serve_read_your_write sample_hash 201 sample_engine [[]; []] (lit "k") (lit "v") 1000 7 8
    sample_engine_holds sample_request_ok Hg) as H.
  fold sample_request in H. destruct (serve sample_hash sample_request sample_engine) as [r1 e1].
  destruct (serve sample_hash _ e1) as [r2 e2]. destruct H as (_ & _ & H). exact H.
Defined.
