(* ===== verification/ClientTheorems.v ===== *)
(** * What the client guarantees

    The command line, the exchange, and the client against a connection of the
    server. *)
From S2P Require Import Prelude ErrorModel Effects MemoryModel BufferModel ProtocolModel ProtocolFacts ResponseFacts.
From S2P Require Import CacheEngineModel CacheEngineFacts ConnectionModel ConnectionFacts ConnectionIOFacts.
From S2P Require Import WorkerModel ServerModel TextModel ClientModel ClientFacts SampleStates.
Import Memory.
Import Client.

(** The client accepts exactly the command lines of its usage text and makes the
    request each stands for: GET and DELETE with a key, SET with a key, a value and
    an optional TTL that is an unsigned decimal number; every other one is refused
    with [std::invalid_argument]. *)
Theorem client_parses_exactly argv :
  (forall r, parse_request argv = Ret r <-> command_line argv r) /\
  ((forall r, ~ command_line argv r) -> exists w, parse_request argv = Throw (std_invalid_argument w)).
Proof.
  pose proof (parse_request_spec argv) as H. destruct (parse_request argv) as [r0|x|]; [..|done].
  - split; [|intros Hn; by destruct (Hn r0)]. intros r. split; [by intros [= <-]|]. intros Hr.
    f_equal. clear -H Hr. inversion H; subst; inversion Hr; subst; congruence.
  - destruct H as (Hn & Hx). split; [|intros _; destruct Hx as [->|[-> _]]; by eexists]. intros r. split; [done|]. intros Hr. by destruct (Hn r).
Qed.

Lemma client_parses_exactly_witness :
  exists w, parse_request [lit "client"; lit "127.0.0.1"; lit "1"; lit "flush"] = Throw (std_invalid_argument w).
Proof.
  apply (client_parses_exactly [lit "client"; lit "127.0.0.1"; lit "1"; lit "flush"]). intros r H. inversion H.
Defined.

(** C33: the client never leaks its socket and never dies of an exception: whatever the
    arguments and whatever the system calls do, [main] returns a status, and the
    descriptors open afterwards are those open before. Either it failed: the status is
    1, nothing is on standard output, and standard error has one line naming the reason,
    which is the true one (a port that is no number or out of range; a command that is
    none of the usage text; no socket, its timeouts, an address that is not IPv4, no
    connection; a request beyond the limits; a send that stopped short of the frame; a
    stream that ended or held no response; memory exhausted). Or the port was in range,
    the whole frame of the request on the command line was sent to the peer at the
    address given there, nothing is on standard error, and what is printed is the
    response at the head of what that peer sent: status 0 when it is [ok], 2 for the
    others. The kernel is assumed to give out descriptors that are not open. *)
Theorem client_main_correct inet_pton network argv o k m :
  next_free o ->
  wp (main inet_pton network argv) (o, (k, m)) (post
    (fun res s' => Os.opened s'.1 = Os.opened o /\
       (reported inet_pton network argv o s'.2.1 res \/ answered network argv s'.2.1 res))
    (fun _ _ => False)).
Proof. apply main_wp. Qed.

Section exchange.
Variable hash : bytes -> Z.

(** The conversation of one request. *)
Lemma served_one e q e' rs rest bad :
  request_ok q -> served hash e (Protocol.request_frame q) e' rs rest bad ->
  rs = [(serve hash q e).1] /\ e' = (serve hash q e).2 /\ rest = [] /\ bad = false.
Proof.
  intros Hq Hs. assert (served hash e (Protocol.request_frame q) (serve hash q e).2 [(serve hash q e).1] [] false) as H1.
  { eapply served_request; [rewrite <- (app_nil_r (Protocol.request_frame q)); by apply view_roundtrip|].
    rewrite drop_all. by apply served_rest. }
  by destruct (served_det hash _ _ _ _ _ _ H1 _ _ _ _ Hs) as (-> & -> & -> & ->).
Qed.

(** C23: client and server understand each other: when the frame of a valid request
    reaches an idle connection, however it is cut, then what the connection holds for
    the peer is one frame; and a client to which those bytes are delivered, again
    however they are cut, returns the very response the engine gave to that request,
    with its identifier. *)
Theorem client_server_agree cap c e k m ls q :
  conn_ok c -> input_view c = [] -> output_view c = [] ->
  Connection.close_after_write_ c = false -> Connection.close_immediately_ c = false ->
  engine_holds hash cap e ls -> request_ok q -> incoming k = Protocol.request_frame q ->
  wp (Connection.handle_readable hash) (c, (e, (k, m))) (post
    (fun b (s : Connection.state) => b = true -> incoming s.2.2.1 = [] ->
       output_view s.1 = Protocol.response_frame (serve hash q e).1 /\ s.2.1 = (serve hash q e).2 /\
       Protocol.r_request_id (serve hash q e).1 = Protocol.request_id q /\
       forall o ck cm, benign ck -> incoming ck = output_view s.1 ->
         wp read_response (o, (ck, cm)) (post (fun r _ => r = (serve hash q e).1) (fun x _ => io_exn x)))
    (fun x _ => io_exn x)).
Proof.
  intros Hc Hi Ho F1 F2 He Hq Hk. destruct (serve_ok hash cap e ls q He Hq) as (a & _ & Hserve & Hok & _).
  eapply wp_post_mono; [apply (handle_readable_wp hash cap c e k m ls Hc He); [by rewrite Hi|done|done]|..].
  - intros b s [(_ & _ & _ & _ & _ & _ & stream & Hst & H) ->] Hb Hin.
    destruct H as [H|(_ & _ & rs & rest & bad & V & _ & Hout & _)]; [by rewrite H in Hb|].
    rewrite Hin, app_nil_r, Hk in Hst. subst stream. rewrite Hi in V. simpl in V.
    destruct (served_one _ _ _ _ _ _ Hq V) as (-> & He' & _ & _). rewrite Ho in Hout. cbn in Hout. rewrite app_nil_r in Hout.
    split_and!; [done|done|by rewrite Hserve|]. intros o ck cm Hben Hck. rewrite Hout in Hck.
    eapply wp_post_mono; [apply (read_response_returns o ck cm (serve hash q e).1 []); [done|done|by rewrite app_nil_r]|..].
    + by intros r s' [? _].
    + by intros x s' [? _].
  - by intros x s (? & _).
Qed.
End exchange.

(** ** Instances *)

Definition get_request : Protocol.Request := Protocol.MkRequest Protocol.op_get 1 (lit "k") [] 0.
Definition get_line : list bytes := [lit "client"; lit "127.0.0.1"; lit "11211"; lit "get"; lit "k"].
Definition found : Protocol.Response := Protocol.MkResponse 1 Protocol.ws_ok (lit "v").

Lemma get_request_ok : request_ok get_request.
Proof. split_and!; [reflexivity|simpl; lia|simpl; lia|simpl; lia]. Qed.

(** The bytes of a list as one chunk, after an interruption. *)
Definition delivers (bs : bytes) : Socket.t :=
  Socket.MkSocket (Socket.failed Socket.EINTR :: match bs with [] => [] | b :: bs => [Socket.chunk b bs] end)
    [Socket.room 3; Socket.refused Socket.EINTR; Socket.room 100] [].

Definition client_os : Os.t := Os.MkOs {[0; 1; 2]} ∅ [Some 3] [] 0 None 0 [].

Lemma client_os_free : next_free client_os.
Proof. intros fd os [= <- <-]. unfold client_os. simpl. set_solver. Qed.

(** Only port 11211 answers. *)
Definition one_peer (host : bytes) (sin_port : Z) : Socket.t :=
  if sin_port =? Os.htons 11211 then delivers (Protocol.response_frame found) else delivers [].

Definition client_state : Client.state := (client_os, (delivers [], sample_env)).

Lemma client_main_correct_witness :
  exists s', main (fun _ => 1) one_peer get_line client_state = (Ret (MkResult 0 (lit "ok v" ++ [Byte.x0a]) []), s') /\
    Os.opened s'.1 = Os.opened client_os /\ answered one_peer get_line s'.2.1 (MkResult 0 (lit "ok v" ++ [Byte.x0a]) []).
Proof.
  pose proof (client_main_correct (fun _ => 1) one_peer get_line client_os (delivers []) sample_env client_os_free) as H.
  assert ((main (fun _ => 1) one_peer get_line client_state).1 = Ret (MkResult 0 (lit "ok v" ++ [Byte.x0a]) [])) as E
    by (vm_compute; reflexivity). unfold client_state in *.
  destruct (wp_run _ _ _ _ H) as [(res & s' & Heq & Ho & Hr)|(x & s' & _ & [])].
  exists s'. rewrite Heq in E. cbn [fst] in E. injection E as ->. split; [exact Heq|]. split; [exact Ho|].
  destruct Hr as [(x & _ & Hr)|Hr]; [discriminate Hr|exact Hr].
Defined.

Lemma client_server_agree_witness :
  exists s, Connection.handle_readable sample_hash
      (sample_connection, (sample_engine, (delivers (Protocol.request_frame get_request), sample_env))) = (Ret true, s) /\
    output_view s.1 = Protocol.response_frame (serve sample_hash get_request sample_engine).1.
Proof.
  assert (incoming (delivers (Protocol.request_frame get_request)) = Protocol.request_frame get_request) as Hin by (vm_compute; reflexivity).
  pose proof (client_server_agree sample_hash 201 sample_connection sample_engine (delivers (Protocol.request_frame get_request)) sample_env
    [[]; []] get_request sample_connection_ok eq_refl eq_refl eq_refl eq_refl sample_engine_holds get_request_ok Hin) as H.
  set (f := Connection.handle_readable sample_hash) in *.
  set (s0 := (sample_connection, (sample_engine, (delivers (Protocol.request_frame get_request), sample_env)))) in *.
  assert ((f s0).1 = Ret true) as E1 by (vm_compute; reflexivity).
  assert (incoming (f s0).2.2.2.1 = []) as E2 by (vm_compute; reflexivity).
  destruct (wp_run _ _ _ _ H) as [(b & s & Heq & Hs)|(x & s & Heq & _)]; rewrite Heq in E1, E2; cbn [fst snd] in E1, E2; [|discriminate E1].
  injection E1 as ->. exists s. split; [exact Heq|]. exact (proj1 (Hs eq_refl E2)).
Defined.

(** Run without arguments the client does not print its usage: the port, absent and
    taken to be 0, is checked first. *)
Theorem client_without_arguments inet_pton network program s :
  main inet_pton network [program] s =
  (Ret (MkResult 1 [] (lit "highcache_client: port must be between 1 and 65535" ++ [Byte.x0a])), s).
Proof. reflexivity. Qed.
