(* ===== verification/ConfigTheorems.v ===== *)
(** * What the configuration and the logger guarantee *)
From S2P Require Import Prelude ErrorModel Effects MemoryModel AllocatorModel ValueAllocatorModel.
From S2P Require Import CacheEngineModel CacheEngineFacts TextModel LoggerModel ConfigModel ConfigFacts SampleStates.
Import Memory.

(** ** Reading a configuration *)

(** C24: [from_stream] computes the meaning of the text: it returns a configuration
    exactly when every line is blank, a comment or a setting, no key occurs twice
    and every value is one its key accepts, and then each member is the value of
    its key, or the default. *)
Theorem config_meaning source_name text c :
  Config.from_stream source_name (Istream.MkIstream text false false) = Ret c <->
  well_formed (text_lines text) /\ c = config_of (settings (text_lines text)).
Proof.
  rewrite from_stream_lines.
  destruct (process_lines_cases source_name (text_lines text) 0 []) as [[Hok Hp]|(i & d & _ & Hok & Hbad & Hp)];
    [constructor|change (progress_of []) with Config.start in Hp; rewrite Hp; simpl..].
  - split; [by intros [= <-]|by intros [_ ->]].
  - split; [done|]. intros [Hw _]. exfalso. apply Hbad. by apply lines_ok_take.
Qed.

(** What is refused is reported where it is: on a text that reads to its end,
    the only exception is a parse error that names the source and the number of
    the first line at which the text stops being well-formed. *)
Theorem config_error_located source_name text x :
  Config.from_stream source_name (Istream.MkIstream text false false) = Throw x ->
  exists i d, x = Config.parse_error source_name (u64 (Z.of_nat i + 1)) d /\
    (i < length (text_lines text))%nat /\
    well_formed (take i (text_lines text)) /\ ~ well_formed (take (S i) (text_lines text)).
Proof.
  rewrite from_stream_lines. intros Hx.
  destruct (process_lines_cases source_name (text_lines text) 0 []) as [[Hok Hp]|(i & d & Hi & Hok & Hbad & Hp)];
    [constructor|change (progress_of []) with Config.start in Hp; rewrite Hp in Hx; simpl in Hx..]; [done|].
  injection Hx as <-. exists i, d. unfold line_at. split_and!; try done.
Qed.

(** Reading is total: every text, also one whose device fails, gives a
    configuration or a [HighCacheError]; the device's failure is reported unless a
    line before it was refused. *)
Theorem config_total source_name text broken :
  match Config.from_stream source_name (Istream.MkIstream text broken false) with
  | Ret _ => broken = false
  | Throw (highcache_error e) => code e = config_parse \/ code e = config_io /\ broken = true
  | _ => False
  end.
Proof.
  destruct broken; [apply broken_stream_total|].
  rewrite from_stream_lines.
  destruct (process_lines_cases source_name (text_lines text) 0 []) as [[Hok Hp]|(i & d & Hi & Hok & Hbad & Hp)];
    [constructor|change (progress_of []) with Config.start in Hp; rewrite Hp; simpl..]; [done|by left].
Qed.

(** White space does not matter: a line with a key and a value, white space
    anywhere around them and the first [=] between them, is the setting of that key
    to that value. *)
Theorem config_line_form source_name n p a k b c v d :
  blank a -> tight k -> blank b -> blank c -> tight v -> blank d ->
  (Byte.x3d ∉ k) -> head k <> Some Byte.x23 ->
  Config.process_line source_name n (a ++ k ++ b ++ Byte.x3d :: c ++ v ++ d) p =
    Config.apply_setting source_name n k v p.
Proof.
  intros Ha Hk Hb Hc Hv Hd Heq Hhash. rewrite process_line_classify.
  by rewrite (classify_setting a k b c v d).
Qed.

(** An accepted configuration can be run: the port is a port, the numbers of
    threads and shards are between 1 and 1024, the capacity is a positive 64-bit
    number, and the engine they ask for is built, unless memory runs out. *)
Theorem config_usable source_name text c hash schedule e :
  Config.from_stream source_name (Istream.MkIstream text false false) = Ret c ->
  0 <= Config.port c <= 65535 /\ 1 <= Config.worker_threads c <= 1024 /\
  1 <= Config.shard_count c <= 1024 /\ 1 <= Config.cache_capacity_bytes c <= u64_max /\
  wp (CacheEngine.create (Config.cache_capacity_bytes c) (Config.shard_count c)
        (Config.allocator_backend c) schedule) e (post
    (fun eng _ => engine_holds hash (Config.cache_capacity_bytes c) eng
       (replicate (Z.to_nat (Config.shard_count c)) []))
    (fun x _ => x = bad_alloc)).
Proof.
  intros Hc. rewrite from_stream_lines in Hc.
  destruct (process_lines_cases source_name (text_lines text) 0 []) as [[Hok Hp]|(i & d & Hi & Hok & Hbad & Hp)];
    [constructor|change (progress_of []) with Config.start in Hp; rewrite Hp in Hc; simpl in Hc..]; [|done].
  injection Hc as <-. destruct (config_of_ranges (settings (text_lines text))) as (H1 & H2 & H3 & H4).
  split_and!; try apply H1; try apply H2; try apply H3; try apply H4.
  unfold u64_max in H4. eapply wp_post_mono; [apply (create_engine_wp hash); unfold Config.cache_capacity_bytes, Config.shard_count; lia|..].
  - intros eng s (He & _ & _). exact He.
  - done.
Qed.

(** ** Logging *)

(** What the callers of a logger do. *)
Inductive log_call := Log (level : Logger.LogLevel) (message : bytes) | SetLevel (level : Logger.LogLevel).

Definition run_log (call : log_call) : M Logger.t unit :=
  match call with
  | Log level message => Logger.log level message
  | SetLevel level => Logger.set_minimum_level level
  end.

Fixpoint run_logs (calls : list log_call) : M Logger.t unit :=
  match calls with
  | [] => ret tt
  | call :: calls => run_log call ;; run_logs calls
  end.

(** The lines that should come out. *)
Fixpoint expected_log (minimum : Logger.LogLevel) (calls : list log_call) : bytes :=
  match calls with
  | [] => []
  | SetLevel level :: calls => expected_log level calls
  | Log level message :: calls =>
      (if Logger.level_value level <? Logger.level_value minimum then [] else Logger.log_line level message)
      ++ expected_log minimum calls
  end.

(** The log is complete and in order: after any calls it holds, after what was
    there, exactly the lines at or above the minimum level of the moment; the
    mutex is free again. *)
Theorem logger_writes_in_order s calls :
  Logger.mutex_ s = false ->
  exists s', run_logs calls s = (Ret tt, s') /\ Logger.mutex_ s' = false /\
    Logger.output_ s' = Logger.output_ s ++ expected_log (Logger.minimum_level_ s) calls.
Proof.
  revert s. induction calls as [|call calls IH]; intros s Hm; cbn [run_logs expected_log].
  { exists s. by rewrite app_nil_r. }
  destruct call as [level message|level]; unfold bind; cbn [run_log].
  - rewrite Logger.log_run by done. destruct (IH (Logger.MkLogger (Logger.output_ s ++
      if Logger.level_value level <? Logger.level_value (Logger.minimum_level_ s) then []
      else Logger.log_line level message) (Logger.minimum_level_ s) false) eq_refl) as (s' & -> & Hm' & Ho).
    exists s'. split_and!; [done|done|]. rewrite Ho. simpl. by rewrite <- app_assoc.
  - unfold Logger.set_minimum_level, Logger.with_lock. rewrite Hm. simpl.
    destruct (IH (Logger.MkLogger (Logger.output_ s) level false) eq_refl) as (s' & -> & Hm' & Ho). by exists s'.
Qed.

(** ** Examples *)

(** [port = 80], a comment, and [shard_count=2], on three lines. *)
Definition sample_text : bytes :=
  lit "port = 80" ++ [Istream.newline] ++ lit "# shards" ++ [Istream.newline] ++ lit "shard_count=2".

Definition bad_text : bytes := lit "port=80" ++ [Istream.newline] ++ lit "port=81".

Lemma config_error_located_witness :
  exists i d, Config.from_stream (lit "f") (Istream.MkIstream bad_text false false) =
      Throw (Config.parse_error (lit "f") (u64 (Z.of_nat i + 1)) d) /\
    well_formed (take i (text_lines bad_text)) /\ ~ well_formed (take (S i) (text_lines bad_text)).
Proof.
  destruct (Config.from_stream (lit "f") (Istream.MkIstream bad_text false false)) as [c|x|] eqn:E;
    [exfalso; revert E; vm_compute; discriminate| |exfalso; revert E; vm_compute; discriminate].
  destruct (config_error_located (lit "f") bad_text x E) as (i & d & -> & _ & H1 & H2).
  exists i, d. split; [reflexivity|]. split; [exact H1|exact H2].
Defined.

Lemma config_line_form_witness :
  Config.process_line (lit "f") 1 (lit " port = 80 ") Config.start =
    Config.apply_setting (lit "f") 1 (lit "port") (lit "80") Config.start.
Proof.
  assert (blank (lit " ")) as Hb by (repeat constructor).
  assert (tight (lit "port")) as Hk by (exists Byte.x70, Byte.x74; split_and!; [reflexivity|reflexivity|..]; apply (bool_decide_unpack _); vm_compute; exact I).
  assert (tight (lit "80")) as Hv by (exists Byte.x38, Byte.x30; split_and!; [reflexivity|reflexivity|..]; apply (bool_decide_unpack _); vm_compute; exact I).
  refine (config_line_form (lit "f") 1 Config.start (lit " ") (lit "port") (lit " ") (lit " ") (lit "80") (lit " ")
    Hb Hk Hb Hb Hv Hb _ _).
  - apply (bool_decide_unpack _). vm_compute. exact I.
  - vm_compute. discriminate.
Defined.

Lemma config_usable_witness :
  exists c, Config.from_stream (lit "f") (Istream.MkIstream sample_text false false) = Ret c /\
    1 <= Config.shard_count c <= 1024.
Proof.
  destruct (Config.from_stream (lit "f") (Istream.MkIstream sample_text false false)) as [c|x|] eqn:E;
    [|exfalso; revert E; vm_compute; discriminate..].
  exists c. split; [reflexivity|].
  exact (proj1 (proj2 (proj2 (config_usable (lit "f") sample_text c sample_hash (fun _ => []) sample_env E)))).
Defined.

Lemma logger_writes_in_order_witness :
  exists s', run_logs [Log Logger.debug (lit "a"); Log Logger.error (lit "b")] (Logger.create [] Logger.info) =
      (Ret tt, s') /\ Logger.output_ s' = lit "[ERROR] b" ++ [Byte.x0a].
Proof.
  destruct (logger_writes_in_order (Logger.create [] Logger.info)
    [Log Logger.debug (lit "a"); Log Logger.error (lit "b")] eq_refl) as (s' & H1 & _ & H2).
  exists s'. split; [exact H1|]. rewrite H2. reflexivity.
Defined.
